(* ===== verification/_CoqProject ===== *)
-Q . S2P
Prelude.v
JsText.v
JsNum.v
JsExact.v
JsUtf16.v
JsFloat.v
JsMap.v
Interact.v
Interleave.v
BridgeCore.v
ToyViem.v
LogScan.v
EvmPayout.v
EvmSafety.v
EvmClaims.v
EvmQueue.v
EvmDemo.v
ChainAdapters.v
ChainClaims.v
XrgePayout.v
DepositWatch.v
DepositSpec.v
DepositClaims.v
DepositLive.v
RelayerLoop.v
RelayerClaims.v
RelayerDemo.v
BtcPlan.v
BtcPayout.v
BtcSafety.v
BtcDemo.v
BtcProcess.v
BtcProcessClaims.v
Preflight.v
QueueStore.v
LosslessJson.v
JsValue.v
Finality.v
FinalityClaims.v
FinalityRun.v
FinalityDemo.v
Address.v
MessageSigning.v
MessageClaims.v
CanonicalJson.v
JsJson.v
BridgeInput.v
EvmCalldata.v
Inflight.v
BridgeFlows.v
FlowClaims.v
TokenAmounts.v
Amm.v
ChainBinding.v
TxSigner.v
TxIssued.v
TxSignerClaims.v
SignRequest.v
SignRequestClaims.v
WalletWorker.v
WorkerClaims.v
EvmWorker.v
EvmWorkerClaims.v
WalletKeys.v
ExtVault.v
VaultClaims.v
WalletStore.v
StoreClaims.v
Envelope.v
EnvelopeClaims.v
MessengerCrypto.v
MessageOpens.v
Messenger.v
Messages.v
MessengerClaims.v
ReceiveClaims.v
Delivery.v
MessengerDemo.v
Mail.v
MailClaims.v
