(* ===== verification/Prelude.v ===== *)
(** * RougeChain client side: a verification library

    RougeChain is a post-quantum layer-1 chain with bridges to Base (ETH, USDC, XRGE) and to
    Bitcoin.  The node is written in Rust; everything a user or an operator runs beside it is
    TypeScript: the bridge relayers, the client library [packages/core], the web sites, the
    wallet extension and a published SDK.  This library models the TypeScript code on which
    money and trust depend, translated definition by definition from [src/], and proves what
    makes it correct.

    ** The program and the files that model it

    _The language_ (shared by all components)
    - [Prelude]: results with exceptions ([res], [let?]), tactics, hint database, generic lemmas.
    - [JsText]: strings of the relayers (Latin-1 code units, all of the compared texts are ASCII),
      [BigInt], [parseInt], [trim], [toLowerCase].  [JsUtf16]: strings as UTF-16 code units, where
      surrogates and escapes matter (JSON, signed texts, user input).
    - [JsNum], [JsFloat], [JsExact]: numbers as IEEE binary64 ([spec_float]), conversion to and
      from decimal text, and when bigints survive the trip through a number.
    - [JsMap]: the insertion-ordered [Map] of JavaScript.  [JsValue]: plain values and objects with
      [JSON.stringify], and the canonical serialisation of payloads.  [JsJson]: [JSON.parse], and objects read back from their text.
    - [Interact]: handlers over injected dependencies, as finite trees of commands whose answers
      (values or exceptions) an arbitrary environment chooses, with explicit shared state; its
      program logic [wp], call bounds [calls] and the wiring [embed] of one interface into another.
    - [Interleave]: several handlers at once, as [setInterval] and [Promise.all] run them: a pool,
      its step relation, a rely-guarantee logic [rg] and an ownership logic [ow].

    _The Base bridge relayer_ ([scripts/bridge-relayer-core.ts], [scripts/bridge-relayer.ts])
    - [BridgeCore]: ids, routes, owed amounts, decoding and verification of release logs, timelock
      records, classification of a processed id, the refund gate, confirmation depths.
    - [LogScan]: the paged scan of contract logs with retries, and its users.
    - [EvmPayout], with the proofs in [EvmSafety], [EvmClaims], [EvmQueue]: the whole handler of
      qETH/qUSDC withdrawals, and the polling of withdrawals parked in the contract's timelock.
    - [ChainAdapters], with [ChainClaims]: the dependencies of that handler implemented over the
      RPC client (log scans, receipts, timelock reads), and the composition of both.
    - [XrgePayout]: the handler of XRGE withdrawals and its memory of unconfirmed payouts.
    - [DepositWatch], with [DepositSpec] (the abstract ledger), [DepositClaims], [DepositLive]: the
      watcher that credits deposits made on Base.
    - [RelayerLoop], with [RelayerClaims]: the process that runs these handlers concurrently: ids
      in flight, nonces, alerts, daemon adapters, health gate, observe-only mode.
    - [Preflight], [QueueStore]: the checks before the start, and the state file of the queue.
    - [ToyViem], [EvmDemo], [RelayerDemo]: concrete instances and runs.

    _The Bitcoin relayer_ ([scripts/btc-relayer-core.ts], [scripts/btc-bridge-relayer.ts])
    - [BtcPlan]: fee, input selection, adoption rule.  [BtcPayout], [BtcSafety], [BtcDemo]: the
      payout decision, over cycles, crashes and restarts.  [BtcProcess], [BtcProcessClaims]: the
      process around it: Esplora and daemon adapters, signing, state file, deposit sweeps, cycle.

    _The client library_ ([packages/core])
    - [LosslessJson], [Finality], with [FinalityClaims], [FinalityRun], [FinalityDemo]: the light
      client that decides whether a transaction is final.
    - [Address]: Bech32m addresses.  [MessageSigning], [MessageClaims]: signed
      messages and sign-in.  [TokenAmounts]: token decimals and typed amounts (with their users
      in [apps/site-next] and [apps/web]).
    - [CanonicalJson], [TxSigner], with [TxIssued], [TxSignerClaims]: the bytes that are signed, and
      the signer of every transaction type ([pqc-signer.ts], [token-minting.ts]).
    - [WalletKeys]: the wallet record and its messaging keys.  [WalletStore], with [StoreClaims]: the
      wallet store of the sites ([unified-wallet.ts]): session, encrypted vault, older documents.
    - _The messenger_ ([pqc-messenger.ts], [messenger-crypto-v2.ts], [messenger-envelope.ts]):
      [Envelope] with [EnvelopeClaims], the envelopes around a text, replies and reactions;
      [MessengerCrypto] with [MessageOpens], signed requests and the two package formats;
      [Messenger], stored items, directory, registration, conversations; [Messages], sending,
      receiving and listing; [MessengerClaims], sessions of all operations; [ReceiveClaims], what is
      shown as signed; [Delivery], sender and recipient together; [MessengerDemo], runs.
    - _Mail_ ([pqc-mail.ts]): [Mail], names, sending and folders over the world of the messenger;
      [MailClaims], what a folder shows, sender and reader together, and runs.

    _The apps_
    - _The bridge page_ ([apps/site-next/src/bridge]): [BridgeInput], validation of its form;
      [EvmCalldata], the ABI encodings it sends to the wallet; [BridgeFlows] with [FlowClaims],
      its deposits, claims and withdrawals; [Inflight], the deposits waiting for their credit.
    - [Amm]: pool arithmetic of the swap pages.
    - _The wallet extension_ ([apps/extension/src]): [ChainBinding], the network binding of its
      signatures; [SignRequest] with [SignRequestClaims], what a site may ask to sign and what the
      user is shown; [WalletWorker] with [WorkerClaims], the background handler for RougeChain
      sites; [EvmWorker] with [EvmWorkerClaims], the one for Base, and runs of both;
      [ExtVault] with [VaultClaims], its vault of wallets and storage areas.

    ** How code becomes definitions

    A synchronous function is a Rocq function with the name it has in the source; a [throw] is
    [Err].  An asynchronous function whose effects are injected ([deps], [fetch], a client) is a
    [prog]: every effect is a command, the environment may answer it with any value or exception,
    and a mutable object that handlers share (the queue, the watcher, the sets of ids) is the
    explicit state of the program.  Where handlers overlap, the theorems quantify over all
    schedules of [Interleave].  Where a process can crash, the theorems quantify over the crash
    point.  A [let] that is awaited is an answer of the environment; what runs between two awaits
    is one atomic step, as in the event loop.

    Code outside the repository is a parameter: the classes [Viem] (decoding, hashing, address
    checks of viem), [Crypto] (SHA-256, ML-DSA-65), [Platform] (URL and date parsers), [Unicode],
    [MathSqrt], [BtcLib] (Bitcoin addresses, keys and signing), [EvmLib] (HD keys, EIP-191, EIP-1559),
    [KeyDerivation] (ML-KEM key generation), [MessageCrypto] with its laws [MessageLaws] (ML-KEM
    decapsulation, HKDF, AES-GCM, UTF-8 decoding), [VaultCrypto] (PBKDF2, AES-GCM) and [Dates] carry the
    operations and only the documented laws the code relies on; each has a concrete instance among the demonstrations, and theorems with hypotheses have a witness.

    Omitted everywhere: log lines and statistics counters; message texts of errors where only the
    failed rule matters; of an alert its key is kept.

    _Fuel._  Programs and structural functions need none.  A loop bounded by its input uses that
    bound: block ranges the number of blocks, retries their limit, releases [maxRetries].
    [parseJsonLossless] uses the length of the text, and [parse_total] proves that it never runs
    out.  The correction loops of [isqrt] run up to [2^k] iterations with [2^k] above their
    measure ([loop_stops], [enough_bound]) and are proved exact.  The number of polls in [watcher_catches_up] is a stated bound.

    ** What the theorems show

    - _No wrong or second payout_: a receipt is accepted exactly when it proves the payout (C1); a
      release has the owed amount and recipient (C5), is never
      made for a parked withdrawal (C10); refunds, fulfillments and failure reports need their
      evidence (C2, C7, C14); in the process no two handlers await one release (C24).  For
      Bitcoin: value is conserved (C15), a payout is never signed differently (C20), every action has its evidence (C22), and the process sends only what is
      owed or a sweep into custody (C25).
    - _Nothing lost_: the scan is complete or fails (C4); the deposit watcher refines its ledger (C9)
      and catches up (C34); a payout on the chain is
      found again and reported, whatever the relayer forgot (C23).
    - _Nothing behind the user's back_: what the extension signs or sends for a site was approved
      on a screen that showed it (C3, C13); observe-only mode of the relayer (C8).
    - _Signatures_: the signed bytes are the payload, all of it and nothing else (C17), a signature
      is for one transaction (C16).
    - _Keys_: the extension's vault follows a plain list of wallets (C12) and keeps decrypted keys off
      the disk (C18); the site writes no key to disk (C26), and what it locks comes back (C36).
    - _Trustless reading_: JSON is always read (C28); certificates (C30, C31), blocks (C32) and
      the final answer (C33) are sound.
    - _Messages_: what is sent arrives, readable for its recipients and no one else in the group (C11);
      what is shown as validly signed was signed by the sender shown (C6); every message is shown once
      with its reactions (C27); registrations never silently replace a foreign key (C19); a changed
      key is reported (C35); the stored items stay well formed (C21).  A mail with its attachment
      arrives as it was written (C29), and a folder shows as signed only what was signed (C38).
    - _Texts and amounts_: sign-in (C37), pool deposits without profit (C39).
    - _The bridge page_: a deposit reaches the wallet only on the right chain, after its approval,
      with calldata that says what the user meant, and never untracked (C40).
    - Unnumbered beside them: one accepted release per run ([evm_release_at_most_once]), no deposit
      skipped ([no_deposit_skipped]), Bitcoin plans without shared outputs ([btc_plans_disjoint]), a
      contradicted network stays blocked ([mismatch_is_sticky]), signed transactions verify
      ([signed_transaction_verifies]), addresses ([address_roundtrip]), envelopes
      ([envelope_roundtrip]), paging without gap or overlap ([blockRanges_partition]), the queue of
      parked withdrawals ([poll_removes_only_fulfilled], [poll_writes_justified],
      [atomicWriteFile_crash_safe], [queue_store_roundtrip]), deposit claims
      ([deposit_claims_justified]), the adoption of the relayer's own Bitcoin payouts
      ([planned_payout_settles]), typed amounts ([token_amount_roundtrip]), address checksums
      ([checksum_detects_bursts]), the pairing of credits ([matchCredits_exact]), calldata after the
      ABI specification ([deposit_calldata_decodes]), tracked deposits ([deposit_stays_tracked]),
      sign-in acceptance ([verifySignIn_exact]), displayed messages ([display_hides_nothing]), the
      approval window ([window_true]), messaging keys ([migrate_spec]), lossless JSON
      ([lossless_roundtrip]), prepared sign requests ([prepared_faithful]).

    Lemmas and runs beside them record behaviour that differs from what comments promise:
    [shutdown_skips_deposits], [torn_file_forgets], [seed_race], [index_keys_reordered],
    [other_prefix_accepted], [refund_overtakes_pending_release], [broadcast_after_failed_save],
    [receipt_error_parks], [garbage_tip_fulfills], [removed_site_returns], [switch_blocks_network],
    [override_in_preview], [deleted_wallet_returns], [reimport_selects_first],
    [other_key_overwritten], [kept_key_overwritten], [index_keys_unsorted], [repeated_pass_drops],
    [forged_reaction_shown], [same_name_is_me], [unknown_sender_own_key], [cleared_flag_still_signed].

    ** Not modelled

    The Rust node and the contracts (another language; the clients see them through the modelled
    dependencies), React user interface and HTTP glue, the reading of environment
    variables, timers and signal handlers of the relayers, display formatting through
    [toLocaleString] and floating-point price displays, the notification poll of the extension,
    media compression, the demo bot and the avatar lookup of the messenger, cryptography itself.
    Still worth adding: the replay of liquidity earnings. *)
From Stdlib Require Export ZArith Lia Ascii String.
From stdpp Require Export base numbers strings gmap list.

(** ** Results: a value, or a thrown JavaScript exception with its message *)

Inductive res (A : Type) : Type :=
| Ok (a : A)
| Err (msg : string).
Arguments Ok {A} a.
Arguments Err {A} msg.

#[export] Instance res_eq_dec `{EqDecision A} : EqDecision (res A).
Proof. solve_decision. Defined.

Definition is_ok {A} (r : res A) : bool :=
  match r with Ok _ => true | Err _ => false end.

Definition res_bind {A B} (r : res A) (f : A -> res B) : res B :=
  match r with Ok a => f a | Err e => Err e end.

Declare Scope js_scope.
Delimit Scope js_scope with js.

(** [let? x := r in k]: run [k] on the value, propagate the exception. *)
Notation "'let?' x ':=' r 'in' k" := (res_bind r (fun x => k))
  (at level 10, x pattern, r at level 100, k at level 200) : js_scope.

(** ** Tactics shared by the component proofs *)

(** Split every conjunction and existential of the context. *)
Ltac break :=
  repeat match goal with
    | H : _ /\ _ |- _ => destruct H
    | H : exists _, _ |- _ => destruct H
    | H : Some _ = Some _ |- _ => injection H as H
    | H : Ok _ = Ok _ |- _ => injection H as H
    | H : Some _ = None |- _ => discriminate H
    | H : None = Some _ |- _ => discriminate H
    | H : Ok _ = Err _ |- _ => discriminate H
    | H : Err _ = Ok _ |- _ => discriminate H
    end.

(** Case analysis on the scrutinee of a [match] or [if] of the goal. *)
Ltac case_goal :=
  match goal with
  | |- context [match ?x with _ => _ end] => destruct x eqn:?
  end.

(** Turn boolean tests of the context into the propositions they decide. *)
Create Rewrite HintDb refl_bool.
#[export] Hint Rewrite andb_true_iff andb_false_iff orb_true_iff orb_false_iff
  negb_true_iff negb_false_iff Z.leb_le Z.leb_gt Z.ltb_lt Z.ltb_ge Z.eqb_eq Z.eqb_neq
  Z.geb_le Z.gtb_ltb Nat.eqb_eq Nat.eqb_neq Nat.leb_le Nat.leb_gt Nat.ltb_lt Nat.ltb_ge
  String.eqb_eq String.eqb_neq : refl_bool.
Ltac breflect := autorewrite with refl_bool in *.

(** ** Lists *)

(** JavaScript's [Array.prototype.find]. *)
Definition find {A} (p : A -> bool) (l : list A) : option A := List.find p l.

Lemma find_Some_iff {A} (p : A -> bool) (l : list A) x :
  find p l = Some x -> x ∈ l /\ p x = true.
Proof. intros H. apply List.find_some in H. by rewrite list_elem_of_In. Qed.

Lemma find_is_Some {A} (p : A -> bool) (l : list A) x :
  x ∈ l -> p x = true -> exists y, find p l = Some y.
Proof.
  intros Hin Hp. destruct (find p l) eqn:E; [eauto|].
  unfold find in E. apply list_elem_of_In in Hin.
  pose proof (List.find_none _ _ E _ Hin). congruence.
Qed.

(** Sums of integers over a list. *)
Definition zsum (l : list Z) : Z := foldr Z.add 0%Z l.

Lemma zsum_app l k : zsum (l ++ k) = (zsum l + zsum k)%Z.
Proof. induction l; simpl; lia. Qed.

Lemma zsum_nonneg l : Forall (fun z => (0 <= z)%Z) l -> (0 <= zsum l)%Z.
Proof. induction 1; simpl; lia. Qed.

Lemma zsum_perm l k : Permutation l k -> zsum l = zsum k.
Proof. induction 1; simpl; lia. Qed.

Lemma Forall_elem {A} (P : A -> Prop) (l : list A) : Forall P l <-> forall x, x ∈ l -> P x.
Proof. rewrite List.Forall_forall. by setoid_rewrite list_elem_of_In. Qed.
