(* ===== verification/JsText.v ===== *)
(** * JavaScript strings, as far as the program uses them

    A string is a sequence of 8-bit code units read as Latin-1.  Every string the modelled
    components compare (addresses, hex, decimal numbers, transaction ids, asset symbols) is
    ASCII; [toLowerCase] and [trim] are exact on all of Latin-1. *)
From Stdlib Require Import DecimalString DecimalZ DecimalFacts.
From S2P Require Import Prelude.
Local Open Scope Z_scope.

(** ** Case and white space *)

Definition code (c : ascii) : Z := Z.of_nat (nat_of_ascii c).

Definition lower_char (c : ascii) : ascii :=
  let n := code c in
  if ((65 <=? n) && (n <=? 90)) || ((192 <=? n) && (n <=? 222) && negb (n =? 215))
  then ascii_of_nat (Z.to_nat (n + 32)) else c.

(** [String.prototype.toLowerCase] on Latin-1. *)
Fixpoint toLowerCase (s : string) : string :=
  match s with
  | EmptyString => EmptyString
  | String c r => String (lower_char c) (toLowerCase r)
  end.

(** White space and line terminators of ECMAScript below U+0100. *)
Definition is_ws (c : ascii) : bool :=
  let n := code c in
  ((9 <=? n) && (n <=? 13)) || (n =? 32) || (n =? 160).

Fixpoint drop_ws (l : list ascii) : list ascii :=
  match l with
  | [] => []
  | c :: r => if is_ws c then drop_ws r else l
  end.

(** [String.prototype.trim]. *)
Definition trim (s : string) : string :=
  string_of_list_ascii (rev (drop_ws (rev (drop_ws (list_ascii_of_string s))))).

Lemma lower_char_idemp c : lower_char (lower_char c) = lower_char c.
Proof. destruct c as [[] [] [] [] [] [] [] []]; reflexivity. Qed.

Lemma toLowerCase_idemp s : toLowerCase (toLowerCase s) = toLowerCase s.
Proof. induction s; simpl; [done|]. by rewrite lower_char_idemp, IHs. Qed.

Lemma toLowerCase_empty s : toLowerCase s = EmptyString <-> s = EmptyString.
Proof. destruct s; split; by intros. Qed.

(** A JavaScript string is truthy when it is not empty. *)
Definition truthy (s : string) : bool := negb (s =? "")%string.

Lemma truthy_true s : truthy s = true <-> s <> "".
Proof. unfold truthy. rewrite negb_true_iff. apply String.eqb_neq. Qed.

(** [a || b] on strings. *)
Definition str_or (a b : string) : string := if truthy a then a else b.

(** [x ?? d] and [x || d] on an optional string. *)
Definition opt_str (x : option string) : string := default "" x.

(** ** Decimal numerals: [BigInt.prototype.toString] and [BigInt(string)] *)

Definition dec (z : Z) : string := NilZero.string_of_int (Z.to_int z).

(** Digits of a base given by [dig], most significant first; [None] on a bad digit. *)
Fixpoint digits_value (base : Z) (dig : ascii -> option Z) (acc : Z) (s : string) : option Z :=
  match s with
  | EmptyString => Some acc
  | String c r =>
      match dig c with
      | Some d => digits_value base dig (acc * base + d) r
      | None => None
      end
  end.

Definition hex_digit (c : ascii) : option Z :=
  let n := code c in
  if (48 <=? n) && (n <=? 57) then Some (n - 48)
  else if (97 <=? n) && (n <=? 102) then Some (n - 87)
  else if (65 <=? n) && (n <=? 70) then Some (n - 55)
  else None.

Definition digit_below (b : Z) (c : ascii) : option Z :=
  match hex_digit c with
  | Some d => if d <? b then Some d else None
  | None => None
  end.

Definition prefixed (base : Z) (s : string) : option Z :=
  match s with
  | EmptyString => None
  | _ => digits_value base (digit_below base) 0 s
  end.

Definition uint_value (s : string) : option Z :=
  Z.of_uint <$> NilZero.uint_of_string s.

(** [BigInt(s)]: [None] is the SyntaxError it throws. *)
Definition BigInt_of_string (s : string) : option Z :=
  match trim s with
  | EmptyString => Some 0
  | String c1 r1 as t =>
      if (c1 =? "-")%char then Z.opp <$> uint_value r1
      else if (c1 =? "+")%char then uint_value r1
      else match r1 with
           | String c2 r2 =>
               if (c1 =? "0")%char && ((c2 =? "x")%char || (c2 =? "X")%char) then prefixed 16 r2
               else if (c1 =? "0")%char && ((c2 =? "o")%char || (c2 =? "O")%char) then prefixed 8 r2
               else if (c1 =? "0")%char && ((c2 =? "b")%char || (c2 =? "B")%char) then prefixed 2 r2
               else uint_value t
           | EmptyString => uint_value t
           end
  end.

(** ** [BigInt(n.toString()) = n] *)

Definition is_digit (c : ascii) : bool := (48 <=? code c) && (code c <=? 57).

Definition chars (s : string) : list ascii := list_ascii_of_string s.

Lemma chars_inj s t : chars s = chars t -> s = t.
Proof.
  intros H. rewrite <- (string_of_list_ascii_of_string s), <- (string_of_list_ascii_of_string t).
  by f_equal.
Qed.

Lemma drop_ws_id l : Forall (fun c => is_ws c = false) l -> drop_ws l = l.
Proof. destruct 1 as [|c l Hc _]; simpl; [done|]. by rewrite Hc. Qed.

(** [trim] leaves a string without white space alone. *)
Lemma trim_id s : Forall (fun c => is_ws c = false) (chars s) -> trim s = s.
Proof.
  intros H. unfold trim. fold (chars s).
  rewrite (drop_ws_id (chars s)) by done.
  rewrite drop_ws_id by by apply Forall_rev.
  rewrite rev_involutive. apply string_of_list_ascii_of_string.
Qed.

Lemma digit_not_ws c : is_digit c = true -> is_ws c = false.
Proof. unfold is_digit, is_ws. intros. lia. Qed.

Lemma string_of_uint_digits u : Forall (fun c => is_digit c = true) (chars (NilEmpty.string_of_uint u)).
Proof. induction u; simpl; constructor; (done || reflexivity). Qed.

Lemma nilzero_digits u :
  Forall (fun c => is_digit c = true) (chars (NilZero.string_of_uint u)).
Proof. destruct u; [by repeat constructor|..]; apply (string_of_uint_digits (_ _)). Qed.

Lemma nilzero_nonempty u : NilZero.string_of_uint u <> "".
Proof. by destruct u. Qed.

Lemma digit_neq c d : is_digit c = true -> is_digit d = false -> (c =? d)%char = false.
Proof. intros Hc Hd. apply Ascii.eqb_neq. by intros ->; rewrite Hc in Hd. Qed.

(** A non-empty string of decimal digits is read as its value. *)
Lemma BigInt_of_digits s :
  s <> "" -> Forall (fun c => is_digit c = true) (chars s) -> BigInt_of_string s = uint_value s.
Proof.
  intros Hne Hd. unfold BigInt_of_string.
  rewrite trim_id by (eapply List.Forall_impl; [apply digit_not_ws|exact Hd]).
  destruct s as [|c1 [|c2 r]]; [done|..]; inversion Hd as [|? ? H1 H2]; subst;
    rewrite !(digit_neq c1) by done; [done|].
  inversion H2; subst. rewrite !(digit_neq c2) by done. by rewrite !andb_false_r.
Qed.

Lemma BigInt_of_neg s :
  s <> "" -> Forall (fun c => is_digit c = true) (chars s) ->
  BigInt_of_string (String "-" s) = Z.opp <$> uint_value s.
Proof.
  intros Hne Hd. unfold BigInt_of_string.
  rewrite trim_id; [done|]. constructor; [done|].
  eapply List.Forall_impl; [apply digit_not_ws|exact Hd].
Qed.

Lemma dec_cases z :
  match Z.to_int z with
  | Decimal.Pos u => dec z = NilZero.string_of_uint u /\ z = Z.of_uint u
  | Decimal.Neg u => dec z = String "-" (NilZero.string_of_uint u) /\ z = - Z.of_uint u
  end.
Proof.
  unfold dec. pose proof (DecimalZ.of_to z) as E.
  destruct (Z.to_int z); simpl in *; by rewrite E.
Qed.

Lemma uint_value_nilzero u : uint_value (NilZero.string_of_uint u) = Some (Z.of_uint u).
Proof.
  unfold uint_value. destruct u; [done|..]; by rewrite NilZero.usu.
Qed.

Lemma BigInt_dec z : BigInt_of_string (dec z) = Some z.
Proof.
  pose proof (dec_cases z). destruct (Z.to_int z) as [u|u]; break;
    match goal with H : dec z = _ |- _ => rewrite H end.
  - rewrite BigInt_of_digits by auto using nilzero_nonempty, nilzero_digits.
    rewrite uint_value_nilzero. congruence.
  - rewrite BigInt_of_neg by auto using nilzero_nonempty, nilzero_digits.
    rewrite uint_value_nilzero. simpl. congruence.
Qed.

Lemma dec_inj a b : dec a = dec b -> a = b.
Proof. intros H. apply (f_equal BigInt_of_string) in H. rewrite !BigInt_dec in H. congruence. Qed.

Lemma dec_nonempty z : dec z <> "".
Proof.
  pose proof (dec_cases z). destruct (Z.to_int z) as [u|u]; break;
    match goal with H : dec z = _ |- _ => rewrite H end; [apply nilzero_nonempty|done].
Qed.

#[export] Hint Resolve dec_nonempty : core.

(** ** [parseInt(s, 10)] *)

(** The longest prefix of decimal digits and its value; [None] when there is no digit. *)
Fixpoint digit_prefix (acc : option Z) (l : list ascii) : option Z :=
  match l with
  | [] => acc
  | c :: r =>
      if is_digit c
      then digit_prefix (Some (default 0 acc * 10 + (code c - 48))) r
      else acc
  end.

(** [parseInt(s, 10)]; [None] is NaN. *)
Definition parseInt10 (s : string) : option Z :=
  match drop_ws (chars s) with
  | c :: r =>
      if (c =? "-")%char then Z.opp <$> digit_prefix None r
      else if (c =? "+")%char then digit_prefix None r
      else digit_prefix None (c :: r)
  | [] => None
  end.

Example parseInt10_ex :
  (parseInt10 "12", parseInt10 " 7x", parseInt10 "abc", parseInt10 "-3") =
  (Some 12, Some 7, None, Some (-3)).
Proof. reflexivity. Qed.

Example BigInt_ex :
  (BigInt_of_string " 0x1f ", BigInt_of_string "", BigInt_of_string "1e3", BigInt_of_string "-42") =
  (Some 31, Some 0, None, Some (-42)).
Proof. reflexivity. Qed.
