(* ===== verification/JsNum.v ===== *)
(** * JavaScript numbers: IEEE 754 binary64

    A [number] is Corelib's [spec_float] with the binary64 parameters; multiplication and
    division are the correctly rounded ones.  Only the operations the program applies to
    money-carrying numbers are defined. *)
From Stdlib Require Import SpecFloat.
From S2P Require Import Prelude.
Local Open Scope Z_scope.

Definition number := spec_float.

Definition prec : Z := 53.
Definition emax : Z := 1024.

(** The double nearest to an integer ([Number(bigint)], ties to even). *)
Definition num_of_Z (z : Z) : number := binary_normalize prec emax z 0 false.

Definition num_mul : number -> number -> number := SFmul prec emax.
Definition num_div : number -> number -> number := SFdiv prec emax.
Definition num_ltb : number -> number -> bool := SFltb.

Definition isFinite (x : number) : bool :=
  match x with S754_zero _ | S754_finite _ _ _ => true | _ => false end.

(** The value of an integral double; [None] for fractions, infinities and NaN. *)
Definition num_int (x : number) : option Z :=
  match x with
  | S754_zero _ => Some 0
  | S754_finite s m e =>
      let mag :=
        if 0 <=? e then Some (Zpos m * 2 ^ e)
        else if Zpos m mod 2 ^ (- e) =? 0 then Some (Zpos m / 2 ^ (- e)) else None in
      (fun z => if s then - z else z) <$> mag
  | _ => None
  end.

(** [BigInt(number)]: [None] is the RangeError thrown on a non-integer. *)
Definition BigInt_of_number (x : number) : option Z := num_int x.

Definition MAX_SAFE_INTEGER : Z := 2 ^ 53 - 1.

Definition isSafeInteger (x : number) : bool :=
  match num_int x with
  | Some z => Z.abs z <=? MAX_SAFE_INTEGER
  | None => false
  end.

(** A number is falsy when it is 0, -0 or NaN. *)
Definition num_truthy (x : number) : bool :=
  match x with S754_zero _ | S754_nan => false | _ => true end.

(** [x <= 0]: false on NaN. *)
Definition num_nonpos (x : number) : bool :=
  match x with
  | S754_zero _ => true
  | S754_infinity s | S754_finite s _ _ => s
  | S754_nan => false
  end.

(** Floor of the exact value of a finite double scaled by [k] (used by the rounding functions). *)
Definition exact_floor (s : bool) (m : positive) (e : Z) (num add : Z) : Z :=
  let v := if s then Zneg m else Zpos m in
  if 0 <=? e then (v * 2 ^ e * num + add) / num
  else (v * num + add * 2 ^ (- e)) / (2 ^ (- e) * num).

(** [Math.floor], [Math.ceil] and [Math.round] (ties towards +oo) as exact integers. *)
Definition floor_Z (s : bool) (m : positive) (e : Z) : Z := exact_floor s m e 1 0.
Definition ceil_Z (s : bool) (m : positive) (e : Z) : Z :=
  - floor_Z (negb s) m e.
Definition round_Z (s : bool) (m : positive) (e : Z) : Z := exact_floor s m e 2 1.

Definition Math_ceil (x : number) : number :=
  match x with
  | S754_finite s m e => num_of_Z (ceil_Z s m e)
  | _ => x
  end.

Definition Math_round (x : number) : number :=
  match x with
  | S754_finite s m e => num_of_Z (round_Z s m e)
  | _ => x
  end.

(** The validity test [Number.isSafeInteger(x) && x > 0] yields an exact positive integer. *)
Lemma safe_positive x : isSafeInteger x = true -> num_nonpos x = false ->
  exists z, BigInt_of_number x = Some z /\ 0 < z <= MAX_SAFE_INTEGER.
Proof.
  unfold isSafeInteger, BigInt_of_number. intros Hs Hp.
  destruct (num_int x) as [z|] eqn:Ez; [|done]. apply Z.leb_le in Hs.
  exists z. split; [done|]. enough (0 < z) by lia.
  destruct x as [| | |[] m e]; try discriminate. unfold num_int in Ez. simpl in Ez.
  destruct (0 <=? e) eqn:Ee; [injection Ez as <-|].
  - apply Z.leb_le in Ee. apply Z.mul_pos_pos; [lia|by apply Z.pow_pos_nonneg].
  - destruct (_ =? 0) eqn:Em; [injection Ez as <-|done].
    apply Z.leb_gt in Ee. apply Z.eqb_eq in Em.
    assert (0 < 2 ^ (- e)) by (apply Z.pow_pos_nonneg; lia).
    pose proof (Z.div_mod (Zpos m) (2 ^ (- e)) ltac:(lia)). nia.
Qed.
