(* ===== verification/JsExact.v ===== *)
(** * Exactness of integers as doubles

    [Number(b)] of a bigint [b] is exact up to 2^53 and finite up to 2^1000; [Math.floor] of an
    integral double is the double itself.  Shared by the components that cross between bigints
    and numbers. *)
From Stdlib Require Import SpecFloat.
From S2P Require Import Prelude JsNum.
Local Open Scope Z_scope.

(** ** Digits *)

Lemma digits_bounds m : 2 ^ (Zpos (digits2_pos m) - 1) <= Zpos m < 2 ^ Zpos (digits2_pos m).
Proof.
  induction m as [m IH|m IH|]; simpl digits2_pos; [| |done].
  all: rewrite Pos2Z.inj_succ; replace (Z.succ (Zpos (digits2_pos m)) - 1) with (Z.succ (Zpos (digits2_pos m) - 1)) by lia.
  all: rewrite !Z.pow_succ_r by lia; lia.
Qed.

Lemma digits_le m k : 0 <= k -> Zpos m < 2 ^ k -> Zpos (digits2_pos m) <= k.
Proof.
  intros Hk Hm. destruct (Z.le_gt_cases (Zpos (digits2_pos m)) k) as [?|Hgt]; [done|].
  pose proof (digits_bounds m) as [Hl _]. pose proof (Z.pow_le_mono_r 2 k (Zpos (digits2_pos m) - 1) ltac:(lia) ltac:(lia)). lia.
Qed.

Lemma digits_unique m k : 0 <= k -> 2 ^ (k - 1) <= Zpos m < 2 ^ k -> Zpos (digits2_pos m) = k.
Proof.
  intros Hk Hm. pose proof (digits_le m k Hk ltac:(lia)). pose proof (digits_bounds m) as [_ Hu].
  destruct (Z.eq_dec (Zpos (digits2_pos m)) k) as [?|Hne]; [done|].
  pose proof (Z.pow_le_mono_r 2 (Zpos (digits2_pos m)) (k - 1) ltac:(lia) ltac:(lia)). lia.
Qed.

Lemma iter_xO m d : Zpos (Pos.iter xO m d) = Zpos m * 2 ^ Zpos d.
Proof.
  revert m. induction d as [|d IH] using Pos.peano_ind; intros m; [simpl; lia|].
  rewrite Pos.iter_succ, Pos2Z.inj_succ, Z.pow_succ_r by lia. rewrite Pos2Z.inj_xO, IH. lia.
Qed.

(** ** Shifting right *)

Lemma shr_1_m r : 0 <= shr_m r -> shr_m (shr_1 r) = shr_m r / 2.
Proof.
  destruct r as [[|[p|p|]|p] b s]; simpl; intros H; try lia; try done.
  - rewrite Pos2Z.inj_xI. replace (2 * Zpos p + 1) with (1 + Zpos p * 2) by lia. rewrite Z.div_add by lia. done.
  - rewrite Pos2Z.inj_xO, Z.mul_comm, Z.div_mul by lia. done.
Qed.

Lemma iter_shr_m p r : 0 <= shr_m r -> shr_m (SpecFloat.iter_pos shr_1 p r) = shr_m r / 2 ^ Zpos p.
Proof.
  assert (forall p r, 0 <= shr_m r -> 0 <= shr_m r / 2 ^ Zpos p) as Hpos by (intros; by apply Z.div_pos; [|apply Z.pow_pos_nonneg]).
  revert r. induction p as [p IH|p IH|]; intros r Hr; cbn [SpecFloat.iter_pos].
  - assert (0 <= shr_m (shr_1 r)) as H1 by (rewrite shr_1_m by done; by apply Z.div_pos).
    rewrite IH; rewrite IH by done; [|by auto]. rewrite shr_1_m by done. rewrite !Z.div_div by (try lia; by apply Z.pow_pos_nonneg).
    f_equal. rewrite Pos2Z.inj_xI. replace (2 * Zpos p + 1) with (Zpos p + Zpos p + 1) by lia. rewrite !Z.pow_add_r by lia. lia.
  - rewrite IH; rewrite IH by done; [|by auto]. rewrite Z.div_div by (try lia; by apply Z.pow_pos_nonneg).
    f_equal. replace (Zpos p~0) with (Zpos p + Zpos p) by lia. rewrite Z.pow_add_r by lia. lia.
  - by rewrite shr_1_m.
Qed.

Abbreviation fe := (fexp prec emax).

Lemma fexp_val k : -1021 <= k -> fe k = k - 53.
Proof. unfold fexp, emin, prec, emax. lia. Qed.

(** A mantissa of at most 53 digits at its own exponent is not shifted. *)
Lemma shr_fexp_same m e : fe (Zdigits2 m + e) <= e -> shr_fexp prec emax m e loc_Exact = (Build_shr_record m false false, e).
Proof. intros H. unfold shr_fexp, shr. destruct (fe (Zdigits2 m + e) - e) eqn:E; [done|lia|done]. Qed.

(** ** Exact integers *)

Lemma num_of_pos_exact m : Zpos m < 2 ^ 53 ->
  num_of_Z (Zpos m) =
    (let d := 53 - Zpos (digits2_pos m) in
     S754_finite false (match d with Zpos k => Pos.iter xO m k | _ => m end) (- d)).
Proof.
  intros Hm. pose proof (digits_le m 53 ltac:(lia) Hm) as Hd. pose proof (digits_bounds m) as Hb.
  unfold num_of_Z, binary_normalize, binary_round. rewrite Z.add_0_r, fexp_val by lia. unfold shl_align.
  set (D := Zpos (digits2_pos m)) in *.
  assert (exists mz, (match D - 53 - 0 with Zneg d => (Pos.iter xO m d, D - 53) | _ => (m, 0) end) = (mz, D - 53) /\
    Zpos mz = Zpos m * 2 ^ (53 - D) /\ mz = match 53 - D with Zpos k => Pos.iter xO m k | _ => m end) as (mz & -> & Hz & Hmz).
  { destruct (Z.eq_dec D 53) as [E|Hne].
    - rewrite E. exists m. simpl. repeat split. lia.
    - destruct (53 - D) as [|k|k] eqn:E; [lia| |lia]. replace (D - 53 - 0) with (Zneg k) by lia.
      exists (Pos.iter xO m k). repeat split. apply iter_xO. }
  assert (Zdigits2 (Zpos mz) = 53) as Hdz.
  { simpl. apply digits_unique; [lia|]. rewrite Hz. replace (2 ^ 53) with (2 ^ D * 2 ^ (53 - D)) by (rewrite <- Z.pow_add_r by lia; f_equal; lia).
    replace (2 ^ (53 - 1)) with (2 ^ (D - 1) * 2 ^ (53 - D)) by (rewrite <- Z.pow_add_r by lia; f_equal; lia).
    pose proof (Z.pow_pos_nonneg 2 (53 - D) ltac:(lia) ltac:(lia)). nia. }
  assert (shr_fexp prec emax (Zpos mz) (D - 53) loc_Exact = (Build_shr_record (Zpos mz) false false, D - 53)) as Hs.
  { apply shr_fexp_same. rewrite Hdz, fexp_val; lia. }
  unfold binary_round_aux. rewrite Hs. simpl shr_m. simpl loc_of_shr_record. simpl round_nearest_even. rewrite Hs. simpl shr_m. cbv iota beta zeta.
  replace (D - 53 <=? emax - prec) with true by (symmetry; apply Z.leb_le; unfold emax, prec; lia).
  rewrite Hmz. f_equal. lia.
Qed.

Lemma num_int_of_pos m : Zpos m <= 2 ^ 53 -> num_int (num_of_Z (Zpos m)) = Some (Zpos m).
Proof.
  intros Hm. destruct (Z.eq_dec (Zpos m) (2 ^ 53)) as [->|Hne]; [by vm_compute|].
  rewrite num_of_pos_exact by lia. pose proof (digits_le m 53 ltac:(lia) ltac:(lia)) as Hd.
  cbv zeta. set (d := 53 - Zpos (digits2_pos m)). destruct d as [|k|k] eqn:E; [|  |lia].
  - simpl. f_equal. lia.
  - unfold num_int. simpl Z.opp. cbv iota.
    change (0 <=? Zneg k) with false. cbv iota. rewrite Z.opp_involutive || change (- Zneg k) with (Zpos k).
    rewrite iter_xO, Z.mod_mul, Z.div_mul by (apply Z.pow_nonzero; lia). done.
Qed.

Lemma num_int_of_Z z : Z.abs z <= 2 ^ 53 -> num_int (num_of_Z z) = Some z.
Proof.
  intros Hz. destruct z as [|m|m]; [done|by apply num_int_of_pos|].
  pose proof (num_int_of_pos m ltac:(lia)) as H.
  assert (num_of_Z (Zneg m) = SFopp (num_of_Z (Zpos m))) as ->.
  { unfold num_of_Z, binary_normalize, binary_round, binary_round_aux.
    destruct (shl_align _ _ _) as [mz ez]. destruct (shr_fexp _ _ _ _ _) as [r e]. destruct (shr_fexp _ _ _ e _) as [r' e'].
    destruct (shr_m r'); [done|by destruct (_ <=? _)|done]. }
  destruct (num_of_Z (Zpos m)) as [s|s| |s m' e']; try done; simpl in *.
  destruct (if 0 <=? e' then _ else _) as [v|]; [|done]. simpl in *. injection H as H. f_equal. destruct s; simpl; lia.
Qed.

(** ** Finite doubles *)

Lemma num_of_pos_finite m : Zpos m < 2 ^ 1000 -> exists m' e', num_of_Z (Zpos m) = S754_finite false m' e'.
Proof.
  intros Hm. destruct (Z.lt_ge_cases (Zpos m) (2 ^ 53)) as [Hs|Hs].
  { rewrite num_of_pos_exact by done. cbv zeta. by eexists _, _. }
  pose proof (digits_le m 1000 ltac:(lia) Hm) as Hd. pose proof (digits_bounds m) as Hb.
  set (D := Zpos (digits2_pos m)) in *.
  assert (54 <= D) as HD.
  { destruct (Z.le_gt_cases 54 D) as [?|Hlt]; [done|]. pose proof (Z.pow_le_mono_r 2 D 53 ltac:(lia) ltac:(lia)). lia. }
  unfold num_of_Z, binary_normalize, binary_round. fold D. rewrite Z.add_0_r, fexp_val by lia.
  assert (shl_align m 0 (D - 53) = (m, 0)) as -> by (unfold shl_align; destruct (D - 53 - 0) eqn:E; [done|done|lia]).
  unfold binary_round_aux.
  assert (exists r, shr_fexp prec emax (Zpos m) 0 loc_Exact = (r, D - 53) /\ shr_m r = Zpos m / 2 ^ (D - 53)) as (r & -> & Hr).
  { unfold shr_fexp. change (Zdigits2 (Zpos m)) with D. rewrite Z.add_0_r, fexp_val, Z.sub_0_r by lia. unfold shr.
    destruct (D - 53) as [|k|k] eqn:E; [lia| |lia]. eexists. split; [rewrite Z.add_0_l; reflexivity|].
    rewrite iter_shr_m by done. done. }
  cbv beta iota zeta.
  assert (2 ^ 52 <= shr_m r < 2 ^ 53) as Hrm.
  { rewrite Hr. split; [apply Z.div_le_lower_bound|apply Z.div_lt_upper_bound]; try (by apply Z.pow_pos_nonneg; lia).
    - rewrite <- Z.pow_add_r by lia. replace (D - 53 + 52) with (D - 1) by lia. lia.
    - rewrite <- Z.pow_add_r by lia. replace (D - 53 + 53) with D by lia. lia. }
  set (q := round_nearest_even _ _).
  assert (2 ^ 52 <= q <= 2 ^ 53) as Hq.
  { subst q. unfold round_nearest_even. destruct (loc_of_shr_record r) as [|[]]; try lia. destruct (Z.even _); lia. }
  destruct q as [|q|q]; [lia| |lia].
  assert (exists r' e', shr_fexp prec emax (Zpos q) (D - 53) loc_Exact = (r', e') /\ e' <= D - 52 /\ 0 < shr_m r') as (r' & e' & -> & He & Hr').
  { destruct (Z.eq_dec (Zpos q) (2 ^ 53)) as [Eq|Hne].
    - rewrite Eq. unfold shr_fexp. change (Zdigits2 (2 ^ 53)) with 54. rewrite fexp_val by lia.
      replace (54 + (D - 53) - 53 - (D - 53)) with 1 by lia. unfold shr. eexists _, _. split; [reflexivity|]. split; [lia|]. done.
    - rewrite shr_fexp_same; [eexists _, _; split; [reflexivity|]; split; [lia|done]|].
      replace (Zdigits2 (Zpos q)) with 53; [rewrite fexp_val; lia|]. symmetry. apply digits_unique; lia. }
  cbv beta iota zeta. destruct (shr_m r') as [|m'|m']; [lia| |lia].
  replace (e' <=? emax - prec) with true by (symmetry; apply Z.leb_le; unfold emax, prec; lia). eauto.
Qed.

(** ** [Math.floor] *)

Definition Math_floor (x : number) : number :=
  match x with
  | S754_finite s m e => num_of_Z (floor_Z s m e)
  | _ => x
  end.

(** [BigInt(Math.floor(x))]: the floor of a double is a double, so the bigint is the exact floor;
    infinities and NaN throw. *)
Definition floor_int (x : number) : option Z :=
  match x with
  | S754_finite s m e => Some (floor_Z s m e)
  | S754_zero _ => Some 0
  | _ => None
  end.

Lemma floor_Z_int s m e z : num_int (S754_finite s m e) = Some z -> floor_Z s m e = z.
Proof.
  unfold num_int, floor_Z, exact_floor. destruct (Z.leb_spec 0 e) as [He|He]; simpl.
  - intros [= <-]. rewrite Z.div_1_r. destruct s; lia.
  - destruct (Z.eqb_spec (Zpos m mod 2 ^ (- e)) 0) as [Hm|]; simpl; [|done]. intros [= <-].
    assert (0 < 2 ^ (- e)) as Hp by (apply Z.pow_pos_nonneg; lia).
    pose proof (Z.div_mod (Zpos m) (2 ^ (- e)) ltac:(lia)) as Hdm. rewrite Hm, Z.add_0_r in Hdm. rewrite !Z.mul_1_r, Z.add_0_r.
    destruct s.
    + change (Zneg m) with (- Zpos m). rewrite Hdm at 1. rewrite <- Z.mul_opp_r, Z.mul_comm, Z.div_mul by lia. done.
    + done.
Qed.

(** An integer is its own floor. *)
Lemma floor_int_exact x z : num_int x = Some z -> floor_int x = Some z.
Proof.
  destruct x as [s|s| |s m e]; intros H; try done. cbn [floor_int]. by rewrite (floor_Z_int _ _ _ _ H).
Qed.

Lemma floor_int_nonneg m e : exists z, floor_int (S754_finite false m e) = Some z /\ 0 <= z.
Proof.
  eexists. split; [reflexivity|]. unfold floor_Z, exact_floor. destruct (Z.leb_spec 0 e) as [He|He].
  - pose proof (Z.pow_pos_nonneg 2 e ltac:(lia) He). rewrite Z.div_1_r. lia.
  - apply Z.div_pos; [lia|]. pose proof (Z.pow_pos_nonneg 2 (- e) ltac:(lia) ltac:(lia)). lia.
Qed.

(** [x > 0] for an integral number. *)
Lemma positive_int x z : num_int x = Some z -> 0 < z -> num_ltb (num_of_Z 0) x = true.
Proof.
  intros Hx Hz. destruct x as [s|s| |s m e]; try done; [injection Hx as <-; lia|]. destruct s; [|done].
  exfalso. unfold num_int in Hx. destruct (Z.leb_spec 0 e) as [He|He]; simpl in Hx.
  - injection Hx as <-. pose proof (Z.pow_pos_nonneg 2 e ltac:(lia) He). nia.
  - destruct (_ =? 0); simpl in Hx; [|done]. injection Hx as <-.
    pose proof (Z.div_pos (Zpos m) (2 ^ (- e)) ltac:(lia) ltac:(apply Z.pow_pos_nonneg; lia)). lia.
Qed.
