(* ===== verification/JsUtf16.v ===== *)
(** * JavaScript strings as UTF-16 code units

    A string is a list of code units (0 to 0xffff).  [JSON.stringify] and [JSON.parse] of a
    string, [TextEncoder], [Array.from] (code points) and decimal texts, as the finality verifier
    uses them. *)
From Stdlib Require Import DecimalString.
From S2P Require Import Prelude JsText.
Local Open Scope Z_scope.

Abbreviation units := (list Z).

(** An ASCII literal. *)
Definition u (s : string) : units := map code (chars s).

Definition is_unit (c : Z) : Prop := 0 <= c < 65536.

Definition is_lead (c : Z) : bool := (0xd800 <=? c) && (c <=? 0xdbff).
Definition is_trail (c : Z) : bool := (0xdc00 <=? c) && (c <=? 0xdfff).

Definition units_eqb (a b : units) : bool := bool_decide (a = b).

Lemma units_eqb_true a b : units_eqb a b = true <-> a = b.
Proof. unfold units_eqb. apply bool_decide_eq_true. Qed.

(** ** Hexadecimal digits *)

Definition hexd (n : Z) : Z := if n <? 10 then 48 + n else 87 + n.

Definition hexv (c : Z) : option Z :=
  if (48 <=? c) && (c <=? 57) then Some (c - 48)
  else if (97 <=? c) && (c <=? 102) then Some (c - 87)
  else if (65 <=? c) && (c <=? 70) then Some (c - 55)
  else None.

Lemma hexv_hexd n : 0 <= n < 16 -> hexv (hexd n) = Some n.
Proof.
  intros Hn. unfold hexd, hexv. destruct (n <? 10) eqn:E; breflect.
  - rewrite (proj2 (Z.leb_le 48 _)), (proj2 (Z.leb_le _ 57)) by lia. simpl. f_equal. lia.
  - rewrite (proj2 (Z.leb_gt _ 57)) by lia. rewrite andb_false_r.
    rewrite (proj2 (Z.leb_le 97 _)), (proj2 (Z.leb_le _ 102)) by lia. simpl. f_equal. lia.
Qed.

(** [\uXXXX] in lower case. *)
Definition esc4 (c : Z) : units :=
  [92; 117; hexd (c / 4096); hexd (c / 256 mod 16); hexd (c / 16 mod 16); hexd (c mod 16)].

Definition hex4 (a b c d : Z) : option Z :=
  match hexv a, hexv b, hexv c, hexv d with
  | Some x, Some y, Some z, Some t => Some (x * 4096 + y * 256 + z * 16 + t)
  | _, _, _, _ => None
  end.

Lemma hex4_esc c : is_unit c ->
  hex4 (hexd (c / 4096)) (hexd (c / 256 mod 16)) (hexd (c / 16 mod 16)) (hexd (c mod 16)) = Some c.
Proof.
  intros [H0 H1]. unfold hex4. rewrite !hexv_hexd;
    try (apply Z.mod_pos_bound; lia); [|split; [apply Z.div_pos; lia|apply Z.div_lt_upper_bound; lia]].
  f_equal.
  pose proof (Z.div_mod c 16 ltac:(lia)). pose proof (Z.div_mod (c / 16) 16 ltac:(lia)).
  pose proof (Z.div_mod (c / 256) 16 ltac:(lia)).
  replace (c / 4096) with (c / 256 / 16) by (rewrite Z.div_div by lia; done).
  assert (c / 256 = c / 16 / 16) as E by (rewrite Z.div_div by lia; done). rewrite E in *. lia.
Qed.

(** ** [JSON.stringify] and [JSON.parse] on strings *)

(** One code unit that is not a surrogate. *)
Definition quote1 (c : Z) : units :=
  if c =? 8 then [92; 98] else if c =? 9 then [92; 116] else if c =? 10 then [92; 110]
  else if c =? 12 then [92; 102] else if c =? 13 then [92; 114] else if c =? 34 then [92; 34]
  else if c =? 92 then [92; 92] else if c <? 32 then esc4 c else [c].

(** The body of the literal; lone surrogates are escaped. *)
Fixpoint quote_body (l : units) : units :=
  match l with
  | [] => []
  | c :: r =>
      if is_lead c then
        match r with
        | t :: r' => if is_trail t then c :: t :: quote_body r' else esc4 c ++ quote_body r
        | [] => esc4 c
        end
      else if is_trail c then esc4 c ++ quote_body r
      else quote1 c ++ quote_body r
  end.

Definition json_quote (l : units) : units := 34 :: quote_body l ++ [34].

Definition simple_escape (e : Z) : option Z :=
  if e =? 34 then Some 34 else if e =? 92 then Some 92 else if e =? 47 then Some 47
  else if e =? 98 then Some 8 else if e =? 102 then Some 12 else if e =? 110 then Some 10
  else if e =? 114 then Some 13 else if e =? 116 then Some 9 else None.

(** [JSON.parse] of the literal with body [l]; [None] is a SyntaxError. *)
Fixpoint unescape (l : units) : option units :=
  match l with
  | [] => Some []
  | c :: r =>
      if c =? 92 then
        match r with
        | e :: r1 =>
            if e =? 117 then
              match r1 with
              | a :: b :: x :: y :: r2 =>
                  match hex4 a b x y with
                  | Some v => cons v <$> unescape r2
                  | None => None
                  end
              | _ => None
              end
            else match simple_escape e with Some v => cons v <$> unescape r1 | None => None end
        | [] => None
        end
      else if (c <? 32) || (c =? 34) then None
      else cons c <$> unescape r
  end.

(** The scan for the closing quote: the body of the literal and the rest of the text. *)
Fixpoint scan_str (l : units) : res (units * units) :=
  match l with
  | [] => Err "unterminated string"
  | c :: r =>
      if c =? 34 then Ok ([], r)
      else if c =? 92 then
        match r with
        | e :: r1 => res_bind (scan_str r1) (fun p => Ok (c :: e :: fst p, snd p))
        | [] => Err "unterminated string"
        end
      else if c <? 32 then Err "control character in string"
      else res_bind (scan_str r) (fun p => Ok (c :: fst p, snd p))
  end.

(** Induction with two elements at once. *)
Lemma units_ind2 (P : units -> Prop) :
  P [] -> (forall c, P [c]) -> (forall c t r, P (t :: r) -> P r -> P (c :: t :: r)) -> forall l, P l.
Proof.
  intros H0 H1 H2 l. enough (P l /\ forall c, P (c :: l)) by tauto.
  induction l as [|t r [IH1 IH2]]; split; auto.
Qed.

(** A quoted fragment that the unescaper and the scanner both pass. *)
Definition passes (q : units) (c : units) : Prop :=
  (forall rest, unescape (q ++ rest) = app c <$> unescape rest) /\
  (forall rest, scan_str (q ++ rest) = res_bind (scan_str rest) (fun p => Ok (q ++ fst p, snd p))).

Lemma passes_app q1 c1 q2 c2 : passes q1 c1 -> passes q2 c2 -> passes (q1 ++ q2) (c1 ++ c2).
Proof.
  intros [U1 S1] [U2 S2]. split; intros rest; rewrite <- app_assoc.
  - rewrite U1, U2. destruct (unescape rest); simpl; [|done]. by rewrite app_assoc.
  - rewrite S1, S2. destruct (scan_str rest); simpl; [|done]. by rewrite app_assoc.
Qed.

Lemma passes_plain c : c <> 92 -> c <> 34 -> 32 <= c -> passes [c] [c].
Proof.
  intros H1 H2 H3. split; intros rest; simpl.
  - rewrite (proj2 (Z.eqb_neq c 92)), (proj2 (Z.ltb_ge c 32)), (proj2 (Z.eqb_neq c 34)) by done. done.
  - rewrite (proj2 (Z.eqb_neq c 34)), (proj2 (Z.eqb_neq c 92)), (proj2 (Z.ltb_ge c 32)) by done. done.
Qed.

Lemma hexd_plain n : 0 <= n < 16 -> hexd n <> 92 /\ hexd n <> 34 /\ 32 <= hexd n.
Proof. unfold hexd. destruct (n <? 10) eqn:E; breflect; lia. Qed.

Lemma hexd_plain_at n : 0 <= n < 16 -> passes [hexd n] [hexd n].
Proof. intros H. destruct (hexd_plain n H) as (? & ? & ?). by apply passes_plain. Qed.

Lemma scan_escape e rest :
  scan_str (92 :: e :: rest) = res_bind (scan_str rest) (fun p => Ok (92 :: e :: fst p, snd p)).
Proof. reflexivity. Qed.

Lemma passes_esc4 c : is_unit c -> passes (esc4 c) [c].
Proof.
  intros Hc. split; intros rest.
  - unfold esc4. simpl. rewrite hex4_esc by done. done.
  - destruct Hc as [H0 H1].
    pose proof (proj2 (passes_app _ _ _ _ (hexd_plain_at (c / 4096) ltac:(split; [apply Z.div_pos; lia|apply Z.div_lt_upper_bound; lia]))
      (passes_app _ _ _ _ (hexd_plain_at (c / 256 mod 16) ltac:(apply Z.mod_pos_bound; lia))
      (passes_app _ _ _ _ (hexd_plain_at (c / 16 mod 16) ltac:(apply Z.mod_pos_bound; lia))
         (hexd_plain_at (c mod 16) ltac:(apply Z.mod_pos_bound; lia))))) rest) as H.
    unfold esc4. cbn [app] in *. rewrite scan_escape, H. by destruct (scan_str rest).
Qed.

Lemma passes_simple e v : simple_escape e = Some v -> e <> 117 -> passes [92; e] [v].
Proof.
  intros He Hu. split; intros rest; [|reflexivity]. cbn [app unescape].
  change (92 =? 92) with true. cbv iota. by rewrite (proj2 (Z.eqb_neq e 117)), He.
Qed.

Lemma passes_quote1 c : is_unit c -> passes (quote1 c) [c].
Proof.
  intros Hc. unfold quote1.
  repeat match goal with |- passes (if ?x =? ?y then _ else _) _ =>
    destruct (Z.eqb_spec x y); [subst; by apply passes_simple|] end.
  destruct (c <? 32) eqn:E; [by apply passes_esc4|]. breflect. by apply passes_plain.
Qed.

Lemma passes_nil : passes [] [].
Proof. split; intros rest; simpl; [by destruct (unescape rest)|by destruct (scan_str rest) as [[]|]]. Qed.

Lemma surrogate_plain c : is_lead c = true \/ is_trail c = true -> passes [c] [c].
Proof. unfold is_lead, is_trail. intros H. breflect. apply passes_plain; lia. Qed.

Lemma quote_body_cons2 c t r :
  quote_body (c :: t :: r) =
    if is_lead c then if is_trail t then c :: t :: quote_body r else esc4 c ++ quote_body (t :: r)
    else if is_trail c then esc4 c ++ quote_body (t :: r) else quote1 c ++ quote_body (t :: r).
Proof. reflexivity. Qed.

Lemma passes_body l : Forall is_unit l -> passes (quote_body l) l.
Proof.
  induction l as [|c|c t r IH1 IH2] using units_ind2; intros Hl; [apply passes_nil| |];
    apply Forall_cons in Hl as [Hc Hl]; [cbn [quote_body]|rewrite quote_body_cons2].
  - destruct (is_lead c); [by apply passes_esc4|]. destruct (is_trail c);
      rewrite app_nil_r; [by apply passes_esc4|by apply passes_quote1].
  - destruct (is_lead c) eqn:Ec.
    + destruct (is_trail t) eqn:Et.
      * apply (passes_app [c] [c]); [apply surrogate_plain; by left|].
        apply (passes_app [t] [t]); [apply surrogate_plain; by right|].
        apply IH2. by apply Forall_cons in Hl as [_ ?].
      * apply (passes_app _ [c]); [by apply passes_esc4|by apply IH1].
    + destruct (is_trail c); (apply (passes_app _ [c]); [|by apply IH1]);
        [by apply passes_esc4|by apply passes_quote1].
Qed.

(** A quoted string is scanned up to its closing quote and parses back. *)
Lemma unescape_quote l : Forall is_unit l -> unescape (quote_body l) = Some l.
Proof.
  intros Hl. pose proof (proj1 (passes_body l Hl) []) as H. rewrite app_nil_r in H. rewrite H. simpl.
  by rewrite app_nil_r.
Qed.

Lemma scan_quote l rest : Forall is_unit l -> scan_str (quote_body l ++ 34 :: rest) = Ok (quote_body l, rest).
Proof. intros Hl. rewrite (proj2 (passes_body l Hl)). simpl. by rewrite app_nil_r. Qed.

(** ** Code points and UTF-8 *)

(** [Array.from(s)]: code points; a lone surrogate is its own element. *)
Fixpoint code_points (l : units) : list Z :=
  match l with
  | [] => []
  | c :: r =>
      if is_lead c then
        match r with
        | t :: r' => if is_trail t then (c - 0xd800) * 1024 + (t - 0xdc00) + 0x10000 :: code_points r'
                     else c :: code_points r
        | [] => [c]
        end
      else c :: code_points r
  end.

Definition utf8_point (p : Z) : list Z :=
  if p <? 0x80 then [p]
  else if p <? 0x800 then [0xc0 + p / 64; 0x80 + p mod 64]
  else if p <? 0x10000 then [0xe0 + p / 4096; 0x80 + p / 64 mod 64; 0x80 + p mod 64]
  else [0xf0 + p / 262144; 0x80 + p / 4096 mod 64; 0x80 + p / 64 mod 64; 0x80 + p mod 64].

(** [new TextEncoder().encode(s)]: lone surrogates become U+FFFD. *)
Definition utf8 (l : units) : list Z :=
  flat_map (fun p => utf8_point (if is_lead p || is_trail p then 0xfffd else p)) (code_points l).

(** ** Decimal texts *)

Definition is_dec (c : Z) : bool := (48 <=? c) && (c <=? 57).

Definition digits_val (l : units) : Z := foldl (fun a c => 10 * a + (c - 48)) 0 l.

(** [n.toString()]. *)
Definition udec (z : Z) : units := u (dec z).

Lemma udec_digits z : 0 <= z -> Forall (fun c => is_dec c = true) (udec z).
Proof.
  intros Hz. unfold udec, u. apply Forall_map. pose proof (dec_cases z) as Hc.
  assert (exists x, Z.to_int z = Decimal.Pos x) as [x E] by (destruct z; [by eexists..|lia]).
  rewrite E in Hc. destruct Hc as [-> _]. apply nilzero_digits.
Qed.

Lemma digits_val_app a b : digits_val (a ++ b) = digits_val a * 10 ^ Z.of_nat (length b) + digits_val b.
Proof.
  induction b as [|c b IH] using rev_ind; [rewrite app_nil_r; unfold digits_val; simpl; lia|].
  unfold digits_val in *. rewrite app_assoc, !(foldl_app _ _ [c]). cbn [foldl].
  rewrite IH, length_app, Nat2Z.inj_add, Z.pow_add_r by lia. simpl (length [c]). lia.
Qed.

Lemma digits_val_repeat n : digits_val (repeat 48 n) = 0.
Proof. unfold digits_val. induction n as [|n IH]; [done|]. by cbn [repeat foldl]. Qed.

Lemma uint_acc_digits x p :
  foldl (fun a c => 10 * a + (c - 48)) (Zpos p) (u (NilEmpty.string_of_uint x)) = Zpos (Pos.of_uint_acc x p).
Proof.
  revert p. induction x as [|x IH|x IH|x IH|x IH|x IH|x IH|x IH|x IH|x IH|x IH]; intros p; [done|..];
    unfold u in *; cbn [NilEmpty.string_of_uint chars list_ascii_of_string map foldl Pos.of_uint_acc];
    rewrite <- IH; f_equal;
    match goal with |- context [code ?c] => let v := eval vm_compute in (code c) in change (code c) with v end; lia.
Qed.

Lemma uint_digits x : digits_val (u (NilEmpty.string_of_uint x)) = Z.of_uint x.
Proof.
  induction x as [|x IH|x _|x _|x _|x _|x _|x _|x _|x _|x _]; [done|exact IH|..];
    apply uint_acc_digits.
Qed.

(** The digits of a number have its value. *)
Lemma digits_val_udec z : 0 <= z -> digits_val (udec z) = z.
Proof.
  intros Hz. unfold udec. pose proof (dec_cases z) as Hc.
  assert (exists x, Z.to_int z = Decimal.Pos x) as [x E] by (destruct z; [by eexists..|lia]).
  rewrite E in Hc. destruct Hc as [-> ->]. destruct x; [done|..]; apply uint_digits.
Qed.

(** An unsigned decimal integer without leading zeros. *)
Definition uint_text (l : units) : bool :=
  match l with
  | [] => false
  | [c] => is_dec c
  | c :: r => is_dec c && negb (c =? 48) && forallb is_dec r
  end.

(** ** Case and white space *)

(** Lower-casing of an ASCII code unit. *)
Definition lower_unit (c : Z) : Z := if (65 <=? c) && (c <=? 90) then c + 32 else c.

Definition is_ascii (c : Z) : Prop := 0 <= c < 128.

Lemma utf8_ascii l : Forall is_ascii l -> utf8 l = l.
Proof.
  unfold utf8. induction 1 as [|c l Hc _ IH]; [done|]. unfold is_ascii in Hc.
  assert (is_lead c = false /\ is_trail c = false) as [E1 E2] by (unfold is_lead, is_trail; split; lia).
  cbn [code_points]. rewrite E1. cbn [flat_map]. rewrite IH, E1, E2. unfold utf8_point. cbn [orb].
  destruct (Z.ltb_spec c 0x80); [done|lia].
Qed.

Definition upper_unit (c : Z) : Z := if (97 <=? c) && (c <=? 122) then c - 32 else c.

(** [String.prototype.toLowerCase] and [toUpperCase] outside ASCII follow the case tables of the
    Unicode database of the platform, which are not part of the program; on ASCII texts they are fixed. *)
Class Unicode := {
  toLower : units -> units;
  toLower_ascii : forall s, Forall is_ascii s -> toLower s = map lower_unit s;
  toUpper : units -> units;
  toUpper_ascii : forall s, Forall is_ascii s -> toUpper s = map upper_unit s;
}.

(** White space and line terminators of ECMAScript ([trim], [parseInt], [\s]). *)
Definition is_space (c : Z) : bool :=
  ((9 <=? c) && (c <=? 13)) || (c =? 32) || (c =? 160) || (c =? 0x1680) || ((0x2000 <=? c) && (c <=? 0x200a))
  || (c =? 0x2028) || (c =? 0x2029) || (c =? 0x202f) || (c =? 0x205f) || (c =? 0x3000) || (c =? 0xfeff).

Fixpoint skip_space (l : units) : units :=
  match l with [] => [] | c :: r => if is_space c then skip_space r else l end.

Definition utrim (l : units) : units := rev (skip_space (rev (skip_space l))).

(** ** [parseInt] *)

Definition digit_in (radix : Z) (c : Z) : option Z :=
  match hexv c with Some d => if d <? radix then Some d else None | None => None end.

(** The value of the longest prefix of digits; [None] without a digit. *)
Fixpoint digits_prefix (radix : Z) (acc : option Z) (s : units) : option Z :=
  match s with
  | [] => acc
  | c :: r =>
      match digit_in radix c with
      | Some d => digits_prefix radix (Some (radix * default 0 acc + d)) r
      | None => acc
      end
  end.

(** [parseInt(s, 10)] and [parseInt(s, 16)]; [None] is NaN. *)
Definition parseInt_radix (radix : Z) (s : units) : option Z :=
  let t := skip_space s in
  let '(neg, t) := match t with
                   | c :: r => if c =? 45 then (true, r) else if c =? 43 then (false, r) else (false, t)
                   | [] => (false, t)
                   end in
  let t := match t with
           | a :: b :: r => if (radix =? 16) && (a =? 48) && ((b =? 120) || (b =? 88)) then r else t
           | _ => t
           end in
  (fun z => if neg then - z else z) <$> digits_prefix radix None t.

Definition starts_0x (s : units) : bool := units_eqb (take 2 s) (u "0x").

(** Texts without the separator are determined by what they are joined to. *)
Lemma split_sep (sep : Z) (a b x y : units) :
  sep ∉ a -> sep ∉ b -> a ++ sep :: x = b ++ sep :: y -> a = b /\ x = y.
Proof.
  revert b. induction a as [|c a IH]; intros [|d b] Ha Hb; simpl; intros [= E]; subst.
  - done.
  - destruct Hb. left.
  - destruct Ha. left.
  - apply not_elem_of_cons in Ha as [_ Ha], Hb as [_ Hb].
    destruct (IH b Ha Hb) as [-> ->]; done.
Qed.
