(* ===== verification/JsFloat.v ===== *)
(** * Decimal texts and doubles

    [Number(text)] of a JSON number text, [Number.prototype.toExponential()] (shortest digits
    that round back) and the decimal text of an integral number, by exact integer arithmetic over
    binary64 ([JsNum]). *)
From Stdlib Require Import SpecFloat.
From S2P Require Import Prelude JsText JsNum JsUtf16.
Local Open Scope Z_scope.

#[export] Instance spec_float_eq_dec : EqDecision number.
Proof. unfold number. solve_decision. Defined.

Definition num_neg (x : number) : number := SFopp x.

(** Number of decimal digits of a positive integer. *)
Definition ndigits (z : Z) : Z := Z.of_nat (String.length (dec z)).

(** The double nearest to [d * 10^e] for [d >= 0] (ties to even).  For a negative exponent the
    quotient is computed with at least 70 significant bits and a sticky bit. *)
Definition decimal_to_double (d e : Z) : number :=
  if d =? 0 then S754_zero false
  else if 310 <? e + ndigits d then S754_infinity false
  else if e + ndigits d <? -330 then S754_zero false
  else if 0 <=? e then num_of_Z (d * 10 ^ e)
  else
    let den := 10 ^ (- e) in
    let s := Z.log2 den + 70 in
    let q := d * 2 ^ s / den in
    let sticky := if d * 2 ^ s mod den =? 0 then 0 else 1 in
    binary_normalize prec emax (2 * q + sticky) (- (s + 1)) false.

(** The parts of a JSON number text: sign, digits before and after the point, exponent. *)
Fixpoint span_digits (l : units) : units * units :=
  match l with
  | c :: r => if is_dec c then let '(d, k) := span_digits r in (c :: d, k) else ([], l)
  | [] => ([], [])
  end.

Definition number_parts (raw : units) : bool * units * units * Z :=
  let '(neg, l) := match raw with c :: r => if c =? 45 then (true, r) else (false, raw) | [] => (false, []) end in
  let '(ip, l1) := span_digits l in
  let '(fp, l2) := match l1 with
                   | c :: r => if c =? 46 then span_digits r else ([], l1)
                   | [] => ([], [])
                   end in
  let ex := match l2 with
            | c :: r =>
                if (c =? 101) || (c =? 69) then
                  match r with
                  | x :: r' => if x =? 45 then - digits_val r' else if x =? 43 then digits_val r' else digits_val r
                  | [] => 0
                  end
                else 0
            | [] => 0
            end in
  (neg, ip, fp, ex).

(** [Number(raw)] for a JSON number text. *)
Definition Number_of_text (raw : units) : number :=
  let '(neg, ip, fp, ex) := number_parts raw in
  let x := decimal_to_double (digits_val (ip ++ fp)) (ex - Z.of_nat (length fp)) in
  if neg then num_neg x else x.

(** ** Shortest decimal digits *)

(** [num / den] of a positive finite double. *)
Definition as_ratio (m : positive) (e : Z) : Z * Z :=
  if 0 <=? e then (Zpos m * 2 ^ e, 1) else (Zpos m, 2 ^ (- e)).

(** [10^j <= n / d]. *)
Definition pow10_leb (j n d : Z) : bool :=
  if 0 <=? j then 10 ^ j * d <=? n else d <=? n * 10 ^ (- j).

(** Floor of the decimal logarithm, from an estimate. *)
Fixpoint adjust_log (fuel : nat) (j n d : Z) : Z :=
  match fuel with
  | O => j
  | S fuel =>
      if negb (pow10_leb j n d) then adjust_log fuel (j - 1) n d
      else if pow10_leb (j + 1) n d then adjust_log fuel (j + 1) n d
      else j
  end.

Definition log10_floor (m : positive) (e : Z) : Z :=
  let '(n, d) := as_ratio m e in
  adjust_log 8 ((Z.log2 (Zpos m) + e) * 30103 / 100000) n d.

(** Floor of [n / d * 10^k], and whether the next integer is closer. *)
Definition scaled (n d k : Z) : Z * bool :=
  let '(a, b) := if 0 <=? k then (n * 10 ^ k, d) else (n, d * 10 ^ (- k)) in
  let q := a / b in
  (q, b <? 2 * (a - q * b)).

(** Digits of length [f + 1], [f + 2], ... until some round back to [x]: digits and exponent. *)
Fixpoint shortest (fuel : nat) (x : number) (n d e10 f : Z) : option (Z * Z) :=
  match fuel with
  | O => None
  | S fuel =>
      let '(q, up) := scaled n d (f - e10) in
      let back z := bool_decide (decimal_to_double z (e10 - f) = x) in
      let pick a b := if back a then Some a else if back b then Some b else None in
      match (if up then pick (q + 1) q else pick q (q + 1)) with
      | Some z => if z =? 10 ^ (f + 1) then Some (1, e10 + 1) else Some (z, e10)
      | None => shortest fuel x n d e10 (f + 1)
      end
  end.


(** [Math.abs(x).toExponential()] as its digits (without the point) and its exponent; 17 digits
    always suffice for a double. *)
Definition toExponential (m : positive) (e : Z) : option (units * Z) :=
  let '(n, d) := as_ratio m e in
  let e10 := log10_floor m e in
  (fun p => (udec (fst p), snd p)) <$> shortest 17 (S754_finite false m e) n d e10 0.

(** [String(x)] ([Number.prototype.toString]). *)
Definition positive_text (digits : units) (e : Z) : units :=
  let k := Z.of_nat (length digits) in
  let n := e + 1 in
  if (k <=? n) && (n <=? 21) then digits ++ repeat 48 (Z.to_nat (n - k))
  else if (0 <? n) && (n <=? 21) then take (Z.to_nat n) digits ++ [46] ++ drop (Z.to_nat n) digits
  else if (-6 <? n) && (n <=? 0) then u "0." ++ repeat 48 (Z.to_nat (- n)) ++ digits
  else take 1 digits ++ (if 1 <? k then 46 :: drop 1 digits else []) ++ [101]
       ++ (if e <? 0 then [45] else [43]) ++ udec (Z.abs e).

Definition number_text (x : number) : units :=
  match x with
  | S754_nan => u "NaN"
  | S754_zero _ => u "0"
  | S754_infinity s => (if s then [45] else []) ++ u "Infinity"
  | S754_finite s m e =>
      match toExponential m e with
      | Some (ds, ex) => (if s then [45] else []) ++ positive_text ds ex
      | None => []
      end
  end.

Definition num_add : number -> number -> number := SFadd prec emax.
Definition num_sub : number -> number -> number := SFsub prec emax.
(** [x === y] and [x <= y] on numbers. *)
Definition num_eqb : number -> number -> bool := SFeqb.
Definition num_leb : number -> number -> bool := SFleb.

Example toExponential_tenth :
  match Number_of_text (u "0.1") with S754_finite _ m e => toExponential m e | _ => None end
  = Some (u "1", -1).
Proof. vm_compute. reflexivity. Qed.

Example toExponential_1e23 :
  match Number_of_text (u "1e23") with S754_finite _ m e => toExponential m e | _ => None end
  = Some (u "1", 23).
Proof. vm_compute. reflexivity. Qed.

Example number_texts :
  map number_text [num_of_Z (2 ^ 64); num_of_Z 1234567; Number_of_text (u "0.00000123"); Number_of_text (u "-12.5e-9");
    Number_of_text (u "123.456")]
  = [u "18446744073709552000"; u "1234567"; u "0.00000123"; u "-1.25e-8"; u "123.456"].
Proof. vm_compute. reflexivity. Qed.

Example number_rounds : Number_of_text (u "9007199254740993") = num_of_Z 9007199254740992 /\
  Number_of_text (u "2.2250738585072011e-308") <> Number_of_text (u "2.2250738585072014e-308") /\
  Number_of_text (u "5e-324") = S754_finite false 1 (-1074) /\ Number_of_text (u "1e400") = S754_infinity false.
Proof. vm_compute. repeat split. discriminate. Qed.

(** The digits found round back to the number. *)
Lemma shortest_back fuel x n d e10 f z ex :
  shortest fuel x n d e10 f = Some (z, ex) ->
  exists g, (ex = e10 /\ decimal_to_double z (e10 - g) = x) \/
            (z = 1 /\ ex = e10 + 1 /\ decimal_to_double (10 ^ (g + 1)) (e10 - g) = x).
Proof.
  revert f. induction fuel as [|fuel IH]; intros f; cbn [shortest]; [done|].
  destruct (scaled n d (f - e10)) as [q up].
  assert (forall y, (if up then if bool_decide (decimal_to_double (q + 1) (e10 - f) = x) then Some (q + 1)
      else if bool_decide (decimal_to_double q (e10 - f) = x) then Some q else None
    else if bool_decide (decimal_to_double q (e10 - f) = x) then Some q
      else if bool_decide (decimal_to_double (q + 1) (e10 - f) = x) then Some (q + 1) else None) = Some y ->
    decimal_to_double y (e10 - f) = x) as Hy.
  { intros y. destruct up; repeat case_bool_decide; intros [= <-]; done. }
  cbv zeta. destruct (if up then _ else _) as [y|] eqn:E; [|by apply IH].
  specialize (Hy y eq_refl). destruct (y =? 10 ^ (f + 1)) eqn:Ey; intros [= <- <-]; exists f; [right|by left].
  apply Z.eqb_eq in Ey as ->. done.
Qed.
