(* ===== verification/JsMap.v ===== *)
(** * JavaScript [Map] with string keys

    Insertion-ordered: [set] on a present key keeps its position, on a new key appends. *)
From S2P Require Import Prelude.

Abbreviation jmap V := (list (string * V)).

Section Map.
Context {V : Type}.
Implicit Types (m : jmap V) (k : string) (v : V).

Fixpoint mget k m : option V :=
  match m with
  | [] => None
  | (k', v) :: r => if (k =? k')%string then Some v else mget k r
  end.

Definition mhas k m : bool := match mget k m with Some _ => true | None => false end.

Fixpoint mset k v m : jmap V :=
  match m with
  | [] => [(k, v)]
  | (k', v') :: r => if (k =? k')%string then (k', v) :: r else (k', v') :: mset k v r
  end.

Fixpoint mdel k m : jmap V :=
  match m with
  | [] => []
  | (k', v') :: r => if (k =? k')%string then r else (k', v') :: mdel k r
  end.

(** In-place mutation of the object stored under [k]. *)
Fixpoint mupdate k (f : V -> V) m : jmap V :=
  match m with
  | [] => []
  | (k', v') :: r => if (k =? k')%string then (k', f v') :: r else (k', v') :: mupdate k f r
  end.

Definition mkeys m : list string := map fst m.

Lemma mget_mset_eq k v m : mget k (mset k v m) = Some v.
Proof.
  induction m as [|[k' v'] m IH]; simpl; [by rewrite String.eqb_refl|].
  destruct (k =? k')%string eqn:E; simpl; by rewrite E.
Qed.

Lemma mget_mset_ne k k' v m : k <> k' -> mget k (mset k' v m) = mget k m.
Proof.
  intros Hne. induction m as [|[x w] m IH]; simpl.
  - by rewrite (proj2 (String.eqb_neq k k')).
  - destruct (k' =? x)%string eqn:E; simpl; [|by rewrite IH].
    apply String.eqb_eq in E as ->. by rewrite (proj2 (String.eqb_neq k x)).
Qed.

Lemma mget_mdel_ne k k' m : k <> k' -> mget k (mdel k' m) = mget k m.
Proof.
  intros Hne. induction m as [|[x w] m IH]; simpl; [done|].
  destruct (k' =? x)%string eqn:E; simpl; [|by rewrite IH].
  apply String.eqb_eq in E as ->. by rewrite (proj2 (String.eqb_neq k x)).
Qed.

Lemma mget_notin k m : k ∉ mkeys m -> mget k m = None.
Proof.
  induction m as [|[x w] m IH]; simpl; [done|]. intros Hn.
  rewrite not_elem_of_cons in Hn. destruct Hn.
  rewrite (proj2 (String.eqb_neq k x)) by done. by apply IH.
Qed.

Lemma mdel_absent k m : mget k m = None -> mdel k m = m.
Proof.
  induction m as [|[k' v] m IH]; simpl; [done|]. destruct (k =? k')%string; [done|]. intros H. by rewrite IH.
Qed.

Lemma mget_mdel_eq k m : NoDup (mkeys m) -> mget k (mdel k m) = None.
Proof.
  induction m as [|[x w] m IH]; simpl; [done|]. intros Hd. apply NoDup_cons in Hd as [Hn Hd].
  destruct (k =? x)%string eqn:E; simpl.
  - apply String.eqb_eq in E as ->. by apply mget_notin.
  - rewrite E. by apply IH.
Qed.

Lemma mget_mupdate_eq k f m : mget k (mupdate k f m) = f <$> mget k m.
Proof.
  induction m as [|[x w] m IH]; simpl; [done|].
  destruct (k =? x)%string eqn:E; simpl; by rewrite E.
Qed.

Lemma mget_mupdate_ne k k' f m : k <> k' -> mget k (mupdate k' f m) = mget k m.
Proof.
  intros Hne. induction m as [|[x w] m IH]; simpl; [done|].
  destruct (k' =? x)%string eqn:E; simpl; [|by rewrite IH].
  apply String.eqb_eq in E as ->. by rewrite (proj2 (String.eqb_neq k x)).
Qed.

Lemma mhas_true k m : mhas k m = true <-> exists v, mget k m = Some v.
Proof. unfold mhas. destruct (mget k m); naive_solver. Qed.

Lemma mhas_false k m : mhas k m = false <-> mget k m = None.
Proof. unfold mhas. destruct (mget k m); naive_solver. Qed.

Lemma mkeys_mset k v m :
  mkeys (mset k v m) = if mhas k m then mkeys m else mkeys m ++ [k].
Proof.
  unfold mhas. induction m as [|[x w] m IH]; simpl; [done|].
  destruct (k =? x)%string eqn:E; simpl; [done|]. rewrite IH. by destruct (mget k m).
Qed.

Lemma mget_elem k v m : mget k m = Some v -> (k, v) ∈ m.
Proof.
  induction m as [|[x w] m IH]; simpl; [done|].
  destruct (k =? x)%string eqn:E; [apply String.eqb_eq in E as ->; intros [= ->]; left|].
  intros; right; auto.
Qed.

Lemma mget_nodup k v m : NoDup (mkeys m) -> (k, v) ∈ m -> mget k m = Some v.
Proof.
  induction m as [|[x w] m IH]; simpl; intros Hd Hin; [by apply elem_of_nil in Hin|].
  apply NoDup_cons in Hd as [Hn Hd]. apply elem_of_cons in Hin as [[= -> ->]|Hin].
  - by rewrite String.eqb_refl.
  - destruct (k =? x)%string eqn:E; [|by apply IH]. apply String.eqb_eq in E as ->.
    destruct Hn. apply list_elem_of_fmap. by exists (x, v).
Qed.

Lemma NoDup_mset k v m : NoDup (mkeys m) -> NoDup (mkeys (mset k v m)).
Proof.
  intros Hd. rewrite mkeys_mset. unfold mhas. destruct (mget k m) eqn:E; [done|].
  apply NoDup_app. split_and!; [done| |apply NoDup_singleton].
  intros x Hx ->%list_elem_of_singleton. apply list_elem_of_fmap in Hx as ([y w] & -> & Hin).
  simpl in *. by rewrite (mget_nodup y w m) in E.
Qed.

Lemma mkeys_mdel_sub k m x : x ∈ mkeys (mdel k m) -> x ∈ mkeys m.
Proof.
  induction m as [|[y w] m IH]; simpl; [done|].
  destruct (k =? y)%string; simpl; [by right|]. rewrite !elem_of_cons. naive_solver.
Qed.

Lemma NoDup_mdel k m : NoDup (mkeys m) -> NoDup (mkeys (mdel k m)).
Proof.
  induction m as [|[y w] m IH]; simpl; [done|]. intros [Hn Hd]%NoDup_cons.
  destruct (k =? y)%string; simpl; [done|]. apply NoDup_cons.
  split; [|by apply IH]. intros Hx. by apply mkeys_mdel_sub in Hx.
Qed.

Lemma mkeys_mupdate k f m : mkeys (mupdate k f m) = mkeys m.
Proof.
  induction m as [|[y w] m IH]; simpl; [done|].
  destruct (k =? y)%string; simpl; [done|by rewrite IH].
Qed.

Lemma mset_new k v m : k ∉ mkeys m -> mset k v m = m ++ [(k, v)].
Proof.
  induction m as [|[x w] m IH]; simpl; [done|]. intros [Hne Hn]%not_elem_of_cons.
  rewrite (proj2 (String.eqb_neq k x)) by done. by rewrite IH.
Qed.

Lemma mhas_keys k m : mhas k m = true <-> k ∈ mkeys m.
Proof.
  unfold mhas. induction m as [|[x w] m IH]; simpl; [set_solver|]. rewrite elem_of_cons, <- IH.
  destruct (String.eqb_spec k x); naive_solver.
Qed.

Lemma elem_mkeys_mset k x v m : k ∈ mkeys (mset x v m) <-> k = x \/ k ∈ mkeys m.
Proof.
  rewrite <- !mhas_keys, !mhas_true. destruct (decide (k = x)) as [->|Hne].
  - rewrite mget_mset_eq. naive_solver.
  - rewrite mget_mset_ne by done. naive_solver.
Qed.

Lemma elem_mkeys_mdel k x m : NoDup (mkeys m) -> k ∈ mkeys (mdel x m) <-> k <> x /\ k ∈ mkeys m.
Proof.
  intros Hnd. rewrite <- !mhas_keys, !mhas_true. destruct (decide (k = x)) as [->|Hne].
  - rewrite mget_mdel_eq by done. naive_solver.
  - rewrite mget_mdel_ne by done. naive_solver.
Qed.

(** An assertion on every entry survives an update and a deletion. *)
Lemma Forall_mset (P : string * V -> Prop) k v m :
  P (k, v) -> Forall P m -> Forall P (mset k v m).
Proof.
  intros Hkv.
  induction m as [|[x w] m IH]; simpl; intros Hm; [by repeat constructor|].
  apply Forall_cons in Hm as [H1 H2]. destruct (String.eqb_spec k x) as [->|]; constructor; auto.
Qed.

Lemma Forall_mdel (P : string * V -> Prop) k m : Forall P m -> Forall P (mdel k m).
Proof.
  induction m as [|[x w] m IH]; simpl; intros Hm; [done|].
  apply Forall_cons in Hm as [H1 H2]. destruct (k =? x)%string; [done|constructor; auto].
Qed.
End Map.

Create Rewrite HintDb jmap.
#[export] Hint Rewrite @mget_mset_eq @mget_mupdate_eq @mkeys_mupdate : jmap.
#[export] Hint Rewrite @mget_mset_ne @mget_mdel_ne @mget_mupdate_ne using done : jmap.
