(* ===== verification/Interact.v ===== *)
(** * Effectful programs: injected dependencies, exceptions, shared mutable state

    The orchestration code of the program receives every side effect as an injected
    dependency ([EvmPayoutDeps], [XrgePayoutDeps], [BtcPayoutDeps], a [fetch] function).  A
    call of a dependency is a command of an interface; its answer is a value or a thrown
    exception and is chosen by an arbitrary environment that sees the whole history.
    Programs are finite trees, so [run] is a total function: a handler returns against every
    environment.  [wp] is the program logic in which the components are verified: it checks a
    guard on every issued command against the history of the interaction so far, and a
    postcondition on the outcome, the final state and the final history. *)
From S2P Require Import Prelude.

(** An interface: the shared mutable state, the commands, and the answer of each command. *)
Record iface := Iface { st : Type; cmd : Type; ans : cmd -> Type }.

Inductive event (I : iface) : Type :=
| Ev (c : cmd I) (r : res (ans I c)).
Arguments Ev {I} c r.

(** Histories are newest-first. *)
Abbreviation history I := (list (event I)).

Inductive prog (I : iface) (A : Type) : Type :=
| Ret (a : A)
| Throw (e : string)
| Get (k : st I -> prog I A)
| Put (s : st I) (k : prog I A)
| Call (c : cmd I) (k : res (ans I c) -> prog I A).
Arguments Ret {I A} a.
Arguments Throw {I A} e.
Arguments Get {I A} k.
Arguments Put {I A} s k.
Arguments Call {I A} c k.

Section Combinators.
Context {I : iface}.

Fixpoint bind {A B} (p : prog I A) (f : A -> prog I B) : prog I B :=
  match p with
  | Ret a => f a
  | Throw e => Throw e
  | Get k => Get (fun s => bind (k s) f)
  | Put s k => Put s (bind k f)
  | Call c k => Call c (fun r => bind (k r) f)
  end.

(** [try { p } catch (e) { ... }] with the outcome as a value. *)
Fixpoint attempt {A} (p : prog I A) : prog I (res A) :=
  match p with
  | Ret a => Ret (Ok a)
  | Throw e => Ret (Err e)
  | Get k => Get (fun s => attempt (k s))
  | Put s k => Put s (attempt k)
  | Call c k => Call c (fun r => attempt (k r))
  end.

Definition of_res {A} (r : res A) : prog I A :=
  match r with Ok a => Ret a | Err e => Throw e end.

(** [await deps.c(...)]: an exception of the dependency is an exception of the program. *)
Definition call (c : cmd I) : prog I (ans I c) := Call c of_res.

Definition get : prog I (st I) := Get Ret.
Definition put (s : st I) : prog I unit := Put s (Ret tt).

(** [for (const x of l) { ... break with a value ... }]. *)
Fixpoint first_some {A B} (f : A -> prog I (option B)) (l : list A) : prog I (option B) :=
  match l with
  | [] => Ret None
  | x :: r => bind (f x) (fun o => match o with Some b => Ret (Some b) | None => first_some f r end)
  end.

(** [for (const x of l) { ... }]. *)
Fixpoint for_each {A} (f : A -> prog I unit) (l : list A) : prog I unit :=
  match l with
  | [] => Ret tt
  | x :: r => bind (f x) (fun _ => for_each f r)
  end.
End Combinators.

Declare Scope prog_scope.
Delimit Scope prog_scope with prog.
Notation "'let!' x ':=' p 'in' k" := (bind p (fun x => k))
  (at level 10, x pattern, p at level 100, k at level 200) : prog_scope.
Notation "'do!' p 'in' k" := (bind p (fun _ => k))
  (at level 10, p at level 100, k at level 200) : prog_scope.

(** ** Execution against an environment *)

Definition env (I : iface) : Type := history I -> forall c : cmd I, res (ans I c).

Fixpoint run {I A} (e : env I) (p : prog I A) (s : st I) (h : history I)
  : res A * st I * history I :=
  match p with
  | Ret a => (Ok a, s, h)
  | Throw m => (Err m, s, h)
  | Get k => run e (k s) s h
  | Put s' k => run e k s' h
  | Call c k => run e (k (e h c)) s (Ev c (e h c) :: h)
  end.

(** The three components of a run from the empty history. *)
Definition outcome {I A} (e : env I) (p : prog I A) s : res A := (run e p s []).1.1.
Definition final {I A} (e : env I) (p : prog I A) s : st I := (run e p s []).1.2.
Definition trace {I A} (e : env I) (p : prog I A) s : history I := (run e p s []).2.

(** ** The program logic *)

Section Logic.
Context {I : iface}.
(** [ok h c]: command [c] may be issued after history [h]. *)
Variable ok : history I -> cmd I -> Prop.
(** [asm h c r]: what is assumed of an answer. *)
Variable asm : history I -> forall c, res (ans I c) -> Prop.

Fixpoint wp {A} (p : prog I A) (s : st I) (h : history I)
    (Q : res A -> st I -> history I -> Prop) : Prop :=
  match p with
  | Ret a => Q (Ok a) s h
  | Throw e => Q (Err e) s h
  | Get k => wp (k s) s h Q
  | Put s' k => wp k s' h Q
  | Call c k => ok h c /\ forall r, asm h c r -> wp (k r) s (Ev c r :: h) Q
  end.

(** Every command of a history was permitted when it was issued. *)
Fixpoint guarded (h : history I) : Prop :=
  match h with
  | [] => True
  | Ev c _ :: h' => ok h' c /\ guarded h'
  end.

Definition respects (e : env I) : Prop := forall h c, asm h c (e h c).

Lemma wp_mono {A} (p : prog I A) s h (Q Q' : res A -> st I -> history I -> Prop) :
  (forall o s' h', Q o s' h' -> Q' o s' h') -> wp p s h Q -> wp p s h Q'.
Proof. intros HQ. revert s h. induction p; simpl; intros; naive_solver. Qed.

Lemma wp_bind {A B} (p : prog I A) (f : A -> prog I B) s h Q :
  wp p s h (fun o s' h' => match o with Ok a => wp (f a) s' h' Q | Err e => Q (Err e) s' h' end) ->
  wp (bind p f) s h Q.
Proof. revert s h. induction p; simpl; intros; naive_solver. Qed.

Lemma wp_attempt {A} (p : prog I A) s h Q :
  wp p s h (fun o s' h' => Q (Ok o) s' h') -> wp (attempt p) s h Q.
Proof. revert s h. induction p; simpl; intros; naive_solver. Qed.

Lemma wp_and {A} (p : prog I A) s h (Q Q' : res A -> st I -> history I -> Prop) :
  wp p s h Q -> wp p s h Q' -> wp p s h (fun o s' h' => Q o s' h' /\ Q' o s' h').
Proof. revert s h. induction p; simpl; intros; naive_solver. Qed.

Lemma wp_ret {A} (a : A) s h Q : Q (Ok a) s h -> wp (Ret a) s h Q.
Proof. done. Qed.
Lemma wp_throw {A} m s h (Q : res A -> _) : Q (Err m) s h -> wp (Throw m) s h Q.
Proof. done. Qed.
Lemma wp_of_res {A} (r : res A) s h (Q : res A -> _) : Q r s h -> wp (of_res r) s h Q.
Proof. by destruct r. Qed.
Lemma wp_get s h Q : Q (Ok s) s h -> wp get s h Q.
Proof. done. Qed.
Lemma wp_put s s' h Q : Q (Ok tt) s' h -> wp (put s') s h Q.
Proof. done. Qed.

Lemma wp_call c s h Q :
  ok h c ->
  (forall r, asm h c r -> Q r s (Ev c r :: h)) -> wp (call c) s h Q.
Proof. simpl. intros Hok HQ. split; [done|]. intros [a|e] Ha; simpl; apply HQ, Ha. Qed.

Lemma wp_first_some {A B} (f : A -> prog I (option B)) (l : list A) Inv s h Q :
  Inv s h ->
  (forall x s h, x ∈ l -> Inv s h ->
     wp (f x) s h (fun o s' h' => match o with Ok None => Inv s' h' | _ => Q o s' h' end)) ->
  (forall s h, Inv s h -> Q (Ok None) s h) ->
  wp (first_some f l) s h Q.
Proof.
  intros H0 Hf HQ. revert s h H0. induction l as [|x l IH]; intros s h H0; simpl; [by apply HQ|].
  apply wp_bind. eapply wp_mono; [|apply Hf; [left|done]].
  intros [[b|]|e] s' h' H; simpl; [done| |done].
  apply IH; [|done]. intros; apply Hf; [by right|done].
Qed.

Lemma wp_for_each {A} (f : A -> prog I unit) (l : list A) Inv s h Q :
  Inv s h ->
  (forall x s h, x ∈ l -> Inv s h ->
     wp (f x) s h (fun o s' h' => match o with Ok _ => Inv s' h' | Err e => Q (Err e) s' h' end)) ->
  (forall s h, Inv s h -> Q (Ok tt) s h) ->
  wp (for_each f l) s h Q.
Proof.
  intros H0 Hf HQ. revert s h H0. induction l as [|x l IH]; intros s h H0; simpl; [by apply HQ|].
  apply wp_bind. eapply wp_mono; [|apply Hf; [left|done]].
  intros [[]|e] s' h' H; simpl; [|done].
  apply IH; [|done]. intros; apply Hf; [by right|done].
Qed.

(** Soundness: a verified program keeps the guard and the postcondition in every
    environment that respects the assumption. *)
Lemma wp_run {A} (e : env I) (p : prog I A) s h Q :
  respects e -> guarded h -> wp p s h Q ->
  match run e p s h with (o, s', h') => Q o s' h' /\ guarded h' end.
Proof.
  intros He. revert s h. induction p as [| |k IH|s' k IH|c k IH]; simpl; intros s h Hg Hw;
    [done..|by apply IH|by apply IH|].
  destruct Hw as [Hok Hk]. apply IH; [by split|]. apply Hk, He.
Qed.

Lemma guarded_app post pre : guarded (post ++ pre) -> guarded pre.
Proof. induction post as [|[c r] post IH]; simpl; [done|]. intros [_ ?]; auto. Qed.

Lemma guarded_at post c r pre : guarded (post ++ Ev c r :: pre) -> ok pre c.
Proof. intros H. apply guarded_app in H. by destruct H. Qed.
End Logic.

Lemma guarded_impl {I} (ok ok' : history I -> cmd I -> Prop) h :
  (forall h c, ok h c -> ok' h c) -> guarded ok h -> guarded ok' h.
Proof. intros Hi. induction h as [|[c r] h IH]; simpl; [done|]. naive_solver. Qed.

(** No assumption on the environment. *)
Definition anything {I : iface} : history I -> forall c, res (ans I c) -> Prop := fun _ _ _ => True.

Lemma respects_anything {I} (e : env I) : respects anything e.
Proof. done. Qed.
#[export] Hint Resolve respects_anything : core.

Lemma wp_guarded {I A} ok (e : env I) (p : prog I A) s Q :
  wp ok anything p s [] Q -> guarded ok (trace e p s).
Proof.
  intros H. pose proof (wp_run ok anything e p s [] Q (respects_anything e) Logic.I H).
  unfold trace. destruct (run e p s []) as [[? ?] ?]. naive_solver.
Qed.

Lemma wp_post {I A} ok (e : env I) (p : prog I A) s Q :
  wp ok anything p s [] Q -> Q (outcome e p s) (final e p s) (trace e p s).
Proof.
  intros H. pose proof (wp_run ok anything e p s [] Q (respects_anything e) Logic.I H).
  unfold outcome, final, trace. destruct (run e p s []) as [[? ?] ?]. naive_solver.
Qed.

(** ** Programs restricted to a set of commands

    [calls P put p]: in every run [p] issues only commands in [P], and writes the shared
    state only when [put] allows it. *)
Fixpoint calls {I A} (P : cmd I -> Prop) (put : Prop) (p : prog I A) : Prop :=
  match p with
  | Ret _ | Throw _ => True
  | Get k => forall s, calls P put (k s)
  | Put _ k => put /\ calls P put k
  | Call c k => P c /\ forall r, calls P put (k r)
  end.

Section Calls.
Context {I : iface} (P : cmd I -> Prop) (pt : Prop).

Lemma calls_bind {A B} (p : prog I A) (f : A -> prog I B) :
  calls P pt p -> (forall a, calls P pt (f a)) -> calls P pt (bind p f).
Proof. intros H Hf. induction p; simpl in *; naive_solver. Qed.

Lemma calls_attempt {A} (p : prog I A) : calls P pt p -> calls P pt (attempt p).
Proof. induction p; simpl; naive_solver. Qed.

Lemma calls_call c : P c -> calls P pt (call c).
Proof. intros H. split; [done|]. by intros [a|e]. Qed.

Lemma calls_first_some {A B} (f : A -> prog I (option B)) l :
  (forall x, calls P pt (f x)) -> calls P pt (first_some f l).
Proof.
  intros Hf. induction l; simpl; [done|]. apply calls_bind; [done|]. by intros [b|].
Qed.

Lemma calls_for_each {A} (f : A -> prog I unit) l :
  (forall x, calls P pt (f x)) -> calls P pt (for_each f l).
Proof. intros Hf. induction l; simpl; [done|]. by apply calls_bind. Qed.

Lemma calls_trace {A} (e : env I) (p : prog I A) s h c r :
  calls P pt p -> Ev c r ∈ (run e p s h).2 -> P c \/ Ev c r ∈ h.
Proof.
  revert s h. induction p as [| |k IH|s' k IH|c' k IH]; simpl; intros s h H Hin.
  1-2: by right.
  - eapply IH; [apply (H s)|done].
  - eapply IH; [apply H|done].
  - destruct (IH _ s _ (proj2 H _) Hin) as [?|[E|?]%elem_of_cons]; [by left| |by right].
    left. assert (c = c') as -> by (by injection E). apply H.
Qed.
End Calls.

(** A program that may not write leaves the state alone. *)
Lemma calls_state {I A} P (e : env I) (p : prog I A) s h :
  calls P False p -> (run e p s h).1.2 = s.
Proof.
  revert s h. induction p as [| |k IH|s' k IH|c' k IH]; simpl; intros s h H; [done..|by apply IH| |].
  - by destruct H.
  - by apply IH, H.
Qed.

(** A program that only issues permitted commands and may not write: nothing is refused, the
    state stays, the history grows. *)
Lemma wp_calls {I A} (P : cmd I -> Prop) ok asm (p : prog I A) s h :
  (forall h c, P c -> ok h c) -> calls P False p ->
  wp ok asm p s h (fun _ s' h' => s' = s /\ exists x, h' = x ++ h).
Proof.
  intros Hok. revert s h. induction p as [| |k IH|s' k IH|c k IH]; simpl; intros s h H.
  1-2: split; [done|by exists []].
  - by apply IH.
  - by destruct H.
  - destruct H as [Hc Hk]. split; [by apply Hok|]. intros r _. eapply wp_mono; [|by apply IH].
    intros o s2 h2 [-> [x ->]]. split; [done|]. exists (x ++ [Ev c r]). by rewrite <- app_assoc.
Qed.

Create HintDb calls.
#[export] Hint Resolve calls_call calls_attempt calls_first_some calls_for_each : calls.

(** Decompose a [calls] goal along the program. *)
Ltac calls_step :=
  match goal with
  | |- calls _ _ (bind _ _) => apply calls_bind; [|intros]
  | |- calls _ _ (attempt _) => apply calls_attempt
  | |- calls _ _ (call _) => apply calls_call
  | |- calls _ _ (first_some _ _) => apply calls_first_some; intros
  | |- calls _ _ (for_each _ _) => apply calls_for_each; intros
  | |- calls _ _ (of_res ?r) => destruct r; exact Logic.I
  | |- calls _ _ (match ?x with _ => _ end) => destruct x eqn:?
  | |- calls _ _ (Ret _) => exact Logic.I
  | |- calls _ _ (Throw _) => exact Logic.I
  | |- calls _ _ get => intros ?; exact Logic.I
  | |- calls _ _ (put _) => split; [|exact Logic.I]
  | |- calls _ _ (let x := _ in _) => cbv zeta
  end.
Ltac calls_auto := repeat (calls_step || solve [auto with calls | done]).

(** ** Counting the events of a history *)

Definition count {I} (f : event I -> bool) (h : history I) : nat := length (List.filter f h).

Lemma count_cons {I} (f : event I -> bool) e h :
  count f (e :: h) = ((if f e then 1 else 0) + count f h)%nat.
Proof. unfold count. simpl. by destruct (f e). Qed.

Lemma count_app {I} (f : event I -> bool) h h' : count f (h ++ h') = (count f h + count f h')%nat.
Proof. unfold count. by rewrite List.filter_app, length_app. Qed.

(** A program restricted to commands that are not counted leaves the count alone. *)
Lemma calls_count {I A} (P : cmd I -> Prop) pt ok asm (f : event I -> bool) (p : prog I A) s h :
  (forall h c, P c -> ok h c) -> (forall c r, P c -> f (Ev c r) = false) -> calls P pt p ->
  wp ok asm p s h (fun _ _ h' => count f h' = count f h).
Proof.
  intros Hok Hf. revert s h. induction p as [| |k IH|s' k IH|c k IH]; simpl; intros s h H; [done..| | |].
  - by apply IH.
  - by apply IH, H.
  - destruct H as [Hc Hk]. split; [by apply Hok|]. intros r _. eapply wp_mono; [|by apply IH].
    simpl. intros _ _ h' ->. by rewrite count_cons, Hf.
Qed.

(** Apply a sub-program's specification and continue with its postcondition. *)
Ltac wp_apply H := eapply wp_mono; [|apply H].

(** ** Composition

    A program over the dependencies [I] run by a caller that implements them over its own
    interface [J]: [hd c] is the function the caller passes as dependency [c], [view] and [upd]
    locate the shared state of [I] inside the state of [J]. *)
Section Embed.
Context {I J : iface}.
Variable view : st J -> st I.
Variable upd : st I -> st J -> st J.
Variable hd : forall c : cmd I, prog J (ans I c).

Fixpoint embed {A} (p : prog I A) : prog J A :=
  match p with
  | Ret a => Ret a
  | Throw e => Throw e
  | Get k => Get (fun s => embed (k (view s)))
  | Put s' k => Get (fun s => Put (upd s' s) (embed k))
  | Call c k => bind (attempt (hd c)) (fun r => embed (k r))
  end.

Lemma calls_embed {A} (P : cmd I -> Prop) (P' : cmd J -> Prop) (pt : Prop) (p : prog I A) :
  (forall c, P c -> calls P' pt (hd c)) -> calls P pt p -> calls P' pt (embed p).
Proof.
  intros Hd. induction p as [| |k IH|s' k IH|c k IH]; simpl; intros Hp; [done..| | |].
  - intros s. by apply IH.
  - intros s. split; apply Hp || apply IH, Hp.
  - destruct Hp as [Hc Hk]. apply calls_bind; [by apply calls_attempt, Hd|]. intros r. by apply IH.
Qed.

(** Simulation: the caller's functions implement the dependencies.  When each [hd c], started
    in related states and histories, ends with an answer the specification of [I] allows and
    related again, then what was proved of [p] against [I] holds of the composition. *)
Lemma wp_embed {A} (R : st I -> history I -> st J -> history J -> Prop) okI asmI okJ asmJ
    (p : prog I A) sI h sJ hJ Q :
  (forall sI h c sJ hJ, R sI h sJ hJ -> okI h c ->
     wp okJ asmJ (hd c) sJ hJ (fun r sJ' hJ' => asmI h c r /\ R sI (Ev c r :: h) sJ' hJ')) ->
  (forall sI h sJ hJ, R sI h sJ hJ -> view sJ = sI) ->
  (forall sI sI' h sJ hJ, R sI h sJ hJ -> R sI' h (upd sI' sJ) hJ) ->
  R sI h sJ hJ -> wp okI asmI p sI h Q ->
  wp okJ asmJ (embed p) sJ hJ (fun o sJ' hJ' => exists sI' h', R sI' h' sJ' hJ' /\ Q o sI' h').
Proof.
  intros Hd Hv Hu. revert sI h sJ hJ. induction p as [a|m|k IH|s' k IH|c k IH]; simpl; intros sI h sJ hJ HR Hw.
  - by exists sI, h.
  - by exists sI, h.
  - rewrite (Hv _ _ _ _ HR). by eapply IH.
  - eapply IH; [by eapply Hu|done].
  - destruct Hw as [Hok Hk]. apply wp_bind, wp_attempt. eapply wp_mono; [|by apply (Hd sI h c)].
    intros r sJ' hJ' [Ha HR']. eapply IH; [exact HR'|by apply Hk].
Qed.
End Embed.

Lemma calls_all {I A} (p : prog I A) : calls (fun _ => True) True p.
Proof. induction p; simpl; auto. Qed.
