(* ===== verification/Interleave.v ===== *)
(** * Overlapping runs of asynchronous handlers

    [setInterval] starts a new poll while an earlier one still awaits an answer, and
    [Promise.all] runs several handlers at once: between two awaits a handler runs alone, at an
    await any other handler may run.  A [pool] is the list of handlers that have started; one
    step starts a handler, or delivers the answer one of them awaits and runs it up to its next
    await.  [rg] is the program logic for handlers that share state this way: every write is a
    step of the relation [G], and after an await the state may have changed by steps of [G]
    (rely and guarantee are the same relation, since the handlers are of one kind). *)
From S2P Require Import Prelude Interact.

Section Pool.
Context {I : iface}.

Abbreviation pool := (list (prog I unit)).

(** Run a handler up to its next await. *)
Fixpoint settle {A} (p : prog I A) (s : st I) : prog I A * st I :=
  match p with
  | Get k => settle (k s) s
  | Put s' k => settle k s'
  | _ => (p, s)
  end.

Record config := Config { c_st : st I; c_hist : history I; c_pool : pool }.

(** [start p]: a handler that may be started; [asm]: what is assumed of an answer. *)
Variable start : prog I unit -> Prop.
Variable asm : history I -> forall c, res (ans I c) -> Prop.

Inductive step : config -> config -> Prop :=
| step_start p s h ps :
    start p ->
    step (Config s h ps) (Config (settle p s).2 h (ps ++ [(settle p s).1]))
| step_answer c k r s h ps1 ps2 :
    asm h c r ->
    step (Config s h (ps1 ++ Call c k :: ps2))
         (Config (settle (k r) s).2 (Ev c r :: h) (ps1 ++ (settle (k r) s).1 :: ps2)).

(** ** Rely–guarantee *)

Variable G : st I -> st I -> Prop.
Variable ok : cmd I -> Prop.
Context `{HG : !PreOrder G}.

Fixpoint rg {A} (p : prog I A) (s : st I) (Q : res A -> st I -> Prop) : Prop :=
  match p with
  | Ret a => Q (Ok a) s
  | Throw e => Q (Err e) s
  | Get k => rg (k s) s Q
  | Put s' k => G s s' /\ rg k s' Q
  | Call c k => ok c /\ forall h r s', asm h c r -> G s s' -> rg (k r) s' Q
  end.

Lemma rg_mono {A} (p : prog I A) s (Q Q' : res A -> st I -> Prop) :
  (forall o s', Q o s' -> Q' o s') -> rg p s Q -> rg p s Q'.
Proof.
  intros HQ. revert s. induction p as [| |k IH|s' k IH|c k IH]; simpl; intros s Hp; [auto..| | |].
  - by apply IH.
  - destruct Hp; auto.
  - destruct Hp as [? Hp]. split; [done|]. intros. by eapply IH, Hp.
Qed.

Lemma rg_bind {A B} (p : prog I A) (f : A -> prog I B) s Q :
  rg p s (fun o s' => match o with Ok a => rg (f a) s' Q | Err e => Q (Err e) s' end) ->
  rg (bind p f) s Q.
Proof.
  revert s. induction p as [| |k IH|s' k IH|c k IH]; simpl; intros s Hp; [done..| | |].
  - by apply IH.
  - destruct Hp; auto.
  - destruct Hp as [? Hp]. split; [done|]. intros. by eapply IH, Hp.
Qed.

Lemma rg_attempt {A} (p : prog I A) s Q :
  rg p s (fun o s' => Q (Ok o) s') -> rg (attempt p) s Q.
Proof.
  revert s. induction p as [| |k IH|s' k IH|c k IH]; simpl; intros s Hp; [done..| | |].
  - by apply IH.
  - destruct Hp; auto.
  - destruct Hp as [? Hp]. split; [done|]. intros. by eapply IH, Hp.
Qed.

Lemma rg_call c s Q :
  ok c -> (forall h r s', asm h c r -> G s s' -> Q r s') -> rg (call c) s Q.
Proof. simpl. intros Hok HQ. split; [done|]. intros h [a|e] s' Ha Hs; simpl; by eapply HQ. Qed.

(** A loop over [l] whose body re-establishes [Inv], an assertion that survives [G]. *)
Lemma rg_for_each {A} (f : A -> prog I unit) (l : list A) (Inv : list A -> st I -> Prop) s Q :
  Inv [] s ->
  (forall done x s, x ∈ l -> Inv done s ->
     rg (f x) s (fun o s' => match o with Ok _ => Inv (done ++ [x]) s' | Err e => Q (Err e) s' end)) ->
  (forall s, Inv l s -> Q (Ok tt) s) ->
  rg (for_each f l) s Q.
Proof.
  intros H0 Hf HQ. change l with ([] ++ l) in HQ. revert H0 HQ. generalize (@nil A) as dn.
  revert s. induction l as [|x l IH]; intros s dn H0 HQ; simpl; [apply HQ; by rewrite app_nil_r|].
  apply rg_bind. eapply rg_mono; [|apply Hf; [left|done]].
  intros [[]|e] s' H; [|done]. apply (IH ltac:(intros; apply Hf; [by right|done]) s' (dn ++ [x])); [done|].
  intros s1 Hi. apply HQ. by rewrite <- app_assoc in Hi.
Qed.

(** A handler that runs alone is one of the schedules: its rely–guarantee specification is a
    specification of its sequential runs. *)
Lemma rg_wp {A} (p : prog I A) s h Q (asm' : history I -> forall c, res (ans I c) -> Prop) :
  (forall h c r, asm' h c r -> asm h c r) ->
  rg p s Q -> wp (fun _ _ => True) asm' p s h (fun o s' _ => Q o s').
Proof.
  intros Ha. revert s h. induction p as [| |k IH|s' k IH|c k IH]; simpl; intros s h Hp; [done..| | |].
  - by apply IH.
  - by apply IH, Hp.
  - split; [done|]. intros r Hr. eapply IH, Hp; [by apply Ha|done].
Qed.

(** What a verified handler does up to its next await. *)
Lemma settle_rg {A} (p : prog I A) s Q :
  rg p s Q -> G s (settle p s).2 /\ rg (settle p s).1 (settle p s).2 Q.
Proof.
  revert s. induction p as [| |k IH|s' k IH|c k IH]; simpl; intros s Hp; try (by split).
  - by apply IH.
  - destruct Hp as [Hs Hp]. destruct (IH _ Hp). split; [by etransitivity|done].
Qed.

(** The invariant of a pool of verified handlers: each is done, or waits for the answer of a
    permitted command and is verified for every answer and every later state. *)
Definition waiting (s : st I) (p : prog I unit) : Prop :=
  match p with
  | Call c k => ok c /\ forall h r s', asm h c r -> G s s' -> rg (k r) s' (fun _ _ => True)
  | Ret _ | Throw _ => True
  | _ => False
  end.

Lemma waiting_later s s' p : G s s' -> waiting s p -> waiting s' p.
Proof.
  destruct p; simpl; try done. intros Hs [Hok Hp]. split; [done|].
  intros h r s2 Ha Hs2. eapply Hp; [done|]. by etransitivity.
Qed.

Lemma settle_waiting p s : rg p s (fun _ _ => True) -> waiting (settle p s).2 (settle p s).1.
Proof.
  revert s. induction p as [| |k IH|s' k IH|c k IH]; simpl; intros s Hp; [done..| | |].
  - by apply IH.
  - apply IH, Hp.
  - done.
Qed.

(** [Inv]: an assertion on the shared state that [G] preserves, under which every handler that
    may be started is verified. *)
Variable Inv : st I -> Prop.
Hypothesis Inv_G : forall s s', G s s' -> Inv s -> Inv s'.
Hypothesis start_rg : forall p s, Inv s -> start p -> rg p s (fun _ _ => True).

Record sound (x : config) : Prop := {
  so_inv : Inv (c_st x);
  so_pool : Forall (waiting (c_st x)) (c_pool x);
  so_hist : Forall (fun e => match e with Ev c _ => ok c end) (c_hist x);
}.

Lemma step_sound x y : step x y -> sound x -> G (c_st x) (c_st y) /\ sound y.
Proof.
  intros Hxy [Hi Hw Hh]. destruct Hxy as [p s h ps Hp|c k r s h ps1 ps2 Ha]; simpl in *.
  - pose proof (start_rg p s Hi Hp) as Hr. destruct (settle_rg p s _ Hr) as [Hs _]. split; [done|].
    split; [by eapply Inv_G| |done]. simpl. apply Forall_app; split; [|apply Forall_cons; split; [|done]].
    + eapply Forall_impl; [done|]. intros q. by apply waiting_later.
    + by apply settle_waiting.
  - apply Forall_app in Hw as [H1 [Hc H2]%Forall_cons]. simpl in Hc. destruct Hc as [Hok Hc].
    assert (rg (k r) s (fun _ _ => True)) as Hk by by eapply Hc.
    destruct (settle_rg _ s _ Hk) as [Hs _]. split; [done|].
    split; simpl; [by eapply Inv_G| |by apply Forall_cons].
    apply Forall_app; split; [|apply Forall_cons; split].
    + eapply Forall_impl; [done|]. intros q. by apply waiting_later.
    + by apply settle_waiting.
    + eapply Forall_impl; [done|]. intros q. by apply waiting_later.
Qed.

(** Every schedule of verified handlers moves the shared state by [G] only, keeps the invariant
    and issues permitted commands only. *)
Lemma steps_sound x y : rtc step x y -> sound x -> G (c_st x) (c_st y) /\ sound y.
Proof.
  induction 1 as [x|x y z Hxy Hyz IH]; intros Hx; [by split|].
  destruct (step_sound _ _ Hxy Hx) as [Hs Hy]. destruct (IH Hy) as [Hs' Hz].
  split; [by etransitivity|done].
Qed.
End Pool.
Arguments config I : clear implicits.
Arguments Config {I} _ _ _.

(** A handler that runs alone, with every answer delivered in turn, is a schedule. *)
Lemma alone_schedule {I : iface} (startp : prog I unit -> Prop) asm (e : env I) (p : prog I unit) s h :
  respects asm e ->
  exists q, rtc (step startp asm) (Config (settle p s).2 h [(settle p s).1])
                (Config (run e p s h).1.2 (run e p s h).2 [q]).
Proof.
  intros He. revert s h. induction p as [x|m|k IH|s' k IH|c k IH]; intros s h; simpl.
  - by exists (Ret x).
  - by exists (Throw m).
  - apply IH.
  - apply IH.
  - destruct (IH (e h c) s (Ev c (e h c) :: h)) as [q Hq]. exists q. eapply rtc_l; [|exact Hq].
    apply (step_answer startp asm c k (e h c) s h [] []). apply He.
Qed.

(** ** Ownership

    Handlers that take an entry of a shared set before they work on it and give it back in the
    end.  [ow p s o Q] follows what handler [p] owns, [o]: a write may release owned entries and
    take entries nobody holds, other handlers never touch the owned ones, and a command may be
    issued only with the ownership [okc] asks for. *)
Section Ownership.
Context {I : iface}.
Variable held : st I -> gset string.

(** Give back [o], take [o'], leave what the others hold alone. *)
Definition trade (s : st I) (o : gset string) (s' : st I) (o' : gset string) : Prop :=
  held s' = (held s ∖ o) ∪ o' /\ o' ## held s ∖ o.

Lemma trade_refl s s' o : o ⊆ held s -> held s' = held s -> trade s o s' o.
Proof. intros Ho Hs. split; [|set_solver]. rewrite Hs. apply set_eq. intros x. destruct (decide (x ∈ o)); set_solver. Qed.

Lemma trade_trans s o s1 o1 s2 o2 : trade s o s1 o1 -> trade s1 o1 s2 o2 -> trade s o s2 o2.
Proof.
  intros [H1 D1] [H2 D2]. assert (held s1 ∖ o1 = held s ∖ o) as Heq.
  { rewrite H1. apply set_eq. set_solver. }
  rewrite Heq in H2, D2. done.
Qed.

Lemma trade_owned s o s' o' : trade s o s' o' -> o' ⊆ held s'.
Proof. intros [-> _]. set_solver. Qed.

Variable start : prog I unit -> Prop.
Variable asm : history I -> forall c, res (ans I c) -> Prop.
Variable okc : gset string -> cmd I -> Prop.

Fixpoint ow {A} (p : prog I A) (s : st I) (o : gset string)
    (Q : res A -> st I -> gset string -> Prop) : Prop :=
  match p with
  | Ret a => Q (Ok a) s o
  | Throw e => Q (Err e) s o
  | Get k => ow (k s) s o Q
  | Put s' k => exists o', trade s o s' o' /\ ow k s' o' Q
  | Call c k => okc o c /\ forall h r s', asm h c r -> o ⊆ held s' -> ow (k r) s' o Q
  end.

Lemma ow_mono {A} (p : prog I A) s o (Q Q' : res A -> st I -> gset string -> Prop) :
  (forall r s' o', Q r s' o' -> Q' r s' o') -> ow p s o Q -> ow p s o Q'.
Proof.
  intros HQ. revert s o. induction p as [| |k IH|s' k IH|c k IH]; simpl; intros s o Hp; [auto..| | |].
  - by apply IH.
  - destruct Hp as (o' & ? & ?). eauto.
  - destruct Hp as [? Hp]. split; [done|]. intros. by eapply IH, Hp.
Qed.

Lemma ow_bind {A B} (p : prog I A) (f : A -> prog I B) s o Q :
  ow p s o (fun r s' o' => match r with Ok a => ow (f a) s' o' Q | Err e => Q (Err e) s' o' end) ->
  ow (bind p f) s o Q.
Proof.
  revert s o. induction p as [| |k IH|s' k IH|c k IH]; simpl; intros s o Hp; [done..| | |].
  - by apply IH.
  - destruct Hp as (o' & ? & ?). eauto.
  - destruct Hp as [? Hp]. split; [done|]. intros. by eapply IH, Hp.
Qed.

Lemma ow_attempt {A} (p : prog I A) s o Q :
  ow p s o (fun r s' o' => Q (Ok r) s' o') -> ow (attempt p) s o Q.
Proof.
  revert s o. induction p as [| |k IH|s' k IH|c k IH]; simpl; intros s o Hp; [done..| | |].
  - by apply IH.
  - destruct Hp as (o' & ? & ?). eauto.
  - destruct Hp as [? Hp]. split; [done|]. intros. by eapply IH, Hp.
Qed.

Lemma ow_call c s o Q :
  okc o c -> (forall h r s', asm h c r -> o ⊆ held s' -> Q r s' o) -> ow (call c) s o Q.
Proof. simpl. intros Hok HQ. split; [done|]. intros h [x|e] s' Ha Ho; simpl; by eapply HQ. Qed.

(** A loop whose iterations each return what they took. *)
Lemma ow_first_some {A B} (f : A -> prog I (option B)) (l : list A) s o Q :
  (forall x s, x ∈ l -> o ⊆ held s ->
     ow (f x) s o (fun r s' o' => o' = o /\ o ⊆ held s' /\ match r with Ok None => True | _ => Q r s' o end)) ->
  o ⊆ held s -> (forall s', o ⊆ held s' -> Q (Ok None) s' o) ->
  ow (first_some f l) s o Q.
Proof.
  intros Hf Ho HQ. revert s Ho. induction l as [|x l IH]; intros s Ho; simpl; [by apply HQ|].
  apply ow_bind. eapply ow_mono; [|apply Hf; [left|done]].
  intros [[b|]|e] s' o' (-> & Ho' & H); [done| |done]. apply IH; [|done]. intros; apply Hf; [by right|done].
Qed.

(** The owner's side of a suspended handler. *)
Definition owner (p : prog I unit) (o : gset string) : Prop :=
  match p with
  | Call c k => okc o c /\ forall h r s', asm h c r -> o ⊆ held s' -> ow (k r) s' o (fun _ _ _ => True)
  | Ret _ | Throw _ => True
  | _ => False
  end.

Lemma settle_owner p s o :
  ow p s o (fun _ _ _ => True) -> o ⊆ held s ->
  exists o', trade s o (settle p s).2 o' /\ owner (settle p s).1 o'.
Proof.
  revert s o. induction p as [| |k IH|s' k IH|c k IH]; simpl; intros s o Hp Ho.
  1-2: exists o; split; [by apply trade_refl|done].
  - by apply IH.
  - destruct Hp as (o1 & Ht & Hp). destruct (IH _ _ Hp (trade_owned _ _ _ _ Ht)) as (o2 & Ht2 & Hw).
    exists o2. split; [by eapply trade_trans|done].
  - exists o. split; [by apply trade_refl|done].
Qed.

(** Each handler of the pool owns its part of the shared set, and the parts are disjoint. *)
Definition partition (s : st I) (os : list (gset string)) : Prop :=
  (forall i j x y, i <> j -> os !! i = Some x -> os !! j = Some y -> x ## y) /\ Forall (fun x => x ⊆ held s) os.

Definition owned_pool (x : config I) : Prop :=
  exists os, Forall2 owner (c_pool x) os /\ partition (c_st x) os.

Lemma partition_update s s' os1 o os2 o' :
  partition s (os1 ++ o :: os2) -> trade s o s' o' -> partition s' (os1 ++ o' :: os2).
Proof.
  intros [Hd Hs] Ht. set (n := length os1).
  assert (forall i, i <> n -> (os1 ++ o' :: os2) !! i = (os1 ++ o :: os2) !! i) as Hne.
  { intros i Hi. destruct (decide (i < n)%nat).
    - by rewrite !lookup_app_l by done.
    - rewrite !lookup_app_r by lia. destruct (i - length os1)%nat eqn:E; [lia|done]. }
  assert ((os1 ++ o :: os2) !! n = Some o) as Hn by by apply list_lookup_middle.
  assert ((os1 ++ o' :: os2) !! n = Some o') as Hn' by by apply list_lookup_middle.
  assert (forall i x, i <> n -> (os1 ++ o :: os2) !! i = Some x -> x ⊆ held s ∖ o) as Hx.
  { intros i x Hi Hl. pose proof (Hd i n x o Hi Hl Hn). rewrite Forall_lookup in Hs. pose proof (Hs i x Hl). set_solver. }
  destruct Ht as [Hh Hdis]. split.
  - intros i j x y Hij Hi Hj. destruct (decide (i = n)) as [->|Hin], (decide (j = n)) as [->|Hjn]; [done| | |].
    + rewrite Hn' in Hi. injection Hi as <-. rewrite Hne in Hj by done. pose proof (Hx j y Hjn Hj). set_solver.
    + rewrite Hn' in Hj. injection Hj as <-. rewrite Hne in Hi by done. pose proof (Hx i x Hin Hi). set_solver.
    + rewrite Hne in Hi, Hj by done. by apply (Hd i j).
  - apply Forall_lookup. intros i x Hi. rewrite Hh. destruct (decide (i = n)) as [->|Hin].
    + rewrite Hn' in Hi. injection Hi as <-. set_solver.
    + rewrite Hne in Hi by done. pose proof (Hx i x Hin Hi). set_solver.
Qed.

Lemma partition_empty s os : partition s os -> partition s (os ++ [∅]).
Proof.
  intros [Hd Hs]. split.
  - intros i j x y Hij [Hi|[_ Hi]]%lookup_app_Some [Hj|[_ Hj]]%lookup_app_Some; [by apply (Hd i j)| | |];
      first [apply list_lookup_singleton_Some in Hi as [_ <-]|apply list_lookup_singleton_Some in Hj as [_ <-]]; set_solver.
  - apply Forall_app. split; [done|]. apply Forall_singleton. set_solver.
Qed.

Hypothesis start_ow : forall p s, start p -> ow p s ∅ (fun _ _ _ => True).

Lemma step_owned x y : step start asm x y -> owned_pool x -> owned_pool y.
Proof.
  intros Hxy (os & Hf & Hp). destruct Hxy as [p s h ps Hst|c k r s h ps1 ps2 Ha]; simpl in *.
  - destruct (settle_owner p s ∅ (start_ow p s Hst)) as (o' & Ht & Hw); [set_solver|].
    exists (os ++ [o']). split; [apply Forall2_app; [done|by repeat constructor]|].
    eapply partition_update; [by apply partition_empty|done].
  - apply Forall2_app_inv_l in Hf as (os1 & os' & Hf1 & Hf' & ->).
    apply Forall2_cons_inv_l in Hf' as (o & os2 & [Hok Hk] & Hf2 & ->).
    assert (o ⊆ held s) as Ho.
    { destruct Hp as [_ Hs]. rewrite Forall_lookup in Hs. apply (Hs (length os1)). by apply list_lookup_middle. }
    destruct (settle_owner (k r) s o (Hk h r s Ha Ho) Ho) as (o' & Ht & Hw).
    exists (os1 ++ o' :: os2). split; [apply Forall2_app; [done|by constructor]|]. by eapply partition_update.
Qed.

Lemma steps_owned x y : rtc (step start asm) x y -> owned_pool x -> owned_pool y.
Proof. induction 1; [done|]. intros. eauto using step_owned. Qed.

(** Two handlers that await answers own disjoint entries. *)
Lemma owned_disjoint x i j c1 k1 c2 k2 :
  owned_pool x -> i <> j -> c_pool x !! i = Some (Call c1 k1) -> c_pool x !! j = Some (Call c2 k2) ->
  exists o1 o2, okc o1 c1 /\ okc o2 c2 /\ o1 ## o2.
Proof.
  intros (os & Hf & Hd & _) Hij Hi Hj.
  destruct (Forall2_lookup_l _ _ _ _ _ Hf Hi) as (o1 & H1 & [Ho1 _]).
  destruct (Forall2_lookup_l _ _ _ _ _ Hf Hj) as (o2 & H2 & [Ho2 _]).
  exists o1, o2. split; [done|]. split; [done|]. by apply (Hd i j).
Qed.
End Ownership.

(** Handlers restricted to a set of commands issue no other command in any schedule. *)
Lemma settle_calls_kept {I : iface} {A} (P : cmd I -> Prop) (p : prog I A) s :
  calls P True p -> calls P True (settle p s).1.
Proof.
  revert s. induction p as [| |k IH|s' k IH|c k IH]; simpl; intros s Hp; [done..| | |done].
  - by apply IH.
  - apply IH, Hp.
Qed.

Lemma steps_calls {I : iface} (start : prog I unit -> Prop) asm (P : cmd I -> Prop) x y :
  (forall p, start p -> calls P True p) -> rtc (step start asm) x y ->
  Forall (calls P True) (c_pool x) -> Forall (fun e => match e with Ev c _ => P c end) (c_hist x) ->
  Forall (fun e => match e with Ev c _ => P c end) (c_hist y).
Proof.
  intros Hst. induction 1 as [|x y z Hxy Hyz IH]; [done|]. intros Hp Hh. apply IH.
  - destruct Hxy as [p s h ps Hs|c k r s h ps1 ps2 Ha]; simpl in *.
    + apply Forall_app. split; [done|]. apply Forall_singleton. by apply settle_calls_kept, Hst.
    + apply Forall_app in Hp as [? [[_ Hk] ?]%Forall_cons]. apply Forall_app. split; [done|].
      apply Forall_cons. split; [|done]. by apply settle_calls_kept.
  - destruct Hxy as [p s h ps Hs|c k r s h ps1 ps2 Ha]; simpl in *; [done|].
    apply Forall_app in Hp as [_ [[Hc _] _]%Forall_cons]. by apply Forall_cons.
Qed.

(** ** Playing a schedule

    Executable schedules: start a handler, or deliver to handler [i] the answer environment [e]
    gives. *)
Section Play.
Context {I : iface}.

Inductive act := Start (p : prog I unit) | Deliver (i : nat).

Definition play1 (e : env I) (a : act) (x : config I) : config I :=
  match a with
  | Start p => Config (settle p (c_st x)).2 (c_hist x) (c_pool x ++ [(settle p (c_st x)).1])
  | Deliver i =>
      match c_pool x !! i with
      | Some (Call c k) =>
          let r := e (c_hist x) c in
          Config (settle (k r) (c_st x)).2 (Ev c r :: c_hist x) (<[i := (settle (k r) (c_st x)).1]> (c_pool x))
      | _ => x
      end
  end.

Definition play (e : env I) (acts : list act) (x : config I) : config I := foldl (fun x a => play1 e a x) x acts.

Variable start : prog I unit -> Prop.
Variable asm : history I -> forall c, res (ans I c) -> Prop.

Lemma play1_steps e a x :
  respects asm e -> (forall p, a = Start p -> start p) -> rtc (step start asm) x (play1 e a x).
Proof.
  intros He Ha. destruct x as [s h ps], a as [p|i]; simpl.
  - apply rtc_once, step_start. by apply Ha.
  - destruct (ps !! i) as [[| | | |c k]|] eqn:Hi; try done.
    pose proof (take_drop_middle ps i _ Hi) as Heq.
    rewrite <- Heq at 1. rewrite insert_take_drop by (by eapply lookup_lt_Some).
    apply rtc_once, step_answer, He.
Qed.

Lemma play_steps e acts x :
  respects asm e -> Forall (fun a => forall p, a = Start p -> start p) acts -> rtc (step start asm) x (play e acts x).
Proof.
  intros He. revert x. induction acts as [|a acts IH]; intros x Ha; simpl; [done|].
  apply Forall_cons in Ha as [H1 H2]. etransitivity; [by apply play1_steps|by apply IH].
Qed.
End Play.
