(* ===== verification/BridgeCore.v ===== *)
(** * Bridge relayer, pure part ([src/scripts/bridge-relayer-core.ts])

    Routing, the canonical withdrawal id, the owed amount, decoding and verification of release
    logs, the binding of a timelock record, the classification of a processed id, the refund
    gate, and the confirmation depths.  Functions of the viem library are the operations of the
    class [Viem]. *)
From S2P Require Import Prelude JsText JsNum.
Local Open Scope Z_scope.

Definition Hex := string.

Definition ZERO_ADDRESS : string := "0x0000000000000000000000000000000000000000".

(** ** Events of the RougeBridge contract and of an ERC-20 token *)

Inductive BridgeEvent : Type :=
| BridgeReleaseETH (recipient : string) (amount : Z) (l1TxId : Hex)
| BridgeReleaseERC20 (recipient token : string) (amount : Z) (l1TxId : Hex)
| TimelockQueued (requestId executeAfter : Z)
| TimelockExecuted (requestId : Z)
| TimelockCancelled (requestId : Z).

Record Erc20Transfer := { xfer_from : string; xfer_to : string; xfer_value : Z }.

(** The part of viem the relayer core calls.  [isAddress] is [isAddress(a, {strict: false})];
    [decodeBridgeLog] and [decodeTransferLog] are [decodeEventLog] with [ROUGE_BRIDGE_ABI] and
    [ERC20_EVENTS_ABI]; they throw on a log that is not an event of the ABI. *)
Class Viem := {
  keccak256 : list Z -> Hex;
  stringToBytes : string -> list Z;
  isAddress : string -> bool;
  getAddress : string -> res string;
  decodeBridgeLog : Hex -> list Hex -> res BridgeEvent;
  decodeTransferLog : Hex -> list Hex -> res Erc20Transfer;
}.

Section Core.
Context `{V : Viem}.

(** ** Canonical id and addresses *)

Definition rougeBridgeId (storedTxId : string) : Hex := keccak256 (stringToBytes storedTxId).

Definition isEvmAddress (a : option string) : bool :=
  match a with Some s => truthy s && isAddress s | None => false end.

Definition sameAddress (a b : string) : bool :=
  truthy a && truthy b && (toLowerCase a =? toLowerCase b)%string.

Definition sameHex (a b : string) : bool :=
  truthy a && truthy b && (toLowerCase a =? toLowerCase b)%string.

(** ** Routing *)

Inductive PayoutRoute := RXrge | REth | RUsdc | RBtc | RUnsupported.

Inductive EvmAsset := Eth | Usdc.

#[global] Instance PayoutRoute_eq_dec : EqDecision PayoutRoute.
Proof. solve_decision. Defined.
#[global] Instance EvmAsset_eq_dec : EqDecision EvmAsset.
Proof. solve_decision. Defined.

Definition payoutRoute (tokenSymbol : option string) : PayoutRoute :=
  let t := toLowerCase (trim (opt_str tokenSymbol)) in
  if (t =? "xrge")%string then RXrge
  else if (t =? "qeth")%string then REth
  else if (t =? "qusdc")%string then RUsdc
  else if (t =? "qbtc")%string then RBtc
  else RUnsupported.

(** ** Withdrawal records *)

Record EthWithdrawal := {
  w_txId : option string; w_tx_id : option string;
  w_evmAddress : option string; w_evm_address : option string;
  w_amountUnits : option number; w_amount_units : option number;
  w_tokenSymbol : option string; w_token_symbol : option string;
}.

Record NormalizedEvmWithdrawal := {
  tx_id : string;
  evm_address : string;
  amount_units : number;
  token_symbol : string;
}.

(** [a || b || 0] on optional numbers. *)
Definition num_or (a b : option number) : number :=
  match a with
  | Some x => if num_truthy x then x
              else match b with Some y => if num_truthy y then y else num_of_Z 0 | None => num_of_Z 0 end
  | None => match b with Some y => if num_truthy y then y else num_of_Z 0 | None => num_of_Z 0 end
  end.

Definition normalizeEthWithdrawal (w : EthWithdrawal) : NormalizedEvmWithdrawal := {|
  tx_id := str_or (opt_str (w_txId w)) (opt_str (w_tx_id w));
  evm_address := str_or (opt_str (w_evmAddress w)) (opt_str (w_evm_address w));
  amount_units := num_or (w_amountUnits w) (w_amount_units w);
  token_symbol := trim (str_or (opt_str (w_tokenSymbol w)) (opt_str (w_token_symbol w)));
|}.

(** [BigInt(amountUnits)] throws on a number that is not an integer. *)
Definition bigint (x : number) : res Z :=
  match BigInt_of_number x with
  | Some z => Ok z
  | None => Err "The number cannot be converted to a BigInt because it is not an integer"
  end.

Definition unitsToWei (amountUnits : number) : res Z :=
  res_bind (bigint amountUnits) (fun z => Ok (z * 10 ^ 12)).

Definition owedAmount (asset : EvmAsset) (amountUnits : number) : res Z :=
  match asset with
  | Eth => unitsToWei amountUnits
  | Usdc => bigint amountUnits
  end.

(** ** Log decoding *)

Record RawLog := {
  log_address : string;
  log_data : Hex;
  log_topics : list Hex;
  log_transactionHash : option Hex;
  log_blockNumber : option Z;
}.

Record DecodedBridgeEvent := {
  ev : BridgeEvent;
  ev_txHash : option Hex;
  ev_blockNumber : option Z;
}.

Fixpoint decodeBridgeEvents (logs : list RawLog) (bridgeAddress : string) : list DecodedBridgeEvent :=
  match logs with
  | [] => []
  | lg :: rest =>
      if negb (sameAddress (log_address lg) bridgeAddress) then decodeBridgeEvents rest bridgeAddress
      else match decodeBridgeLog (log_data lg) (log_topics lg) with
           | Err _ => decodeBridgeEvents rest bridgeAddress
           | Ok e => {| ev := e; ev_txHash := log_transactionHash lg;
                        ev_blockNumber := log_blockNumber lg |}
                     :: decodeBridgeEvents rest bridgeAddress
           end
  end.

Fixpoint decodeErc20Transfers (logs : list RawLog) (tokenAddress : string) : list Erc20Transfer :=
  match logs with
  | [] => []
  | lg :: rest =>
      if negb (sameAddress (log_address lg) tokenAddress) then decodeErc20Transfers rest tokenAddress
      else match decodeTransferLog (log_data lg) (log_topics lg) with
           | Err _ => decodeErc20Transfers rest tokenAddress
           | Ok t => t :: decodeErc20Transfers rest tokenAddress
           end
  end.

(** ** Release verification *)

Record ExpectedRelease := {
  asset : EvmAsset;
  recipient : string;
  amount : Z;
  canonicalId : Hex;
  bridgeAddress : string;
  usdcAddress : string;
}.

Definition eth_release_matches (exp : ExpectedRelease) (e : DecodedBridgeEvent) : bool :=
  match ev e with
  | BridgeReleaseETH r a id =>
      sameAddress r (recipient exp) && (amount exp <=? a) && sameHex id (canonicalId exp)
  | _ => false
  end.

Definition erc20_release_matches (exp : ExpectedRelease) (e : DecodedBridgeEvent) : bool :=
  match ev e with
  | BridgeReleaseERC20 r t a id =>
      sameAddress r (recipient exp) && sameAddress t (usdcAddress exp)
      && (amount exp <=? a) && sameHex id (canonicalId exp)
  | _ => false
  end.

Definition transfer_matches (exp : ExpectedRelease) (t : Erc20Transfer) : bool :=
  sameAddress (xfer_from t) (bridgeAddress exp) && sameAddress (xfer_to t) (recipient exp)
  && (amount exp <=? xfer_value t).

(** [{ ok: true }] is [Ok tt]; [{ ok: false, reason }] is [Err reason]. *)
Definition verifyReleaseLogs (logs : list RawLog) (exp : ExpectedRelease) : res unit :=
  let events := decodeBridgeEvents logs (bridgeAddress exp) in
  match asset exp with
  | Eth =>
      match find (eth_release_matches exp) events with
      | Some _ => Ok tt
      | None => Err "no matching BridgeReleaseETH from RougeBridge"
      end
  | Usdc =>
      match find (erc20_release_matches exp) events with
      | None => Err "no matching BridgeReleaseERC20(USDC) from RougeBridge"
      | Some _ =>
          match find (transfer_matches exp) (decodeErc20Transfers logs (usdcAddress exp)) with
          | None => Err "no matching USDC Transfer(from=RougeBridge,to=recipient) from USDC contract"
          | Some _ => Ok tt
          end
      end
  end.

(** ** Timelock binding *)

Record TimelockRecord := {
  tl_token : string; tl_to : string; tl_amount : Z; tl_l1TxId : Hex; tl_executeAfter : Z;
  tl_executed : bool; tl_cancelled : bool;
}.

Record ExpectedTimelock := {
  et_token : string; et_to : string; et_amount : Z; et_l1TxId : Hex; et_executeAfter : Z;
}.

(** Values an ABI decoder returns in a tuple. *)
Inductive jsval := VUndefined | VNull | VBool (b : bool) | VBig (z : Z) | VStr (s : string).

Definition js_String (v : jsval) : string :=
  match v with
  | VUndefined => "undefined" | VNull => "null"
  | VBool true => "true" | VBool false => "false"
  | VBig z => dec z | VStr s => s
  end.

Definition js_BigInt (v : jsval) : res Z :=
  match v with
  | VUndefined | VNull => Err "Cannot convert to a BigInt"
  | VBool b => Ok (if b then 1 else 0)
  | VBig z => Ok z
  | VStr s => match BigInt_of_string s with Some z => Ok z | None => Err "Cannot convert to a BigInt" end
  end.

Definition js_Boolean (v : jsval) : bool :=
  match v with
  | VUndefined | VNull => false
  | VBool b => b
  | VBig z => negb (z =? 0)
  | VStr s => truthy s
  end.

Definition parseTimelockQueueTuple (t : list jsval) : res TimelockRecord :=
  match t with
  | t0 :: t1 :: t2 :: t3 :: t4 :: t5 :: t6 :: _ =>
      res_bind (js_BigInt t2) (fun a =>
      res_bind (js_BigInt t4) (fun ea =>
      Ok {| tl_token := js_String t0; tl_to := js_String t1; tl_amount := a;
            tl_l1TxId := js_String t3; tl_executeAfter := ea;
            tl_executed := js_Boolean t5; tl_cancelled := js_Boolean t6 |}))
  | _ => Err "timelockQueue getter returned an unexpected tuple"
  end.

Definition timelockRecordMatches (rec : TimelockRecord) (exp : ExpectedTimelock) : bool :=
  sameAddress (tl_token rec) (et_token exp)
  && sameAddress (tl_to rec) (et_to exp)
  && (tl_amount rec =? et_amount exp)
  && sameHex (tl_l1TxId rec) (et_l1TxId exp)
  && (tl_executeAfter rec =? et_executeAfter exp).

Definition expectedTimelockFor (exp : ExpectedRelease) (executeAfter : Z) : ExpectedTimelock := {|
  et_token := match asset exp with Eth => ZERO_ADDRESS | Usdc => usdcAddress exp end;
  et_to := recipient exp;
  et_amount := amount exp;
  et_l1TxId := canonicalId exp;
  et_executeAfter := executeAfter;
|}.

(** ** Processed-id classification and refund gate *)

Inductive ProcessedClass := Paid | Queued | CancelledRefundCandidate | Ambiguous.
#[global] Instance ProcessedClass_eq_dec : EqDecision ProcessedClass.
Proof. solve_decision. Defined.

Record OnChainFacts := {
  verifiedRelease : bool;
  queueRecord : option TimelockRecord;
  expected : ExpectedTimelock;
}.

Definition classifyProcessed (f : OnChainFacts) : ProcessedClass :=
  if verifiedRelease f then Paid
  else match queueRecord f with
       | Some rec =>
           if timelockRecordMatches rec (expected f) then
             if tl_executed rec then Ambiguous
             else if tl_cancelled rec then CancelledRefundCandidate
             else Queued
           else Ambiguous
       | None => Ambiguous
       end.

Inductive RefundDecision := NormalAnalysis | Forbidden | MayProceedAfterCancellationProof.

Definition refundDecision (processed : bool) (cls : option ProcessedClass) : RefundDecision :=
  if negb processed then NormalAnalysis
  else match cls with
       | Some CancelledRefundCandidate => MayProceedAfterCancellationProof
       | _ => Forbidden
       end.

(** ** Environment toggles and confirmation depths

    [process.env] is a lookup function; counts of blocks are integers. *)

Definition penv := string -> option string.

Definition autoRefundEnabled (env : penv) : bool :=
  (toLowerCase (trim (opt_str (env "AUTO_REFUND"))) =? "true")%string.

Definition observeOnlyEnabled (env : penv) : bool :=
  (toLowerCase (trim (opt_str (env "BRIDGE_OBSERVE_ONLY"))) =? "true")%string.

Definition daemonMinConfirmations (env : penv) : Z :=
  match parseInt10 (opt_str (env "QV_BRIDGE_MIN_CONFIRMATIONS")) with
  | Some n => if 0 <? n then n else 6
  | None => 6
  end.

(** [relayerConfirmations] is [None] when it is not a finite number. *)
Definition xrgeFulfillConfirmations (relayerConfirmations : option Z) (env : penv) : Z :=
  Z.max (default 0 relayerConfirmations) (daemonMinConfirmations env).

Definition evmFulfillDepth (fulfillConfirmations : option Z) (env : penv) : Z :=
  Z.max (default 0 fulfillConfirmations) (daemonMinConfirmations env).

Definition depositWatcherSafeHead (head : Z) (relayerConfirmations : option Z) (env : penv) : option Z :=
  let depth := Z.max (default 0 relayerConfirmations) (daemonMinConfirmations env) in
  let safe := head - depth in
  if 0 <? safe then Some safe else None.

(** Depth of a payout in block [block] under chain head [head]. *)
Definition confirmation_depth (head block : Z) : Z :=
  if block <=? head then head - block + 1 else 0.

(** ** Daemon health gate *)

(** [body] is the parsed answer's own properties; [None] when it is null, undefined or has none. *)
Record BridgeHealthResponse := { health_status : Z; health_body : option (list (string * jsval)) }.

Definition prop (o : list (string * jsval)) (k : string) : jsval :=
  match find (fun kv => (fst kv =? k)%string) o with Some kv => snd kv | None => VUndefined end.

Definition bridgeHealthAllowsPayouts (h : option BridgeHealthResponse) : bool :=
  match h with
  | None => false
  | Some h =>
      if negb (health_status h =? 200) then false
      else match prop (default [] (health_body h)) "degraded" with
           | VBool false => true
           | _ => false
           end
  end.

Definition expectedReleaseFor (w : NormalizedEvmWithdrawal) (a : EvmAsset)
    (bridge usdc : string) : res ExpectedRelease :=
  res_bind (getAddress (evm_address w)) (fun r =>
  res_bind (owedAmount a (amount_units w)) (fun owed =>
  Ok {| asset := a; recipient := r; amount := owed; canonicalId := rougeBridgeId (tx_id w);
        bridgeAddress := bridge; usdcAddress := usdc |})).

End Core.

(** ** What a release receipt proves *)

Section Facts.
Context `{V : Viem}.

(** The event [e] was emitted by contract [a] in one of the logs. *)
Definition bridge_emitted (logs : list RawLog) (a : string) (e : BridgeEvent) : Prop :=
  exists lg, lg ∈ logs /\ sameAddress (log_address lg) a = true /\
    decodeBridgeLog (log_data lg) (log_topics lg) = Ok e.

Definition transfer_emitted (logs : list RawLog) (a : string) (t : Erc20Transfer) : Prop :=
  exists lg, lg ∈ logs /\ sameAddress (log_address lg) a = true /\
    decodeTransferLog (log_data lg) (log_topics lg) = Ok t.

(** The declarative meaning of a verified payout. *)
Definition release_proved (logs : list RawLog) (exp : ExpectedRelease) : Prop :=
  match asset exp with
  | Eth => exists r a id,
      bridge_emitted logs (bridgeAddress exp) (BridgeReleaseETH r a id) /\
      sameAddress r (recipient exp) = true /\ amount exp <= a /\ sameHex id (canonicalId exp) = true
  | Usdc =>
      (exists r t a id,
        bridge_emitted logs (bridgeAddress exp) (BridgeReleaseERC20 r t a id) /\
        sameAddress r (recipient exp) = true /\ sameAddress t (usdcAddress exp) = true /\
        amount exp <= a /\ sameHex id (canonicalId exp) = true) /\
      (exists x, transfer_emitted logs (usdcAddress exp) x /\
        sameAddress (xfer_from x) (bridgeAddress exp) = true /\
        sameAddress (xfer_to x) (recipient exp) = true /\ amount exp <= xfer_value x)
  end.

Lemma decodeBridgeEvents_elem logs a d :
  d ∈ decodeBridgeEvents logs a -> bridge_emitted logs a (ev d).
Proof.
  induction logs as [|lg logs IH]; simpl; [by intros ?%elem_of_nil|].
  destruct (sameAddress (log_address lg) a) eqn:Ea; simpl.
  - destruct (decodeBridgeLog _ _) eqn:Ed.
    + intros [->|Hin]%elem_of_cons; [exists lg; split; [left|done]|].
      destruct (IH Hin) as (l & ? & ?). exists l. split; [by right|done].
    + intros Hin. destruct (IH Hin) as (l & ? & ?). exists l. split; [by right|done].
  - intros Hin. destruct (IH Hin) as (l & ? & ?). exists l. split; [by right|done].
Qed.

Lemma decodeBridgeEvents_complete logs a e :
  bridge_emitted logs a e -> exists d, d ∈ decodeBridgeEvents logs a /\ ev d = e.
Proof.
  intros (lg & Hin & Ha & Hd).
  induction logs as [|x logs IH]; [by apply elem_of_nil in Hin|].
  apply elem_of_cons in Hin as [->|Hin]; simpl.
  - rewrite Ha, Hd. simpl. eexists; split; [left|done].
  - destruct (IH Hin) as (d & ? & ?). exists d. split; [|done].
    repeat case_match; [done|by right|done].
Qed.

Lemma decodeErc20_elem logs a t : t ∈ decodeErc20Transfers logs a <-> transfer_emitted logs a t.
Proof.
  unfold transfer_emitted. induction logs as [|lg logs IH]; simpl.
  - split; [by intros ?%elem_of_nil|]. by intros (? & ?%elem_of_nil & _).
  - setoid_rewrite elem_of_cons.
    destruct (sameAddress (log_address lg) a) eqn:Ea; simpl;
      [destruct (decodeTransferLog _ _) eqn:Ed; [rewrite elem_of_cons|]|]; rewrite IH;
      split; intros; break; try naive_solver congruence.
Qed.

Ltac split_bool :=
  repeat match goal with
    | H : (_ && _)%bool = true |- _ => apply andb_true_iff in H; destruct H
    | H : (_ <=? _) = true |- _ => apply Z.leb_le in H
    | |- (_ && _)%bool = true => apply andb_true_iff; split
    | |- (_ <=? _) = true => apply Z.leb_le
    end.

(** A search over the decoded events succeeds exactly when the contract emitted a matching one. *)
Lemma find_event_iff logs a p :
  (exists d, find p (decodeBridgeEvents logs a) = Some d) <->
  (exists d, d ∈ decodeBridgeEvents logs a /\ p d = true).
Proof.
  split; intros [d H].
  - exists d. by apply find_Some_iff.
  - eapply find_is_Some; naive_solver.
Qed.

Lemma find_eth_iff logs exp :
  (exists d, find (eth_release_matches exp) (decodeBridgeEvents logs (bridgeAddress exp)) = Some d) <->
  (exists r a id, bridge_emitted logs (bridgeAddress exp) (BridgeReleaseETH r a id) /\
     sameAddress r (recipient exp) = true /\ amount exp <= a /\ sameHex id (canonicalId exp) = true).
Proof.
  rewrite find_event_iff. unfold eth_release_matches. split.
  - intros (d & Hin & Hm). apply decodeBridgeEvents_elem in Hin.
    destruct (ev d); try done. split_bool. eauto 10.
  - intros (r & a & id & Hem & ?). apply decodeBridgeEvents_complete in Hem as (d & ? & E).
    exists d. rewrite E. split; [done|]. split_bool; naive_solver.
Qed.

Lemma find_erc20_iff logs exp :
  (exists d, find (erc20_release_matches exp) (decodeBridgeEvents logs (bridgeAddress exp)) = Some d) <->
  (exists r t a id, bridge_emitted logs (bridgeAddress exp) (BridgeReleaseERC20 r t a id) /\
     sameAddress r (recipient exp) = true /\ sameAddress t (usdcAddress exp) = true /\
     amount exp <= a /\ sameHex id (canonicalId exp) = true).
Proof.
  rewrite find_event_iff. unfold erc20_release_matches. split.
  - intros (d & Hin & Hm). apply decodeBridgeEvents_elem in Hin.
    destruct (ev d); try done. split_bool. eauto 10.
  - intros (r & t & a & id & Hem & ?). apply decodeBridgeEvents_complete in Hem as (d & ? & E).
    exists d. rewrite E. split; [done|]. split_bool; naive_solver.
Qed.

Lemma find_transfer_iff logs exp :
  (exists t, find (transfer_matches exp) (decodeErc20Transfers logs (usdcAddress exp)) = Some t) <->
  (exists x, transfer_emitted logs (usdcAddress exp) x /\
     sameAddress (xfer_from x) (bridgeAddress exp) = true /\
     sameAddress (xfer_to x) (recipient exp) = true /\ amount exp <= xfer_value x).
Proof.
  unfold transfer_matches. split.
  - intros [t H]. apply find_Some_iff in H as [Hin Hm]. apply decodeErc20_elem in Hin.
    split_bool. eauto.
  - intros (x & Hem & ?). apply decodeErc20_elem in Hem.
    eapply find_is_Some; [done|]. split_bool; naive_solver.
Qed.

Lemma verify_iff logs exp : verifyReleaseLogs logs exp = Ok tt <-> release_proved logs exp.
Proof.
  unfold verifyReleaseLogs, release_proved.
  pose proof (find_eth_iff logs exp) as He. pose proof (find_erc20_iff logs exp) as Hr.
  pose proof (find_transfer_iff logs exp) as Ht.
  destruct (asset exp).
  - rewrite <- He. destruct (find _ _); naive_solver.
  - rewrite <- Hr, <- Ht. destruct (find (erc20_release_matches exp) _); [|naive_solver].
    destruct (find (transfer_matches exp) _); naive_solver.
Qed.

(** C1: receipt verification is exact.  A receipt is accepted as the payout of a withdrawal if
    and only if the configured RougeBridge contract itself emitted the release event with the
    expected recipient, at least the owed amount and the canonical id, and, for qUSDC, the USDC
    contract itself emitted a transfer from the bridge to the recipient of at least that
    amount. *)
Theorem verifyReleaseLogs_exact logs exp :
  verifyReleaseLogs logs exp = Ok tt <-> release_proved logs exp.
Proof. apply verify_iff. Qed.

(** ** Binding of timelock records *)

Definition binds (rec : TimelockRecord) (exp : ExpectedRelease) (ea : Z) : Prop :=
  sameAddress (tl_token rec) (match asset exp with Eth => ZERO_ADDRESS | Usdc => usdcAddress exp end) = true /\
  sameAddress (tl_to rec) (recipient exp) = true /\
  tl_amount rec = amount exp /\
  sameHex (tl_l1TxId rec) (canonicalId exp) = true /\
  tl_executeAfter rec = ea.

Lemma matches_iff rec exp ea :
  timelockRecordMatches rec (expectedTimelockFor exp ea) = true <-> binds rec exp ea.
Proof.
  unfold timelockRecordMatches, expectedTimelockFor, binds. simpl.
  rewrite !andb_true_iff, !Z.eqb_eq. tauto.
Qed.

(** C2: an automatic refund decision for a processed id is possible in one case only: there is
    no verified release, and a record of the contract's timelock queue binds to the withdrawal
    (asset, recipient, amount, id and emitted execution time), is cancelled and is not
    executed.  The sentinel [-1] used when the queue event is missing never binds a record whose
    execution time is a [uint256]. *)
Theorem refund_after_processing verified rec exp ea :
  (refundDecision true (Some (classifyProcessed
     {| verifiedRelease := verified; queueRecord := rec; expected := expectedTimelockFor exp ea |}))
   = MayProceedAfterCancellationProof <->
   verified = false /\ exists r, rec = Some r /\ binds r exp ea /\
     tl_cancelled r = true /\ tl_executed r = false) /\
  (ea = -1 -> (forall r, rec = Some r -> 0 <= tl_executeAfter r) ->
   classifyProcessed
     {| verifiedRelease := verified; queueRecord := rec; expected := expectedTimelockFor exp ea |}
   = if verified then Paid else Ambiguous).
Proof.
  unfold refundDecision, classifyProcessed; simpl. split.
  - destruct verified; [naive_solver|]. destruct rec as [r|]; [|naive_solver].
    pose proof (matches_iff r exp ea) as M.
    destruct (timelockRecordMatches _ _) eqn:E.
    + destruct (tl_executed r) eqn:?, (tl_cancelled r) eqn:?; split; intros; break; subst;
        try congruence. split; [done|]. exists r. split; [done|]. split; [by apply M|done].
    + split; [done|]. intros (_ & r' & [= <-] & Hb & _). apply M in Hb. congruence.
  - intros -> Hr. destruct verified; [done|]. destruct rec as [r|]; [|done].
    destruct (timelockRecordMatches _ _) eqn:E; [|done].
    apply matches_iff in E as (_ & _ & _ & _ & E). specialize (Hr r eq_refl). lia.
Qed.

End Facts.
