(* ===== verification/ToyViem.v ===== *)
(** * A concrete instance of the viem operations

    Used by the concrete runs and witnesses: the claims hold for every instance of [Viem]. *)
From S2P Require Import Prelude JsText JsNum BridgeCore.
Local Open Scope Z_scope.
Local Open Scope string_scope.

(** Toy ABI: the topics carry the event name and its arguments in decimal. *)
Definition toy_decode (data : Hex) (topics : list Hex) : res BridgeEvent :=
  match topics with
  | ["BridgeReleaseETH"; r; a; id] =>
      match BigInt_of_string a with Some z => Ok (BridgeReleaseETH r z id) | None => Err "bad" end
  | ["BridgeReleaseERC20"; r; t; a; id] =>
      match BigInt_of_string a with Some z => Ok (BridgeReleaseERC20 r t z id) | None => Err "bad" end
  | ["TimelockQueued"; rid; ea] =>
      match BigInt_of_string rid, BigInt_of_string ea with
      | Some x, Some y => Ok (TimelockQueued x y)
      | _, _ => Err "bad"
      end
  | _ => Err "unknown event"
  end.

Definition toy_transfer (data : Hex) (topics : list Hex) : res Erc20Transfer :=
  match topics with
  | ["Transfer"; f; t; a] =>
      match BigInt_of_string a with
      | Some z => Ok {| xfer_from := f; xfer_to := t; xfer_value := z |}
      | None => Err "bad"
      end
  | _ => Err "unknown event"
  end.

#[export] Instance toy : Viem := {|
  keccak256 := fun l => "0x" +:+ String.concat "." (map dec l);
  stringToBytes := fun s => map code (chars s);
  isAddress := fun s => (String.length s =? 42)%nat;
  getAddress := fun s => if (String.length s =? 42)%nat then Ok s else Err "invalid address";
  decodeBridgeLog := toy_decode;
  decodeTransferLog := toy_transfer;
|}.
