(* ===== verification/LogScan.v ===== *)
(** * Paginated log scans ([blockRangesDescending], [scanLogPagesDescending],
    [findVaultReleases] of [src/scripts/bridge-relayer-core.ts])

    The ranges a reconciliation scan reads partition the window; a scan returns the pages of
    all of them or throws. *)
From S2P Require Import Prelude JsText Interact.
Local Open Scope Z_scope.

Definition MAX_LOG_SCAN_SPAN : Z := 2000.

Record range := { fromBlock : Z; toBlock : Z }.

#[export] Instance range_eq_dec : EqDecision range.
Proof. solve_decision. Defined.

(** The [while (hi >= from)] loop; one unit of fuel per iteration. *)
Fixpoint ranges_loop (fuel : nat) (from hi maxSpan : Z) : list range :=
  match fuel with
  | O => []
  | S fuel =>
      if from <=? hi then
        let lo := if from <? hi - maxSpan + 1 then hi - maxSpan + 1 else from in
        {| fromBlock := lo; toBlock := hi |} ::
        (if (lo =? 0) || (lo =? from) then [] else ranges_loop fuel from (lo - 1) maxSpan)
      else []
  end.

Definition blockRangesDescending (from to maxSpan : Z) : res (list range) :=
  if (maxSpan <=? 0) || (MAX_LOG_SCAN_SPAN <? maxSpan) then Err "maxSpan must be 1..2000"
  else if to <? from then Ok []
  else Ok (ranges_loop (Z.to_nat (to - from + 1)) from to maxSpan).

(** ** The scan over a page fetcher *)

Record ScanPacing := { pauseMs : Z; retries : nat; backoffMs : Z }.

Section Scan.
Context {T : Type}.

Inductive scan_cmd := FetchPage (r : range) | Sleep (ms : Z).
Definition scan_ans (c : scan_cmd) : Type :=
  match c with FetchPage _ => list T | Sleep _ => unit end.
Definition ScanI : iface := {| st := unit; cmd := scan_cmd; ans := scan_ans |}.

(** The [for (let attempt = 0; ; attempt++)] loop: [left] is [retries - attempt]. *)
Fixpoint fetch_with_retry (r : range) (p : ScanPacing) (attempt : Z) (left : nat)
  : prog ScanI (list T) :=
  bind (Interact.attempt (call (FetchPage r : cmd ScanI))) (fun res =>
    match res with
    | Ok page => Ret page
    | Err e =>
        match left with
        | O => Throw e
        | S left' =>
            bind (call (Sleep (backoffMs p * (attempt + 1)) : cmd ScanI)) (fun _ =>
              fetch_with_retry r p (attempt + 1) left')
        end
    end).

Fixpoint scan_ranges (p : ScanPacing) (rs : list range) : prog ScanI (list T) :=
  match rs with
  | [] => Ret []
  | r :: rs' =>
      bind (fetch_with_retry r p 0 (retries p)) (fun page =>
      bind (if 0 <? pauseMs p then call (Sleep (pauseMs p) : cmd ScanI) else Ret tt) (fun _ =>
      bind (scan_ranges p rs') (fun rest => Ret (page ++ rest))))
  end.

Definition scanLogPagesDescending (from to maxSpan : Z) (p : ScanPacing) : prog ScanI (list T) :=
  bind (of_res (blockRangesDescending from to maxSpan)) (fun rs => scan_ranges p rs).

End Scan.

Record VaultReleaseLog := {
  vl_txHash : string; vl_blockNumber : Z; vl_recipient : string; vl_amount : Z; vl_l1TxId : string;
}.

Definition findVaultReleases (l1TxId : string) (head lookbackBlocks maxSpan : Z) (p : ScanPacing)
  : prog (@ScanI VaultReleaseLog) (list VaultReleaseLog) :=
  let from := if lookbackBlocks <? head then head - lookbackBlocks else 0 in
  bind (scanLogPagesDescending from head maxSpan p) (fun l =>
    Ret (List.filter (fun lg => (vl_l1TxId lg =? l1TxId)%string) l)).

(** ** Ranges partition the window *)

(** [chain hi rs lo]: the ranges are adjacent, from [hi] down to [lo], none empty. *)
Fixpoint chain (hi : Z) (rs : list range) (lo : Z) : Prop :=
  match rs with
  | [] => hi = lo - 1
  | r :: rs' => toBlock r = hi /\ fromBlock r <= hi /\ chain (fromBlock r - 1) rs' lo
  end.

Lemma ranges_loop_chain fuel from hi span :
  0 <= from <= hi -> 0 < span -> (Z.to_nat (hi - from + 1) <= fuel)%nat ->
  chain hi (ranges_loop fuel from hi span) from /\
  Forall (fun r => toBlock r - fromBlock r + 1 <= span) (ranges_loop fuel from hi span).
Proof.
  revert hi. induction fuel as [|fuel IH]; intros hi H Hs Hf; [lia|]. simpl.
  rewrite (proj2 (Z.leb_le from hi)) by lia.
  destruct (from <? hi - span + 1) eqn:E; breflect.
  - destruct (hi - span + 1 =? 0) eqn:E0; breflect; [lia|].
    destruct (hi - span + 1 =? from) eqn:E1; breflect; [lia|]. simpl.
    destruct (IH (hi - span + 1 - 1)) as [IH1 IH2]; [lia..|].
    split; [repeat split; (done || lia)|]. constructor; [simpl; lia|done].
  - rewrite Z.eqb_refl, orb_true_r. simpl. repeat constructor; simpl; lia.
Qed.

Lemma chain_bound hi rs lo r : chain hi rs lo -> r ∈ rs -> lo <= fromBlock r /\ fromBlock r <= toBlock r <= hi.
Proof.
  revert hi. induction rs as [|x rs IH]; simpl; intros hi H Hin; [by apply elem_of_nil in Hin|].
  destruct H as (Ht & Hle & Hc). apply elem_of_cons in Hin as [->|Hin].
  - split; [|lia]. clear IH. revert x hi Ht Hle Hc. induction rs as [|y rs IH]; simpl; intros; [lia|].
    destruct Hc as (? & ? & Hc). specialize (IH y _ eq_refl ltac:(lia) Hc). lia.
  - specialize (IH _ Hc Hin). lia.
Qed.

(** Exactly one range of a chain holds a given block of the window. *)
Lemma chain_unique hi rs lo b :
  chain hi rs lo -> lo <= b <= hi ->
  exists! r, r ∈ rs /\ fromBlock r <= b <= toBlock r.
Proof.
  revert hi. induction rs as [|x rs IH]; simpl; intros hi H Hb; [lia|].
  destruct H as (Ht & Hle & Hc). destruct (decide (fromBlock x <= b)).
  - exists x. split; [split; [left|lia]|]. intros r [Hin Hr].
    apply elem_of_cons in Hin as [->|Hin]; [done|].
    pose proof (chain_bound _ _ _ _ Hc Hin). lia.
  - destruct (IH _ Hc ltac:(lia)) as (r & [Hin Hr] & Hu).
    exists r. split; [split; [by right|done]|]. intros r' [Hin' Hr'].
    apply elem_of_cons in Hin' as [->|Hin']; [lia|]. by apply Hu.
Qed.

Lemma ranges_chain from to span rs :
  0 <= from <= to -> blockRangesDescending from to span = Ok rs ->
  chain to rs from /\ Forall (fun r => toBlock r - fromBlock r + 1 <= span) rs.
Proof.
  unfold blockRangesDescending. intros Hf H.
  destruct ((span <=? 0) || (MAX_LOG_SCAN_SPAN <? span)) eqn:E; [done|]. breflect.
  destruct (to <? from) eqn:Et; breflect; [lia|]. injection H as <-. apply ranges_loop_chain; lia.
Qed.

(** [blockRangesDescending(from, to, maxSpan)] pages the window [from..to] without gap or
    overlap: every block of the window lies in exactly one returned range, no range leaves the
    window or is empty, and none is longer than [maxSpan], which is at most 2,000. *)
Theorem blockRanges_partition from to span rs :
  0 <= from -> blockRangesDescending from to span = Ok rs ->
  1 <= span <= MAX_LOG_SCAN_SPAN /\
  (forall b, from <= b <= to -> exists! r, r ∈ rs /\ fromBlock r <= b <= toBlock r) /\
  Forall (fun r => from <= fromBlock r <= toBlock r /\ toBlock r <= to /\
                   toBlock r - fromBlock r + 1 <= span) rs.
Proof.
  intros Hf H. assert (1 <= span <= MAX_LOG_SCAN_SPAN) as Hs.
  { unfold blockRangesDescending in H. destruct (_ || _) eqn:E; [done|]. breflect. lia. }
  split; [done|]. destruct (decide (from <= to)) as [Ht|Ht].
  - destruct (ranges_chain from to span rs) as [Hc Hl]; [lia|done|].
    split; [intros b Hb; by eapply chain_unique|].
    apply Forall_elem. intros r Hr. pose proof (chain_bound _ _ _ _ Hc Hr).
    rewrite Forall_elem in Hl. specialize (Hl r Hr). lia.
  - assert (rs = []) as ->; [|split; [intros; lia|constructor]].
    unfold blockRangesDescending in H. destruct (_ || _); [done|].
    rewrite (proj2 (Z.ltb_lt to from)) in H by lia. by injection H.
Qed.

Lemma blockRanges_partition_witness :
  exists rs, blockRangesDescending 5 4500 2000 = Ok rs /\
  1 <= 2000 <= MAX_LOG_SCAN_SPAN /\
  (forall b, 5 <= b <= 4500 -> exists! r, r ∈ rs /\ fromBlock r <= b <= toBlock r) /\
  Forall (fun r => 5 <= fromBlock r <= toBlock r /\ toBlock r <= 4500 /\
                   toBlock r - fromBlock r + 1 <= 2000) rs.
Proof.
  exists [{| fromBlock := 2501; toBlock := 4500 |}; {| fromBlock := 501; toBlock := 2500 |};
          {| fromBlock := 5; toBlock := 500 |}].
  split; [vm_compute; reflexivity|].
  apply (blockRanges_partition 5 4500 2000); [lia|vm_compute; reflexivity].
Defined.

(** ** A scan reads every page, or throws *)

Section ScanFacts.
Context {T : Type}.
Abbreviation I := (@ScanI T).

Definition is_fetch (e : event I) : bool :=
  match e with Ev (FetchPage _) _ => true | Ev (Sleep _) _ => false end.

(** The page [pg] was answered for range [r]. *)
Definition page_read (h : history I) (r : range) (pg : list T) : Prop :=
  @Ev I (FetchPage r) (Ok pg) ∈ h.

Definition failed_call (h : history I) (m : string) : Prop :=
  exists c, @Ev I c (Err m) ∈ h.

Abbreviation free := (fun (_ : history I) (_ : cmd I) => True).

Lemma page_read_app h h' r pg : page_read h r pg -> page_read (h' ++ h) r pg.
Proof. unfold page_read. rewrite elem_of_app. by right. Qed.

Lemma fetch_spec r p a left s h :
  wp free anything (fetch_with_retry r p a left) s h (fun o _ h' =>
    exists x, h' = x ++ h /\ (count is_fetch x <= S left)%nat /\
    match o with Ok pg => page_read h' r pg | Err m => failed_call h' m end).
Proof.
  revert a s h. induction left as [|left IH]; intros a s h; simpl; split; try done; intros [pg|e] _; simpl.
  - exists [Ev (FetchPage r : cmd I) (Ok pg)]. split; [done|]. split; [done|left].
  - eexists [_]. split; [done|]. split; [done|]. exists (FetchPage r); left.
  - exists [Ev (FetchPage r : cmd I) (Ok pg)]. split; [done|]. split; [|left].
    rewrite count_cons; unfold count; simpl; lia.
  - split; [done|]. intros [[]|e'] _; simpl.
    + wp_apply IH. intros o _ h' (x & -> & Hc & Ho).
      eexists (x ++ [_; _]). rewrite <- app_assoc. split; [done|]. split; [|done].
      rewrite count_app, !count_cons. unfold count at 2. simpl. lia.
    + eexists [_; _]. split; [done|]. split; [rewrite !count_cons; unfold count; simpl; lia|].
      exists (Sleep (backoffMs p * (a + 1))); left.
Qed.

Lemma scan_ranges_spec p rs s h :
  wp free anything (scan_ranges p rs) s h (fun o _ h' =>
    exists x, h' = x ++ h /\ (count is_fetch x <= S (retries p) * length rs)%nat /\
    match o with
    | Ok l => exists pgs, Forall2 (page_read h') rs pgs /\ l = concat pgs
    | Err m => failed_call h' m
    end).
Proof.
  revert s h. induction rs as [|r rs IH]; intros s h; simpl.
  { exists []. split; [done|]. split; [unfold count; simpl; lia|]. by exists []. }
  apply wp_bind. wp_apply fetch_spec. intros [pg|m] s1 h1 (x1 & -> & Hc1 & H1).
  2:{ exists x1. split; [done|]. split; [nia|done]. }
  apply wp_bind.
  assert (forall h2, (exists x2, h2 = x2 ++ x1 ++ h /\ count is_fetch x2 = 0%nat) ->
    wp free anything (bind (scan_ranges p rs) (fun rest => Ret (pg ++ rest))) s1 h2 (fun o _ h' =>
      exists x, h' = x ++ h /\ (count is_fetch x <= S (retries p) * S (length rs))%nat /\
      match o with
      | Ok l => exists pgs, Forall2 (page_read h') (r :: rs) pgs /\ l = concat pgs
      | Err m => failed_call h' m
      end)) as K.
  { intros h2 (x2 & -> & H2). apply wp_bind. wp_apply IH.
    intros o s3 h3 (x3 & -> & Hc3 & H3). rewrite !app_assoc in *.
    assert (count is_fetch ((x3 ++ x2) ++ x1) <= S (retries p) * S (length rs))%nat as HC
      by (rewrite !count_app; nia).
    destruct o as [l|m]; simpl; (exists ((x3 ++ x2) ++ x1); split; [done|]; split; [done|]); [|done].
    destruct H3 as (pgs & Hp & ->). exists (pg :: pgs). split; [|done]. constructor; [|done].
    rewrite <- (app_assoc (x3 ++ x2)). by apply page_read_app. }
  destruct (0 <? pauseMs p); simpl.
  - split; [done|]. intros [[]|e] _; simpl; [apply K; by eexists [_]|].
    eexists (_ :: x1). split; [done|]. split; [rewrite count_cons; simpl; nia|].
    exists (Sleep (pauseMs p)); left.
  - apply K. by exists [].
Qed.

(** C4: a reconciliation scan never mistakes a partial read for an empty one.  When
    [scanLogPagesDescending] returns, every range of the window was answered with a page and the
    result is the concatenation of exactly these pages, newest range first; otherwise it throws
    the error of a failed call (or the argument error of the ranges).  In both cases it issues at
    most [(retries + 1)] fetches per range. *)
Theorem scan_all_or_throw (e : env I) from to span p :
  let h := trace e (scanLogPagesDescending from to span p) tt in
  match blockRangesDescending from to span, outcome e (scanLogPagesDescending from to span p) tt with
  | Ok rs, Ok l => exists pgs, Forall2 (page_read h) rs pgs /\ l = concat pgs
  | Ok rs, Err m => failed_call h m
  | Err m, o => o = Err m /\ h = []
  end /\
  (count is_fetch h <= S (retries p) * match blockRangesDescending from to span with
                                       | Ok rs => length rs | Err _ => 0 end)%nat.
Proof.
  unfold scanLogPagesDescending. destruct (blockRangesDescending from to span) as [rs|m]; simpl.
  - pose proof (wp_post free e _ tt _ (scan_ranges_spec p rs tt [])) as (x & Hx & Hc & H).
    rewrite app_nil_r in Hx. rewrite <- Hx in Hc. by destruct (outcome e _ _).
  - split; [done|]. unfold count; simpl. lia.
Qed.
End ScanFacts.
