(* ===== verification/EvmPayout.v ===== *)
(** * EVM payout orchestration ([src/scripts/bridge-relayer-core.ts])

    [classifyReleaseReceipt], [reconcileProcessedId], [payoutDeepEnough],
    [applyReconciliation], [guardedRefund], [handleEvmFailure], [processEvmWithdrawal],
    [pollQueuedWithdrawals] and the observation-mode guards, as programs over the interface
    [EvmI] of the injected dependencies ([EvmPayoutDeps]).  The shared mutable state is the
    [queued] map; [SaveQueued] carries the map it writes to the state file.  Log and warning
    texts are not modelled, except the [OBSERVE] intents, which are the output of observation
    mode; alerts carry their key. *)
From S2P Require Import Prelude JsText JsNum JsMap Interact BridgeCore.
Local Open Scope Z_scope.
Local Open Scope prog_scope.

(** ** Queued state *)

Inductive QueuedStatus := QQueued | QCancelledRefundCandidate | QAmbiguous.
#[export] Instance QueuedStatus_eq_dec : EqDecision QueuedStatus.
Proof. solve_decision. Defined.

Record QueuedRecord := {
  stored_tx_id : string;
  canonical_l1_tx_id : Hex;
  request_id : string;
  q_asset : EvmAsset;
  q_recipient : string;
  q_amount : string;
  execute_after : string;
  release_submission_tx_hash : string;
  status : QueuedStatus;
  note : option string;
  updated_at : option string;
}.

Abbreviation QueuedState := (jmap QueuedRecord).

Definition queuedKey (canonicalId : string) : string := toLowerCase canonicalId.

(** ** Interface of the dependencies *)

Record ReceiptLike := {
  rc_success : bool;
  rc_logs : list RawLog;
  rc_transactionHash : option Hex;
  rc_blockNumber : option Z;
}.

Inductive ObserveTag :=
| WOULD_RELEASE | WOULD_FULFILL | WOULD_REFUND | WOULD_CLAIM_DEPOSIT
| WOULD_REPORT_FAILURE | WOULD_PERSIST | WOULD_SWEEP | WOULD_WRITE.

Inductive QueueView := BINDING_MISMATCH | EXECUTED | CANCELLED | ACTIVE.

(** The [OBSERVE] lines. *)
Inductive ObserveIntent :=
| Refused (t : ObserveTag)
| WouldRelease (a : EvmAsset) (to : string) (amt : Z) (id : Hex) (txId : string)
| ScanUnknown (txId : string)
| WouldFulfill (txId : string) (h : option Hex)
| WouldTrackQueued (txId : string) (rid : option Z)
| WouldFlagRefundCandidate (txId : string) (rid : option Z)
| WouldFlagAmbiguous (txId : string) (reason : option string)
| QueuedView (txId : string) (rid : Z) (v : QueueView).

Inductive evm_cmd :=
| ReleaseETH (to : string) (wei : Z) (l1TxId : Hex) (nonce : Z)
| ReleaseERC20 (token to : string) (amt : Z) (l1TxId : Hex) (nonce : Z)
| WaitForReceipt (h : Hex)
| GetReceipt (h : Hex)
| ProcessedL1Txs (l1TxId : Hex)
| HeadBlock
| TimelockQueue (rid : Z) (confirmed : bool)
| FindReleaseTxHashes (exp : ExpectedRelease)
| FindQueuedRequestIds
| FindTimelockQueuedEvent (rid : Z)
| FindTimelockExecutedTxHashes (rid : Z)
| FindTimelockCancelled (rid : Z)
| GetNonce
| ResetNonce
| Fulfill (txId : string) (h : Hex)
| ReportFailure (txId error : string)
| Refund (txId : string)
| MarkProcessed (txId : string)
| SaveQueued (q : QueuedState)
| Alert (key : string)
| SleepMs (ms : Z)
| NowIso
| Observe (i : ObserveIntent).

Definition evm_ans (c : evm_cmd) : Type :=
  match c with
  | ReleaseETH _ _ _ _ | ReleaseERC20 _ _ _ _ _ => Hex
  | WaitForReceipt _ => ReceiptLike
  | GetReceipt _ => option ReceiptLike
  | ProcessedL1Txs _ => bool
  | HeadBlock => Z
  | TimelockQueue _ _ => TimelockRecord
  | FindReleaseTxHashes _ => list Hex
  | FindQueuedRequestIds => list Z
  | FindTimelockQueuedEvent _ => option (Z * option Hex)
  | FindTimelockExecutedTxHashes _ => list Hex
  | FindTimelockCancelled _ => bool
  | GetNonce => Z
  | ResetNonce => unit
  | Fulfill _ _ => bool
  | ReportFailure _ _ => bool * Z
  | Refund _ => bool
  | MarkProcessed _ | SaveQueued _ | Alert _ | SleepMs _ | Observe _ => unit
  | NowIso => string
  end.

Definition EvmI : iface := {| st := QueuedState; cmd := evm_cmd; ans := evm_ans |}.

Definition ask (c : evm_cmd) : prog EvmI (evm_ans c) := call (c : cmd EvmI).
Definition getQ : prog EvmI QueuedState := get.
Definition putQ (q : QueuedState) : prog EvmI unit := put (q : st EvmI).

(** The configuration fields of [EvmPayoutDeps], with [process.env]. *)
Record EvmCfg := {
  cfg_bridgeAddress : option string;
  cfg_usdcAddress : string;
  autoRefund : bool;
  maxRetries : Z;
  fulfillConfirmations : option Z;
  observeOnly : bool;
  process_env : penv;
}.

Inductive PayoutOutcome :=
| awaiting_confirmations | observed | fulfilled | queued | reconciled_paid | reconciled_queued
| cancelled_refund_candidate | ambiguous | skipped_unsupported | skipped_invalid
| skipped_no_bridge | skipped_queued | skipped_rpc | fulfill_api_failed | failed | refunded.
#[export] Instance PayoutOutcome_eq_dec : EqDecision PayoutOutcome.
Proof. solve_decision. Defined.

(** ** Receipt classification after a release transaction *)

Inductive ReleaseReceiptClass :=
| RVerified
| RQueued (requestId executeAfter : Z) (record : TimelockRecord)
| RAmbiguous (reason : string) (requestId : option Z).

Section Orchestration.
Context `{V : Viem}.

Definition as_queued (d : DecodedBridgeEvent) : option (Z * Z) :=
  match ev d with TimelockQueued rid ea => Some (rid, ea) | _ => None end.

Definition classifyReleaseReceipt (logs : list RawLog) (exp : ExpectedRelease)
  : prog EvmI ReleaseReceiptClass :=
  match verifyReleaseLogs logs exp with
  | Ok _ => Ret RVerified
  | Err _ =>
      match omap as_queued (decodeBridgeEvents logs (bridgeAddress exp)) with
      | [] => Ret (RAmbiguous "receipt has neither a matching BridgeRelease nor TimelockQueued from RougeBridge" None)
      | [(rid, ea)] =>
          let! r := attempt (ask (TimelockQueue rid false)) in
          match r with
          | Err e => Ret (RAmbiguous ("timelockQueue(" +:+ dec rid +:+ ") read failed: " +:+ e) (Some rid))
          | Ok rec =>
              if negb (timelockRecordMatches rec (expectedTimelockFor exp ea)) then
                Ret (RAmbiguous ("timelockQueue(" +:+ dec rid +:+ ") does not bind to this withdrawal") (Some rid))
              else if tl_executed rec || tl_cancelled rec then
                Ret (RAmbiguous ("timelockQueue(" +:+ dec rid +:+ ") already executed/cancelled right after queueing") (Some rid))
              else Ret (RQueued rid ea rec)
          end
      | _ => Ret (RAmbiguous "receipt has multiple TimelockQueued events" None)
      end
  end.

(** ** Observation mode *)

Definition tag_text (t : ObserveTag) : string :=
  match t with
  | WOULD_RELEASE => "WOULD_RELEASE" | WOULD_FULFILL => "WOULD_FULFILL"
  | WOULD_REFUND => "WOULD_REFUND" | WOULD_CLAIM_DEPOSIT => "WOULD_CLAIM_DEPOSIT"
  | WOULD_REPORT_FAILURE => "WOULD_REPORT_FAILURE" | WOULD_PERSIST => "WOULD_PERSIST"
  | WOULD_SWEEP => "WOULD_SWEEP" | WOULD_WRITE => "WOULD_WRITE"
  end.

(** [observeRefuse]: log the intended action, then throw [ObserveOnlyViolation]. *)
Definition observeRefuse {A} (t : ObserveTag) : prog EvmI A :=
  let! _ := ask (Observe (Refused t)) in Throw ("[OBSERVE] refused " +:+ tag_text t).

(** The tag under which [observeGuardedDeps] wraps a dependency; [None]: left untouched. *)
Definition guard_tag (c : evm_cmd) : option ObserveTag :=
  match c with
  | MarkProcessed _ | SaveQueued _ => Some WOULD_PERSIST
  | ReleaseETH _ _ _ _ | ReleaseERC20 _ _ _ _ _ => Some WOULD_RELEASE
  | Fulfill _ _ => Some WOULD_FULFILL
  | ReportFailure _ _ => Some WOULD_REPORT_FAILURE
  | Refund _ => Some WOULD_REFUND
  | _ => None
  end.

(** [guardWrite(true, tag, ..., fn)] around one dependency: the exception replaces the call. *)
Definition guardWrite {A B} (t : ObserveTag) (k : res A -> prog EvmI B) : prog EvmI B :=
  let! r := attempt (observeRefuse t) in k r.

(** A program whose dependencies are wrapped by [observeGuardedDeps]. *)
Fixpoint observeGuardedDeps {A} (p : prog EvmI A) : prog EvmI A :=
  match p with
  | Ret a => Ret a
  | Throw e => Throw e
  | Get k => Get (fun s => observeGuardedDeps (k s))
  | Put s k => Put s (observeGuardedDeps k)
  | Call c k =>
      match guard_tag c with
      | Some t => guardWrite t (fun r => observeGuardedDeps (k r))
      | None => Call c (fun r => observeGuardedDeps (k r))
      end
  end.

(** ** Persisting a queue entry *)

Definition persistQueued (cfg : EvmCfg) (w : NormalizedEvmWithdrawal) (exp : ExpectedRelease)
    (rid ea subm : string) (s : QueuedStatus) (nt : option string) : prog EvmI unit :=
  if observeOnly cfg then observeRefuse WOULD_PERSIST else
  let! now := ask NowIso in
  let! q := getQ in
  let q' := mset (queuedKey (canonicalId exp)) {|
      stored_tx_id := tx_id w; canonical_l1_tx_id := canonicalId exp; request_id := rid;
      q_asset := asset exp; q_recipient := recipient exp; q_amount := dec (amount exp);
      execute_after := ea; release_submission_tx_hash := subm; status := s; note := nt;
      updated_at := Some now |} q in
  do! putQ q' in
  ask (SaveQueued q').

(** ** Reconciliation of an id the bridge has processed *)

Record ReconcileResult := {
  cls : ProcessedClass;
  paidTxHash : option Hex;
  requestId : option Z;
  r_record : option TimelockRecord;
  executeAfter : option Z;
  reason : option string;
  scanFailed : bool;
}.

(** The receipt of [h], if it is a successful and verified payout of [exp]. *)
Definition verified_receipt (exp : ExpectedRelease) (h : Hex) : prog EvmI (option Hex) :=
  let! rcpt := ask (GetReceipt h) in
  match rcpt with
  | Some rc =>
      if rc_success rc && is_ok (verifyReleaseLogs (rc_logs rc) exp) then Ret (Some h) else Ret None
  | None => Ret None
  end.

Definition bigint_str (s : string) : res Z :=
  match BigInt_of_string s with Some z => Ok z | None => Err "Cannot convert string to a BigInt" end.

(** Scan of the queued request ids for one whose record carries the canonical id.  The flag says
    that the queue event of the hit could not be read ([requestId] is already assigned then). *)
Definition scan_queued (exp : ExpectedRelease) : prog EvmI (option (Z * option Z * bool)) :=
  let! rids := ask FindQueuedRequestIds in
  first_some (fun rid =>
    let! rec := ask (TimelockQueue rid false) in
    if sameHex (tl_l1TxId rec) (canonicalId exp) then
      let! e := attempt (ask (FindTimelockQueuedEvent rid)) in
      Ret (Some (match e with Ok o => (rid, fst <$> o, false) | Err _ => (rid, None, true) end))
    else Ret None) rids.

(** The queue scan inside its [try]: request id, execution time, and whether the scan failed. *)
Definition locate_queued (exp : ExpectedRelease) : prog EvmI (option Z * option Z * bool) :=
  let! r := attempt (scan_queued exp) in
  Ret (match r with
       | Ok (Some (rid, ea, bad)) => (Some rid, ea, bad)
       | Ok None => (None, None, false)
       | Err _ => (None, None, true)
       end).

(** 1) A verified release event? *)
Definition find_release (exp : ExpectedRelease) : prog EvmI (option Hex) :=
  let! hs := ask (FindReleaseTxHashes exp) in
  first_some (verified_receipt exp) hs.

(** 2) The bound queue record, if any, and the classification. *)
Definition reconcile_with (exp : ExpectedRelease) (r1 : res (option Hex)) : prog EvmI ReconcileResult :=
  let paid := match r1 with Ok p => p | Err _ => None end in
  let fail1 := negb (is_ok r1) in
  let verified := match paid with Some _ => true | None => false end in
  let! q := getQ in
  let! (rid, ea, fail2) :=
    match mget (queuedKey (canonicalId exp)) q with
    | Some l =>
        if truthy (request_id l) && truthy (execute_after l) then
          let! rid := of_res (bigint_str (request_id l)) in
          let! ea := of_res (bigint_str (execute_after l)) in
          Ret (Some rid, Some ea, false)
        else if negb verified then locate_queued exp
        else Ret (None, None, false)
    | None => if negb verified then locate_queued exp else Ret (None, None, false)
    end in
  let! record :=
    match rid with
    | Some i =>
        let! r := attempt (ask (TimelockQueue i false)) in
        Ret (match r with Ok rec => Some rec | Err _ => None end)
    | None => Ret None
    end in
  let c := classifyProcessed {| verifiedRelease := verified; queueRecord := record;
             expected := expectedTimelockFor exp (default (-1) ea) |} in
  Ret {| cls := c; paidTxHash := paid; requestId := rid; r_record := record; executeAfter := ea;
         reason := None;
         scanFailed := (fail1 || fail2) && negb (bool_decide (c = Paid)) |}.

Definition reconcileProcessedId (exp : ExpectedRelease) : prog EvmI ReconcileResult :=
  let! r1 := attempt (find_release exp) in
  reconcile_with exp r1.

(** ** Confirmation gate before any daemon fulfill *)

Definition payoutDeepEnough (cfg : EvmCfg) (hash : Hex) (knownBlock : option Z) : prog EvmI bool :=
  let need := evmFulfillDepth (fulfillConfirmations cfg) (process_env cfg) in
  let! r := attempt (
    let! block := match knownBlock with
                  | Some b => Ret (Some b)
                  | None => let! rc := ask (GetReceipt hash) in Ret (mjoin (rc_blockNumber <$> rc))
                  end in
    match block with
    | None => Ret false
    | Some b =>
        let! head := ask HeadBlock in
        Ret (negb (confirmation_depth head b <? need))
    end) in
  Ret (match r with Ok b => b | Err _ => false end).

(** [x!.toString()] throws when [x] is undefined. *)
Definition toString_of (x : option Z) : prog EvmI string :=
  match x with
  | Some z => Ret (dec z)
  | None => Throw "Cannot read properties of undefined (reading 'toString')"
  end.

Definition submission_hash (exp : ExpectedRelease) (q : QueuedState) : string :=
  opt_str (release_submission_tx_hash <$> mget (queuedKey (canonicalId exp)) q).

Definition applyReconciliation (cfg : EvmCfg) (w : NormalizedEvmWithdrawal) (exp : ExpectedRelease)
    (r : ReconcileResult) (ctx : string) : prog EvmI PayoutOutcome :=
  if observeOnly cfg then observeRefuse WOULD_FULFILL else
  if scanFailed r then Ret skipped_rpc else
  match cls r with
  | Paid =>
      let hash := opt_str (paidTxHash r) in
      let! deep := payoutDeepEnough cfg hash None in
      if negb deep then Ret awaiting_confirmations else
      let! ok := ask (Fulfill (tx_id w) hash) in
      if ok then
        do! ask (MarkProcessed (tx_id w)) in
        let! q := getQ in
        let q' := mdel (queuedKey (canonicalId exp)) q in
        do! putQ q' in
        do! ask (SaveQueued q') in
        Ret reconciled_paid
      else Ret fulfill_api_failed
  | Queued =>
      let! rid := toString_of (requestId r) in
      let! ea := toString_of (executeAfter r) in
      let! q := getQ in
      do! persistQueued cfg w exp rid ea (submission_hash exp q) QQueued None in
      Ret reconciled_queued
  | CancelledRefundCandidate =>
      let! rid := toString_of (requestId r) in
      let! ea := toString_of (executeAfter r) in
      let! q := getQ in
      do! persistQueued cfg w exp rid ea (submission_hash exp q) QCancelledRefundCandidate None in
      do! ask (Alert ("cancelled:" +:+ tx_id w)) in
      Ret cancelled_refund_candidate
  | Ambiguous =>
      let! q := getQ in
      do! persistQueued cfg w exp (opt_str (dec <$> requestId r)) (opt_str (dec <$> executeAfter r))
            (submission_hash exp q) QAmbiguous (Some (str_or (opt_str (reason r)) ctx)) in
      do! ask (Alert ("ambiguous:" +:+ tx_id w)) in
      Ret ambiguous
  end.

(** ** Refund gate *)

Definition route_asset (r : PayoutRoute) : option EvmAsset :=
  match r with REth => Some Eth | RUsdc => Some Usdc | _ => None end.

Definition asset_route (a : EvmAsset) : PayoutRoute :=
  match a with Eth => REth | Usdc => RUsdc end.

Definition guardedRefund (cfg : EvmCfg) (w : NormalizedEvmWithdrawal) (route : PayoutRoute)
    (attempts : Z) : prog EvmI bool :=
  if observeOnly cfg then observeRefuse WOULD_REFUND else
  match route_asset route with
  | None => Ret false
  | Some a =>
      if negb (truthy (opt_str (cfg_bridgeAddress cfg))) then Ret false else
      let! exp := of_res (expectedReleaseFor w a (opt_str (cfg_bridgeAddress cfg)) (cfg_usdcAddress cfg)) in
      let! pr := attempt (ask (ProcessedL1Txs (canonicalId exp))) in
      match pr with
      | Err _ => do! ask (Alert ("refund-rpc:" +:+ tx_id w)) in Ret false
      | Ok processed =>
          let! c := if processed then let! rr := reconcileProcessedId exp in Ret (Some (cls rr))
                    else Ret None in
          match refundDecision processed c with
          | NormalAnalysis =>
              let! done := ask (Refund (tx_id w)) in
              if done then
                do! ask (Alert ("refund:" +:+ tx_id w)) in
                do! ask (MarkProcessed (tx_id w)) in
                Ret true
              else Ret false
          | MayProceedAfterCancellationProof =>
              do! ask (Alert ("refund-candidate:" +:+ tx_id w)) in Ret false
          | Forbidden => Ret false
          end
      end
  end.

(** ** Failure path *)

Definition handleEvmFailure (cfg : EvmCfg) (w : NormalizedEvmWithdrawal) (exp : ExpectedRelease)
    (error : string) : prog EvmI PayoutOutcome :=
  if observeOnly cfg then observeRefuse WOULD_REPORT_FAILURE else
  let! pr := attempt (ask (ProcessedL1Txs (canonicalId exp))) in
  match pr with
  | Err _ => do! ask (Alert ("rpc:" +:+ tx_id w)) in Ret skipped_rpc
  | Ok true =>
      let! r := reconcileProcessedId exp in
      applyReconciliation cfg w exp r ("after error: " +:+ error)
  | Ok false =>
      let! (shouldRefund, attempts) := ask (ReportFailure (tx_id w) error) in
      do! if 3 <=? attempts then ask (Alert (tx_id w)) else Ret tt in
      if shouldRefund && autoRefund cfg then
        let! done := guardedRefund cfg w (asset_route (asset exp)) attempts in
        Ret (if done then refunded else failed)
      else Ret failed
  end.

(** ** One withdrawal of the qETH/qUSDC feed *)

Definition send_release (cfg : EvmCfg) (exp : ExpectedRelease) : prog EvmI Hex :=
  let! nonce := ask GetNonce in
  match asset exp with
  | Eth => ask (ReleaseETH (recipient exp) (amount exp) (canonicalId exp) nonce)
  | Usdc => ask (ReleaseERC20 (cfg_usdcAddress cfg) (recipient exp) (amount exp) (canonicalId exp) nonce)
  end.

(** The submission loop [for (let attempt = 1; attempt <= Math.max(1, deps.maxRetries); attempt++)];
    one unit of fuel per iteration.  Returns [hash] and [lastErr]. *)
Fixpoint release_loop (cfg : EvmCfg) (exp : ExpectedRelease) (fuel : nat) (att : Z) (lastErr : string)
  : prog EvmI (option Hex * string) :=
  match fuel with
  | O => Ret (None, lastErr)
  | S fuel =>
      let! stop :=
        if 1 <? att then
          let! r := attempt (ask (ProcessedL1Txs (canonicalId exp))) in
          Ret (match r with
               | Ok true => Some lastErr
               | Ok false => None
               | Err e => Some ("processedL1Txs re-check failed: " +:+ e)
               end)
        else Ret None in
      match stop with
      | Some le => Ret (None, le)
      | None =>
          let! r := attempt (send_release cfg exp) in
          match r with
          | Ok h => Ret (Some h, lastErr)
          | Err e =>
              do! ask ResetNonce in
              do! if att <? maxRetries cfg then ask (SleepMs (1000 * 2 ^ (att - 1))) else Ret tt in
              release_loop cfg exp fuel (att + 1) e
          end
      end
  end.

Definition observe_withdrawal (w : NormalizedEvmWithdrawal) (exp : ExpectedRelease) (processedBefore : bool)
  : prog EvmI PayoutOutcome :=
  do! if negb processedBefore then
        ask (Observe (WouldRelease (asset exp) (recipient exp) (amount exp) (canonicalId exp) (tx_id w)))
      else
        let! r := reconcileProcessedId exp in
        ask (Observe (if scanFailed r then ScanUnknown (tx_id w)
                      else match cls r with
                           | Paid => WouldFulfill (tx_id w) (paidTxHash r)
                           | Queued => WouldTrackQueued (tx_id w) (requestId r)
                           | CancelledRefundCandidate => WouldFlagRefundCandidate (tx_id w) (requestId r)
                           | Ambiguous => WouldFlagAmbiguous (tx_id w) (reason r)
                           end)) in
  Ret observed.

(** After a submitted release: wait, classify the receipt, fulfill / persist / alert. *)
Definition settle_release (cfg : EvmCfg) (w : NormalizedEvmWithdrawal) (exp : ExpectedRelease) (hash : Hex)
  : prog EvmI PayoutOutcome :=
  let! rr := attempt (ask (WaitForReceipt hash)) in
  match rr with
  | Err e =>
      do! ask ResetNonce in
      handleEvmFailure cfg w exp ("receipt wait failed for " +:+ hash +:+ ": " +:+ e)
  | Ok receipt =>
      if negb (rc_success receipt) then
        do! ask ResetNonce in
        handleEvmFailure cfg w exp ("release tx reverted: " +:+ hash)
      else
        let! c := classifyReleaseReceipt (rc_logs receipt) exp in
        match c with
        | RVerified =>
            let! deep := payoutDeepEnough cfg hash (rc_blockNumber receipt) in
            if negb deep then Ret awaiting_confirmations else
            let! ok := ask (Fulfill (tx_id w) hash) in
            if ok then do! ask (MarkProcessed (tx_id w)) in Ret fulfilled
            else Ret fulfill_api_failed
        | RQueued rid ea _ =>
            do! persistQueued cfg w exp (dec rid) (dec ea) hash QQueued None in Ret queued
        | RAmbiguous why rid =>
            do! persistQueued cfg w exp (opt_str (dec <$> rid)) "" hash QAmbiguous (Some why) in
            do! ask (Alert ("ambiguous:" +:+ tx_id w)) in
            Ret ambiguous
        end
  end.

Definition processEvmWithdrawal (cfg : EvmCfg) (w : NormalizedEvmWithdrawal) : prog EvmI PayoutOutcome :=
  match route_asset (payoutRoute (Some (token_symbol w))) with
  | None => do! ask (Alert ("unsupported:" +:+ tx_id w)) in Ret skipped_unsupported
  | Some a =>
      if negb (isSafeInteger (amount_units w)) || num_nonpos (amount_units w)
         || negb (isEvmAddress (Some (evm_address w))) then
        do! ask (Alert ("invalid:" +:+ tx_id w)) in Ret skipped_invalid
      else
      let id := rougeBridgeId (tx_id w) in
      let! q := getQ in
      if mhas (queuedKey id) q then Ret skipped_queued else
      if negb (truthy (opt_str (cfg_bridgeAddress cfg))) then
        do! ask (Alert ("no-bridge:" +:+ tx_id w)) in Ret skipped_no_bridge
      else
      let! exp := of_res (expectedReleaseFor w a (opt_str (cfg_bridgeAddress cfg)) (cfg_usdcAddress cfg)) in
      let! pr := attempt (ask (ProcessedL1Txs id)) in
      match pr with
      | Err _ => Ret skipped_rpc
      | Ok processedBefore =>
          if observeOnly cfg then observe_withdrawal w exp processedBefore
          else if processedBefore then
            let! r := reconcileProcessedId exp in
            applyReconciliation cfg w exp r "pre-release check"
          else
            let! (hash, lastErr) := release_loop cfg exp (Z.to_nat (Z.max 1 (maxRetries cfg))) 1 "" in
            match hash with
            | Some h =>
                if truthy h then settle_release cfg w exp h
                else handleEvmFailure cfg w exp (str_or lastErr "release submission failed")
            | None => handleEvmFailure cfg w exp (str_or lastErr "release submission failed")
            end
      end
  end.

(** ** Polling the persisted queue *)

Definition mark_ambiguous (nt now : string) (r : QueuedRecord) : QueuedRecord := {|
  stored_tx_id := stored_tx_id r; canonical_l1_tx_id := canonical_l1_tx_id r;
  request_id := request_id r; q_asset := q_asset r; q_recipient := q_recipient r;
  q_amount := q_amount r; execute_after := execute_after r;
  release_submission_tx_hash := release_submission_tx_hash r;
  status := QAmbiguous; note := Some nt; updated_at := Some now |}.

Definition result_of (c : ProcessedClass) (h : option Hex) (rid : Z) (rec : TimelockRecord) (ea : Z)
    (why : option string) : ReconcileResult := {|
  cls := c; paidTxHash := h; requestId := Some rid; r_record := Some rec; executeAfter := Some ea;
  reason := why; scanFailed := false |}.

Definition queue_view (onchain : TimelockRecord) (expd : ExpectedTimelock) : QueueView :=
  if negb (timelockRecordMatches onchain expd) then BINDING_MISMATCH
  else if tl_executed onchain then EXECUTED
  else if tl_cancelled onchain then CANCELLED
  else ACTIVE.

(** The transaction that paid an executed timelock: executions first, then releases. *)
Definition find_execution (exp : ExpectedRelease) (rid : Z) : prog EvmI (option Hex) :=
  let! hs := ask (FindTimelockExecutedTxHashes rid) in
  let! p := first_some (verified_receipt exp) hs in
  match p with
  | Some h => Ret (Some h)
  | None => find_release exp
  end.

(** One iteration of the loop over [[...deps.queued.values()]]. *)
Definition poll_entry (cfg : EvmCfg) (bridge : string) (kr : string * QueuedRecord) : prog EvmI unit :=
  let '(key, rec) := kr in
  if negb (bool_decide (status rec = QQueued)) then Ret tt else
  if negb (truthy (request_id rec)) || negb (truthy (execute_after rec)) then Ret tt else
  let w := {| tx_id := stored_tx_id rec; evm_address := q_recipient rec; amount_units := num_of_Z 0;
              token_symbol := match q_asset rec with Eth => "qETH" | Usdc => "qUSDC" end |} in
  let! amt := of_res (bigint_str (q_amount rec)) in
  let exp := {| asset := q_asset rec; recipient := q_recipient rec; amount := amt;
                canonicalId := canonical_l1_tx_id rec; bridgeAddress := bridge;
                usdcAddress := cfg_usdcAddress cfg |} in
  let! rid := of_res (bigint_str (request_id rec)) in
  let! ea := of_res (bigint_str (execute_after rec)) in
  let expd := expectedTimelockFor exp ea in
  let! ro := attempt (ask (TimelockQueue rid true)) in
  match ro with
  | Err _ => Ret tt
  | Ok onchain =>
      if observeOnly cfg then
        ask (Observe (QueuedView (stored_tx_id rec) rid (queue_view onchain expd)))
      else if negb (timelockRecordMatches onchain expd) then
        let! now := ask NowIso in
        let! q := getQ in
        let q' := mupdate key (mark_ambiguous
                    ("timelockQueue(" +:+ dec rid +:+ ") no longer binds to this withdrawal") now) q in
        do! putQ q' in
        do! ask (SaveQueued q') in
        ask (Alert ("ambiguous:" +:+ stored_tx_id rec))
      else if tl_executed onchain then
        let! p := attempt (find_execution exp rid) in
        match p with
        | Err _ => Ret tt
        | Ok paid =>
            let r := match paid with
                     | Some h => result_of Paid (Some h) rid onchain ea None
                     | None => result_of Ambiguous None rid onchain ea
                                 (Some "timelock executed but no verifiable BridgeRelease found")
                     end in
            do! applyReconciliation cfg w exp r "timelock executed" in Ret tt
        end
      else
        let! rc := attempt (ask (FindTimelockCancelled rid)) in
        let cancelledEvent := match rc with Ok b => b | Err _ => false end in
        if tl_cancelled onchain || cancelledEvent then
          let! r2 := attempt (ask (TimelockQueue rid true)) in
          match r2 with
          | Err _ => Ret tt
          | Ok confirmed =>
              if tl_cancelled confirmed && negb (tl_executed confirmed)
                 && timelockRecordMatches confirmed expd then
                do! applyReconciliation cfg w exp
                      (result_of CancelledRefundCandidate None rid confirmed ea None) "TimelockCancelled" in
                Ret tt
              else if cancelledEvent && negb (tl_cancelled confirmed) then Ret tt
              else
                do! applyReconciliation cfg w exp
                      (result_of Ambiguous None rid confirmed ea
                        (Some "cancellation state inconsistent")) "TimelockCancelled" in
                Ret tt
          end
        else Ret tt
  end.

Definition pollQueuedWithdrawals (cfg : EvmCfg) : prog EvmI unit :=
  if negb (truthy (opt_str (cfg_bridgeAddress cfg))) then Ret tt else
  let! q := getQ in
  for_each (poll_entry cfg (opt_str (cfg_bridgeAddress cfg))) q.

End Orchestration.
