(* ===== verification/EvmSafety.v ===== *)
(** * Safety of the EVM payout orchestration *)
From S2P Require Import Prelude JsText JsNum JsMap Interact BridgeCore EvmPayout.
Local Open Scope Z_scope.

(** Commands that move money or change stored state (the members wrapped by
    [observeGuardedDeps]). *)
Definition mutating (c : evm_cmd) : bool :=
  match guard_tag c with Some _ => true | None => false end.

Section Safety.
Context `{V : Viem}.

(** ** Commands each sub-program may issue *)

(** Read-only commands, without alerts and time. *)
Definition reads (c : evm_cmd) : Prop :=
  match c with
  | GetReceipt _ | ProcessedL1Txs _ | HeadBlock | TimelockQueue _ _ | FindReleaseTxHashes _
  | FindQueuedRequestIds | FindTimelockQueuedEvent _ | FindTimelockExecutedTxHashes _
  | FindTimelockCancelled _ => True
  | _ => False
  end.

Lemma calls_weaken {I A} (P P' : cmd I -> Prop) (p p' : Prop) (q : prog I A) :
  (forall c, P c -> P' c) -> (p -> p') -> calls P p q -> calls P' p' q.
Proof. intros HP Hp. induction q; simpl; naive_solver. Qed.

Abbreviation only P pt p := (calls (I := EvmI) P pt p).

Lemma calls_ask (P : evm_cmd -> Prop) pt c : P c -> only P pt (ask c).
Proof. apply (calls_call (I := EvmI) P pt c). Qed.
Lemma calls_getQ (P : evm_cmd -> Prop) pt : only P pt getQ.
Proof. by intros s. Qed.
Hint Resolve calls_getQ : calls.
Hint Extern 1 (calls _ _ (ask _)) => apply calls_ask; done : calls.

Lemma reconcile_reads exp : only reads False (reconcileProcessedId exp).
Proof.
  unfold reconcileProcessedId, reconcile_with, find_release, locate_queued, scan_queued, verified_receipt.
  calls_auto.
Qed.
(** ** The guard on every mutating command

    [allowed t exp]: the run is about withdrawal [t], whose expected release is [exp]. *)
Section Guard.
Variable allowed : string -> ExpectedRelease -> Prop.
Variable cfg : EvmCfg.

Abbreviation E := (@Ev EvmI).

(** A receipt of [hash] was read. *)
Definition receipt_read (h : history EvmI) (hash : Hex) (rc : ReceiptLike) : Prop :=
  E (WaitForReceipt hash) (Ok rc) ∈ h \/ E (GetReceipt hash) (Ok (Some rc)) ∈ h.

(** A successful receipt of [hash] that proves the release of [exp] was read. *)
Definition paid_evidence (h : history EvmI) (exp : ExpectedRelease) (hash : Hex) : Prop :=
  exists rc, receipt_read h hash rc /\ rc_success rc = true /\ release_proved (rc_logs rc) exp.

(** The last event is a read of the chain head at which the payout has the required depth. *)
Definition deep_evidence (h : history EvmI) (hash : Hex) : Prop :=
  exists rc b head h', receipt_read h' hash rc /\ rc_blockNumber rc = Some b /\
    h = E HeadBlock (Ok head) :: h' /\
    evmFulfillDepth (fulfillConfirmations cfg) (process_env cfg) <= confirmation_depth head b.

(** The last event is the answer "not processed" of the bridge for [id]. *)
Definition unprocessed (h : history EvmI) (id : Hex) : Prop :=
  exists h', h = E (ProcessedL1Txs id) (Ok false) :: h'.

Definition failure_reported (h : history EvmI) (t : string) : Prop :=
  exists err n, E (ReportFailure t err) (Ok (true, n)) ∈ h.

Definition evm_ok (h : history EvmI) (c : evm_cmd) : Prop :=
  match c with
  | ReleaseETH to wei id n =>
      exists t exp h', allowed t exp /\ asset exp = Eth /\ to = recipient exp /\
        wei = amount exp /\ id = canonicalId exp /\ h = E GetNonce (Ok n) :: h' /\ unprocessed h' id
  | ReleaseERC20 tok to amt id n =>
      exists t exp h', allowed t exp /\ asset exp = Usdc /\ tok = cfg_usdcAddress cfg /\
        to = recipient exp /\ amt = amount exp /\ id = canonicalId exp /\
        h = E GetNonce (Ok n) :: h' /\ unprocessed h' id
  | Fulfill t hash => exists exp, allowed t exp /\ paid_evidence h exp hash /\ deep_evidence h hash
  | ReportFailure t _ => exists exp, allowed t exp /\ unprocessed h (canonicalId exp)
  | Refund t => exists exp, allowed t exp /\ autoRefund cfg = true /\ failure_reported h t /\
                  unprocessed h (canonicalId exp)
  | MarkProcessed t =>
      (exists hash h', h = E (Fulfill t hash) (Ok true) :: h') \/
      (exists key r h', h = E (Alert key) r :: E (Refund t) (Ok true) :: h')
  | _ => True
  end.

Abbreviation W p s h Q := (wp (I := EvmI) evm_ok anything p s h Q).

Lemma wp_ask c s h Q :
  evm_ok h c -> (forall r, Q r s (E c r :: h)) -> W (ask c) s h Q.
Proof. intros. apply (wp_call (I := EvmI)); auto. Qed.

(** A history extends another one. *)
Definition ext (h h' : history EvmI) : Prop := exists x, h' = x ++ h.
Lemma ext_refl h : ext h h.
Proof. by exists []. Qed.
Lemma ext_cons h h' e : ext h h' -> ext h (e :: h').
Proof. intros [x ->]. by exists (e :: x). Qed.
Lemma ext_trans h1 h2 h3 : ext h1 h2 -> ext h2 h3 -> ext h1 h3.
Proof. intros [x ->] [y ->]. exists (y ++ x). by rewrite app_assoc. Qed.
Lemma ext_elem e h h' : e ∈ h -> ext h h' -> e ∈ h'.
Proof. intros He [x ->]. apply elem_of_app. by right. Qed.
Hint Resolve ext_refl ext_cons : evm.

Lemma receipt_ext h h' hash rc : receipt_read h hash rc -> ext h h' -> receipt_read h' hash rc.
Proof. intros [?|?] ?; [left|right]; by eapply ext_elem. Qed.

Lemma paid_ext h h' exp hash : paid_evidence h exp hash -> ext h h' -> paid_evidence h' exp hash.
Proof. intros (rc & ? & ?) ?. exists rc. split; [by eapply receipt_ext|done]. Qed.

Lemma failure_ext h h' t : failure_reported h t -> ext h h' -> failure_reported h' t.
Proof. intros (er & n & ?) ?. exists er, n. by eapply ext_elem. Qed.

(** One step of symbolic execution. *)
Ltac wp_step :=
  match goal with
  | |- W (bind _ _) _ _ _ => apply wp_bind
  | |- W (attempt _) _ _ _ => apply wp_attempt
  | |- W (ask _) _ _ _ => apply wp_ask; [try exact Logic.I|intros ?r]
  | |- W getQ _ _ _ => apply (wp_get (I := EvmI))
  | |- W (putQ _) _ _ _ => apply (wp_put (I := EvmI))
  | |- W (Ret _) _ _ _ => apply wp_ret
  | |- W (Throw _) _ _ _ => apply wp_throw
  | |- W (of_res _) _ _ _ => apply wp_of_res
  | |- W (match ?x with _ => _ end) _ _ _ => first [is_var x; destruct x | destruct x eqn:?]
  | |- match ?r with Ok _ => _ | Err _ => _ end => first [is_var r; destruct r | destruct r eqn:?]
  end.
Ltac wp_go := repeat (wp_step; cbv beta iota zeta in *).

Lemma verified_receipt_spec exp hash s h :
  W (verified_receipt exp hash) s h (fun o s' h' => s' = s /\ ext h h' /\
    match o with Ok (Some x) => x = hash /\ paid_evidence h' exp hash | _ => True end).
Proof.
  unfold verified_receipt. wp_go; (split; [done|]; split; [eauto with evm|]); try done.
  split; [done|]. match goal with H : (_ && _)%bool = true |- _ => apply andb_true_iff in H as [? Hv] end.
  eexists. split; [right; left|]. split; [done|].
  apply verify_iff. by destruct (verifyReleaseLogs _ _) as [[]|].
Qed.


(** A program that only reads leaves the state alone and is never refused. *)
Lemma wp_reads {A} (p : prog EvmI A) s h :
  only reads False p -> W p s h (fun _ s' h' => s' = s /\ ext h h').
Proof. apply wp_calls. by intros h' []. Qed.

Definition paid_result (h : history EvmI) (exp : ExpectedRelease) (r : ReconcileResult) : Prop :=
  cls r = Paid -> exists hash, paidTxHash r = Some hash /\ paid_evidence h exp hash.

Lemma find_paid_spec exp hs s h :
  W (first_some (verified_receipt exp) hs) s h (fun o s' h' => s' = s /\ ext h h' /\
    match o with Ok (Some x) => paid_evidence h' exp x | _ => True end).
Proof.
  apply (wp_first_some (I := EvmI)) with (Inv := fun s' h' => s' = s /\ ext h h').
  - eauto with evm.
  - intros x s1 h1 _ [-> Hx]. wp_apply verified_receipt_spec.
    intros [[y|]|m] s2 h2 (-> & He & Hp); repeat split; eauto using ext_trans.
    by destruct Hp as [-> Hp].
  - naive_solver.
Qed.

Lemma classify_paid v rec ex :
  classifyProcessed {| verifiedRelease := v; queueRecord := rec; expected := ex |} = Paid -> v = true.
Proof. unfold classifyProcessed; simpl. repeat case_match; done. Qed.

Lemma find_release_spec exp s h :
  W (find_release exp) s h (fun o s' h' => s' = s /\ ext h h' /\
    match o with Ok (Some x) => paid_evidence h' exp x | _ => True end).
Proof.
  unfold find_release. apply wp_bind, wp_ask; [done|]. intros [hs|m]; [|by eauto with evm].
  wp_apply find_paid_spec. intros o s1 h1 (-> & Hx & Hp). split; [done|]. split; [|done].
  eapply ext_trans; [|done]. eauto with evm.
Qed.

Lemma reconcile_with_spec exp r1 s h :
  match r1 with Ok (Some x) => paid_evidence h exp x | _ => True end ->
  W (reconcile_with exp r1) s h (fun o s' h' => s' = s /\ ext h h' /\
    match o with Ok r => paid_result h' exp r | Err _ => True end).
Proof.
  intros Hp. unfold reconcile_with. apply wp_bind. hnf. apply wp_bind.
  eapply wp_mono; [|apply wp_reads; unfold locate_queued, scan_queued; calls_auto].
  intros [[[rid ea] f2]|m] s2 h2 [-> Hx2]; [|by eauto].
  apply wp_bind. eapply wp_mono; [|apply wp_reads; calls_auto].
  intros [rec|m] s3 h3 [-> Hx3]; [|by eauto using ext_trans].
  simpl. split; [done|]. split; [eauto using ext_trans|].
  intros Hc. simpl in Hc. apply classify_paid in Hc.
  destruct r1 as [[x|]|]; try discriminate. exists x. split; [done|].
  eapply paid_ext; [done|]. eauto using ext_trans.
Qed.

Lemma reconcile_spec exp s h :
  W (reconcileProcessedId exp) s h (fun o s' h' => s' = s /\ ext h h' /\
    match o with Ok r => paid_result h' exp r | Err _ => True end).
Proof.
  unfold reconcileProcessedId. apply wp_bind, wp_attempt.
  wp_apply find_release_spec. intros o s1 h1 (-> & Hx & Hp).
  wp_apply reconcile_with_spec; [|by destruct o as [[]|]].
  intros o2 s2 h2 (-> & Hx2 & Hr). eauto using ext_trans.
Qed.

Lemma deep_spec hash known s h :
  (forall b, known = Some b -> exists rc, receipt_read h hash rc /\ rc_blockNumber rc = Some b) ->
  W (payoutDeepEnough cfg hash known) s h (fun o s' h' => s' = s /\ ext h h' /\
    (o = Ok true -> deep_evidence h' hash)).
Proof.
  intros Hk. unfold payoutDeepEnough.
  wp_go; (split; [done|]; split; [eauto with evm|]); try done;
    intros [= Hd]; rewrite negb_true_iff, Z.ltb_ge in Hd.
  - destruct (Hk _ eq_refl) as (rc & ? & ?). by eexists rc, _, _, _.
  - destruct a as [rc|]; [|done]. eexists rc, _, _, _. split; [right; left|done].
Qed.

Abbreviation grows h := (fun _ _ h' => ext h h').

Lemma refuse_spec {A} t s h : W (observeRefuse (A := A) t) s h (grows h).
Proof. unfold observeRefuse. wp_go; eauto with evm. Qed.

Lemma persist_spec w exp rid ea sub sta nt s h :
  W (persistQueued cfg w exp rid ea sub sta nt) s h (grows h).
Proof.
  unfold persistQueued. destruct (observeOnly cfg); [apply refuse_spec|]. wp_go; eauto with evm.
Qed.

(** Continue after a sub-program known to extend the history. *)
Ltac wp_after L := eapply wp_mono; [|apply L]; intros ?o ?s' ?h' ?Hx; cbv beta in *.
Ltac ext_tac :=
  repeat apply ext_cons;
  first [ apply ext_refl | eassumption
        | match goal with
          | Hx : ext ?m ?h' |- ext ?h ?h' => apply (ext_trans h m h'); [ext_tac|exact Hx]
          end ].
Ltac grow := cbv beta in *; solve [ext_tac].

Lemma apply_spec w exp r ctx s h :
  allowed (tx_id w) exp -> paid_result h exp r ->
  W (applyReconciliation cfg w exp r ctx) s h (grows h).
Proof.
  intros Ha Hp. unfold applyReconciliation, toString_of.
  destruct (observeOnly cfg); [apply refuse_spec|].
  destruct (scanFailed r); [wp_go; eauto with evm|].
  destruct (cls r) eqn:Ec.
  - destruct (Hp Ec) as (hash & Eh & Hpd). rewrite Eh. cbv zeta. change (opt_str (Some hash)) with hash.
    apply wp_bind. wp_apply (deep_spec hash None); [|done].
    intros o s1 h1 (-> & Hx & Hd). wp_step; [|grow]. wp_step; [wp_go; grow|].
    wp_step. wp_step.
    + exists exp. split; [done|]. split; [by eapply paid_ext|]. apply Hd.
      destruct a; [done|discriminate].
    + wp_go; try grow. left; eauto.
  - wp_go; try grow. all: wp_after persist_spec; wp_go; grow.
  - wp_go; try grow. all: wp_after persist_spec; wp_go; grow.
  - wp_go; try grow. all: wp_after persist_spec; wp_go; grow.
Qed.

Lemma refund_spec w a n s h :
  (forall exp, expectedReleaseFor w a (opt_str (cfg_bridgeAddress cfg)) (cfg_usdcAddress cfg) = Ok exp ->
     allowed (tx_id w) exp) ->
  autoRefund cfg = true -> failure_reported h (tx_id w) ->
  W (guardedRefund cfg w (asset_route a) n) s h (grows h).
Proof.
  intros Ha Hr Hf. unfold guardedRefund.
  replace (route_asset (asset_route a)) with (Some a) by by destruct a.
  destruct (observeOnly cfg); [apply refuse_spec|].
  wp_go; try grow.
  - wp_after reconcile_spec. destruct Hx as (-> & Hx & _). wp_step; [|grow]. wp_step.
    destruct (refundDecision true _) eqn:Ed; [|wp_go; grow..].
    unfold refundDecision in Ed; simpl in Ed. by destruct (cls a1).
  - exists a0. split; [by apply Ha|]. split; [done|].
    split; [eapply failure_ext; [done|grow]|by eexists].
  - right; eauto.
Qed.

Definition expect (w : NormalizedEvmWithdrawal) (a : EvmAsset) : res ExpectedRelease :=
  expectedReleaseFor w a (opt_str (cfg_bridgeAddress cfg)) (cfg_usdcAddress cfg).

Lemma expect_asset w a exp : expect w a = Ok exp ->
  asset exp = a /\ canonicalId exp = rougeBridgeId (tx_id w).
Proof.
  unfold expect, expectedReleaseFor, res_bind. repeat case_match; intros; simplify_eq; done.
Qed.

Section OneWithdrawal.
Variables (w : NormalizedEvmWithdrawal) (a : EvmAsset) (exp : ExpectedRelease).
Hypothesis Hexp : expect w a = Ok exp.
Hypothesis Hall : allowed (tx_id w) exp.

Lemma auto_refund_spec n err m s h h0 :
  autoRefund cfg = true -> ext h0 h -> E (ReportFailure (tx_id w) err) (Ok (true, m)) ∈ h ->
  W (guardedRefund cfg w (asset_route (asset exp)) n) s h (fun o s' h' =>
    match o with
    | Ok d => W (Ret (if d then refunded else failed)) s' h' (grows h0)
    | Err _ => ext h0 h'
    end).
Proof.
  intros Hr Hx Hf. eapply wp_mono; [|apply refund_spec; [|done|]].
  - intros [[]|] ? ? ?; wp_go; grow.
  - destruct (expect_asset _ _ _ Hexp) as [-> _]. unfold expect in Hexp. intros; congruence.
  - by do 2 eexists.
Qed.

Lemma failure_spec err s h : W (handleEvmFailure cfg w exp err) s h (grows h).
Proof.
  unfold handleEvmFailure. destruct (observeOnly cfg); [apply refuse_spec|].
  wp_go; try grow.
  - wp_after reconcile_spec. destruct Hx as (-> & Hx & Hp). wp_step; [|grow].
    eapply wp_mono; [|by apply apply_spec]. intros; grow.
  - exists exp. split; [done|by eexists].
  - match goal with H : (_ && _)%bool = true |- _ => apply andb_true_iff in H as [-> Hr] end.
    eapply auto_refund_spec; [done|grow|right; left].
  - match goal with H : (_ && _)%bool = true |- _ => apply andb_true_iff in H as [-> Hr] end.
    eapply auto_refund_spec; [done|grow|left].
Qed.

Lemma send_spec s h :
  unprocessed h (canonicalId exp) -> W (send_release cfg exp) s h (grows h).
Proof.
  intros Hu. unfold send_release. wp_go; try grow; exists (tx_id w), exp, h; naive_solver.
Qed.

Lemma loop_spec fuel att le s h :
  1 <= att -> (att = 1 -> unprocessed h (canonicalId exp)) ->
  W (release_loop cfg exp fuel att le) s h (grows h).
Proof.
  revert att le s h. induction fuel as [|fuel IH]; intros att le s h Ha Hu; cbn [release_loop];
    [wp_go; grow|].
  apply wp_bind. destruct (1 <? att) eqn:Ea; breflect.
  - wp_go; try grow. destruct r as [[]|]; try discriminate.
    wp_apply send_spec; [|by eexists]. intros o s1 h1 Hx. wp_go; try grow.
    all: eapply wp_mono; [|apply IH; lia]; intros; grow.
  - wp_go. wp_apply send_spec; [|apply Hu; lia]. intros o s1 h1 Hx. wp_go; try grow.
    all: eapply wp_mono; [|apply IH; lia]; intros; grow.
Qed.

Lemma verify_ok_proved logs u : verifyReleaseLogs logs exp = Ok u -> release_proved logs exp.
Proof. destruct u. apply verify_iff. Qed.

Lemma settle_spec hash s h : W (settle_release cfg w exp hash) s h (grows h).
Proof.
  unfold settle_release, classifyReleaseReceipt. wp_go; try grow.
  all: try (wp_after failure_spec; grow).
  all: try (wp_after persist_spec; wp_go; grow).
  eapply wp_mono; [|apply deep_spec].
  2:{ intros b Hb. exists a0. split; [left; left|done]. }
  intros o s1 h1 (-> & Hx & Hd). wp_step; [|grow]. wp_step; [wp_go; grow|].
  wp_step. wp_step.
  - exists exp. split; [done|]. split.
    + exists a0. split; [eapply receipt_ext; [left; left|done]|].
      split; [by apply negb_false_iff|by eapply verify_ok_proved].
    + apply Hd. by match goal with H : negb ?b = false |- _ => destruct b end.
  - wp_go; try grow. left; eauto.
Qed.
End OneWithdrawal.

(** The validity test of [processEvmWithdrawal]. *)
Definition valid_withdrawal (w : NormalizedEvmWithdrawal) : bool :=
  isSafeInteger (amount_units w) && negb (num_nonpos (amount_units w))
  && isEvmAddress (Some (evm_address w)).

Lemma process_spec w s h :
  (forall a exp, route_asset (payoutRoute (Some (token_symbol w))) = Some a ->
     valid_withdrawal w = true -> mhas (queuedKey (rougeBridgeId (tx_id w))) s = false ->
     expect w a = Ok exp -> allowed (tx_id w) exp) ->
  W (processEvmWithdrawal cfg w) s h (grows h).
Proof.
  intros Hall. unfold processEvmWithdrawal.
  destruct (route_asset _) as [a|] eqn:Ea; [|wp_go; grow].
  destruct (_ || _) eqn:Ev; [wp_go; grow|].
  assert (valid_withdrawal w = true) as Hv.
  { unfold valid_withdrawal. apply orb_false_iff in Ev as [Ev ->%negb_false_iff].
    apply orb_false_iff in Ev as [->%negb_false_iff ->]. done. }
  wp_go; try grow.
  all: match goal with H : expectedReleaseFor ?w ?a _ _ = Ok ?e |- _ =>
         pose proof (Hall a e eq_refl Hv eq_refl H) as Hok; change (expect w a = Ok e) in H;
         pose proof (proj2 (expect_asset _ _ _ H)) as Hid end.
  - unfold observe_withdrawal. wp_go; try grow.
    wp_after reconcile_spec. destruct Hx as (-> & Hx & _). wp_go; grow.
  - wp_after reconcile_spec. destruct Hx as (-> & Hx & Hp). wp_step; [|grow].
    eapply wp_mono; [|by apply apply_spec]. intros; grow.
  - eapply wp_mono; [|eapply loop_spec; [done|done|intros _; rewrite Hid; by eexists]].
    intros o s1 h1 Hx. wp_go; try grow.
    + eapply wp_mono; [|by eapply settle_spec]. intros; grow.
    + eapply wp_mono; [|by eapply failure_spec]. intros; grow.
    + eapply wp_mono; [|by eapply failure_spec]. intros; grow.
Qed.

(** The release a queue entry stands for. *)
Definition entry_release (bridge : string) (rec : QueuedRecord) (amt : Z) : ExpectedRelease := {|
  asset := q_asset rec; recipient := q_recipient rec; amount := amt;
  canonicalId := canonical_l1_tx_id rec; bridgeAddress := bridge;
  usdcAddress := cfg_usdcAddress cfg |}.

Lemma find_execution_spec exp rid s h :
  W (find_execution exp rid) s h (fun o s' h' => s' = s /\ ext h h' /\
    match o with Ok (Some x) => paid_evidence h' exp x | _ => True end).
Proof.
  unfold find_execution. apply wp_bind, wp_ask; [done|]. intros [hs|m]; [|by eauto with evm].
  apply wp_bind. wp_apply find_paid_spec. intros [[x|]|m] s1 h1 (-> & Hx & Hp).
  - split; [done|]. split; [grow|done].
  - wp_apply find_release_spec. intros o s2 h2 (-> & Hx2 & Hp2). split; [done|]. split; [grow|done].
  - split; [done|]. split; [grow|done].
Qed.

Lemma poll_entry_spec bridge key rec s h :
  (forall amt, BigInt_of_string (q_amount rec) = Some amt ->
     allowed (stored_tx_id rec) (entry_release bridge rec amt)) ->
  W (poll_entry cfg bridge (key, rec)) s h (grows h).
Proof.
  intros Hall. unfold poll_entry, bigint_str.
  destruct (negb (bool_decide _)); [wp_go; grow|]. destruct (_ || _); [wp_go; grow|].
  destruct (BigInt_of_string (q_amount rec)) as [amt|] eqn:Eamt; [|wp_go; grow].
  specialize (Hall amt eq_refl). unfold entry_release in Hall. wp_go; try grow.
  - wp_apply find_execution_spec. intros o s1 h1 (-> & Hx & Hp).
    destruct o as [paid|m]; [|wp_go; grow]. apply wp_bind.
    eapply wp_mono; [|apply apply_spec; [done|]]; [intros [] ? ? ?; wp_go; grow|].
    destruct paid as [x|]; simpl; [|done]. intros _. by exists x.
  - eapply wp_mono; [|apply apply_spec; [done|done]]. intros [] ? ? ?; wp_go; grow.
  - eapply wp_mono; [|apply apply_spec; [done|done]]. intros [] ? ? ?; wp_go; grow.
Qed.

Lemma poll_spec s h :
  (forall bridge key rec amt, cfg_bridgeAddress cfg = Some bridge -> (key, rec) ∈ s ->
     BigInt_of_string (q_amount rec) = Some amt ->
     allowed (stored_tx_id rec) (entry_release bridge rec amt)) ->
  W (pollQueuedWithdrawals cfg) s h (grows h).
Proof.
  intros Hall. unfold pollQueuedWithdrawals.
  destruct (cfg_bridgeAddress cfg) as [bridge|] eqn:Eb; simpl; [|grow].
  destruct (negb _); [wp_go; grow|].
  apply (wp_for_each (I := EvmI)) with (Inv := fun _ h' => ext h h'); [grow| |done].
  intros [key rec] s1 h1 Hin Hx. eapply wp_mono; [|apply poll_entry_spec; by eauto].
  intros [] ? ? ?; grow.
Qed.
End Guard.

(** [(t, exp)] is the withdrawal [w], well formed and not parked in the queue [s], with its
    route, its exact owed amount and its recipient. *)
Definition about (cfg : EvmCfg) (w : NormalizedEvmWithdrawal) (s : QueuedState)
    (t : string) (exp : ExpectedRelease) : Prop :=
  t = tx_id w /\ mhas (queuedKey (canonicalId exp)) s = false /\ valid_withdrawal w = true /\
  exists a, route_asset (payoutRoute (Some (token_symbol w))) = Some a /\ expect cfg w a = Ok exp.

Lemma process_guarded cfg w e s :
  guarded (I := EvmI) (evm_ok (about cfg w s) cfg) (trace e (processEvmWithdrawal cfg w) s).
Proof.
  eapply (wp_guarded (I := EvmI)). apply process_spec. intros a exp Ha Hv Hq He.
  split; [done|]. pose proof (expect_asset cfg w a exp He) as [_ ->]. eauto.
Qed.

(** [(t, exp)] is an entry of the queue [s]. *)
Definition of_queue (cfg : EvmCfg) (s : QueuedState) (t : string) (exp : ExpectedRelease) : Prop :=
  exists bridge key rec amt, cfg_bridgeAddress cfg = Some bridge /\ (key, rec) ∈ s /\
    BigInt_of_string (q_amount rec) = Some amt /\ t = stored_tx_id rec /\
    exp = entry_release cfg bridge rec amt.

Lemma poll_guarded cfg e s :
  guarded (I := EvmI) (evm_ok (of_queue cfg s) cfg) (trace e (pollQueuedWithdrawals cfg) s).
Proof.
  eapply (wp_guarded (I := EvmI)). apply poll_spec. intros. unfold of_queue. eauto 10.
Qed.

End Safety.
