(* ===== verification/EvmClaims.v ===== *)
(** * Claims on the EVM payout orchestration

    What a run of [processEvmWithdrawal] and [pollQueuedWithdrawals] does, against every
    behaviour of the injected dependencies: which commands it may issue and after which
    evidence, how often, and what it leaves in the queue. *)
From S2P Require Import Prelude JsText JsNum JsMap Interact BridgeCore EvmPayout EvmSafety.
Local Open Scope Z_scope.

Ltac calls_evm :=
  repeat (calls_step ||
    match goal with
    | |- calls _ _ (ask _) => apply calls_ask; done
    | |- calls _ _ getQ => apply calls_getQ
    | |- calls _ _ (putQ _) => split; exact Logic.I
    end || solve [auto with calls]).

Section Claims.
Context `{V : Viem}.
Abbreviation E := (@Ev EvmI).

(** ** Authorisation of a release *)

(** The last two events: the bridge answered "not processed" for [id], and [n] was handed out
    as the nonce. *)
Definition fresh_nonce_after_check (h : history EvmI) (id : Hex) (n : Z) : Prop :=
  exists h', h = E GetNonce (Ok n) :: E (ProcessedL1Txs id) (Ok false) :: h'.

(** The exact integer amount of a withdrawal. *)
Definition exact_units (w : NormalizedEvmWithdrawal) (z : Z) : Prop :=
  BigInt_of_number (amount_units w) = Some z /\ 0 < z <= MAX_SAFE_INTEGER.

Definition release_guard (cfg : EvmCfg) (w : NormalizedEvmWithdrawal) (s : QueuedState)
    (h : history EvmI) (c : evm_cmd) : Prop :=
  match c with
  | ReleaseETH to wei id n =>
      payoutRoute (Some (token_symbol w)) = REth /\ getAddress (evm_address w) = Ok to /\
      (exists z, exact_units w z /\ wei = z * 10 ^ 12) /\
      id = rougeBridgeId (tx_id w) /\ mhas (queuedKey id) s = false /\
      fresh_nonce_after_check h id n
  | ReleaseERC20 tok to amt id n =>
      payoutRoute (Some (token_symbol w)) = RUsdc /\ getAddress (evm_address w) = Ok to /\
      exact_units w amt /\ tok = cfg_usdcAddress cfg /\
      id = rougeBridgeId (tx_id w) /\ mhas (queuedKey id) s = false /\
      fresh_nonce_after_check h id n
  | _ => True
  end.

Lemma route_asset_inv r a : route_asset r = Some a -> r = asset_route a.
Proof. by destruct r; intros [= <-]. Qed.

Lemma about_inv cfg w s t exp : about cfg w s t exp ->
  t = tx_id w /\ payoutRoute (Some (token_symbol w)) = asset_route (asset exp) /\
  getAddress (evm_address w) = Ok (recipient exp) /\
  (exists z, exact_units w z /\ amount exp = match asset exp with Eth => z * 10 ^ 12 | Usdc => z end) /\
  canonicalId exp = rougeBridgeId (tx_id w) /\ mhas (queuedKey (canonicalId exp)) s = false.
Proof.
  intros (-> & Hq & Hv & a & Hroute%route_asset_inv & He). rewrite Hroute.
  unfold valid_withdrawal in Hv. apply andb_true_iff in Hv as [Hv _].
  apply andb_true_iff in Hv as [Hs Hp%negb_true_iff].
  destruct (safe_positive _ Hs Hp) as (z & Hz & Hr).
  unfold expect, expectedReleaseFor, owedAmount, unitsToWei, bigint in He.
  destruct (getAddress _) as [to|]; [|done]. simpl in He. rewrite Hz in He.
  split; [done|]. destruct a; simpl in He; injection He as <-; simpl in *;
    (do 2 (split; [done|])); (split; [exists z; by repeat split; try lia|done]).
Qed.

(** C5: a run releases only what it owes.  Whatever the dependencies answer, every release
    transaction submitted by [processEvmWithdrawal] is for the asset of the withdrawal's token,
    to the withdrawal's own address, for exactly its amount (units times 10^12 wei for qETH,
    the units themselves for qUSDC of the configured contract, with no rounding), under the
    canonical id of the withdrawal, while no entry for that id is parked in the queue, and
    immediately after the bridge answered that the id is not processed and a nonce was taken. *)
Theorem evm_release_exact cfg w e s :
  guarded (release_guard cfg w s) (trace e (processEvmWithdrawal cfg w) s).
Proof.
  eapply guarded_impl; [|apply process_guarded]. intros h c Hok.
  destruct c; try done; destruct Hok as (t & exp & h' & Ha & Has & Hok);
    destruct (about_inv _ _ _ _ _ Ha) as (-> & Hr & Hto & (z & Hz & Ham) & Hid & Hq);
    rewrite Has in Hr, Ham.
  - destruct Hok as (-> & -> & -> & -> & x & ->). rewrite Ham, Hid. rewrite Hid in Hq.
    repeat split; try done; [by exists z|by exists x].
  - destruct Hok as (-> & -> & -> & -> & -> & x & ->). rewrite Ham, Hid. rewrite Hid in Hq.
    repeat split; try done; [apply Hz..|by exists x].
Qed.

(** ** Number of releases of a run *)

Definition is_release (c : evm_cmd) : bool :=
  match c with ReleaseETH _ _ _ _ | ReleaseERC20 _ _ _ _ _ => true | _ => false end.

Definition release_tried (e : event EvmI) : bool := match e with Ev c _ => is_release c end.
Definition release_sent (e : event EvmI) : bool := match e with Ev c r => is_release c && is_ok r end.

Definition anyc (h : history EvmI) (c : evm_cmd) : Prop := True.
Abbreviation T p s h Q := (wp (I := EvmI) anyc anything p s h Q).

Lemma T_ask c s h (Q : res (evm_ans c) -> _) : (forall r, Q r s (E c r :: h)) -> T (ask c) s h Q.
Proof. intros. apply (wp_call (I := EvmI)); [done|auto]. Qed.

Definition not_release (c : evm_cmd) : Prop := is_release c = false.

Lemma reconcile_calls (P : evm_cmd -> Prop) pt exp :
  (forall c, reads c -> P c) -> calls (I := EvmI) P pt (reconcileProcessedId exp).
Proof. intros HP. eapply calls_weaken; [exact HP| |apply reconcile_reads]. done. Qed.

Lemma reads_not_release c : reads c -> not_release c.
Proof. by destruct c. Qed.

Lemma apply_calls cfg w exp r ctx :
  calls (I := EvmI) not_release True (applyReconciliation cfg w exp r ctx).
Proof.
  unfold applyReconciliation, payoutDeepEnough, persistQueued, observeRefuse, toString_of. calls_evm.
Qed.

Lemma failure_calls cfg w exp err :
  calls (I := EvmI) not_release True (handleEvmFailure cfg w exp err).
Proof.
  unfold handleEvmFailure, guardedRefund, observeRefuse. calls_evm.
  all: first [apply apply_calls | apply reconcile_calls, reads_not_release].
Qed.

Lemma settle_calls cfg w exp hash :
  calls (I := EvmI) not_release True (settle_release cfg w exp hash).
Proof.
  unfold settle_release, classifyReleaseReceipt, payoutDeepEnough, persistQueued, observeRefuse.
  calls_evm. all: apply failure_calls.
Qed.

(** [n] more releases tried and [m] more sent, at most. *)
Definition counts (h h' : history EvmI) (n m : nat) : Prop :=
  (count release_tried h' <= count release_tried h + n)%nat /\
  (count release_sent h' <= count release_sent h + m)%nat.

Lemma counts_refl h n m : counts h h n m.
Proof. unfold counts. lia. Qed.

Lemma counts_calls {A} (p : prog EvmI A) s h :
  calls (I := EvmI) not_release True p -> T p s h (fun _ _ h' => counts h h' 0 0).
Proof.
  revert s h. induction p as [| |k IH|s' k IH|c k IH]; simpl; intros s h Hp;
    [apply counts_refl..|by apply IH|by apply IH, Hp|].
  destruct Hp as [Hc Hk]. split; [done|]. intros r _. eapply wp_mono; [|by apply IH].
  simpl. intros _ _ h' [? ?]. unfold counts, not_release in *. rewrite !count_cons in *. simpl in *.
  rewrite Hc in *. simpl in *. lia.
Qed.

Lemma send_counts cfg exp s h :
  T (send_release cfg exp) s h (fun o _ h' => counts h h' 1 (if is_ok o then 1 else 0)).
Proof.
  unfold send_release, counts. apply wp_bind, T_ask. intros [n|m]; [|rewrite !count_cons; simpl; lia].
  destruct (asset exp); apply T_ask; intros [x|x]; rewrite !count_cons; simpl; lia.
Qed.

Ltac counting :=
  try apply wp_ret; unfold counts in *; rewrite ?count_cons in *; cbn [release_tried release_sent is_release is_ok andb] in *; lia.

(** Run a sub-program that issues no release. *)
Ltac no_release L :=
  eapply wp_mono; [|apply counts_calls; L]; cbv beta; intros ?o ?s' ?h' ?Hc.

Lemma loop_counts cfg exp fuel att le s h :
  T (release_loop cfg exp fuel att le) s h (fun o _ h' =>
    counts h h' fuel match o with Ok (Some _, _) => 1 | _ => 0 end).
Proof.
  revert att le s h. induction fuel as [|fuel IH]; intros att le s h; cbn [release_loop].
  { apply counts_refl. }
  apply wp_bind. no_release calls_evm. destruct o as [[stop|]|m]; [counting| |counting].
  apply wp_bind, wp_attempt. wp_apply send_counts. intros [x|x] s1 h1 H1; [counting|].
  apply wp_bind. no_release calls_evm. destruct o as [[]|m]; [|counting].
  apply wp_bind. no_release calls_evm. destruct o as [[]|m]; [|counting].
  wp_apply IH. intros [[[]]|] ? ? ?; counting.
Qed.

Lemma process_counts cfg w s h :
  T (processEvmWithdrawal cfg w) s h (fun _ _ h' => counts h h' (Z.to_nat (Z.max 1 (maxRetries cfg))) 1).
Proof.
  unfold processEvmWithdrawal. destruct (route_asset _) as [a|]; [|no_release calls_evm; counting].
  destruct (_ || _); [no_release calls_evm; counting|]. apply wp_bind, (wp_get (I := EvmI)).
  destruct (mhas _ _); [apply counts_refl|]. destruct (negb _); [no_release calls_evm; counting|].
  apply wp_bind, wp_of_res. destruct (expectedReleaseFor _ _ _ _) as [exp|m]; [|apply counts_refl].
  apply wp_bind, wp_attempt, T_ask. intros [before|m]; [|counting].
  destruct (observeOnly cfg).
  { unfold observe_withdrawal. no_release ltac:(calls_evm; apply reconcile_calls, reads_not_release). counting. }
  destruct before.
  { no_release ltac:(calls_evm; first [apply apply_calls | apply reconcile_calls, reads_not_release]). counting. }
  apply wp_bind. wp_apply loop_counts. intros [[[hash|] le]|m] s1 h1 H1; [| |counting].
  - destruct (truthy hash); [no_release ltac:(apply settle_calls)|no_release ltac:(apply failure_calls)]; counting.
  - no_release ltac:(apply failure_calls). counting.
Qed.

(** one payout per run.  Whatever the dependencies answer, a run of [processEvmWithdrawal]
    submits at most [max(1, maxRetries)] release transactions and at most one submission
    succeeds: the loop stops at the first accepted transaction and nothing after it releases. *)
Theorem evm_release_at_most_once cfg w e s :
  Z.of_nat (count release_tried (trace e (processEvmWithdrawal cfg w) s)) <= Z.max 1 (maxRetries cfg) /\
  (count release_sent (trace e (processEvmWithdrawal cfg w) s) <= 1)%nat.
Proof.
  pose proof (wp_post (I := EvmI) _ e _ s _ (process_counts cfg w s [])) as [H1 H2].
  unfold count in H1 at 2, H2 at 2. simpl in *. lia.
Qed.

(** ** Evidence for every other write *)

(** The payout of [exp] in transaction [hash] is proved by a receipt that was read, and the last
    event shows the required depth. *)
Definition fulfill_evidence (cfg : EvmCfg) (h : history EvmI) (exp : ExpectedRelease) (hash : Hex) : Prop :=
  paid_evidence h exp hash /\ deep_evidence cfg h hash.

(** What must precede each daemon write for the withdrawals described by [sub]. *)
Definition write_guard (sub : string -> ExpectedRelease -> Prop) (cfg : EvmCfg)
    (h : history EvmI) (c : evm_cmd) : Prop :=
  match c with
  | Fulfill t hash => exists exp, sub t exp /\ fulfill_evidence cfg h exp hash
  | ReportFailure t _ => exists exp, sub t exp /\ unprocessed h (canonicalId exp)
  | Refund t => autoRefund cfg = true /\ failure_reported h t /\
                exists exp, sub t exp /\ unprocessed h (canonicalId exp)
  | MarkProcessed t =>
      (exists hash h', h = E (Fulfill t hash) (Ok true) :: h') \/
      (exists key r h', h = E (Alert key) r :: E (Refund t) (Ok true) :: h')
  | _ => True
  end.

Lemma evm_ok_write sub cfg h c : evm_ok sub cfg h c -> write_guard sub cfg h c.
Proof. destruct c; try done; unfold fulfill_evidence; naive_solver. Qed.

(** The expected release of the withdrawal [w] itself. *)
Definition owed (cfg : EvmCfg) (w : NormalizedEvmWithdrawal) (t : string) (exp : ExpectedRelease) : Prop :=
  t = tx_id w /\ exists a, payoutRoute (Some (token_symbol w)) = asset_route a /\ expect cfg w a = Ok exp.

(** C7: no write without evidence.  Whatever the dependencies answer, in a run of
    [processEvmWithdrawal] on [w]: a fulfillment names a transaction for which a successful
    receipt was read whose logs prove the release of [w], and the last event before it is a read
    of the chain head at which that transaction has the required depth; a failure is reported
    only right after the bridge answered that the id of [w] is not processed; a refund is
    requested only with automatic refunds enabled, after the daemon answered a failure report of
    this withdrawal with "should refund", and right after another answer that the id is not
    processed; and the withdrawal is marked as done only right after an accepted fulfillment or
    refund of it. *)
Theorem evm_writes_justified cfg w e s :
  guarded (write_guard (owed cfg w) cfg) (trace e (processEvmWithdrawal cfg w) s).
Proof.
  eapply guarded_impl; [|apply process_guarded]. intros h c Hok%evm_ok_write.
  assert (forall t exp, about cfg w s t exp -> owed cfg w t exp) as Ho.
  { intros t exp (-> & _ & _ & a & Hr%route_asset_inv & ?). split; [done|]. by exists a. }
  destruct c; try done; unfold write_guard in *; naive_solver.
Qed.

(** ** Observation mode *)

Definition harmless (c : evm_cmd) : Prop := mutating c = false.

Lemma reads_harmless c : reads c -> harmless c.
Proof. by destruct c. Qed.

Lemma observe_process_calls cfg w :
  observeOnly cfg = true -> calls (I := EvmI) harmless False (processEvmWithdrawal cfg w).
Proof.
  intros Ho. unfold processEvmWithdrawal, observe_withdrawal. rewrite Ho. calls_evm.
  apply reconcile_calls, reads_harmless.
Qed.

Lemma observe_poll_calls cfg :
  observeOnly cfg = true -> calls (I := EvmI) harmless False (pollQueuedWithdrawals cfg).
Proof.
  intros Ho. unfold pollQueuedWithdrawals. calls_evm. unfold poll_entry. rewrite Ho.
  destruct x as [key rec]. calls_evm.
Qed.

Lemma guarded_deps_calls {A} (p : prog EvmI A) : calls (I := EvmI) harmless True (observeGuardedDeps p).
Proof.
  induction p as [| |k IH|s' k IH|c k IH]; simpl; [done..|by intros s|by split|].
  destruct (guard_tag c) eqn:Et; simpl.
  - split; [done|]. intros [[]|]; apply IH.
  - split; [|done]. unfold harmless, mutating. by rewrite Et.
Qed.

(** Observation mode changes nothing.  With [observeOnly] set, a run of
    [processEvmWithdrawal] or of [pollQueuedWithdrawals] issues no release, fulfillment, failure
    report, refund or persistence command, and leaves the queue exactly as it was, whatever the
    dependencies answer. *)
Theorem observe_only_changes_nothing cfg w e s (Hobs : observeOnly cfg = true) :
  final e (processEvmWithdrawal cfg w) s = s /\ final e (pollQueuedWithdrawals cfg) s = s /\
  forall c r, E c r ∈ trace e (processEvmWithdrawal cfg w) s \/ E c r ∈ trace e (pollQueuedWithdrawals cfg) s ->
    mutating c = false.
Proof.
  pose proof (observe_process_calls cfg w Hobs) as Hp. pose proof (observe_poll_calls cfg Hobs) as Hq.
  split; [by eapply (calls_state (I := EvmI))|]. split; [by eapply (calls_state (I := EvmI))|].
  intros c r [H|H]; eapply (calls_trace (I := EvmI)) in H; try eassumption;
    destruct H as [?|?%elem_of_nil]; done.
Qed.

(** The dependency guard is complete.  Any program whatsoever, run on dependencies wrapped
    by [observeGuardedDeps], issues no mutating command: each attempt is replaced by a logged
    intent and an exception. *)
Theorem observe_guard_complete {A} (p : prog EvmI A) e s c r (Hin : E c r ∈ trace e (observeGuardedDeps p) s) :
  mutating c = false.
Proof.
  eapply (calls_trace (I := EvmI)) in Hin; [|apply guarded_deps_calls].
  destruct Hin as [?|?%elem_of_nil]; done.
Qed.

End Claims.
