(* ===== verification/EvmQueue.v ===== *)
(** * The queue of parked withdrawals

    What [processEvmWithdrawal] and [pollQueuedWithdrawals] do to the persisted queue: the
    invariant of the queue, the frame of each operation, write-through to the state file, and
    the life of an entry. *)
From S2P Require Import Prelude JsText JsNum JsMap Interact BridgeCore EvmPayout EvmSafety EvmClaims.
Local Open Scope Z_scope.
Local Open Scope prog_scope.

Section Queue.
Context `{V : Viem}.
Abbreviation E := (@Ev EvmI).
Abbreviation T p s h Q := (wp (I := EvmI) anyc anything p s h Q).

(** The queue holds each canonical id once, under its own key. *)
Definition wf_queue (s : QueuedState) : Prop :=
  NoDup (mkeys s) /\ forall k r, mget k s = Some r -> k = queuedKey (canonical_l1_tx_id r).

(** The queue last written to the state file. *)
Fixpoint last_saved (h : history EvmI) : option QueuedState :=
  match h with
  | [] => None
  | Ev (SaveQueued q) _ :: _ => Some q
  | _ :: h => last_saved h
  end.

(** Only the entry under [key] may differ, the invariant is kept, and a changed queue is the one
    last written. *)
Record keeps (key : string) (s : QueuedState) (h : history EvmI) (s' : QueuedState) (h' : history EvmI) : Prop := {
  k_ext : ext h h';
  k_frame : forall k, k <> key -> mget k s' = mget k s;
  k_wf : wf_queue s -> wf_queue s';
  k_saved : s' = s /\ last_saved h' = last_saved h \/ last_saved h' = Some s';
}.

(** Nothing is written. *)
Definition quiet (s : QueuedState) (h : history EvmI) (s' : QueuedState) (h' : history EvmI) : Prop :=
  s' = s /\ ext h h' /\ last_saved h' = last_saved h.

Lemma quiet_keeps key s h s' h' : quiet s h s' h' -> keeps key s h s' h'.
Proof. intros (-> & ? & ?). by split; auto. Qed.

Lemma keeps_trans key s h s1 h1 s2 h2 :
  keeps key s h s1 h1 -> keeps key s1 h1 s2 h2 -> keeps key s h s2 h2.
Proof.
  intros [X1 F1 W1 S1] [X2 F2 W2 S2]. split; [by eapply ext_trans| |auto|].
  - intros k Hk. rewrite F2, F1; done.
  - destruct S2 as [[-> ->]|?]; [done|by right].
Qed.

Definition not_save (c : evm_cmd) : Prop := match c with SaveQueued _ => False | _ => True end.

Lemma last_saved_cons c r h : not_save c -> last_saved (E c r :: h) = last_saved h.
Proof. by destruct c. Qed.

Lemma quiet_calls {A} (p : prog EvmI A) s h :
  calls (I := EvmI) not_save False p -> T p s h (fun _ s' h' => quiet s h s' h').
Proof.
  revert s h. induction p as [| |k IH|s' k IH|c k IH]; simpl; intros s h Hp.
  1-2: split; [done|]; split; [apply ext_refl|done].
  - by apply IH.
  - by destruct Hp.
  - destruct Hp as [Hc Hk]. split; [done|]. intros r _. eapply wp_mono; [|by apply IH].
    simpl. intros _ s' h' (-> & Hx & Hl). split; [done|]. rewrite Hl. split; [|by apply last_saved_cons].
    eapply ext_trans; [|done]. apply ext_cons, ext_refl.
Qed.

(** ** Entries *)

Definition entry_of (t : string) (exp : ExpectedRelease) (rec : QueuedRecord) : Prop :=
  stored_tx_id rec = t /\ canonical_l1_tx_id rec = canonicalId exp /\ q_asset rec = asset exp /\
  q_recipient rec = recipient exp /\ q_amount rec = dec (amount exp).

Lemma wf_mset s rec : wf_queue s -> wf_queue (mset (queuedKey (canonical_l1_tx_id rec)) rec s).
Proof.
  intros [Hd Hk]. split; [by apply NoDup_mset|]. intros k r.
  destruct (decide (k = queuedKey (canonical_l1_tx_id rec))) as [->|Hne].
  - rewrite mget_mset_eq. by intros [= <-].
  - rewrite mget_mset_ne by done. apply Hk.
Qed.

Lemma wf_mdel s k : wf_queue s -> wf_queue (mdel k s).
Proof.
  intros [Hd Hk]. split; [by apply NoDup_mdel|]. intros k' r.
  destruct (decide (k' = k)) as [->|Hne]; [by rewrite mget_mdel_eq|].
  rewrite mget_mdel_ne by done. apply Hk.
Qed.

Lemma wf_mupdate s k f : (forall r, canonical_l1_tx_id (f r) = canonical_l1_tx_id r) ->
  wf_queue s -> wf_queue (mupdate k f s).
Proof.
  intros Hf [Hd Hk]. split; [by rewrite mkeys_mupdate|]. intros k' r.
  destruct (decide (k' = k)) as [->|Hne].
  - rewrite mget_mupdate_eq. destruct (mget k s) as [r0|] eqn:E0; [|done].
    intros [= <-]. rewrite Hf. by apply Hk.
  - rewrite mget_mupdate_ne by done. apply Hk.
Qed.

Lemma persist_state cfg w exp rid ea sub stt nt s h :
  T (persistQueued cfg w exp rid ea sub stt nt) s h (fun o s' h' =>
    keeps (queuedKey (canonicalId exp)) s h s' h' /\
    (s' = s \/ exists rec, mget (queuedKey (canonicalId exp)) s' = Some rec /\ entry_of (tx_id w) exp rec) /\
    (o = Ok tt -> exists rec, mget (queuedKey (canonicalId exp)) s' = Some rec /\
        entry_of (tx_id w) exp rec /\ status rec = stt)).
Proof.
  unfold persistQueued. destruct (observeOnly cfg).
  { unfold observeRefuse. apply wp_bind, T_ask. intros r.
    assert (keeps (queuedKey (canonicalId exp)) s h s (E (Observe (Refused WOULD_PERSIST)) r :: h)).
    { apply quiet_keeps. split; [done|]. split; [apply ext_cons, ext_refl|done]. }
    destruct r; simpl; naive_solver. }
  apply wp_bind, T_ask. intros [now|m].
  2:{ split; [|naive_solver]. apply quiet_keeps. split; [done|]. split; [apply ext_cons, ext_refl|done]. }
  apply wp_bind, (wp_get (I := EvmI)). cbv zeta. apply wp_bind, (wp_put (I := EvmI)), T_ask. intros r.
  set (rec := Build_QueuedRecord _ _ _ _ _ _ _ _ _ _ _).
  assert (mget (queuedKey (canonicalId exp)) (mset (queuedKey (canonicalId exp)) rec s) = Some rec) as Hg
    by apply mget_mset_eq.
  split; [|split]; [|right; by exists rec|intros _; by exists rec].
  split; [do 2 apply ext_cons; apply ext_refl| |by apply (wf_mset s rec)|by right].
  intros k Hk. by rewrite mget_mset_ne.
Qed.

(** Outcomes that park the withdrawal, with the status of its entry. *)
Definition parked_as (o : PayoutOutcome) : option QueuedStatus :=
  match o with
  | queued | reconciled_queued => Some QQueued
  | cancelled_refund_candidate => Some QCancelledRefundCandidate
  | ambiguous => Some QAmbiguous
  | _ => None
  end.

(** The effect on the queue of handling the withdrawal [(t, exp)]: only its own entry may change;
    it is left alone, written, or deleted after an accepted fulfillment; an outcome that parks the
    withdrawal left its entry in the queue. *)
Record handled (t : string) (exp : ExpectedRelease) (s : QueuedState) (h : history EvmI)
    (o : res PayoutOutcome) (s' : QueuedState) (h' : history EvmI) : Prop := {
  h_keeps : keeps (queuedKey (canonicalId exp)) s h s' h';
  h_entry : s' = s \/
    (exists rec, mget (queuedKey (canonicalId exp)) s' = Some rec /\ entry_of t exp rec) \/
    (s' = mdel (queuedKey (canonicalId exp)) s /\ exists hash, E (Fulfill t hash) (Ok true) ∈ h');
  h_parked : forall oc stt, o = Ok oc -> parked_as oc = Some stt ->
    exists rec, mget (queuedKey (canonicalId exp)) s' = Some rec /\ entry_of t exp rec /\ status rec = stt;
}.

Lemma handled_quiet t exp s h o s' h' :
  quiet s h s' h' -> (forall oc, o = Ok oc -> parked_as oc = None) -> handled t exp s h o s' h'.
Proof.
  intros Hq Ho. pose proof (proj1 Hq) as ->. split; [by apply quiet_keeps|by left|].
  intros oc stt Hoc Hp. rewrite (Ho oc Hoc) in Hp. done.
Qed.

Lemma quiet_trans s h s1 h1 s2 h2 : quiet s h s1 h1 -> quiet s1 h1 s2 h2 -> quiet s h s2 h2.
Proof.
  intros (-> & X1 & L1) (-> & X2 & L2). split; [done|]. split; [by eapply ext_trans|congruence].
Qed.

Lemma quiet_ask c r s h : not_save c -> quiet s h s (E c r :: h).
Proof. intros Hc. split; [done|]. split; [apply ext_cons, ext_refl|by apply last_saved_cons]. Qed.

Lemma quiet_handled t exp s h s1 h1 o s2 h2 :
  quiet s h s1 h1 -> handled t exp s1 h1 o s2 h2 -> handled t exp s h o s2 h2.
Proof.
  intros Hq [K He Hp]. pose proof (proj1 Hq) as ->. split; [|done|done].
  eapply keeps_trans; [|done]. by apply quiet_keeps.
Qed.

(** A program that never writes, followed by an outcome that does not park. *)
Ltac quietly L := eapply wp_mono; [|apply quiet_calls; L]; cbv beta; intros ?o ?s' ?h' ?Hq.

Lemma handled_persist cfg w exp rid ea sub stt nt s h (k : unit -> prog EvmI PayoutOutcome) Q :
  (forall s' h', keeps (queuedKey (canonicalId exp)) s h s' h' ->
     (exists rec, mget (queuedKey (canonicalId exp)) s' = Some rec /\
        entry_of (tx_id w) exp rec /\ status rec = stt) -> T (k tt) s' h' Q) ->
  (forall m s' h', handled (tx_id w) exp s h (Err m) s' h' -> Q (Err m) s' h') ->
  T (bind (persistQueued cfg w exp rid ea sub stt nt) k) s h Q.
Proof.
  intros Hk Hm. apply wp_bind. wp_apply persist_state. intros [[]|m] s1 h1 (K & He & Hp).
  - apply Hk; [done|]. by apply Hp.
  - apply Hm. split; [done| |done]. destruct He as [->|He]; [by left|by right; left].
Qed.

Lemma handled_alert t exp s h s' h' oc stt c :
  keeps (queuedKey (canonicalId exp)) s h s' h' -> parked_as oc = Some stt -> not_save c ->
  (exists rec, mget (queuedKey (canonicalId exp)) s' = Some rec /\ entry_of t exp rec /\ status rec = stt) ->
  T (bind (ask c) (fun _ => Ret oc)) s' h' (handled t exp s h).
Proof.
  intros K Hoc Hc Hrec. apply wp_bind, T_ask. intros r.
  assert (keeps (queuedKey (canonicalId exp)) s h s' (E c r :: h')) as K'
    by (eapply keeps_trans; [done|]; apply quiet_keeps, quiet_ask; done).
  destruct r; split; try done; try (right; left; naive_solver); intros ? ? [= <-] ?; naive_solver.
Qed.

Lemma quiet_refl s h : quiet s h s h.
Proof. split; [done|]. split; [apply ext_refl|done]. Qed.

Lemma quiet_cons s h s' h' c r : not_save c -> quiet s h s' h' -> quiet s h s' (E c r :: h').
Proof. intros Hc Hq. eapply quiet_trans; [done|]. pose proof (proj1 Hq) as ->. by apply quiet_ask. Qed.

Ltac quiet_tac :=
  first [ assumption | apply quiet_refl
        | apply quiet_cons; [exact Logic.I|quiet_tac]
        | match goal with H : quiet ?s1 ?h1 ?s ?h |- quiet _ _ ?s ?h =>
            apply (quiet_trans _ _ s1 h1); [quiet_tac|exact H] end ].
(** Close a goal whose queue did not change and whose outcome does not park. *)
Ltac unparked := apply handled_quiet; [quiet_tac|intros ? [= <-]; reflexivity].

Lemma refuse_state t exp tag s h : T (observeRefuse tag) s h (handled t exp s h).
Proof. unfold observeRefuse. apply wp_bind, T_ask. intros [[]|m]; simpl; unparked. Qed.

Lemma deep_state cfg hash b s h : T (payoutDeepEnough cfg hash b) s h (fun _ s' h' => quiet s h s' h').
Proof. apply quiet_calls. unfold payoutDeepEnough. calls_evm. Qed.

Lemma reconcile_state exp s h : T (reconcileProcessedId exp) s h (fun _ s' h' => quiet s h s' h').
Proof. apply quiet_calls, reconcile_calls. by intros []. Qed.

(** Fulfillment of a proved payout, with the deletion of the entry when [del]. *)
Lemma fulfilled_state t exp hash s h :
  T (let! ok := ask (Fulfill t hash) in
     if ok then
       do! ask (MarkProcessed t) in
       let! q := getQ in
       let q' := mdel (queuedKey (canonicalId exp)) q in
       do! putQ q' in do! ask (SaveQueued q') in Ret reconciled_paid
     else Ret fulfill_api_failed)%prog s h (handled t exp s h).
Proof.
  apply wp_bind, T_ask. intros [[]|m]; simpl; [|unparked..].
  split; [done|]. intros [[]|m] _; simpl; [|unparked].
  split; [done|]. intros r _. set (key := queuedKey _).
  assert (keeps key s h (mdel key s) (E (SaveQueued (mdel key s)) r :: E (MarkProcessed t) (Ok ()) ::
            E (Fulfill t hash) (Ok true) :: h)) as K.
  { split; [do 3 apply ext_cons; apply ext_refl| |apply wf_mdel|by right].
    intros k Hk. by rewrite mget_mdel_ne. }
  assert (E (Fulfill t hash) (Ok true) ∈ E (SaveQueued (mdel key s)) r :: E (MarkProcessed t) (Ok ()) ::
            E (Fulfill t hash) (Ok true) :: h) as Hin by (right; right; left).
  destruct r; split; try done; try (right; right; eauto); by intros ? ? [= <-].
Qed.

Lemma apply_state cfg w exp r ctx s h :
  T (applyReconciliation cfg w exp r ctx) s h (handled (tx_id w) exp s h).
Proof.
  unfold applyReconciliation. destruct (observeOnly cfg); [apply refuse_state|].
  destruct (scanFailed r); [unparked|]. destruct (cls r).
  - cbv zeta. apply wp_bind. wp_apply deep_state. intros [[]|m] s1 h1 Hq; simpl negb; cbv iota; [|unparked..].
    wp_apply fulfilled_state. intros. by eapply quiet_handled.
  - unfold toString_of. destruct (requestId r), (executeAfter r); try (simpl; unparked).
    cbn [bind]. apply wp_bind, (wp_get (I := EvmI)). apply handled_persist; [|done].
    intros s' h' K Hrec. apply wp_ret. split; [done|right; left; naive_solver|]. intros ? ? [= <-] [= <-]. naive_solver.
  - unfold toString_of. destruct (requestId r), (executeAfter r); try (simpl; unparked).
    cbn [bind]. apply wp_bind, (wp_get (I := EvmI)). apply handled_persist; [|done].
    intros s' h' K Hrec. by eapply handled_alert.
  - apply wp_bind, (wp_get (I := EvmI)). apply handled_persist; [|done].
    intros s' h' K Hrec. by eapply handled_alert.
Qed.

Lemma refund_state cfg w rt n s h : T (guardedRefund cfg w rt n) s h (fun _ s' h' => quiet s h s' h').
Proof.
  apply quiet_calls. unfold guardedRefund, observeRefuse. calls_evm. apply reconcile_calls. by intros [].
Qed.

Lemma failure_state cfg w exp err s h :
  T (handleEvmFailure cfg w exp err) s h (handled (tx_id w) exp s h).
Proof.
  unfold handleEvmFailure. destruct (observeOnly cfg); [apply refuse_state|].
  apply wp_bind, wp_attempt, T_ask. intros [[]|m].
  - apply wp_bind. wp_apply reconcile_state. intros [r|m] s1 h1 Hq; [|unparked].
    wp_apply apply_state. intros. eapply quiet_handled; [|done]. quiet_tac.
  - apply wp_bind, T_ask. intros [[sr att]|m]; [|unparked].
    apply wp_bind. quietly calls_evm. destruct o as [[]|m]; [|unparked].
    destruct (sr && autoRefund cfg); [|unparked]. apply wp_bind. wp_apply refund_state.
    intros [[]|m] s2 h2 Hq2; simpl; unparked.
  - apply wp_bind, T_ask. intros [[]|e]; simpl; unparked.
Qed.

Lemma settle_state cfg w exp hash s h :
  T (settle_release cfg w exp hash) s h (handled (tx_id w) exp s h).
Proof.
  unfold settle_release. apply wp_bind, wp_attempt, T_ask. intros [rc|m].
  2:{ apply wp_bind, T_ask. intros [[]|e]; [|unparked]. wp_apply failure_state.
      intros. eapply quiet_handled; [|done]. quiet_tac. }
  destruct (negb _).
  { apply wp_bind, T_ask. intros [[]|e]; [|unparked]. wp_apply failure_state.
    intros. eapply quiet_handled; [|done]. quiet_tac. }
  apply wp_bind. unfold classifyReleaseReceipt. quietly calls_evm. destruct o as [[|rid ea rec|why rid]|m]; [| | |unparked].
  - apply wp_bind. wp_apply deep_state. intros [[]|m] s1 h1 Hq1; simpl negb; cbv iota; [|unparked..].
    apply wp_bind, T_ask. intros [[]|m]; simpl; [|unparked..].
    split; [done|]. intros [[]|m] _; simpl; unparked.
  - assert (quiet s h s' h') as Hq0 by quiet_tac.
    eapply wp_mono; [intros o1 s1 h1; apply (quiet_handled _ _ _ _ _ _ _ _ _ Hq0)|].
    apply handled_persist; [|done].
    intros s1 h1 K Hrec. apply wp_ret. split; [done|right; left; naive_solver|]. intros ? ? [= <-] [= <-]. naive_solver.
  - assert (quiet s h s' h') as Hq0 by quiet_tac.
    eapply wp_mono; [intros o1 s1 h1; apply (quiet_handled _ _ _ _ _ _ _ _ _ Hq0)|].
    apply handled_persist; [|done].
    intros s1 h1 K Hrec. by eapply handled_alert.
Qed.

Definition own_key (w : NormalizedEvmWithdrawal) : string := queuedKey (rougeBridgeId (tx_id w)).

(** The entry of [w] in the queue, with status [stt]. *)
Definition parked_in (w : NormalizedEvmWithdrawal) (s : QueuedState) (stt : QueuedStatus) : Prop :=
  exists rec, mget (own_key w) s = Some rec /\ stored_tx_id rec = tx_id w /\
    canonical_l1_tx_id rec = rougeBridgeId (tx_id w) /\ status rec = stt.

Definition processed_state (w : NormalizedEvmWithdrawal) (s : QueuedState) (h : history EvmI)
    (o : res PayoutOutcome) (s' : QueuedState) (h' : history EvmI) : Prop :=
  keeps (own_key w) s h s' h' /\ (mhas (own_key w) s = true -> s' = s) /\
  (forall oc stt, o = Ok oc -> parked_as oc = Some stt -> parked_in w s' stt).

Lemma processed_quiet w s h o s' h' :
  quiet s h s' h' -> (forall oc, o = Ok oc -> parked_as oc = None) -> processed_state w s h o s' h'.
Proof.
  intros Hq Ho. split; [by apply quiet_keeps|]. split; [intros; apply Hq|].
  intros oc stt E1 E2. rewrite (Ho oc E1) in E2. done.
Qed.
Ltac unprocessed_tac := apply processed_quiet; [quiet_tac|intros ? [= <-]; reflexivity].

Lemma processed_handled w exp s h s1 h1 o s2 h2 :
  canonicalId exp = rougeBridgeId (tx_id w) -> mhas (own_key w) s = false -> quiet s h s1 h1 ->
  handled (tx_id w) exp s1 h1 o s2 h2 -> processed_state w s h o s2 h2.
Proof.
  intros Hid Hno Hq Hh. apply (quiet_handled _ _ _ _ _ _ _ _ _ Hq) in Hh. destruct Hh as [K He Hp].
  unfold processed_state, parked_in, own_key in *. rewrite Hid in *.
  split; [done|]. split; [congruence|]. intros oc stt E1 E2.
  destruct (Hp oc stt E1 E2) as (rec & ? & (? & Hc & _) & ?). exists rec. by rewrite Hc.
Qed.

Lemma loop_no_save cfg exp fuel att le :
  calls (I := EvmI) not_save False (release_loop cfg exp fuel att le).
Proof.
  revert att le. induction fuel; intros; cbn [release_loop]; unfold send_release; calls_evm.
Qed.

Lemma process_state cfg w s h :
  T (processEvmWithdrawal cfg w) s h (processed_state w s h).
Proof.
  unfold processEvmWithdrawal. destruct (route_asset _) as [a|].
  2:{ apply wp_bind, T_ask. intros [[]|m]; simpl; unprocessed_tac. }
  destruct (_ || _); [apply wp_bind, T_ask; intros [[]|m]; simpl; unprocessed_tac|].
  apply wp_bind, (wp_get (I := EvmI)). destruct (mhas _ s) eqn:Em; [unprocessed_tac|].
  destruct (negb _); [apply wp_bind, T_ask; intros [[]|m]; simpl; unprocessed_tac|].
  apply wp_bind, wp_of_res. destruct (expectedReleaseFor _ _ _ _) as [exp|m] eqn:Eexp; [|unprocessed_tac].
  assert (canonicalId exp = rougeBridgeId (tx_id w)) as Hid by (by eapply (expect_asset cfg)).
  apply wp_bind, wp_attempt, T_ask. intros [before|m]; [|unprocessed_tac].
  destruct (observeOnly cfg).
  { unfold observe_withdrawal. apply wp_bind.
    quietly ltac:(calls_evm; apply reconcile_calls; by intros []). destruct o; simpl; unprocessed_tac. }
  destruct before.
  { apply wp_bind. wp_apply reconcile_state. intros [r|m] s1 h1 Hq; [|unprocessed_tac].
    wp_apply apply_state. intros. eapply processed_handled; [done|done| |done]. quiet_tac. }
  apply wp_bind. eapply wp_mono; [|apply quiet_calls].
  2:{ apply loop_no_save. }
  intros [[[hash|] le]|m] s1 h1 Hq; cbv beta in Hq; [| |unprocessed_tac].
  - destruct (truthy hash); [wp_apply settle_state|wp_apply failure_state];
      intros; (eapply processed_handled; [done|done| |done]); quiet_tac.
  - wp_apply failure_state. intros. eapply processed_handled; [done|done| |done]. quiet_tac.
Qed.

(** C10: a parked withdrawal is not paid again.  When a run ends with the withdrawal queued in
    the timelock, cancelled or ambiguous, its entry is in the queue with that status, and every
    later run of [processEvmWithdrawal] on it returns [skipped_queued] at once: no command at
    all is issued, so in particular no release, and the queue is unchanged. *)
Theorem parked_not_paid_again cfg w e s oc stt
    (Hout : outcome e (processEvmWithdrawal cfg w) s = Ok oc) (Hpark : parked_as oc = Some stt) :
  let s' := final e (processEvmWithdrawal cfg w) s in
  parked_in w s' stt /\
  forall e' h, run e' (processEvmWithdrawal cfg w) s' h = (Ok skipped_queued, s', h).
Proof.
  pose proof (wp_post (I := EvmI) _ e _ s _ (process_state cfg w s [])) as (_ & _ & Hp).
  pose proof (Hp oc stt Hout Hpark) as Hin. split; [done|]. intros e' h.
  assert (mhas (own_key w) (final e (processEvmWithdrawal cfg w) s) = true) as Hm
    by (apply mhas_true; destruct Hin as (rec & ? & _); eauto).
  unfold outcome, processEvmWithdrawal in Hout. unfold processEvmWithdrawal at 1.
  destruct (route_asset _) as [a|].
  2:{ simpl in Hout. destruct (e [] _); simpl in Hout; by simplify_eq. }
  destruct (_ || _).
  { simpl in Hout. destruct (e [] _); simpl in Hout; by simplify_eq. }
  cbn [bind getQ get run]. unfold own_key in Hm. simpl. by rewrite Hm.
Qed.

(** Frame and write-through.  A run of [processEvmWithdrawal] keeps the queue well formed
    (one entry per canonical id, under its own key), changes no entry that was already parked,
    and a queue that changed is the one written last to the state file. *)
Theorem process_queue_frame cfg w e s :
  let s' := final e (processEvmWithdrawal cfg w) s in
  (wf_queue s -> wf_queue s') /\
  (forall k rec, mget k s = Some rec -> mget k s' = Some rec) /\
  (s' = s \/ last_saved (trace e (processEvmWithdrawal cfg w) s) = Some s').
Proof.
  pose proof (wp_post (I := EvmI) _ e _ s _ (process_state cfg w s [])) as (K & Hs & _).
  cbv zeta. split; [apply K|]. split; [|destruct (k_saved _ _ _ _ _ K) as [[-> _]|?]; auto].
  intros k rec Hk. destruct (decide (k = own_key w)) as [->|Hne].
  - rewrite Hs; [done|]. apply mhas_true. eauto.
  - by rewrite (k_frame _ _ _ _ _ K k Hne).
Qed.

(** ** Polling *)

(** Same withdrawal, asset, recipient and amount. *)
Definition same_entry (r r' : QueuedRecord) : Prop :=
  stored_tx_id r' = stored_tx_id r /\ canonical_l1_tx_id r' = canonical_l1_tx_id r /\
  q_asset r' = q_asset r /\ q_recipient r' = q_recipient r /\
  BigInt_of_string (q_amount r') = BigInt_of_string (q_amount r).

Lemma same_entry_refl r : same_entry r r.
Proof. by repeat split. Qed.

(** An entry is still there for the same withdrawal, or its fulfillment was accepted. *)
Definition entry_life (k : string) (r : QueuedRecord) (s' : QueuedState) (h' : history EvmI) : Prop :=
  (exists r', mget k s' = Some r' /\ same_entry r r') \/
  (mget k s' = None /\ exists hash, E (Fulfill (stored_tx_id r) hash) (Ok true) ∈ h').

Lemma life_ext k r s' h1 h2 : entry_life k r s' h1 -> ext h1 h2 -> entry_life k r s' h2.
Proof. intros [?|(? & hash & ?)] Hx; [by left|right]. split; [done|]. exists hash. by eapply ext_elem. Qed.

(** The effect of one iteration of the polling loop on the entry [(key, rec)]. *)
Definition polled (key : string) (rec : QueuedRecord) (s : QueuedState) (h : history EvmI)
    (s' : QueuedState) (h' : history EvmI) : Prop :=
  keeps key s h s' h' /\ entry_life key rec s' h' /\ (status rec <> QQueued -> s' = s).

Lemma polled_quiet key rec s h s' h' :
  mget key s = Some rec -> quiet s h s' h' -> polled key rec s h s' h'.
Proof.
  intros Hk Hq. split; [by apply quiet_keeps|]. destruct Hq as (-> & _). split; [|done].
  left. exists rec. by split; [|apply same_entry_refl].
Qed.

Lemma polled_handled bridge cfg key rec amt s h s1 h1 o s' h' :
  wf_queue s -> mget key s = Some rec -> status rec = QQueued ->
  BigInt_of_string (q_amount rec) = Some amt -> quiet s h s1 h1 ->
  handled (stored_tx_id rec) (entry_release cfg bridge rec amt) s1 h1 o s' h' ->
  polled key rec s h s' h'.
Proof.
  intros [Hnd Hwf] Hk Hst Ham Hq Hh. apply (quiet_handled _ _ _ _ _ _ _ _ _ Hq) in Hh.
  destruct Hh as [K He _]. simpl in K, He. rewrite <- (Hwf key rec Hk) in K, He.
  split; [done|]. split; [|done]. destruct He as [->|[(r' & Hr' & Hent)|[-> Hf]]].
  - left. exists rec. by split; [|apply same_entry_refl].
  - left. exists r'. split; [done|]. destruct Hent as (? & ? & ? & ? & Ha). simpl in *.
    repeat split; try done. rewrite Ha, BigInt_dec. done.
  - right. split; [by apply mget_mdel_eq|done].
Qed.

Lemma no_longer_binds key rec nt s h :
  wf_queue s -> mget key s = Some rec -> status rec = QQueued ->
  T (let! now := ask NowIso in
     let! q := getQ in
     let q' := mupdate key (mark_ambiguous nt now) q in
     do! putQ q' in
     do! ask (SaveQueued q') in
     ask (Alert ("ambiguous:" +:+ stored_tx_id rec))) s h (fun _ s' h' => polled key rec s h s' h').
Proof.
  intros Hwf Hk Hst. apply wp_bind, T_ask. intros [now|m]; [|apply polled_quiet; [done|quiet_tac]].
  apply wp_bind, (wp_get (I := EvmI)). cbv zeta. apply wp_bind, (wp_put (I := EvmI)).
  set (s' := mupdate key (mark_ambiguous nt now) s).
  assert (forall h', ext h h' -> last_saved h' = Some s' -> polled key rec s h s' h') as Hpol.
  { intros h' Hx Hl. split; [split; [done| | |by right]|].
    - intros k Hne. by apply mget_mupdate_ne.
    - by apply wf_mupdate.
    - split; [|done]. left. exists (mark_ambiguous nt now rec).
      unfold s'. rewrite mget_mupdate_eq, Hk. done. }
  apply wp_bind, T_ask. intros [[]|m]; [apply T_ask; intros r|]; apply Hpol; try done;
    repeat apply ext_cons; apply ext_refl.
Qed.

Lemma poll_entry_state cfg bridge key rec s h :
  wf_queue s -> mget key s = Some rec ->
  T (poll_entry cfg bridge (key, rec)) s h (fun _ s' h' => polled key rec s h s' h').
Proof.
  intros Hwf Hk. unfold poll_entry, bigint_str.
  assert (forall s' h', quiet s h s' h' -> polled key rec s h s' h') as Hquiet
    by (intros; by apply polled_quiet).
  case_bool_decide as Hst; simpl negb; cbv iota; [|by apply Hquiet, quiet_refl].
  destruct (_ || _); [by apply Hquiet, quiet_refl|].
  destruct (BigInt_of_string (q_amount rec)) as [amt|] eqn:Ham; [|by apply Hquiet, quiet_refl].
  destruct (BigInt_of_string (request_id rec)) as [rid|]; [|by apply Hquiet, quiet_refl].
  destruct (BigInt_of_string (execute_after rec)) as [ea|]; [|by apply Hquiet, quiet_refl].
  cbn [of_res bind]. cbv zeta. apply wp_bind, wp_attempt, T_ask. intros [onchain|m]; [|apply Hquiet; quiet_tac].
  destruct (observeOnly cfg); [apply T_ask; intros; apply Hquiet; quiet_tac|].
  destruct (negb _).
  { eapply wp_mono; [|by apply no_longer_binds].
    intros _ s' h' (K & L & S). split; [|done]. eapply keeps_trans; [|done]. apply quiet_keeps. quiet_tac. }
  assert (forall w r ctx s1 h1, tx_id w = stored_tx_id rec -> quiet s h s1 h1 ->
    T (do! applyReconciliation cfg w (entry_release cfg bridge rec amt) r ctx in Ret tt) s1 h1
      (fun _ s' h' => polled key rec s h s' h')) as Happly.
  { intros w r ctx s1 h1 Hw Hq1. apply wp_bind. wp_apply apply_state. rewrite Hw.
    intros [oc|m] s2 h2 Hh; [apply wp_ret|]; by eapply polled_handled. }
  destruct (tl_executed onchain).
  - apply wp_bind, wp_attempt. quietly ltac:(unfold find_execution, find_release, verified_receipt; calls_evm).
    destruct o as [paid|m]; [|apply Hquiet; quiet_tac]. apply Happly; [done|quiet_tac].
  - apply wp_bind, wp_attempt, T_ask. intros rc. destruct (_ || _); [|apply Hquiet; quiet_tac].
    apply wp_bind, wp_attempt, T_ask. intros [conf|m]; [|apply Hquiet; quiet_tac].
    destruct (_ && _); [apply Happly; [done|quiet_tac]|].
    destruct (_ && _); [apply Hquiet; quiet_tac|]. apply Happly; [done|quiet_tac].
Qed.

(** The effect of the loop over the entries [l]. *)
Record polled_all (l : QueuedState) (s : QueuedState) (h : history EvmI) (s' : QueuedState) (h' : history EvmI) : Prop := {
  p_ext : ext h h';
  p_wf : wf_queue s';
  p_frame : forall k, k ∉ mkeys l -> mget k s' = mget k s;
  p_life : forall k r, (k, r) ∈ l -> entry_life k r s' h';
  p_terminal : forall k r, (k, r) ∈ l -> status r <> QQueued -> mget k s' = Some r;
  p_saved : s' = s /\ last_saved h' = last_saved h \/ last_saved h' = Some s';
}.

Lemma polled_cons key rec l s h s1 h1 s2 h2 :
  key ∉ mkeys l -> mget key s = Some rec ->
  polled key rec s h s1 h1 -> polled_all l s1 h1 s2 h2 -> polled_all ((key, rec) :: l) s h s2 h2.
Proof.
  intros Hn Hk (K & L & S) [X W F P Tm Sv]. split; [eapply ext_trans; [apply K|done]|done| | | |].
  - intros k [? ?]%not_elem_of_cons. rewrite F by done. by apply K.
  - intros k r [[= -> ->]|Hin]%elem_of_cons; [|by apply P].
    eapply life_ext in L; [|done]. unfold entry_life in *. by rewrite F.
  - intros k r [[= -> ->]|Hin]%elem_of_cons Hst; [|by apply Tm]. rewrite F, S; done.
  - destruct Sv as [[-> ->]|?]; [apply K|by right].
Qed.

Lemma polled_nil l s h :
  wf_queue s -> (forall k r, (k, r) ∈ l -> mget k s = Some r) -> polled_all l s h s h.
Proof.
  intros Hwf Hl. split; [apply ext_refl|done|done| |auto|by left].
  intros k r Hin. left. exists r. split; [auto|apply same_entry_refl].
Qed.

Lemma poll_loop cfg bridge l s h :
  NoDup (mkeys l) -> wf_queue s -> (forall k r, (k, r) ∈ l -> mget k s = Some r) ->
  T (for_each (poll_entry cfg bridge) l) s h (fun _ s' h' => polled_all l s h s' h').
Proof.
  revert s h. induction l as [|[key rec] l IH]; intros s h Hnd Hwf Hl; cbn [for_each].
  { by apply polled_nil. }
  apply NoDup_cons in Hnd as [Hn Hnd]. assert (mget key s = Some rec) as Hk by (apply Hl; left).
  apply wp_bind. eapply wp_mono; [|by apply poll_entry_state]. intros o s1 h1 Hp.
  assert (wf_queue s1) as Hwf1 by by apply Hp.
  assert (forall k r, (k, r) ∈ l -> mget k s1 = Some r) as Hl1.
  { intros k r Hin. rewrite (k_frame _ _ _ _ _ (proj1 Hp)); [apply Hl; by right|].
    intros ->. apply Hn, list_elem_of_fmap. by exists (key, r). }
  destruct o as [[]|m].
  - eapply wp_mono; [|by apply IH]. intros o2 s2 h2. by apply polled_cons.
  - eapply polled_cons; [done..|]. by apply polled_nil.
Qed.

Lemma poll_state cfg s h :
  wf_queue s -> T (pollQueuedWithdrawals cfg) s h (fun _ s' h' => polled_all s s h s' h').
Proof.
  intros Hwf. assert (forall k r, (k, r) ∈ s -> mget k s = Some r) as Hs
    by (intros; by apply mget_nodup; [apply Hwf|]).
  unfold pollQueuedWithdrawals. destruct (negb _); [by apply polled_nil|].
  apply wp_bind, (wp_get (I := EvmI)). apply poll_loop; [apply Hwf|done..].
Qed.

(** an entry leaves the queue only when it is fulfilled.  A run of [pollQueuedWithdrawals]
    keeps the queue well formed and adds no entry; every entry is still there for the same
    withdrawal, asset, recipient and amount, or the daemon accepted the fulfillment of its
    withdrawal in this run; entries with a terminal status are not touched; and a queue that
    changed is the one written last to the state file.  This holds whatever the dependencies
    answer, and also when the run ends with an exception. *)
Theorem poll_removes_only_fulfilled cfg e s (Hwf : wf_queue s) :
  let s' := final e (pollQueuedWithdrawals cfg) s in
  let h' := trace e (pollQueuedWithdrawals cfg) s in
  wf_queue s' /\
  (forall k, mget k s = None -> mget k s' = None) /\
  (forall k r, mget k s = Some r -> entry_life k r s' h' /\ (status r <> QQueued -> mget k s' = Some r)) /\
  (s' = s \/ last_saved h' = Some s').
Proof.
  pose proof (wp_post (I := EvmI) _ e _ s _ (poll_state cfg s [] Hwf)) as [_ W F L Tm Sv].
  cbv zeta. split; [done|]. split; [|split].
  - intros k Hk. destruct (decide (k ∈ mkeys s)) as [Hin|Hn]; [|by rewrite F].
    apply list_elem_of_fmap in Hin as ([k' r] & -> & Hin). simpl in *.
    rewrite (mget_nodup k' r s) in Hk; [done|apply Hwf|done].
  - intros k r Hk%mget_elem. auto.
  - destruct Sv as [[-> _]|?]; auto.
Qed.

(** Commands polling never issues. *)
Definition not_for_poll (c : evm_cmd) : bool :=
  match c with
  | ReleaseETH _ _ _ _ | ReleaseERC20 _ _ _ _ _ | ReportFailure _ _ | Refund _ => true
  | _ => false
  end.

Definition poll_guard (cfg : EvmCfg) (s : QueuedState) (h : history EvmI) (c : evm_cmd) : Prop :=
  not_for_poll c = false /\
  match c with
  | Fulfill t hash => exists exp, of_queue cfg s t exp /\ fulfill_evidence cfg h exp hash
  | _ => True
  end.

Lemma poll_calls cfg :
  calls (I := EvmI) (fun c => not_for_poll c = false) True (pollQueuedWithdrawals cfg).
Proof.
  unfold pollQueuedWithdrawals, poll_entry, find_execution, find_release, verified_receipt,
    applyReconciliation, payoutDeepEnough, persistQueued, observeRefuse, toString_of. calls_evm.
Qed.

(** polling writes only with evidence.  Whatever the dependencies answer, a run of
    [pollQueuedWithdrawals] submits no release, reports no failure and requests no refund, and
    every fulfillment it sends is for an entry of the queue, names a transaction whose
    successful receipt was read and proves the release of exactly that entry, and follows a read
    of the chain head at which that transaction has the required depth. *)
Theorem poll_writes_justified cfg e s :
  guarded (poll_guard cfg s) (trace e (pollQueuedWithdrawals cfg) s).
Proof.
  pose proof (poll_guarded cfg e s) as Hg.
  assert (forall c r, E c r ∈ trace e (pollQueuedWithdrawals cfg) s -> not_for_poll c = false) as Hno.
  { intros c r Hin. eapply (calls_trace (I := EvmI)) in Hin; [|exact (poll_calls cfg)].
    by destruct Hin as [?|?%elem_of_nil]. }
  revert Hg Hno. generalize (trace e (pollQueuedWithdrawals cfg) s). intros h.
  induction h as [|[c r] h IH]; [done|]. intros [Hok Hg] Hno. split; [|apply IH; [done|]].
  - pose proof (Hno c r ltac:(left)). apply evm_ok_write in Hok. split; [done|]. by destruct c.
  - intros c' r' Hin. apply (Hno c' r'). by right.
Qed.
End Queue.
