(* ===== verification/EvmDemo.v ===== *)
(** * Concrete runs of the EVM payout orchestration

    A concrete instance of the viem operations and concrete dependencies: the witnesses of the
    claims, a payout that completes, one that is queued and later executed, and the interleaving
    in which an automatic refund overtakes a pending release. *)
From S2P Require Import Prelude JsText JsNum JsMap Interact BridgeCore ToyViem LogScan EvmPayout EvmSafety EvmClaims EvmQueue.
Local Open Scope Z_scope.
Local Open Scope string_scope.

Module Demo.

Definition alice : string := "0x00000000000000000000000000000000000000a1".
Definition vault : string := "0x00000000000000000000000000000000000000b2".
Definition usdc : string := "0x00000000000000000000000000000000000000c3".

Definition wd : NormalizedEvmWithdrawal :=
  {| tx_id := "ab"; evm_address := alice; amount_units := num_of_Z 5; token_symbol := "qETH" |}.

Definition wid : Hex := rougeBridgeId "ab".

Definition cfg : EvmCfg := {|
  cfg_bridgeAddress := Some vault; cfg_usdcAddress := usdc; autoRefund := true; maxRetries := 3;
  fulfillConfirmations := Some 6; observeOnly := false; process_env := fun _ => None |}.

Definition cfg_observe : EvmCfg := {|
  cfg_bridgeAddress := Some vault; cfg_usdcAddress := usdc; autoRefund := true; maxRetries := 3;
  fulfillConfirmations := Some 6; observeOnly := true; process_env := fun _ => None |}.

Definition log_of (topics : list Hex) : RawLog := {|
  log_address := vault; log_data := "0x"; log_topics := topics;
  log_transactionHash := Some "0xhash"; log_blockNumber := Some 100 |}.

Definition receipt (topics : list Hex) : ReceiptLike := {|
  rc_success := true; rc_logs := [log_of topics]; rc_transactionHash := Some "0xhash";
  rc_blockNumber := Some 100 |}.

Definition paid_receipt : ReceiptLike := receipt ["BridgeReleaseETH"; alice; dec 5000000000000; wid].
Definition queued_receipt : ReceiptLike := receipt ["TimelockQueued"; "7"; "5000"].

Definition queue_record (executed : bool) : TimelockRecord := {|
  tl_token := ZERO_ADDRESS; tl_to := alice; tl_amount := 5000000000000; tl_l1TxId := wid;
  tl_executeAfter := 5000; tl_executed := executed; tl_cancelled := false |}.

(** Dependencies that accept everything; [rc] is the receipt of the release. *)
Definition accepting (rc : res ReceiptLike) (executed : bool) (c : evm_cmd) : res (evm_ans c) :=
  match c with
  | ReleaseETH _ _ _ _ | ReleaseERC20 _ _ _ _ _ => Ok "0xhash"
  | WaitForReceipt _ => rc
  | GetReceipt _ => Ok (Some paid_receipt)
  | ProcessedL1Txs _ => Ok false
  | HeadBlock => Ok 200
  | TimelockQueue _ _ => Ok (queue_record executed)
  | FindReleaseTxHashes _ => Ok []
  | FindQueuedRequestIds => Ok []
  | FindTimelockQueuedEvent _ => Ok None
  | FindTimelockExecutedTxHashes _ => Ok ["0xhash"]
  | FindTimelockCancelled _ => Ok false
  | GetNonce => Ok 4
  | ResetNonce => Ok tt
  | Fulfill _ _ => Ok true
  | ReportFailure _ _ => Ok (true, 3)
  | Refund _ => Ok true
  | MarkProcessed _ | SaveQueued _ | Alert _ | SleepMs _ | Observe _ => Ok tt
  | NowIso => Ok "now"
  end.

Definition world (rc : res ReceiptLike) (executed : bool) : env EvmI := fun _ c => accepting rc executed c.

(** The commands of a run, oldest first. *)
Definition commands {A} (e : env EvmI) (p : prog EvmI A) s : list evm_cmd :=
  rev (map (fun ev => match ev with Ev c _ => c end) (trace e p s)).

(** A payout that completes. *)
Example payout_completes :
  outcome (world (Ok paid_receipt) false) (processEvmWithdrawal cfg wd) [] = Ok fulfilled /\
  commands (world (Ok paid_receipt) false) (processEvmWithdrawal cfg wd) [] =
    [ProcessedL1Txs wid; GetNonce; ReleaseETH alice 5000000000000 wid 4; WaitForReceipt "0xhash";
     HeadBlock; Fulfill "ab" "0xhash"; MarkProcessed "ab"].
Proof. vm_compute. split; reflexivity. Qed.

Definition parked_state : QueuedState :=
  final (world (Ok queued_receipt) false) (processEvmWithdrawal cfg wd) [].

(** A payout above the timelock threshold is parked, and fulfilled by polling once executed. *)
Example payout_queued_then_executed :
  outcome (world (Ok queued_receipt) false) (processEvmWithdrawal cfg wd) [] = Ok queued /\
  final (world (Ok queued_receipt) false) (pollQueuedWithdrawals cfg) parked_state = parked_state /\
  final (world (Ok queued_receipt) true) (pollQueuedWithdrawals cfg) parked_state = [] /\
  commands (world (Ok queued_receipt) true) (pollQueuedWithdrawals cfg) parked_state =
    [TimelockQueue 7 true; FindTimelockExecutedTxHashes 7; GetReceipt "0xhash"; GetReceipt "0xhash";
     HeadBlock; Fulfill "ab" "0xhash"; MarkProcessed "ab"; SaveQueued []].
Proof. vm_compute. repeat split. Qed.

(** The refund gate reads only the contract's processed flag.  When the wait for the receipt of
    an accepted release fails (the transaction is still pending), the flag is still false; with
    automatic refunds enabled and the daemon answering "should refund", the refund is requested
    in the same run, while the accepted release can still be mined. *)
Example refund_overtakes_pending_release :
  outcome (world (Err "timeout") false) (processEvmWithdrawal cfg wd) [] = Ok refunded /\
  commands (world (Err "timeout") false) (processEvmWithdrawal cfg wd) [] =
    [ProcessedL1Txs wid; GetNonce; ReleaseETH alice 5000000000000 wid 4; WaitForReceipt "0xhash";
     ResetNonce; ProcessedL1Txs wid;
     ReportFailure "ab" "receipt wait failed for 0xhash: timeout"; Alert "ab";
     ProcessedL1Txs wid; Refund "ab"; Alert "refund:ab"; MarkProcessed "ab"].
Proof. vm_compute. split; reflexivity. Qed.

(** ** Witnesses *)

Lemma observe_only_witness :
  final (world (Ok paid_receipt) false) (processEvmWithdrawal cfg_observe wd) [] = [].
Proof.
  exact (proj1 (observe_only_changes_nothing cfg_observe wd (world (Ok paid_receipt) false) [] eq_refl)).
Defined.

Lemma observe_guard_witness : mutating HeadBlock = false.
Proof.
  apply (observe_guard_complete (ask HeadBlock) (world (Ok paid_receipt) false) [] HeadBlock (Ok 200)).
  left.
Defined.

Lemma parked_not_paid_again_witness :
  parked_in wd parked_state QQueued /\
  forall e h, run e (processEvmWithdrawal cfg wd) parked_state h = (Ok skipped_queued, parked_state, h).
Proof.
  apply (parked_not_paid_again cfg wd (world (Ok queued_receipt) false) [] queued QQueued);
    vm_compute; reflexivity.
Defined.

Lemma poll_removes_only_fulfilled_witness :
  wf_queue (final (world (Ok queued_receipt) true) (pollQueuedWithdrawals cfg) parked_state).
Proof.
  refine (proj1 (poll_removes_only_fulfilled cfg (world (Ok queued_receipt) true) parked_state _)).
  split; [vm_compute; apply NoDup_singleton|].
  intros k r H. apply mget_elem in H. vm_compute in H. apply list_elem_of_singleton in H.
  injection H as -> ->. vm_compute. reflexivity.
Defined.

End Demo.
