(* ===== verification/ChainAdapters.v ===== *)
(** * The chain adapters of the relayer ([src/scripts/bridge-relayer.ts])

    [scanBridgeLogs], [toReceiptLike], [readTimelockQueue] and the members of
    [evmDepsRaw.chain] that read the chain: the dependencies of [EvmPayout] implemented over the
    RPC client.  The commands are the calls of the client; a log is what [getLogs] returns for
    one of the five bridge events.  Members that do not read the chain are passed on. *)
From S2P Require Import Prelude JsText JsNum JsMap Interact BridgeCore LogScan EvmPayout.
Local Open Scope Z_scope.
Local Open Scope prog_scope.

Inductive ScanEvent :=
| BRIDGE_RELEASE_ETH_EVENT | BRIDGE_RELEASE_ERC20_EVENT
| TIMELOCK_QUEUED_EVENT | TIMELOCK_EXECUTED_EVENT | TIMELOCK_CANCELLED_EVENT.
#[export] Instance ScanEvent_eq_dec : EqDecision ScanEvent.
Proof. solve_decision. Defined.

(** The indexed arguments a scan filters by. *)
Inductive ScanArgs := NoArgs | ByRecipient (recipient : string) | ByRequestId (requestId : Z).

(** A returned log; [executeAfter] is read of [TimelockQueued] logs only, where the code casts it
    to a bigint. *)
Record ScanLog := {
  sl_l1TxId : option Hex;
  sl_requestId : option Z;
  sl_executeAfter : Z;
  sl_transactionHash : option Hex;
}.

(** A receipt as the client returns it. *)
Record RawReceipt := {
  rr_status : string;
  rr_transactionHash : option Hex;
  rr_blockNumber : option Z;
  rr_logs : option (list RawLog);
}.

Inductive net_cmd :=
| NetBlockNumber
| NetGetLogs (address : option string) (event : ScanEvent) (args : ScanArgs) (r : range)
| NetTimelockQueue (address : string) (rid : Z) (blockNumber : option Z)
| NetProcessed (address : option string) (l1TxId : Hex)
| NetReceipt (hash : Hex)
| NetWaitReceipt (hash : Hex) (confirmations : option Z)
| NetSleep (ms : Z)
| NetOther (c : evm_cmd).

Definition net_ans (c : net_cmd) : Type :=
  match c with
  | NetBlockNumber => Z
  | NetGetLogs _ _ _ _ => list ScanLog
  | NetTimelockQueue _ _ _ => list jsval
  | NetProcessed _ _ => bool
  | NetReceipt _ | NetWaitReceipt _ _ => RawReceipt
  | NetSleep _ => unit
  | NetOther c => evm_ans c
  end.

(** The shared state is still the queue of parked withdrawals. *)
Definition NetI : iface := {| st := QueuedState; cmd := net_cmd; ans := net_ans |}.
Definition nask (c : net_cmd) : prog NetI (net_ans c) := call (c : cmd NetI).

Record NetCfg := {
  net_bridge : option string;
  BRIDGE_LOG_SCAN_BLOCKS : Z;
  (** [parseInt(...)]; [None] is NaN. *)
  net_confirmations : option Z;
}.

Definition LOG_SCAN_PACING : ScanPacing := {| pauseMs := 200; retries := 5; backoffMs := 2000 |}.

Section Adapters.
Variable cfg : NetCfg.

(** The [fetchPage] callback and the pauses of a scan. *)
Definition scan_dep (event : ScanEvent) (args : ScanArgs) (c : @scan_cmd) : prog NetI (@scan_ans ScanLog c) :=
  match c return prog NetI (scan_ans c) with
  | FetchPage r => nask (NetGetLogs (net_bridge cfg) event args r)
  | Sleep ms => nask (NetSleep ms)
  end.

Definition scanBridgeLogs (event : ScanEvent) (args : ScanArgs) (toBlockOverride : option Z)
  : prog NetI (list ScanLog) :=
  let! latest := match toBlockOverride with Some b => Ret b | None => nask NetBlockNumber end in
  let lookback := BRIDGE_LOG_SCAN_BLOCKS cfg in
  let from := if lookback <? latest then latest - lookback else 0 in
  embed (I := @ScanI ScanLog) (J := NetI) (fun _ => tt) (fun _ s => s) (scan_dep event args)
    (scanLogPagesDescending from latest MAX_LOG_SCAN_SPAN LOG_SCAN_PACING).

Definition toReceiptLike (r : RawReceipt) : ReceiptLike := {|
  rc_success := (rr_status r =? "success")%string;
  rc_transactionHash := rr_transactionHash r;
  rc_blockNumber := rr_blockNumber r;
  rc_logs := default [] (rr_logs r) |}.

(** [head > BigInt(CONFIRMATIONS) ? head - BigInt(CONFIRMATIONS) : 0n]. *)
Definition confirmed_block (head : Z) : prog NetI Z :=
  match net_confirmations cfg with
  | None => Throw "RangeError: NaN cannot be converted to a BigInt"
  | Some c => Ret (if c <? head then head - c else 0)
  end.

Definition readTimelockQueue (requestId : Z) (confirmed : bool) : prog NetI TimelockRecord :=
  match net_bridge cfg with
  | None => Throw "RougeBridge not configured"
  | Some bridge =>
      let! blockNumber :=
        if confirmed then
          let! head := nask NetBlockNumber in
          let! b := confirmed_block head in Ret (Some b)
        else Ret None in
      let! tuple := nask (NetTimelockQueue bridge requestId blockNumber) in
      of_res (parseTimelockQueueTuple tuple)
  end.

(** [if (p(x) && !out.includes(x)) out.push(x)] in a loop; also [[...new Set(l)]]. *)
Definition push_new {A} `{EqDecision A} (out : list A) (x : A) : list A :=
  if bool_decide (x ∈ out) then out else out ++ [x].

(** The truthy transaction hash of a log. *)
Definition log_hash (lg : ScanLog) : option Hex :=
  match sl_transactionHash lg with Some h => if truthy h then Some h else None | None => None end.

Definition release_hash (exp : ExpectedRelease) (lg : ScanLog) : option Hex :=
  if sameHex (opt_str (sl_l1TxId lg)) (canonicalId exp) then log_hash lg else None.

Definition findReleaseTxHashes (exp : ExpectedRelease) : prog NetI (list Hex) :=
  let event := match asset exp with Eth => BRIDGE_RELEASE_ETH_EVENT | Usdc => BRIDGE_RELEASE_ERC20_EVENT end in
  let! logs := scanBridgeLogs event (ByRecipient (recipient exp)) None in
  Ret (foldl push_new [] (omap (release_hash exp) logs)).

Definition findQueuedRequestIds : prog NetI (list Z) :=
  let! logs := scanBridgeLogs TIMELOCK_QUEUED_EVENT NoArgs None in
  Ret (foldl push_new [] (omap sl_requestId logs)).

Definition findTimelockQueuedEvent (requestId : Z) : prog NetI (option (Z * option Hex)) :=
  let! logs := scanBridgeLogs TIMELOCK_QUEUED_EVENT (ByRequestId requestId) None in
  Ret (match logs with
       | lg :: _ => Some (sl_executeAfter lg, sl_transactionHash lg)
       | [] => None
       end).

Definition findTimelockExecutedTxHashes (requestId : Z) : prog NetI (list Hex) :=
  let! logs := scanBridgeLogs TIMELOCK_EXECUTED_EVENT (ByRequestId requestId) None in
  Ret (foldl push_new [] (omap log_hash logs)).

Definition findTimelockCancelled (requestId : Z) : prog NetI bool :=
  let! head := nask NetBlockNumber in
  let! safeHead := confirmed_block head in
  let! logs := scanBridgeLogs TIMELOCK_CANCELLED_EVENT (ByRequestId requestId) (Some safeHead) in
  Ret (match logs with [] => false | _ => true end).

(** [getReceipt]: every failure of the client is answered with [null]. *)
Definition getReceipt (hash : Hex) : prog NetI (option ReceiptLike) :=
  let! r := attempt (nask (NetReceipt hash)) in
  Ret (match r with Ok rc => Some (toReceiptLike rc) | Err _ => None end).

(** [Math.max(1, CONFIRMATIONS)]. *)
Definition wait_confirmations : option Z := Z.max 1 <$> net_confirmations cfg.

(** [evmDepsRaw.chain]; the other members are passed on. *)
Definition chain_dep (c : evm_cmd) : prog NetI (evm_ans c) :=
  match c return prog NetI (evm_ans c) with
  | WaitForReceipt h => let! r := nask (NetWaitReceipt h wait_confirmations) in Ret (toReceiptLike r)
  | GetReceipt h => getReceipt h
  | ProcessedL1Txs id => nask (NetProcessed (net_bridge cfg) id)
  | HeadBlock => nask NetBlockNumber
  | TimelockQueue rid confirmed => readTimelockQueue rid confirmed
  | FindReleaseTxHashes exp => findReleaseTxHashes exp
  | FindQueuedRequestIds => findQueuedRequestIds
  | FindTimelockQueuedEvent rid => findTimelockQueuedEvent rid
  | FindTimelockExecutedTxHashes rid => findTimelockExecutedTxHashes rid
  | FindTimelockCancelled rid => findTimelockCancelled rid
  | c => nask (NetOther c)
  end.

(** A payout handler with these adapters as its dependencies. *)
Definition with_chain {A} (p : prog EvmI A) : prog NetI A :=
  embed (I := EvmI) (J := NetI) (fun q => q) (fun q _ => q) chain_dep p.
End Adapters.
