(* ===== verification/ChainClaims.v ===== *)
(** * A payout on the chain is found again

    The payout handler composed with the chain adapters, against an RPC node that may fail at
    any call but whose answers are true: log scans are complete, and a withdrawal whose payout is
    on the chain — whatever the relayer remembers of it — is reported to the daemon, and never
    paid again, refunded or parked. *)
From S2P Require Import Prelude JsText JsNum JsMap Interact BridgeCore ToyViem LogScan EvmPayout EvmSafety.
From S2P Require Import EvmClaims EvmDemo ChainAdapters.
Local Open Scope Z_scope.
Local Open Scope prog_scope.

(** ** A chain and the answers that are true of it *)

Record ChainLog := {
  cl_address : string;
  cl_block : Z;
  cl_event : ScanEvent;
  cl_recipient : string;
  cl_log : ScanLog;
}.

Definition args_match (args : ScanArgs) (l : ChainLog) : bool :=
  match args with
  | NoArgs => true
  | ByRecipient r => sameAddress (cl_recipient l) r
  | ByRequestId i => bool_decide (sl_requestId (cl_log l) = Some i)
  end.

Definition selected (address : option string) (event : ScanEvent) (args : ScanArgs) (l : ChainLog) : bool :=
  match address with Some a => sameAddress (cl_address l) a | None => true end
  && bool_decide (cl_event l = event) && args_match args l.

Definition within (r : range) (l : ChainLog) : bool := (fromBlock r <=? cl_block l) && (cl_block l <=? toBlock r).

Abbreviation N := (@Ev NetI).

(** Some call of the node, of the daemon or of the state file failed. *)
Definition net_failed (h : history NetI) : Prop := exists c m, N c (Err m) ∈ h.

Definition longer (h h' : history NetI) : Prop := exists x, h' = x ++ h.

Lemma failed_longer h h' : net_failed h -> longer h h' -> net_failed h'.
Proof. intros (c & m & H) [x ->]. exists c, m. rewrite elem_of_app. by right. Qed.

Lemma longer_refl h : longer h h.
Proof. by exists []. Qed.
Lemma longer_cons h h' e : longer h h' -> longer h (e :: h').
Proof. intros [x ->]. by exists (e :: x). Qed.
Lemma longer_trans h1 h2 h3 : longer h1 h2 -> longer h2 h3 -> longer h1 h3.
Proof. intros [x ->] [y ->]. exists (y ++ x). by rewrite app_assoc. Qed.
Lemma failed_here c m h : net_failed (N c (Err m) :: h).
Proof. exists c, m. left. Qed.
Create HintDb chain.
Hint Resolve longer_refl longer_cons failed_here : chain.

(** ** The payout handler on a withdrawal that was paid

    What the handler does when its dependencies tell the truth about the payout [paid_tx] of
    [exp], up to failing. *)

Section Paid.
Context `{V : Viem}.
Variable cfg : EvmCfg.
Variable w : NormalizedEvmWithdrawal.
Variable exp : ExpectedRelease.
Variable q0 : QueuedState.
Variable receipts : Hex -> option ReceiptLike.
Variable paid_tx : Hex.

Abbreviation E := (@Ev EvmI).

(** The transaction [t] is a payout of [exp]. *)
Definition pays_out (t : Hex) (rc : ReceiptLike) : Prop :=
  receipts t = Some rc /\ rc_success rc = true /\ release_proved (rc_logs rc) exp.

Definition tells_truth (h : history EvmI) (c : evm_cmd) (r : res (evm_ans c)) : Prop :=
  match c return res (evm_ans c) -> Prop with
  | ProcessedL1Txs id => fun r => match r with Ok b => id = canonicalId exp -> b = true | Err _ => True end
  | FindReleaseTxHashes e => fun r => match r with Ok l => e = exp -> paid_tx ∈ l | Err _ => True end
  | GetReceipt t => fun r => r = Ok (receipts t)
  | _ => fun _ => True
  end r.

(** No release, failure report or refund; the queue keeps its content; the daemon is told of a
    payout of [exp], and the withdrawal is marked only after it accepted. *)
Definition settles_only (h : history EvmI) (c : evm_cmd) : Prop :=
  match c with
  | ReleaseETH _ _ _ _ | ReleaseERC20 _ _ _ _ _ | ReportFailure _ _ | Refund _ => False
  | SaveQueued q => q = q0
  | Fulfill t x => t = tx_id w /\ exists rc, pays_out x rc
  | MarkProcessed t => t = tx_id w /\ exists x, E (Fulfill t x) (Ok true) ∈ h
  | _ => True
  end.

(** Calls whose failure the handler reports as such. *)
Definition vital (c : evm_cmd) : bool :=
  match c with
  | ProcessedL1Txs _ | FindReleaseTxHashes _ | HeadBlock | Fulfill _ _ | MarkProcessed _ | SaveQueued _ => true
  | _ => false
  end.

Definition vital_failed (h : history EvmI) : Prop := exists c m, vital c = true /\ E c (Err m) ∈ h.

(** The payout is too shallow at the head that was read. *)
Definition too_shallow (h : history EvmI) : Prop :=
  exists x rc, pays_out x rc /\
    (rc_blockNumber rc = None \/
     exists n b, rc_blockNumber rc = Some b /\ E HeadBlock (Ok n) ∈ h /\
       confirmation_depth n b < evmFulfillDepth (fulfillConfirmations cfg) (process_env cfg)).

Definition recovered (o : res PayoutOutcome) (s : QueuedState) (h : history EvmI) : Prop :=
  s = q0 /\
  match o with
  | Ok reconciled_paid => exists x rc, pays_out x rc /\ E (Fulfill (tx_id w) x) (Ok true) ∈ h /\
      E (MarkProcessed (tx_id w)) (Ok tt) ∈ h
  | Ok awaiting_confirmations => vital_failed h \/ too_shallow h
  | Ok fulfill_api_failed => exists x, E (Fulfill (tx_id w) x) (Ok false) ∈ h
  | Ok skipped_rpc | Err _ => vital_failed h
  | _ => False
  end.

Abbreviation S p s h Q := (wp (I := EvmI) settles_only tells_truth p s h Q).

Lemma S_ask c s h Q :
  settles_only h c -> (forall r, tells_truth h c r -> Q r s (E c r :: h)) -> S (ask c) s h Q.
Proof. apply (wp_call (I := EvmI)). Qed.

Lemma vital_here c m h : vital c = true -> vital_failed (E c (Err m) :: h).
Proof. intros. exists c, m. split; [done|left]. Qed.

Lemma vital_ext h h' : vital_failed h -> ext h h' -> vital_failed h'.
Proof. intros (c & m & ? & ?) ?. exists c, m. split; [done|]. by eapply ext_elem. Qed.

(** Programs that only read. *)
Lemma S_reads {A} (p : prog EvmI A) s h :
  calls (I := EvmI) reads False p -> S p s h (fun _ s' h' => s' = s /\ ext h h').
Proof. apply wp_calls. by intros h' []. Qed.

Hypothesis Hpaid : exists rc, pays_out paid_tx rc.

Lemma verified_receipt_true t s h :
  S (verified_receipt exp t) s h (fun o s' h' => s' = s /\ ext h h' /\
    match o with
    | Ok (Some x) => exists rc, pays_out x rc
    | Ok None => t <> paid_tx
    | Err _ => False
    end).
Proof.
  unfold verified_receipt. apply wp_bind, S_ask; [done|]. cbn. intros r ->.
  destruct (receipts t) as [rc|] eqn:Er.
  - destruct (rc_success rc && is_ok (verifyReleaseLogs (rc_logs rc) exp)) eqn:Ev; cbn;
      (split; [done|]; split; [apply ext_cons, ext_refl|]).
    + apply andb_true_iff in Ev as [Hs Hv]. exists rc. split; [done|]. split; [done|].
      apply verify_iff. by destruct (verifyReleaseLogs _ _) as [[]|].
    + intros ->. destruct Hpaid as (rc' & Hr & Hs & Hp). rewrite Hr in Er. injection Er as <-.
      apply verify_iff in Hp. by rewrite Hs, Hp in Ev.
  - cbn. split; [done|]. split; [apply ext_cons, ext_refl|]. intros ->. destruct Hpaid as (rc' & Hr & _). congruence.
Qed.

Lemma first_payout l s h : paid_tx ∈ l ->
  S (first_some (verified_receipt exp) l) s h (fun o s' h' => s' = s /\ ext h h' /\
    match o with Ok (Some x) => exists rc, pays_out x rc | _ => False end).
Proof.
  revert h. induction l as [|t l IH]; intros h Hin; [by apply elem_of_nil in Hin|]. cbn [first_some].
  apply wp_bind. wp_apply (verified_receipt_true t s h). intros [[x|]|m] s' h' (-> & Hx & H); cbn; [done| |done].
  apply elem_of_cons in Hin as [->|Hin]; [done|]. wp_apply (IH h' Hin).
  intros o s2 h2 (-> & Hx2 & H2). split; [done|]. split; [by eapply ext_trans|done].
Qed.

Lemma find_release_true s h :
  S (find_release exp) s h (fun o s' h' => s' = s /\ ext h h' /\
    match o with Ok (Some x) => exists rc, pays_out x rc | Ok None => False | Err _ => vital_failed h' end).
Proof.
  unfold find_release. apply wp_bind, S_ask; [done|]. cbn. intros [l|m] Hl.
  - wp_apply (first_payout l s); [|by apply Hl]. intros o s' h' (-> & Hx & H). split; [done|].
    split; [eapply ext_trans; [|done]; apply ext_cons, ext_refl|]. by destruct o as [[x|]|].
  - split; [done|]. split; [apply ext_cons, ext_refl|]. by apply vital_here.
Qed.

Lemma scan_queued_reads : calls (I := EvmI) reads False (scan_queued exp).
Proof. unfold scan_queued. calls_auto; by apply calls_ask. Qed.

(** The classification of the processed id is "paid", or the reads failed and it is unknown. *)
Definition found (h : history EvmI) (r : ReconcileResult) : Prop :=
  if scanFailed r then vital_failed h
  else cls r = Paid /\ exists x rc, paidTxHash r = Some x /\ pays_out x rc.

Lemma unverified_not_paid f : verifiedRelease f = false -> classifyProcessed f <> Paid.
Proof. unfold classifyProcessed. intros ->. by repeat case_match. Qed.

Lemma reconcile_true s h :
  mget (queuedKey (canonicalId exp)) s = None ->
  S (reconcileProcessedId exp) s h (fun o s' h' => s' = s /\ ext h h' /\
    match o with Ok r => found h' r | Err _ => False end).
Proof.
  intros Hq. unfold reconcileProcessedId. apply wp_bind, wp_attempt. wp_apply (find_release_true s h).
  intros o s' h' (-> & Hx & H). unfold reconcile_with. apply wp_bind, (wp_get (I := EvmI)). rewrite Hq.
  destruct o as [[x|]|m]; [|done|]; cbn [is_ok negb].
  - destruct H as (rc & H). cbn. split; [done|]. split; [done|]. split; [done|]. by exists x, rc.
  - apply wp_bind. unfold locate_queued. apply wp_bind, wp_attempt. wp_apply (S_reads (scan_queued exp) s h').
    2: apply scan_queued_reads.
    intros o s2 h2 [-> Hx2].
    destruct o as [[[[rid ea] bad]|]|m2];
      repeat first [apply wp_bind | apply wp_attempt | apply S_ask; [done|intros ? _] | apply wp_ret];
      (split; [done|]; split; [eauto using ext_trans, ext_cons, ext_refl|]);
      unfold found; cbn [scanFailed cls]; (rewrite bool_decide_eq_false_2 by by apply unverified_not_paid);
      (eapply vital_ext; [exact H|]; eauto using ext_trans, ext_cons, ext_refl).
Qed.

Lemma deep_true x rc s h : pays_out x rc ->
  S (payoutDeepEnough cfg x None) s h (fun o s' h' => s' = s /\ ext h h' /\
    match o with Ok true => True | Ok false => vital_failed h' \/ too_shallow h' | Err _ => False end).
Proof.
  intros Hx. unfold payoutDeepEnough. apply wp_bind, wp_attempt, wp_bind, wp_bind, S_ask; [done|].
  cbn [tells_truth]. intros r ->. pose proof Hx as (Hr & _). rewrite Hr. apply wp_ret.
  change (mjoin (rc_blockNumber <$> Some rc)) with (rc_blockNumber rc).
  destruct (rc_blockNumber rc) as [b|] eqn:Eb; cbv beta iota.
  - apply wp_bind, S_ask; [done|]. intros [n|m] _; cbn; (split; [done|]; split; [eauto using ext_cons, ext_refl|]).
    + destruct (confirmation_depth n b <? _) eqn:Ed; cbn; [|done]. breflect. right. exists x, rc.
      split; [done|]. right. exists n, b. split; [done|]. split; [left|done].
    + left. by apply vital_here.
  - apply wp_ret. split; [done|]. split; [apply ext_cons, ext_refl|]. right. exists x, rc. split; [done|]. by left.
Qed.

Hypothesis Hlive : observeOnly cfg = false.
Hypothesis Habout : about cfg w q0 (tx_id w) exp.

Lemma unparked : mget (queuedKey (canonicalId exp)) q0 = None.
Proof. apply mhas_false, Habout. Qed.

Lemma apply_true r ctx h : found h r -> S (applyReconciliation cfg w exp r ctx) q0 h recovered.
Proof.
  unfold found, applyReconciliation. rewrite Hlive. destruct (scanFailed r); [by split|].
  intros (-> & x & rc & -> & Hx). cbn [opt_str]. apply wp_bind. wp_apply (deep_true x rc q0 h Hx).
  intros [[]|m] s' h' (-> & Hh & H); [| |done]; cbn [negb]; [|by split].
  apply wp_bind, S_ask; [by split; [|exists rc]|]. intros [[]|m] _.
  2:{ split; [done|]. exists x. left. }
  2:{ split; [done|]. by apply vital_here. }
  apply wp_bind, S_ask; [split; [done|]; exists x; left|]. intros [[]|m] _; [|split; [done|]; by apply vital_here].
  apply wp_bind, (wp_get (I := EvmI)). cbv beta iota zeta. rewrite (mdel_absent _ _ unparked).
  apply wp_bind, (wp_put (I := EvmI)), wp_bind, S_ask; [done|]. intros [[]|m] _; (split; [done|]); [|by apply vital_here].
  exists x, rc. split; [done|]. split; [do 2 right; left|right; left].
Qed.

Hypothesis Hbridge : truthy (opt_str (cfg_bridgeAddress cfg)) = true.

Lemma process_true h : S (processEvmWithdrawal cfg w) q0 h recovered.
Proof.
  destruct Habout as (_ & Hq & Hv & a & Hr & He). destruct (expect_asset _ _ _ _ He) as [_ Hid].
  unfold processEvmWithdrawal. rewrite Hr. unfold valid_withdrawal in Hv.
  apply andb_true_iff in Hv as [[-> ->%negb_true_iff]%andb_true_iff ->]. cbn [negb orb].
  apply wp_bind, (wp_get (I := EvmI)). rewrite <- Hid, Hq, Hbridge. cbn [negb].
  apply wp_bind, wp_of_res. unfold expect in He. rewrite He.
  apply wp_bind, wp_attempt, S_ask; [done|]. intros [b|m] Ht; [|split; [done|]; by apply vital_here].
  cbn in Ht. rewrite (Ht eq_refl), Hlive. apply wp_bind. eapply wp_mono; [|apply reconcile_true, unparked].
  intros [r|m] s' h' (-> & _ & H); [|done]. by apply apply_true.
Qed.
End Paid.

Section Truth.
Context `{V : Viem}.
Variable cfg : NetCfg.
Variable chain_logs : list ChainLog.
(** The mined transactions. *)
Variable mined : Hex -> option RawReceipt.
(** The heads the node may report while the handler runs. *)
Variables head_lo head_hi : Z.
(** The ids the contract has processed. *)
Variable processed : Hex -> bool.

Definition page (event : ScanEvent) (args : ScanArgs) (r : range) : list ScanLog :=
  map cl_log (List.filter (fun l => selected (net_bridge cfg) event args l && within r l) chain_logs).

Definition truthful (h : history NetI) (c : net_cmd) (r : res (net_ans c)) : Prop :=
  match c return res (net_ans c) -> Prop with
  | NetBlockNumber => fun r => match r with Ok n => head_lo <= n <= head_hi | Err _ => True end
  | NetGetLogs a e g rg => fun r =>
      match r with Ok l => a = net_bridge cfg -> l ≡ₚ page e g rg | Err _ => True end
  | NetProcessed _ id => fun r => match r with Ok b => b = processed id | Err _ => True end
  | NetReceipt t => fun r =>
      match mined t with Some rr => r = Ok rr | None => exists m, r = Err m end
  | _ => fun _ => True
  end r.

Variable ok : history NetI -> net_cmd -> Prop.
Hypothesis ok_reads : forall h c, match c with NetOther _ => True | _ => ok h c end.

Abbreviation T p s h Q := (wp (I := NetI) ok truthful p s h Q).

(** ** Log scans are complete *)

Definition read_of {A} (e : event (@ScanI A)) : option (range * list A) :=
  match e with Ev (FetchPage r) (Ok pg) => Some (r, pg) | _ => None end.

Definition failure_of {I} (e : event I) : bool :=
  match e with Ev _ (Err _) => true | _ => false end.

(** Histories of a scan and of the node it reads. *)
Definition scan_sim event args s h (_ : unit) (hs : history (@ScanI ScanLog)) (s' : QueuedState) (h' : history NetI) : Prop :=
  s' = s /\ longer h h' /\
  (forall r pg, page_read hs r pg -> pg ≡ₚ page event args r) /\
  (forall c m, @Ev (@ScanI ScanLog) c (Err m) ∈ hs -> net_failed h').

Lemma scan_dep_sim event args s h u hs c s' h' :
  scan_sim event args s h u hs s' h' ->
  T (scan_dep cfg event args c) s' h' (fun r s2 h2 => True /\ scan_sim event args s h u (@Ev (@ScanI ScanLog) c r :: hs) s2 h2).
Proof.
  intros (-> & Hl & Hp & He). destruct c as [rg|ms]; cbn [scan_dep].
  - apply (wp_call (I := NetI)); [apply (ok_reads h' (NetGetLogs _ _ _ _))|]. intros r Ht. cbn in Ht.
    split; [done|]. split; [done|]. split; [auto with chain|]. split.
    + intros r' pg [E|H]%elem_of_cons; [|by apply Hp]. apply (f_equal read_of) in E. cbn in E.
      destruct r as [l|m]; [|done]. injection E as -> ->. by apply Ht.
    + intros c m [E|H]%elem_of_cons.
      * apply (f_equal failure_of) in E. destruct r; [done|]. apply failed_here.
      * eapply failed_longer; [by eapply He|auto with chain].
  - apply (wp_call (I := NetI)); [apply (ok_reads h' (NetSleep _))|]. intros r _.
    split; [done|]. split; [done|]. split; [auto with chain|]. split.
    + intros r' pg [E|H]%elem_of_cons; [|by apply Hp]. apply (f_equal read_of) in E. by destruct r.
    + intros c m [E|H]%elem_of_cons.
      * apply (f_equal failure_of) in E. destruct r; [done|]. apply failed_here.
      * eapply failed_longer; [by eapply He|auto with chain].
Qed.

Lemma pages_spec from n s h :
  wp (fun _ _ => True) anything (scanLogPagesDescending (T := ScanLog) from n MAX_LOG_SCAN_SPAN LOG_SCAN_PACING) s h
    (fun o _ h' => match o with
       | Ok l => exists rs pgs, blockRangesDescending from n MAX_LOG_SCAN_SPAN = Ok rs /\
                   Forall2 (page_read h') rs pgs /\ l = concat pgs
       | Err m => failed_call h' m
       end).
Proof.
  unfold scanLogPagesDescending. apply wp_bind, wp_of_res.
  destruct (blockRangesDescending from n _) as [rs|m] eqn:E.
  - wp_apply (scan_ranges_spec (T := ScanLog)). intros [l|m] ? h' (x & _ & _ & H); [|done].
    destruct H as (pgs & ? & ?). by exists rs, pgs.
  - unfold blockRangesDescending in E. cbn in E. by destruct (n <? from).
Qed.

Lemma pages_cover event args from n rs (pgs : list (list ScanLog)) cl :
  0 <= from -> blockRangesDescending from n MAX_LOG_SCAN_SPAN = Ok rs ->
  Forall2 (fun r pg => pg ≡ₚ page event args r) rs pgs ->
  cl ∈ chain_logs -> selected (net_bridge cfg) event args cl = true -> from <= cl_block cl <= n ->
  cl_log cl ∈ concat pgs.
Proof.
  intros Hf Hr Hp Hc Hs Hb. destruct (ranges_chain from n MAX_LOG_SCAN_SPAN rs) as [Hch _]; [lia|done|].
  destruct (chain_unique _ _ _ _ Hch Hb) as (r & [Hin Hw] & _).
  apply list_elem_of_lookup in Hin as [i Hi].
  destruct (Forall2_lookup_l _ _ _ _ _ Hp Hi) as (pg & Hpg & HP).
  apply list_elem_of_In, in_concat. exists pg. split; [by eapply list_elem_of_In, list_elem_of_lookup_2|]. apply list_elem_of_In.
  rewrite HP. unfold page. apply list_elem_of_In, in_map, List.filter_In. split; [by apply list_elem_of_In|].
  unfold within. rewrite Hs. breflect. lia.
Qed.

(** The window of a scan is read completely, whatever head the node reports. *)
Lemma scan_complete event args s h :
  0 <= head_lo ->
  T (scanBridgeLogs cfg event args None) s h (fun o s' h' => s' = s /\ longer h h' /\
    match o with
    | Ok l => forall cl, cl ∈ chain_logs -> selected (net_bridge cfg) event args cl = true ->
        0 <= cl_block cl -> head_hi - BRIDGE_LOG_SCAN_BLOCKS cfg <= cl_block cl <= head_lo -> cl_log cl ∈ l
    | Err _ => net_failed h'
    end).
Proof.
  intros Hlo. unfold scanBridgeLogs. apply wp_bind, (wp_call (I := NetI)); [apply (ok_reads h NetBlockNumber)|].
  intros [n|m] Hn; cbn [truthful] in Hn; [|auto with chain].
  set (h1 := _ :: h). set (from := if _ <? _ then _ else _).
  assert (0 <= from /\ from <= Z.max 0 (n - BRIDGE_LOG_SCAN_BLOCKS cfg)) as [Hf1 Hf2]
    by (unfold from; destruct (_ <? _) eqn:E; breflect; lia).
  eapply wp_mono; [|eapply (wp_embed (I := ScanI) (J := NetI) (fun _ => tt) (fun _ s => s) (scan_dep cfg event args)
    (scan_sim event args s h1) (fun _ _ => True) anything ok truthful _ tt [] s h1);
    [intros; by apply scan_dep_sim|by intros []|by intros| |apply pages_spec]].
  2:{ split; [done|]. split; [auto with chain|]. split; [by intros r pg ?%elem_of_nil|by intros c m ?%elem_of_nil]. }
  intros o s' h' ([] & hs & (-> & Hl & Hp & He) & HQ). split; [done|].
  split; [eapply longer_trans; [|exact Hl]; unfold h1; auto with chain|].
  destruct o as [l|m]; [|destruct HQ as (c & Hc); by eapply He].
  destruct HQ as (rs & pgs & Hr & HF & ->). intros cl Hc Hs H0 Hb.
  eapply (pages_cover event args from n rs pgs); [done|done| |done|done|lia].
  eapply Forall2_impl; [exact HF|]. auto.
Qed.
End Truth.

(** ** The handler over the adapters *)

(** Dependencies the adapters pass on. *)
Definition passed (c : evm_cmd) : bool :=
  match c with
  | WaitForReceipt _ | GetReceipt _ | ProcessedL1Txs _ | HeadBlock | TimelockQueue _ _ | FindReleaseTxHashes _
  | FindQueuedRequestIds | FindTimelockQueuedEvent _ | FindTimelockExecutedTxHashes _ | FindTimelockCancelled _ => false
  | _ => true
  end.

Definition cmd_of {I} (e : event I) : cmd I := match e with Ev c _ => c end.
Definition lift (e : event EvmI) : event NetI := match e with Ev c r => N (NetOther c) r end.

Definition net_read (c : net_cmd) : Prop := match c with NetOther _ => False | _ => True end.

Section AdapterReads.
Variable cfg : NetCfg.

Lemma calls_nask (P : net_cmd -> Prop) pt c : P c -> calls (I := NetI) P pt (nask c).
Proof. apply (calls_call (I := NetI)). Qed.

Lemma scan_pages_calls {T} from to span p :
  calls (I := @ScanI T) (fun _ => True) False (scanLogPagesDescending from to span p).
Proof.
  unfold scanLogPagesDescending. apply calls_bind; [by destruct (blockRangesDescending _ _ _)|]. intros rs.
  induction rs as [|r rs IH]; cbn [scan_ranges]; [done|].
  apply calls_bind.
  - generalize 0. induction (retries p) as [|n IHn]; intros a; cbn [fetch_with_retry];
      (apply calls_bind; [by apply calls_attempt, calls_call|]); intros [pg|m]; try done.
    apply calls_bind; [by apply calls_call|]. intros _. apply IHn.
  - intros pg. apply calls_bind; [destruct (_ <? _); [by apply calls_call|done]|]. intros _. by apply calls_bind.
Qed.

Lemma scan_reads ev args to : calls (I := NetI) net_read False (scanBridgeLogs cfg ev args to).
Proof.
  unfold scanBridgeLogs. apply calls_bind; [destruct to; [done|by apply calls_nask]|]. intros n.
  eapply calls_embed; [|apply scan_pages_calls]. intros [] _; by apply calls_nask.
Qed.

Lemma timelock_reads rid b : calls (I := NetI) net_read False (readTimelockQueue cfg rid b).
Proof. unfold readTimelockQueue, confirmed_block. calls_auto; by apply calls_nask. Qed.

(** The adapters that are not passed on only read. *)
Lemma chain_dep_reads c : passed c = false -> calls (I := NetI) net_read False (chain_dep cfg c).
Proof.
  destruct c; try done; intros _; cbn [chain_dep]; try (by apply calls_nask);
    unfold findReleaseTxHashes, findQueuedRequestIds, findTimelockQueuedEvent, findTimelockExecutedTxHashes,
      findTimelockCancelled, getReceipt, confirmed_block;
    repeat (calls_step || apply scan_reads || apply timelock_reads || (by apply calls_nask)).
Qed.
End AdapterReads.

Section Compose.
Context `{V : Viem}.
Variable ncfg : NetCfg.
Variable cfg : EvmCfg.
Variable w : NormalizedEvmWithdrawal.
Variable exp : ExpectedRelease.
Variable q0 : QueuedState.
Variable chain_logs : list ChainLog.
Variable mined : Hex -> option RawReceipt.
Variables head_lo head_hi : Z.
Variable processed : Hex -> bool.
Variable paid_tx : Hex.

Definition receipt_of (t : Hex) : option ReceiptLike := toReceiptLike <$> mined t.

(** [t] is mined and paid [exp] out. *)
Definition payout_mined (t : Hex) : Prop := exists rc, pays_out exp receipt_of t rc.

(** The payout [paid_tx] is on the chain: its transaction is mined, the bridge logged it within
    the look-back of every head the node may report, and the contract marked the id. *)
Definition paid_on_chain : Prop :=
  payout_mined paid_tx /\ processed (canonicalId exp) = true /\
  exists cl, cl ∈ chain_logs /\ release_hash exp (cl_log cl) = Some paid_tx /\
    selected (net_bridge ncfg) (match asset exp with Eth => BRIDGE_RELEASE_ETH_EVENT | Usdc => BRIDGE_RELEASE_ERC20_EVENT end)
      (ByRecipient (recipient exp)) cl = true /\
    0 <= cl_block cl /\ head_hi - BRIDGE_LOG_SCAN_BLOCKS ncfg <= cl_block cl <= head_lo.

(** The commands the run may issue: reads, and what settles the payout. *)
Definition net_settles (h : history NetI) (c : net_cmd) : Prop :=
  match c with
  | NetOther (ReleaseETH _ _ _ _) | NetOther (ReleaseERC20 _ _ _ _ _)
  | NetOther (ReportFailure _ _) | NetOther (Refund _) => False
  | NetOther (SaveQueued q) => q = q0
  | NetOther (Fulfill t x) => t = tx_id w /\ payout_mined x
  | NetOther (MarkProcessed t) => t = tx_id w /\ exists x, N (NetOther (Fulfill t x)) (Ok true) ∈ h
  | _ => True
  end.

Abbreviation truth := (truthful ncfg chain_logs mined head_lo head_hi processed).
Abbreviation T p s h Q := (wp (I := NetI) net_settles truth p s h Q).

Definition chain_sim (q : QueuedState) (h : history EvmI) (s : QueuedState) (h' : history NetI) : Prop :=
  s = q /\
  (forall e, e ∈ h -> passed (cmd_of e) = true -> lift e ∈ h') /\
  (forall c m, vital c = true -> @Ev EvmI c (Err m) ∈ h -> net_failed h') /\
  (forall n, @Ev EvmI HeadBlock (Ok n) ∈ h -> N NetBlockNumber (Ok n) ∈ h').

Lemma sim_grow q h s h' c r h2 :
  chain_sim q h s h' -> longer h' h2 ->
  (passed c = true -> lift (@Ev EvmI c r) ∈ h2) ->
  (vital c = true -> is_ok r = false -> net_failed h2) ->
  (forall n, @Ev EvmI HeadBlock (Ok n) = @Ev EvmI c r -> N NetBlockNumber (Ok n) ∈ h2) ->
  chain_sim q (@Ev EvmI c r :: h) s h2.
Proof.
  intros (-> & Hp & Hv & Hn) [x ->] Hp2 Hv2 Hn2. split; [done|]. split; [|split].
  - intros e [->|He]%elem_of_cons Hpe; [by apply Hp2|]. rewrite elem_of_app. right. by apply Hp.
  - intros c' m Hc [E|He]%elem_of_cons.
    + pose proof (f_equal cmd_of E) as Ec. cbn in Ec. subst c'. apply Hv2; [done|].
      apply (f_equal failure_of) in E. by destruct r.
    + eapply failed_longer; [by eapply Hv|by exists x].
  - intros n [E|He]%elem_of_cons; [by apply Hn2|]. rewrite elem_of_app. right. by apply Hn.
Qed.

Hypothesis Hpaid : paid_on_chain.
Hypothesis Hlo : 0 <= head_lo.

Lemma settles_reads h c : match c with NetOther _ => True | _ => net_settles h c end.
Proof. by destruct c. Qed.

Lemma push_new_elem {A} `{EqDecision A} (x : A) l acc : x ∈ acc \/ x ∈ l -> x ∈ foldl push_new acc l.
Proof.
  revert acc. induction l as [|y l IH]; intros acc H; cbn [foldl]; [set_solver|]. apply IH.
  unfold push_new. case_bool_decide; set_solver.
Qed.

Lemma find_hashes_true e s h :
  T (findReleaseTxHashes ncfg e) s h (fun r s' h' => s' = s /\ longer h h' /\
    match r with Ok l => e = exp -> paid_tx ∈ l | Err _ => net_failed h' end).
Proof.
  destruct Hpaid as (_ & _ & cl & Hin & Hh & Hs & H0 & Hb). unfold findReleaseTxHashes. apply wp_bind.
  eapply wp_mono; [|apply scan_complete; [apply settles_reads|done]].
  intros [l|m] s' h' (-> & Hl & H); [|by repeat split]. apply wp_ret. split; [done|]. split; [done|].
  intros ->. apply push_new_elem. right. apply list_elem_of_omap. eauto.
Qed.

Abbreviation answers q h c :=
  (fun r s2 h2 => tells_truth exp receipt_of paid_tx h c r /\ chain_sim q (@Ev EvmI c r :: h) s2 h2).

Lemma passed_sim q h c s h' :
  chain_sim q h s h' -> settles_only w exp q0 receipt_of h c -> passed c = true ->
  T (nask (NetOther c)) s h' (answers q h c).
Proof.
  intros Hs Ho Hp. apply (wp_call (I := NetI)).
  - pose proof Hs as (_ & Hl & _). destruct c; try done. destruct Ho as [-> [x Hx]]. split; [done|]. exists x.
    apply (Hl _ Hx eq_refl).
  - intros r _. split; [by destruct c|]. eapply (sim_grow _ _ _ _ _ _ _ Hs); [auto with chain|intros; left| |].
    + intros _ Hr. destruct r; [done|]. apply failed_here.
    + intros n E. apply (f_equal cmd_of) in E. cbn in E. by subst c.
Qed.

Lemma reads_sim q h c s h' :
  chain_sim q h s h' -> passed c = false -> vital c = false ->
  match c with GetReceipt _ => False | _ => True end -> T (chain_dep ncfg c) s h' (answers q h c).
Proof.
  intros Hs Hp Hv Hc. eapply wp_mono; [|apply (wp_calls (I := NetI) net_read); [by intros h2 []|by apply chain_dep_reads]].
  intros r s2 h2 [-> Hl]. split; [by destruct c|].
  eapply (sim_grow _ _ _ _ _ _ _ Hs); [done|congruence|congruence|]. intros n E. apply (f_equal cmd_of) in E.
  cbn in E. by rewrite <- E in Hv.
Qed.

Lemma receipt_sim q h t s h' :
  chain_sim q h s h' -> T (getReceipt t) s h' (answers q h (GetReceipt t)).
Proof.
  intros Hs. unfold getReceipt. apply wp_bind, wp_attempt, (wp_call (I := NetI)); [done|]. intros r Hr. apply wp_ret. split.
  - cbn in Hr |- *. unfold receipt_of. destruct (mined t); [by subst r|by destruct Hr as [m ->]].
  - eapply (sim_grow _ _ _ _ _ _ _ Hs); [auto with chain|done|done|]. intros n E. by apply (f_equal cmd_of) in E.
Qed.

(** The adapters answer the truth about the payout when the node does. *)
Lemma chain_dep_sim q h c s h' :
  chain_sim q h s h' -> settles_only w exp q0 receipt_of h c -> T (chain_dep ncfg c) s h' (answers q h c).
Proof.
  intros Hs Ho. destruct (passed c) eqn:Hp; [by destruct c; try done; apply passed_sim|].
  destruct (vital c) eqn:Hv.
  - destruct c; try done; cbn [chain_dep].
    + apply (wp_call (I := NetI)); [done|]. intros r Hr. split.
      { destruct r; [|done]. cbn in Hr |- *. intros ->. rewrite Hr. apply Hpaid. }
      eapply (sim_grow _ _ _ _ _ _ _ Hs); [auto with chain|done| |intros n E; by apply (f_equal cmd_of) in E].
      intros _ He. destruct r; [done|]. apply failed_here.
    + apply (wp_call (I := NetI)); [done|]. intros r Hr. split; [done|].
      eapply (sim_grow _ _ _ _ _ _ _ Hs); [auto with chain|done| |].
      * intros _ He. destruct r; [done|]. apply failed_here.
      * intros n E. apply (f_equal (fun e : event EvmI =>
          match e with Ev HeadBlock (Ok n) => Some n | _ => None end)) in E. cbn in E.
        destruct r as [n'|]; [|done]. injection E as ->. left.
    + eapply wp_mono; [|apply find_hashes_true]. intros r s2 h2 (-> & Hl & Hr). split; [by destruct r|].
      eapply (sim_grow _ _ _ _ _ _ _ Hs); [done|done| |intros n E; by apply (f_equal cmd_of) in E].
      intros _ He. by destruct r.
  - destruct c; try (by apply reads_sim). by apply receipt_sim.
Qed.

Definition shallow_payout (h : history NetI) : Prop :=
  exists x rr, payout_mined x /\ mined x = Some rr /\
    (rr_blockNumber rr = None \/
     exists n b, rr_blockNumber rr = Some b /\ N NetBlockNumber (Ok n) ∈ h /\
       confirmation_depth n b < evmFulfillDepth (fulfillConfirmations cfg) (process_env cfg)).

(** How a run on the paid withdrawal ends. *)
Definition recovery (o : res PayoutOutcome) (s : QueuedState) (h : history NetI) : Prop :=
  s = q0 /\
  match o with
  | Ok reconciled_paid => exists x, payout_mined x /\ N (NetOther (Fulfill (tx_id w) x)) (Ok true) ∈ h /\
      N (NetOther (MarkProcessed (tx_id w))) (Ok tt) ∈ h
  | Ok awaiting_confirmations => net_failed h \/ shallow_payout h
  | Ok fulfill_api_failed => exists x, N (NetOther (Fulfill (tx_id w) x)) (Ok false) ∈ h
  | Ok skipped_rpc | Err _ => net_failed h
  | _ => False
  end.

Lemma recovered_sim o q h s h' : chain_sim q h s h' -> recovered cfg w exp q0 receipt_of o q h -> recovery o s h'.
Proof.
  intros (-> & Hp & Hv & Hn) [-> H]. split; [done|].
  assert (vital_failed h -> net_failed h') as K by (intros (c & m & ? & ?); by eapply Hv).
  assert (too_shallow cfg exp receipt_of h -> shallow_payout h') as K2.
  { intros (x & rc & Hx & Hd). pose proof Hx as (Hr & _). unfold receipt_of in Hr.
    destruct (mined x) as [rr|] eqn:Em; [|done]. injection Hr as <-. exists x, rr. split; [by eexists|]. split; [done|].
    destruct Hd as [?|(n & b & ? & ? & ?)]; [by left|right; exists n, b; auto]. }
  destruct o as [[]|m]; try exact H; try (exact (K H)).
  - destruct H as [H|H]; [left; exact (K H)|right; exact (K2 H)].
  - destruct H as (x & rc & Hx & Hf & Hm). exists x. split; [by exists rc|].
    split; [exact (Hp _ Hf eq_refl)|exact (Hp _ Hm eq_refl)].
  - destruct H as (x & Hf). exists x. exact (Hp _ Hf eq_refl).
Qed.
End Compose.


(** ** Concrete runs *)
Module ChainDemo.
Import Demo.
Local Open Scope string_scope.

Definition ncfg : NetCfg := {| net_bridge := Some vault; BRIDGE_LOG_SCAN_BLOCKS := 60000; net_confirmations := Some 2 |}.

Definition exp : ExpectedRelease := {|
  asset := Eth; recipient := alice; amount := 5000000000000; canonicalId := wid; bridgeAddress := vault;
  usdcAddress := usdc |}.

Definition release_log : ChainLog := {|
  cl_address := vault; cl_block := 100; cl_event := BRIDGE_RELEASE_ETH_EVENT; cl_recipient := alice;
  cl_log := {| sl_l1TxId := Some wid; sl_requestId := None; sl_executeAfter := 0; sl_transactionHash := Some "0xhash" |} |}.

Definition mined (t : Hex) : option RawReceipt :=
  if (t =? "0xhash")%string then
    Some {| rr_status := "success"; rr_transactionHash := Some t; rr_blockNumber := Some 100;
            rr_logs := Some (rc_logs paid_receipt) |}
  else None.

(** A node that serves this chain; [flaky]: its receipts cannot be read. *)
Definition node (flaky : bool) : env NetI := fun _ c =>
  match c return res (net_ans c) with
  | NetBlockNumber => Ok 5200
  | NetGetLogs _ e g r => Ok (page ncfg [release_log] e g r)
  | NetTimelockQueue _ _ _ => Err "not queued"
  | NetProcessed _ id => Ok (id =? wid)%string
  | NetReceipt t => match mined t with
                    | Some rr => if flaky then Err "503" else Ok rr
                    | None => Err "not found"
                    end
  | NetWaitReceipt _ _ => Err "timeout"
  | NetSleep _ => Ok tt
  | NetOther c => accepting (Err "timeout") false c
  end.

Lemma node_truthful :
  respects (truthful ncfg [release_log] mined 5200 5200 (fun id => (id =? wid)%string)) (node false).
Proof.
  intros h c. destruct c; cbn [node truthful]; try done; try lia. destruct (mined _); [done|by eexists].
Qed.


Definition parked_by_flaky : QueuedState := final (node true) (with_chain ncfg (processEvmWithdrawal cfg wd)) [].

(** [getReceipt] answers a failing RPC call with [null].  While the receipt of the payout cannot
    be read, the reconciliation takes the payout for missing although no page of the scan failed,
    and parks the paid withdrawal as ambiguous; with the node back every later run skips it. *)
Example receipt_error_parks :
  outcome (node true) (with_chain ncfg (processEvmWithdrawal cfg wd)) [] = Ok ambiguous /\
  (status <$> mget (queuedKey wid) parked_by_flaky) = Some QAmbiguous /\
  outcome (node false) (with_chain ncfg (processEvmWithdrawal cfg wd)) parked_by_flaky = Ok skipped_queued.
Proof. vm_compute. repeat split. Qed.
End ChainDemo.
