(* ===== verification/XrgePayout.v ===== *)
(** * XRGE payout lifecycle ([src/scripts/bridge-relayer-core.ts])

    [observeXrgeWithdrawal], [isAwaitingConfirmationsError], [xrgeToWeiExact],
    [fulfillKnownXrgePayout] and [processXrgeWithdrawal] over the interface [XrgeI] of
    [XrgePayoutDeps]; the shared state is the in-memory map [pendingFulfill].  Log texts are
    omitted, alerts carry their key. *)
From S2P Require Import Prelude JsText JsNum JsMap Interact BridgeCore LogScan.
Local Open Scope Z_scope.
Local Open Scope prog_scope.

Record XrgeWithdrawal := { x_tx_id : string; x_evm_address : string; x_amount : number }.

(** A payout known to be mined: transaction hash and block. *)
Record XrgePayoutRef := { po_txHash : string; po_blockNumber : Z }.

Abbreviation PendingFulfill := (jmap XrgePayoutRef).

Record XrgeFulfillResult := { xf_ok : bool; xf_status : Z; xf_error : option string }.

Record XrgeReceipt := { xr_success : bool; xr_blockNumber : Z }.

Inductive XrgeObserveIntent :=
| XReadFailed (txId : string)
| XWouldRelease (amount : number) (to txId : string)
| XWouldFulfill (txId rel : string)
| XWouldAlert (txId : string)
| XWouldClaimDeposit (token txHash pubkey16 : string).

Inductive xrge_cmd :=
| ProcessedOnVault (txId : string)
| XRelease (to : string) (wei : Z) (txId : string)
| XWaitForReceipt (hash : string)
| XHeadBlock
| FindReleases (txId : string)
| FindReleaseTx (txId : string)
| XFulfill (txId payoutTxHash : string)
| HandleFailure (txId error : string)
| XMarkProcessed (txId : string)
| XAlert (key : string)
| XObserve (i : XrgeObserveIntent).

Definition xrge_ans (c : xrge_cmd) : Type :=
  match c with
  | ProcessedOnVault _ => bool
  | XRelease _ _ _ => string
  | XWaitForReceipt _ => XrgeReceipt
  | XHeadBlock => Z
  | FindReleases _ => list VaultReleaseLog
  | FindReleaseTx _ => option string
  | XFulfill _ _ => XrgeFulfillResult
  | HandleFailure _ _ | XMarkProcessed _ | XAlert _ | XObserve _ => unit
  end.

Definition XrgeI : iface := {| st := PendingFulfill; cmd := xrge_cmd; ans := xrge_ans |}.

Definition xask (c : xrge_cmd) : prog XrgeI (xrge_ans c) := call (c : cmd XrgeI).
Definition getP : prog XrgeI PendingFulfill := get.
Definition putP (q : PendingFulfill) : prog XrgeI unit := put (q : st XrgeI).

(** ** Observation *)

Inductive XrgeObserveOutcome := would_release | would_fulfill | o_processed_no_release_found | read_failed.

Definition observeXrgeWithdrawal (w : XrgeWithdrawal) : prog XrgeI XrgeObserveOutcome :=
  let! r := attempt (xask (ProcessedOnVault (x_tx_id w))) in
  match r with
  | Err _ => do! xask (XObserve (XReadFailed (x_tx_id w))) in Ret read_failed
  | Ok false =>
      do! xask (XObserve (XWouldRelease (x_amount w) (x_evm_address w) (x_tx_id w))) in Ret would_release
  | Ok true =>
      let! rel := xask (FindReleaseTx (x_tx_id w)) in
      if truthy (opt_str rel) then
        do! xask (XObserve (XWouldFulfill (x_tx_id w) (opt_str rel))) in Ret would_fulfill
      else do! xask (XObserve (XWouldAlert (x_tx_id w))) in Ret o_processed_no_release_found
  end.

Definition observeDeposit (token txHash pubkey : string) : prog XrgeI unit :=
  xask (XObserve (XWouldClaimDeposit token txHash (substring 0 16 pubkey))).

(** ** Fulfillment of a known payout *)

(** [/confirmation/i.test(s)]. *)
Fixpoint contains (pat s : string) : bool :=
  match s with
  | EmptyString => String.prefix pat s
  | String _ r => String.prefix pat s || contains pat r
  end.

Definition isAwaitingConfirmationsError (r : XrgeFulfillResult) : bool :=
  negb (xf_ok r) && contains "confirmation" (toLowerCase (opt_str (xf_error r))).

Definition xrgeToWeiExact (amount : number) : res Z :=
  res_bind (bigint amount) (fun z => Ok (z * 10 ^ 18)).

Inductive XrgeOutcome :=
| x_fulfilled | x_reconciled_fulfilled | x_awaiting_confirmations | x_fulfill_rejected
| x_skipped_rpc | x_processed_no_release_found | x_ambiguous | x_failed.
#[export] Instance XrgeOutcome_eq_dec : EqDecision XrgeOutcome.
Proof. solve_decision. Defined.

Section Xrge.
Context `{V : Viem}.

(** [deps.pendingFulfill.set(w.tx_id, payout)]. *)
Definition remember (w : XrgeWithdrawal) (p : XrgePayoutRef) : prog XrgeI unit :=
  let! m := getP in putP (mset (x_tx_id w) p m).

Definition fulfillKnownXrgePayout (required : Z) (w : XrgeWithdrawal) (payout : XrgePayoutRef)
    (reconciled : bool) : prog XrgeI XrgeOutcome :=
  let! rh := attempt (xask XHeadBlock) in
  match rh with
  | Err _ => do! remember w payout in Ret x_awaiting_confirmations
  | Ok head =>
      if confirmation_depth head (po_blockNumber payout) <? required then
        do! remember w payout in Ret x_awaiting_confirmations
      else
      let! r := xask (XFulfill (x_tx_id w) (po_txHash payout)) in
      if xf_ok r then
        let! m := getP in
        do! putP (mdel (x_tx_id w) m) in
        do! xask (XMarkProcessed (x_tx_id w)) in
        Ret (if reconciled then x_reconciled_fulfilled else x_fulfilled)
      else
        do! remember w payout in
        if isAwaitingConfirmationsError r then Ret x_awaiting_confirmations
        else
          do! xask (XAlert ("xrge-fulfill:" +:+ x_tx_id w)) in
          Ret x_fulfill_rejected
  end.

(** The release logs that match recipient and amount. *)
Definition good_hits (w : XrgeWithdrawal) (want : Z) (hits : list VaultReleaseLog) : list VaultReleaseLog :=
  List.filter (fun h => sameAddress (vl_recipient h) (x_evm_address w) && (vl_amount h =? want)) hits.

(** 2. already paid: reconcile against the real payout. *)
Definition reconcile_paid (required : Z) (w : XrgeWithdrawal) : prog XrgeI XrgeOutcome :=
  let! m := getP in
  match mget (x_tx_id w) m with
  | Some payout => fulfillKnownXrgePayout required w payout true
  | None =>
      let! rh := attempt (xask (FindReleases (x_tx_id w))) in
      match rh with
      | Err _ => Ret x_skipped_rpc
      | Ok [] => do! xask (XAlert ("reconcile:" +:+ x_tx_id w)) in Ret x_processed_no_release_found
      | Ok hits =>
          let! want := of_res (xrgeToWeiExact (x_amount w)) in
          match hits, good_hits w want hits with
          | [_], [g] =>
              fulfillKnownXrgePayout required w
                {| po_txHash := vl_txHash g; po_blockNumber := vl_blockNumber g |} true
          | _, _ => do! xask (XAlert ("ambiguous:" +:+ x_tx_id w)) in Ret x_ambiguous
          end
      end
  end.

(** 3. normal release path. *)
Definition release_xrge (required : Z) (w : XrgeWithdrawal) : prog XrgeI XrgeOutcome :=
  let! sent := attempt (let! wei := of_res (xrgeToWeiExact (x_amount w)) in
                        xask (XRelease (x_evm_address w) wei (x_tx_id w))) in
  match sent with
  | Err e =>
      let! landed := attempt (xask (ProcessedOnVault (x_tx_id w))) in
      match landed with
      | Err _ => Ret x_skipped_rpc
      | Ok true => Ret x_awaiting_confirmations
      | Ok false => do! xask (HandleFailure (x_tx_id w) (str_or e "release failed")) in Ret x_failed
      end
  | Ok hash =>
      let! rr := attempt (xask (XWaitForReceipt hash)) in
      match rr with
      | Err _ => Ret x_awaiting_confirmations
      | Ok rc =>
          if negb (xr_success rc) then
            let! landed := attempt (xask (ProcessedOnVault (x_tx_id w))) in
            match landed with
            | Err _ => Ret x_skipped_rpc
            | Ok true => Ret x_awaiting_confirmations
            | Ok false =>
                do! xask (HandleFailure (x_tx_id w) ("release tx reverted: " +:+ hash)) in Ret x_failed
            end
          else
            fulfillKnownXrgePayout required w
              {| po_txHash := hash; po_blockNumber := xr_blockNumber rc |} false
      end
  end.

Definition processXrgeWithdrawal (required : Z) (w : XrgeWithdrawal) : prog XrgeI XrgeOutcome :=
  let! r := attempt (xask (ProcessedOnVault (x_tx_id w))) in
  match r with
  | Err _ => Ret x_skipped_rpc
  | Ok true => reconcile_paid required w
  | Ok false => release_xrge required w
  end.

(** ** Safety *)

Abbreviation XE := (@Ev XrgeI).

(** The payout [p] of the withdrawal [w] is established by the history: the only release log of
    its id in a complete scan has its recipient and exact amount, or a release submitted for
    exactly [w] was mined successfully. *)
Definition payout_evidence (h : history XrgeI) (w : XrgeWithdrawal) (p : XrgePayoutRef) : Prop :=
  exists wei, xrgeToWeiExact (x_amount w) = Ok wei /\
  ((exists g, XE (FindReleases (x_tx_id w)) (Ok [g]) ∈ h /\
      sameAddress (vl_recipient g) (x_evm_address w) = true /\ vl_amount g = wei /\
      po_txHash p = vl_txHash g /\ po_blockNumber p = vl_blockNumber g) \/
   (exists rc, XE (XRelease (x_evm_address w) wei (x_tx_id w)) (Ok (po_txHash p)) ∈ h /\
      XE (XWaitForReceipt (po_txHash p)) (Ok rc) ∈ h /\ xr_success rc = true /\
      po_blockNumber p = xr_blockNumber rc)).

(** The last event reads a head at which the payout has the required depth. *)
Definition payout_deep (required : Z) (h : history XrgeI) (p : XrgePayoutRef) : Prop :=
  exists head h', h = XE XHeadBlock (Ok head) :: h' /\
    required <= confirmation_depth head (po_blockNumber p).

(** The last event is the vault's answer "not processed". *)
Definition vault_unprocessed (h : history XrgeI) (t : string) : Prop :=
  exists h', h = XE (ProcessedOnVault t) (Ok false) :: h'.

Section Guard.
Variables (required : Z) (ws : list XrgeWithdrawal).

Definition xrge_guard (h : history XrgeI) (c : xrge_cmd) : Prop :=
  match c with
  | XRelease to wei t => exists w, w ∈ ws /\ t = x_tx_id w /\ to = x_evm_address w /\
      xrgeToWeiExact (x_amount w) = Ok wei /\ vault_unprocessed h t
  | XFulfill t hash => exists w p, w ∈ ws /\ t = x_tx_id w /\ hash = po_txHash p /\
      payout_evidence h w p /\ payout_deep required h p
  | HandleFailure t _ => exists w, w ∈ ws /\ t = x_tx_id w /\ vault_unprocessed h t
  | XMarkProcessed t => exists hash r h', h = XE (XFulfill t hash) (Ok r) :: h' /\ xf_ok r = true
  | _ => True
  end.

(** Every remembered payout is established by the history. *)
Definition backed (s : PendingFulfill) (h : history XrgeI) : Prop :=
  forall t p, mget t s = Some p -> exists w, w ∈ ws /\ x_tx_id w = t /\ payout_evidence h w p.

Abbreviation X p s h Q := (wp (I := XrgeI) xrge_guard anything p s h Q).

Lemma X_ask c s h (Q : res (xrge_ans c) -> _) :
  xrge_guard h c -> (forall r, Q r s (XE c r :: h)) -> X (xask c) s h Q.
Proof. intros. apply (wp_call (I := XrgeI)); auto. Qed.

Lemma evidence_cons h w p ev : payout_evidence h w p -> payout_evidence (ev :: h) w p.
Proof.
  intros (wei & Hw & [(g & ? & ?)|(rc & ? & ? & ?)]); exists wei; (split; [done|]).
  - left. exists g. split; [by right|done].
  - right. exists rc. split; [by right|]. split; [by right|done].
Qed.

Lemma backed_cons s h ev : backed s h -> backed s (ev :: h).
Proof. intros Hb t p Hp. destruct (Hb t p Hp) as (w & ? & ? & ?). exists w. eauto using evidence_cons. Qed.

Lemma backed_mset s h w p :
  w ∈ ws -> payout_evidence h w p -> backed s h -> backed (mset (x_tx_id w) p s) h.
Proof.
  intros Hw He Hb t q. destruct (decide (t = x_tx_id w)) as [->|Hne].
  - rewrite mget_mset_eq. intros [= <-]. eauto.
  - rewrite mget_mset_ne by done. apply Hb.
Qed.

Lemma backed_mdel s h k : NoDup (mkeys s) -> backed s h -> backed (mdel k s) h.
Proof.
  intros Hd Hb t p. destruct (decide (t = k)) as [->|Hne]; [by rewrite mget_mdel_eq|].
  rewrite mget_mdel_ne by done. apply Hb.
Qed.

(** The invariant of [pendingFulfill]. *)
Definition pending_ok (s : PendingFulfill) (h : history XrgeI) : Prop := NoDup (mkeys s) /\ backed s h.

Lemma pending_cons s h ev : pending_ok s h -> pending_ok s (ev :: h).
Proof. intros [? ?]. split; [done|by apply backed_cons]. Qed.

Abbreviation inv := (fun _ s' h' => pending_ok s' h').

(** [p] is the established payout of a withdrawal with the id of [w]. *)
Definition known (h : history XrgeI) (w : XrgeWithdrawal) (p : XrgePayoutRef) : Prop :=
  exists w0, w0 ∈ ws /\ x_tx_id w0 = x_tx_id w /\ payout_evidence h w0 p.

Lemma known_cons h w p ev : known h w p -> known (ev :: h) w p.
Proof. intros (w0 & ? & ? & ?). exists w0. eauto using evidence_cons. Qed.

Lemma remember_spec w p s h (k : unit -> prog XrgeI XrgeOutcome) Q :
  known h w p -> pending_ok s h ->
  (forall s', pending_ok s' h -> X (k tt) s' h Q) -> X (bind (remember w p) k) s h Q.
Proof.
  intros (w0 & Hw & Ht & He) [Hd Hb] Hk. apply Hk. rewrite <- Ht.
  split; [by apply NoDup_mset|by apply backed_mset].
Qed.

Lemma fulfillKnown_spec w p rec s h :
  known h w p -> pending_ok s h -> X (fulfillKnownXrgePayout required w p rec) s h inv.
Proof.
  intros He Hs. unfold fulfillKnownXrgePayout. apply wp_bind, wp_attempt, X_ask; [done|]. intros rh.
  apply (pending_cons _ _ (XE XHeadBlock rh)) in Hs. apply (known_cons _ _ _ (XE XHeadBlock rh)) in He.
  destruct rh as [head|m]; [|by apply remember_spec].
  destruct (_ <? required) eqn:Ed; [by apply remember_spec|]. breflect.
  apply wp_bind, X_ask.
  { destruct He as (w0 & ? & ? & ?). exists w0, p. do 4 (split; [done|]). by eexists _, _. }
  intros [r|m]; [|by apply pending_cons].
  destruct (xf_ok r) eqn:Er.
  - simpl. split; [by eexists _, _, _|]. intros [[]|m] _; simpl; do 2 apply pending_cons;
      (split; [apply NoDup_mdel, Hs|apply backed_mdel; apply Hs]).
  - apply remember_spec; [by apply known_cons|by apply pending_cons|]. intros s' Hs'.
    destruct (isAwaitingConfirmationsError r); [done|]. apply wp_bind, X_ask; [done|].
    intros [[]|m]; by apply pending_cons.
Qed.

(** An alert or a failure report, then an outcome. *)
Lemma ending_spec c (o : XrgeOutcome) s h : xrge_guard h c -> pending_ok s h -> X (bind (xask c) (fun _ => Ret o)) s h inv.
Proof. intros Hc Hs. apply wp_bind, X_ask; [done|]. intros [u|m]; by apply pending_cons. Qed.

Lemma good_hits_single w want hits h0 g :
  hits = [h0] -> good_hits w want hits = [g] ->
  g = h0 /\ sameAddress (vl_recipient g) (x_evm_address w) = true /\ vl_amount g = want.
Proof.
  intros -> Hg. unfold good_hits in Hg. simpl in Hg. destruct (_ && _) eqn:E; [|done].
  injection Hg as <-. by breflect.
Qed.

Lemma reconcile_paid_spec w s h : w ∈ ws -> pending_ok s h -> X (reconcile_paid required w) s h inv.
Proof.
  intros Hw Hs. unfold reconcile_paid. apply wp_bind, (wp_get (I := XrgeI)).
  destruct (mget (x_tx_id w) s) as [p|] eqn:Ep.
  { apply fulfillKnown_spec; [|done]. destruct (proj2 Hs _ _ Ep) as (w0 & ? & ? & ?). by exists w0. }
  apply wp_bind, wp_attempt, X_ask; [done|]. intros rh. apply (pending_cons _ _ (XE (FindReleases (x_tx_id w)) rh)) in Hs.
  destruct rh as [[|h0 hits]|m]; [by apply ending_spec| |done].
  apply wp_bind, wp_of_res. destruct (xrgeToWeiExact (x_amount w)) as [want|m] eqn:Ew; [|done].
  destruct hits as [|h1 hits]; [|by apply ending_spec].
  destruct (good_hits w want [h0]) as [|g [|]] eqn:Eg; [by apply ending_spec| |by apply ending_spec].
  destruct (good_hits_single _ _ _ _ _ eq_refl Eg) as (-> & ? & ?).
  apply fulfillKnown_spec; [|done]. exists w. split; [done|]. split; [done|]. exists want. split; [done|].
  left. exists h0. split; [left|done].
Qed.

(** After a failed release: ask the vault again, and only then report a failure. *)
Lemma not_landed_spec t err s h :
  (exists w, w ∈ ws /\ t = x_tx_id w) -> pending_ok s h ->
  X (let! landed := attempt (xask (ProcessedOnVault t)) in
     match landed with
     | Err _ => Ret x_skipped_rpc
     | Ok true => Ret x_awaiting_confirmations
     | Ok false => do! xask (HandleFailure t err) in Ret x_failed
     end) s h inv.
Proof.
  intros (w & Hw & Ht) Hs. apply wp_bind, wp_attempt, X_ask; [done|]. intros [[]|m]; try by apply pending_cons.
  apply ending_spec; [|by apply pending_cons]. exists w. split; [done|]. split; [done|]. by eexists.
Qed.

Lemma release_spec w s h :
  w ∈ ws -> pending_ok s h -> vault_unprocessed h (x_tx_id w) -> X (release_xrge required w) s h inv.
Proof.
  intros Hw Hs Hu. unfold release_xrge. apply wp_bind, wp_attempt, wp_bind, wp_of_res.
  destruct (xrgeToWeiExact (x_amount w)) as [wei|m] eqn:Ew; [|apply not_landed_spec; eauto].
  apply X_ask; [exists w; eauto|]. intros sent.
  apply (pending_cons _ _ (XE (XRelease (x_evm_address w) wei (x_tx_id w)) sent)) in Hs.
  destruct sent as [hash|m]; [|apply not_landed_spec; eauto].
  apply wp_bind, wp_attempt, X_ask; [done|]. intros rr. apply (pending_cons _ _ (XE (XWaitForReceipt hash) rr)) in Hs.
  destruct rr as [rc|m]; [|done]. destruct (xr_success rc) eqn:Er; simpl negb; cbv iota.
  - apply fulfillKnown_spec; [|done]. exists w. split; [done|]. split; [done|]. exists wei. split; [done|].
    right. exists rc. split; [right; left|]. split; [left|done].
  - apply not_landed_spec; eauto.
Qed.

Lemma process_xrge_spec w s h : w ∈ ws -> pending_ok s h -> X (processXrgeWithdrawal required w) s h inv.
Proof.
  intros Hw Hs. unfold processXrgeWithdrawal. apply wp_bind, wp_attempt, X_ask; [done|].
  intros r. apply (pending_cons _ _ (XE (ProcessedOnVault (x_tx_id w)) r)) in Hs.
  destruct r as [[]|m]; [by apply reconcile_paid_spec| |done].
  apply release_spec; [done..|by eexists].
Qed.
End Guard.

(** A session of the XRGE loop: withdrawals are processed one after the other (the same one may
    come again in a later poll) on one shared [pendingFulfill], an exception ends one of them. *)
Definition xrge_session (required : Z) (ws : list XrgeWithdrawal) : prog XrgeI unit :=
  for_each (fun w => let! _ := attempt (processXrgeWithdrawal required w) in Ret tt) ws.

(** C14: no XRGE write without evidence.  In any session of [processXrgeWithdrawal] runs that
    starts with an empty [pendingFulfill], and whatever the dependencies answer: a release is for
    the recipient and exactly [amount * 10^18] of a withdrawal of the session, immediately after
    the vault answered that its id is not processed; a fulfillment names a payout established
    earlier in the session (the single release log of the id in a complete scan, with the right
    recipient and exact amount, or a release of the session itself mined successfully) and
    follows a read of the chain head at which that payout has the required depth; a failure is
    handled only right after the vault answered "not processed"; and a withdrawal is marked done
    only right after an accepted fulfillment.  Payouts remembered across polls keep this true. *)
Theorem xrge_writes_justified required ws e :
  guarded (xrge_guard required ws) (trace e (xrge_session required ws) []).
Proof.
  eapply (wp_guarded (I := XrgeI)).
  apply (wp_for_each (I := XrgeI)) with (Inv := pending_ok ws) (Q := fun _ s' h' => pending_ok ws s' h').
  - split; [apply NoDup_nil_2|]. by intros t p.
  - intros w s h Hin Hs. apply wp_bind, wp_attempt.
    eapply wp_mono; [|by apply process_xrge_spec]. done.
  - done.
Qed.
End Xrge.
