(* ===== verification/DepositWatch.v ===== *)
(** * The deposit watcher of the relayer ([src/scripts/bridge-relayer.ts])

    [loadDepositState], [saveDepositState], [autoClaimDeposit], [claimOne] and
    [processDeposits]: scan confirmed blocks of Base for deposit events, hand every deposit to
    the daemon, keep the ones whose claim has not landed, and advance a persisted cursor.  The
    shared state is the watcher; reading the shutdown flag is a command, since the signal
    handler may set it at any await.  Log texts and the statistics counters they print are
    omitted; alerts carry their key. *)
From S2P Require Import Prelude JsText JsMap Interact BridgeCore XrgePayout.
Local Open Scope Z_scope.
Local Open Scope prog_scope.

(** ** State *)

Inductive DepositToken := D_ETH | D_XRGE | D_USDC.
#[export] Instance DepositToken_eq_dec : EqDecision DepositToken.
Proof. solve_decision. Defined.

Definition token_text (t : DepositToken) : string :=
  match t with D_ETH => "ETH" | D_XRGE => "XRGE" | D_USDC => "USDC" end.

Record DepositRecord := {
  d_key : string;
  d_txHash : string;
  d_pubkey : string;
  d_token : DepositToken;
}.
#[export] Instance DepositRecord_eq_dec : EqDecision DepositRecord.
Proof. solve_decision. Defined.

(** The state file, as [JSON.parse] returns it: [data.claimed || []] and [data.pending || []]
    allow for missing members. *)
Record DepositWatcherState := {
  f_lastBlock : option string;
  f_claimed : option (list string);
  f_pending : option (list DepositRecord);
}.

Record DepositWatcher := {
  lastBlock : option Z;
  claimed : list string;
  pending : jmap DepositRecord;
}.

(** [Set.add]: insertion order, no duplicates. *)
Definition set_add (k : string) (l : list string) : list string :=
  if bool_decide (k ∈ l) then l else l ++ [k].

Definition set_has (k : string) (l : list string) : bool := bool_decide (k ∈ l).

Definition fresh_watcher : DepositWatcher := {| lastBlock := None; claimed := []; pending := [] |}.

(** [None]: no file; [Some (Err _)]: the file cannot be read or parsed. *)
Definition loadDepositState (file : option (res DepositWatcherState)) : DepositWatcher :=
  match file with
  | Some (Ok data) =>
      let lb := opt_str (f_lastBlock data) in
      match (if truthy lb then Some <$> BigInt_of_string lb else Some None) with
      | Some last => {|
          lastBlock := last;
          claimed := foldl (fun s k => set_add k s) [] (default [] (f_claimed data));
          pending := foldl (fun m r => mset (d_key r) r m) [] (default [] (f_pending data)) |}
      | None => fresh_watcher
      end
  | _ => fresh_watcher
  end.

(** The document [saveDepositState] writes. *)
Definition watcher_document (w : DepositWatcher) : DepositWatcherState := {|
  f_lastBlock := dec <$> lastBlock w;
  f_claimed := Some (claimed w);
  f_pending := Some (map snd (pending w)) |}.

(** ** Interface *)

(** A decoded deposit log; [lg_token] is the indexed token of [BridgeDepositERC20]. *)
Record DepositLog := {
  lg_block : Z;
  lg_transactionHash : option string;
  lg_pubkey : option string;
  lg_token : option string;
}.

Inductive DepositEvent := BRIDGE_DEPOSIT_ETH_EVENT | BRIDGE_DEPOSIT_ERC20_EVENT | VAULT_DEPOSIT_EVENT.

(** The parsed answer of [/api/bridge/deposit/auto-claim]. *)
Record ClaimBody := { cb_success : bool; cb_error : option string }.

Inductive dep_cmd :=
| DepHead
| GetDepositLogs (e : DepositEvent) (from to : Z)
| PostAutoClaim (evmTxHash pubkey : string) (token : DepositToken)
| WriteDepositState (doc : DepositWatcherState)
| IsShuttingDown
| DepAlert (key : string)
| DepObserve (i : XrgeObserveIntent)
| DepRefused.

Definition dep_ans (c : dep_cmd) : Type :=
  match c with
  | DepHead => Z
  | GetDepositLogs _ _ _ => list DepositLog
  | PostAutoClaim _ _ _ => ClaimBody
  | IsShuttingDown => bool
  | WriteDepositState _ | DepAlert _ | DepObserve _ | DepRefused => unit
  end.

Definition DepI : iface := {| st := DepositWatcher; cmd := dep_cmd; ans := dep_ans |}.
Definition dask (c : dep_cmd) : prog DepI (dep_ans c) := call (c : cmd DepI).
Definition getW : prog DepI DepositWatcher := get.
Definition putW (w : DepositWatcher) : prog DepI unit := put (w : st DepI).

Record DepCfg := {
  OBSERVE_ONLY : bool;
  DEPOSIT_WATCHER : bool;
  ROUGE_BRIDGE_ADDRESS : option string;
  VAULT_ADDRESS : option string;
  CONFIRMATIONS : option Z;
  DEPOSIT_WATCH_FROM_BLOCK : option Z;
  DEPOSIT_MAX_BLOCK_SPAN : Z;
  chain_usdc : string;
  dep_env : penv;
}.

Section Watcher.
Variable cfg : DepCfg.

(** ** Operations *)

Definition saveDepositState : prog DepI unit :=
  if OBSERVE_ONLY cfg then Ret tt else
  let! w := getW in
  let! _ := attempt (dask (WriteDepositState (watcher_document w))) in Ret tt.

(** The pair is [ok] and [error]. *)
Definition autoClaimDeposit (evmTxHash pubkey : string) (token : DepositToken) : prog DepI (bool * option string) :=
  if OBSERVE_ONLY cfg then do! dask DepRefused in Throw "OBSERVE_ONLY: refused WOULD_CLAIM_DEPOSIT" else
  let! r := attempt (dask (PostAutoClaim evmTxHash pubkey token)) in
  Ret (match r with
       | Ok data => if cb_success data then (true, None) else (false, Some (str_or (opt_str (cb_error data)) "unknown"))
       | Err m => (false, Some m)
       end).

Definition already_claimed (error : option string) : bool :=
  truthy (opt_str error) && contains "already claimed" (toLowerCase (opt_str error)).

Definition mark_claimed (k : string) (w : DepositWatcher) : DepositWatcher := {|
  lastBlock := lastBlock w; claimed := set_add k (claimed w); pending := pending w |}.
Definition drop_pending (k : string) (w : DepositWatcher) : DepositWatcher := {|
  lastBlock := lastBlock w; claimed := claimed w; pending := mdel k (pending w) |}.
Definition set_pending (d : DepositRecord) (w : DepositWatcher) : DepositWatcher := {|
  lastBlock := lastBlock w; claimed := claimed w; pending := mset (d_key d) d (pending w) |}.
Definition set_lastBlock (b : Z) (w : DepositWatcher) : DepositWatcher := {|
  lastBlock := Some b; claimed := claimed w; pending := pending w |}.

Definition claimOne (d : DepositRecord) : prog DepI unit :=
  if OBSERVE_ONLY cfg then
    do! dask (DepObserve (XWouldClaimDeposit (token_text (d_token d)) (d_txHash d) (substring 0 16 (d_pubkey d)))) in
    let! w := getW in putW (mark_claimed (d_key d) w)
  else
    let! (ok, error) := autoClaimDeposit (d_txHash d) (d_pubkey d) (d_token d) in
    let! w := getW in
    if ok || already_claimed error then
      putW (drop_pending (d_key d) (mark_claimed (d_key d) w))
    else
      do! putW (set_pending d w) in
      dask (DepAlert ("deposit:" +:+ d_key d)).

(** [for (const d of l) { if (isShuttingDown) break; ... }]. *)
Fixpoint until_shutdown (f : DepositRecord -> prog DepI unit) (l : list DepositRecord) : prog DepI unit :=
  match l with
  | [] => Ret tt
  | d :: r =>
      let! stop := dask IsShuttingDown in
      if stop then Ret tt else do! f d in until_shutdown f r
  end.

Definition pushLog (token : DepositToken) (log : DepositLog) : option DepositRecord :=
  let txHash := toLowerCase (opt_str (lg_transactionHash log)) in
  let pubkey := opt_str (lg_pubkey log) in
  if negb (truthy txHash) || negb (truthy pubkey) then None else
  Some {| d_key := token_text token +:+ ":" +:+ txHash; d_txHash := txHash; d_pubkey := pubkey; d_token := token |}.

(** Only the configured USDC is credited among the ERC-20 deposits. *)
Definition push_erc20 (log : DepositLog) : option DepositRecord :=
  if (toLowerCase (opt_str (lg_token log)) =? toLowerCase (chain_usdc cfg))%string
  then pushLog D_USDC log else None.

Definition claim_new (d : DepositRecord) : prog DepI unit :=
  let! w := getW in
  if set_has (d_key d) (claimed w) || mhas (d_key d) (pending w) then Ret tt else claimOne d.

Definition has_bridge : bool := truthy (opt_str (ROUGE_BRIDGE_ADDRESS cfg)).
Definition has_vault : bool := truthy (opt_str (VAULT_ADDRESS cfg)).

Definition logs_if (b : bool) (e : DepositEvent) (from to : Z) : prog DepI (list DepositLog) :=
  if b then dask (GetDepositLogs e from to) else Ret [].

(** Scan [from, to], claim what is new, advance the cursor. *)
Definition scan_deposits (fromBlock toBlock : Z) : prog DepI unit :=
  let! ethLogs := logs_if has_bridge BRIDGE_DEPOSIT_ETH_EVENT fromBlock toBlock in
  let! erc20Logs := logs_if has_bridge BRIDGE_DEPOSIT_ERC20_EVENT fromBlock toBlock in
  let! xrgeLogs := logs_if has_vault VAULT_DEPOSIT_EVENT fromBlock toBlock in
  let found := omap (pushLog D_ETH) ethLogs ++ omap push_erc20 erc20Logs ++ omap (pushLog D_XRGE) xrgeLogs in
  do! until_shutdown claim_new found in
  let! w := getW in
  do! putW (set_lastBlock toBlock w) in
  saveDepositState.

Definition scan_to (fromBlock safeHead : Z) : Z :=
  if DEPOSIT_MAX_BLOCK_SPAN cfg <? safeHead - fromBlock + 1
  then fromBlock + DEPOSIT_MAX_BLOCK_SPAN cfg - 1 else safeHead.

Definition poll_deposits : prog DepI unit :=
  let! w0 := getW in
  do! until_shutdown claimOne (map snd (pending w0)) in
  let! head := dask DepHead in
  match depositWatcherSafeHead head (CONFIRMATIONS cfg) (dep_env cfg) with
  | None => Ret tt
  | Some safeHead =>
      let! w := getW in
      match (match lastBlock w with Some b => Some (b + 1) | None => DEPOSIT_WATCH_FROM_BLOCK cfg end) with
      | None => do! putW (set_lastBlock safeHead w) in saveDepositState
      | Some fromBlock =>
          if safeHead <? fromBlock then Ret tt
          else scan_deposits fromBlock (scan_to fromBlock safeHead)
      end
  end.

Definition processDeposits : prog DepI unit :=
  if negb (DEPOSIT_WATCHER cfg) then Ret tt else
  if negb has_bridge && negb has_vault then Ret tt else
  let! _ := attempt poll_deposits in Ret tt.
End Watcher.
