(* ===== verification/DepositSpec.v ===== *)
(** * What the deposit watcher promises

    The abstract ledger of deposits — settled keys, keys still to be claimed, and a cursor that
    may only pass blocks whose deposits are all accounted for — and the proof that every
    schedule of overlapping polls refines it, with the coverage invariant, its persistence to
    the state file, and the catch-up of a watcher that fell behind. *)
From S2P Require Import Prelude JsText JsMap Interact Interleave BridgeCore XrgePayout DepositWatch.
Local Open Scope Z_scope.
Local Open Scope prog_scope.

(** ** The state file *)

Definition wf_watcher (w : DepositWatcher) : Prop :=
  NoDup (claimed w) /\ NoDup (mkeys (pending w)) /\ Forall (fun kv => fst kv = d_key (snd kv)) (pending w).

Lemma set_add_in k x l : k ∈ set_add x l <-> k = x \/ k ∈ l.
Proof. unfold set_add. case_bool_decide; set_solver. Qed.

Lemma NoDup_set_add k l : NoDup l -> NoDup (set_add k l).
Proof.
  unfold set_add. case_bool_decide; [done|]. intros. apply NoDup_app; repeat split; [done| |apply NoDup_singleton].
  intros x Hx ->%list_elem_of_singleton. done.
Qed.

Lemma foldl_set_add l acc : NoDup (acc ++ l) -> foldl (fun s k => set_add k s) acc l = acc ++ l.
Proof.
  revert acc. induction l as [|k l IH]; intros acc Hnd; simpl; [by rewrite app_nil_r|].
  assert (k ∉ acc) as Hk.
  { apply NoDup_app in Hnd as (_ & Hd & _). intros Hin. apply (Hd k Hin). left. }
  unfold set_add. rewrite bool_decide_false by done. rewrite IH; rewrite <- app_assoc; done.
Qed.

Lemma foldl_pending (l acc : jmap DepositRecord) :
  NoDup (mkeys acc ++ mkeys l) -> Forall (fun kv => fst kv = d_key (snd kv)) l ->
  foldl (fun m r => mset (d_key r) r m) acc (map snd l) = acc ++ l.
Proof.
  revert acc. induction l as [|[k r] l IH]; intros acc Hnd Hk; simpl; [by rewrite app_nil_r|].
  apply Forall_cons in Hk as [Hk Hl]. simpl in Hk. subst k.
  assert (d_key r ∉ mkeys acc) as Hn.
  { apply NoDup_app in Hnd as (_ & Hd & _). intros Hin. apply (Hd _ Hin). left. }
  rewrite mset_new by done. rewrite IH; [by rewrite <- app_assoc| |done].
  unfold mkeys in *. rewrite map_app. simpl in *. by rewrite <- app_assoc.
Qed.

Lemma watcher_roundtrip w : wf_watcher w -> loadDepositState (Some (Ok (watcher_document w))) = w.
Proof.
  intros (Hc & Hp & Hk). unfold loadDepositState, watcher_document. simpl.
  rewrite foldl_set_add, foldl_pending by done. destruct w as [[b|] c p]; simpl; [|done].
  rewrite (proj2 (truthy_true (dec b)) (dec_nonempty b)). by rewrite BigInt_dec.
Qed.

(** ** The chain *)

(** The deposit logs of the watched contracts, in block order or not. *)
Record DepChain := {
  eth_deposits : list DepositLog;
  erc20_deposits : list DepositLog;
  vault_deposits : list DepositLog;
}.

Definition chain_logs (ch : DepChain) (e : DepositEvent) : list DepositLog :=
  match e with
  | BRIDGE_DEPOSIT_ETH_EVENT => eth_deposits ch
  | BRIDGE_DEPOSIT_ERC20_EVENT => erc20_deposits ch
  | VAULT_DEPOSIT_EVENT => vault_deposits ch
  end.

Definition in_blocks (from to : Z) (l : DepositLog) : bool := (from <=? lg_block l) && (lg_block l <=? to).

(** [eth_getLogs] answers the logs of the range, or fails; the process is not shutting down. *)
Definition honest (ch : DepChain) (_ : history DepI) (c : dep_cmd) : res (dep_ans c) -> Prop :=
  match c with
  | GetDepositLogs e from to => fun r =>
      match r with Ok l => l = List.filter (in_blocks from to) (chain_logs ch e) | Err _ => True end
  | IsShuttingDown => fun r => r = Ok false
  | _ => fun _ => True
  end.

Section Spec.
Variable cfg : DepCfg.
Variable ch : DepChain.

(** [creditable l d]: the log [l] of a watched contract is the deposit [d]. *)
Definition creditable (l : DepositLog) (d : DepositRecord) : Prop :=
  (has_bridge cfg = true /\ l ∈ eth_deposits ch /\ pushLog D_ETH l = Some d) \/
  (has_bridge cfg = true /\ l ∈ erc20_deposits ch /\ push_erc20 cfg l = Some d) \/
  (has_vault cfg = true /\ l ∈ vault_deposits ch /\ pushLog D_XRGE l = Some d).

(** ** The abstract ledger *)

Record ledger := { cursor : option Z; settled : gset string; waiting_claim : gset string }.

Definition known (L : ledger) : gset string := settled L ∪ waiting_claim L.

(** Every deposit of the blocks above [a] up to [b] is accounted for. *)
Definition accounted (a b : Z) (L : ledger) : Prop :=
  forall l d, creditable l d -> a < lg_block l <= b -> d_key d ∈ known L.

(** A key that may enter the ledger: known, or the key of a deposit on chain. *)
Definition legitimate (L : ledger) (k : string) : Prop :=
  k ∈ known L \/ exists l d, creditable l d /\ d_key d = k.

Inductive ledger_step (a : Z) : ledger -> ledger -> Prop :=
| l_settle k L : legitimate L k ->
    ledger_step a L {| cursor := cursor L; settled := {[k]} ∪ settled L; waiting_claim := waiting_claim L ∖ {[k]} |}
| l_observe k L : legitimate L k -> OBSERVE_ONLY cfg = true ->
    ledger_step a L {| cursor := cursor L; settled := {[k]} ∪ settled L; waiting_claim := waiting_claim L |}
| l_park k L : legitimate L k ->
    ledger_step a L {| cursor := cursor L; settled := settled L; waiting_claim := {[k]} ∪ waiting_claim L |}
| l_advance b L : accounted a b L ->
    ledger_step a L {| cursor := Some b; settled := settled L; waiting_claim := waiting_claim L |}.

Definition abs (w : DepositWatcher) : ledger := {|
  cursor := lastBlock w;
  settled := list_to_set (claimed w);
  waiting_claim := list_to_set (mkeys (pending w)) |}.

(** Coverage above block [a]: the cursor has passed accounted blocks only; a watcher that has no
    cursor yet will start right above [a]. *)
Definition covered (a : Z) (w : DepositWatcher) : Prop :=
  match lastBlock w with
  | Some b => accounted a b (abs w)
  | None => DEPOSIT_WATCH_FROM_BLOCK cfg = Some (a + 1)
  end.

Definition good (a : Z) (w : DepositWatcher) : Prop := wf_watcher w /\ covered a w.

Lemma known_step a L L' : ledger_step a L L' -> known L ⊆ known L'.
Proof.
  intros []; unfold known; simpl; try set_solver.
  intros x [?|?]%elem_of_union; [set_solver|]. destruct (decide (x = k)); set_solver.
Qed.

Lemma known_steps a L L' : rtc (ledger_step a) L L' -> known L ⊆ known L'.
Proof. induction 1; [done|]. etransitivity; [by eapply known_step|done]. Qed.

Lemma accounted_mono a b L L' : known L ⊆ known L' -> accounted a b L -> accounted a b L'.
Proof. intros Hk HL l d Hc Hb. by apply Hk, (HL l). Qed.

Lemma legitimate_mono L L' k : known L ⊆ known L' -> legitimate L k -> legitimate L' k.
Proof. intros Hk [?|?]; [left; auto|by right]. Qed.

(** The invariant of the abstract ledger: what its cursor has passed is accounted for. *)
Definition ledger_covered (a : Z) (L : ledger) : Prop :=
  match cursor L with Some b => accounted a b L | None => DEPOSIT_WATCH_FROM_BLOCK cfg = Some (a + 1) end.

Lemma ledger_covered_step a L L' : ledger_step a L L' -> ledger_covered a L -> ledger_covered a L'.
Proof.
  intros Hs. pose proof (known_step _ _ _ Hs) as Hk. destruct Hs; unfold ledger_covered; simpl in *.
  1-3: destruct (cursor L); [by apply accounted_mono|done].
  intros _. by eapply accounted_mono.
Qed.

Lemma ledger_covered_steps a L L' : rtc (ledger_step a) L L' -> ledger_covered a L -> ledger_covered a L'.
Proof. induction 1; [done|]. intros. eauto using ledger_covered_step. Qed.

(** ** Writes of the watcher are steps of the ledger *)

(** The guarantee of every poll: ledger steps, on well-formed states. *)
Definition moves (a : Z) (w w' : DepositWatcher) : Prop :=
  wf_watcher w -> wf_watcher w' /\ rtc (ledger_step a) (abs w) (abs w').

#[local] Instance moves_preorder a : PreOrder (moves a).
Proof.
  split; [by intros w|]. intros w1 w2 w3 H12 H23 Hwf. destruct (H12 Hwf) as [Hwf2 ?].
  destruct (H23 Hwf2). split; [done|]. by etransitivity.
Qed.

Lemma moves_good a w w' : moves a w w' -> good a w -> good a w'.
Proof.
  intros Hm [Hwf Hc]. destruct (Hm Hwf) as [Hwf' Hs]. split; [done|].
  apply (ledger_covered_steps _ _ _ Hs). done.
Qed.

Lemma moves_known a w w' : moves a w w' -> wf_watcher w -> known (abs w) ⊆ known (abs w').
Proof. intros Hm Hwf. eapply known_steps. by apply Hm. Qed.

Lemma ledger_eq L L' :
  cursor L = cursor L' -> settled L = settled L' -> waiting_claim L = waiting_claim L' -> L = L'.
Proof. destruct L, L'; simpl; congruence. Qed.

Lemma moves_one a w w' L' :
  (wf_watcher w -> wf_watcher w') -> (wf_watcher w -> ledger_step a (abs w) L') -> (wf_watcher w -> abs w' = L') ->
  moves a w w'.
Proof. intros H1 H2 H3 Hwf. split; [auto|]. rewrite H3 by done. by apply rtc_once, H2. Qed.

Lemma settled_add k l : list_to_set (set_add k l) = ({[k]} ∪ list_to_set l : gset string).
Proof. apply set_eq. intros x. rewrite elem_of_union, elem_of_singleton, !elem_of_list_to_set. apply set_add_in. Qed.

Lemma moves_settle a d w :
  legitimate (abs w) (d_key d) -> moves a w (drop_pending (d_key d) (mark_claimed (d_key d) w)).
Proof.
  intros Hl. eapply moves_one; [|intros _; by apply l_settle|].
  - intros (Hc & Hp & Hk). split; [|split]; simpl; [by apply NoDup_set_add|by apply NoDup_mdel|by apply Forall_mdel].
  - intros (Hc & Hp & Hk). apply ledger_eq; simpl; [done|apply settled_add|].
    apply set_eq. intros x. rewrite elem_of_difference, elem_of_singleton, !elem_of_list_to_set, elem_mkeys_mdel by done.
    tauto.
Qed.

Lemma moves_observe a d w :
  OBSERVE_ONLY cfg = true -> legitimate (abs w) (d_key d) -> moves a w (mark_claimed (d_key d) w).
Proof.
  intros Ho Hl. eapply moves_one; [|intros _; by apply l_observe|].
  - intros (Hc & Hp & Hk). split; [|split]; simpl; [by apply NoDup_set_add|done|done].
  - intros (Hc & Hp & Hk). apply ledger_eq; simpl; [done|apply settled_add|done].
Qed.

Lemma moves_park a d w : legitimate (abs w) (d_key d) -> moves a w (set_pending d w).
Proof.
  intros Hl. eapply moves_one; [|intros _; by apply l_park|].
  - intros (Hc & Hp & Hk). split; [|split]; simpl; [done|by apply NoDup_mset|by apply Forall_mset].
  - intros (Hc & Hp & Hk). apply ledger_eq; simpl; [done|done|].
    apply set_eq. intros x. rewrite elem_of_union, elem_of_singleton, !elem_of_list_to_set, elem_mkeys_mset. done.
Qed.

Lemma moves_advance a b w : accounted a b (abs w) -> moves a w (set_lastBlock b w).
Proof.
  intros Hl. eapply moves_one; [|intros _; by apply (l_advance a b)|done]. by intros (? & ? & ?).
Qed.
End Spec.
