(* ===== verification/DepositClaims.v ===== *)
(** * Correctness of the deposit watcher

    Every schedule of overlapping polls refines the abstract ledger of [DepositSpec]; coverage
    is an invariant of the memory and of the state file; a watcher that fell behind catches up;
    what the daemon is asked to credit comes from confirmed logs. *)
From S2P Require Import Prelude JsText JsMap Interact Interleave BridgeCore XrgePayout DepositWatch DepositSpec.
Local Open Scope Z_scope.
Local Open Scope prog_scope.

Section Overlap.
Variable cfg : DepCfg.
Variable ch : DepChain.
Variable a : Z.

#[local] Existing Instance moves_preorder.

(** A document may be written only if loading it gives a well-formed, covered watcher. *)
Definition saves_good (c : dep_cmd) : Prop :=
  match c with
  | WriteDepositState doc => good cfg ch a (loadDepositState (Some (Ok doc)))
  | _ => True
  end.

Abbreviation R p s Q := (rg (I := DepI) (honest ch) (moves cfg ch a) saves_good p s Q).
Abbreviation good := (good cfg ch a).
Abbreviation moves := (moves cfg ch a).
Abbreviation legitimate := (legitimate cfg ch).

Lemma R_ask c s (Q : res (dep_ans c) -> DepositWatcher -> Prop) :
  saves_good c -> (forall r s' h, honest ch h c r -> moves s s' -> Q r s') -> R (dask c) s Q.
Proof. intros Hok HQ. apply (rg_call (I := DepI)); [done|]. intros h r s' Ha Hs. by eapply HQ. Qed.

(** What every sub-program keeps; [P] holds of the final state when it returns. *)
Definition kept {A} (s : DepositWatcher) (P : DepositWatcher -> Prop) (o : res A) (s' : DepositWatcher) : Prop :=
  good s' /\ moves s s' /\ (is_ok o = true -> P s').

Lemma kept_later {A} s s1 P (o : res A) s' : moves s s1 -> kept s1 P o s' -> kept s P o s'.
Proof. intros Hs (Hg & Hm & HP). split; [done|]. split; [by etransitivity|done]. Qed.

Lemma kept_err {A} s P m s' : good s -> moves s s' -> kept (A := A) s P (Err m) s'.
Proof. intros Hg Hs. split; [by eapply moves_good|done]. Qed.

Lemma good_wf s : good s -> wf_watcher s.
Proof. by intros []. Qed.

Lemma legitimate_later s s' k : good s -> moves s s' -> legitimate (abs s) k -> legitimate (abs s') k.
Proof. intros Hg Hm. apply legitimate_mono. by eapply moves_known, good_wf. Qed.

Lemma save_rg s : good s -> R (saveDepositState cfg) s (kept s (fun _ => True)).
Proof.
  intros Hg. unfold saveDepositState. destruct (OBSERVE_ONLY cfg); [done|]. simpl.
  assert (saves_good (WriteDepositState (watcher_document s))) as Hok
    by (unfold saves_good; by rewrite watcher_roundtrip by apply Hg).
  split; [done|]. intros _ [u|m] s' _ Hs; simpl; (split; [by eapply moves_good|done]).
Qed.

Lemma known_settle d w :
  d_key d ∈ known (abs (drop_pending (d_key d) (mark_claimed (d_key d) w))).
Proof. unfold known, abs; simpl. rewrite settled_add. set_solver. Qed.

Lemma known_observe d w : d_key d ∈ known (abs (mark_claimed (d_key d) w)).
Proof. unfold known, abs; simpl. rewrite settled_add. set_solver. Qed.

Lemma known_park d w : d_key d ∈ known (abs (set_pending d w)).
Proof.
  unfold known, abs; simpl. apply elem_of_union_r, elem_of_list_to_set, elem_mkeys_mset. by left.
Qed.

Lemma claimOne_rg d s :
  good s -> legitimate (abs s) (d_key d) ->
  R (claimOne cfg d) s (kept s (fun s' => d_key d ∈ known (abs s'))).
Proof.
  intros Hg Hl. unfold claimOne, autoClaimDeposit. destruct (OBSERVE_ONLY cfg) eqn:Ho.
  - apply rg_bind, R_ask; [done|]. intros [[]|m] s1 h _ Hs; simpl.
    2:{ split; [by eapply moves_good|done]. }
    assert (good s1) as Hg1 by by eapply moves_good.
    assert (moves s1 (mark_claimed (d_key d) s1)) as Hm
      by (apply moves_observe; [done|by eapply (legitimate_later s)]).
    split; [done|]. split; [by eapply moves_good|]. split; [by etransitivity|]. intros _. apply known_observe.
  - cbn [bind]. apply rg_bind, rg_bind, rg_attempt, R_ask; [done|]. intros r s1 h _ Hs.
    assert (good s1) as Hg1 by by eapply moves_good.
    assert (legitimate (abs s1) (d_key d)) as Hl1 by by eapply (legitimate_later s).
    cbn [rg]. destruct (match r with Ok _ => _ | Err _ => _ end) as [ok error]. cbn [bind getW get rg].
    destruct (ok || already_claimed error).
    + assert (moves s1 (drop_pending (d_key d) (mark_claimed (d_key d) s1))) as Hm by by apply moves_settle.
      split; [done|]. split; [by eapply moves_good|]. split; [by etransitivity|]. intros _. apply known_settle.
    + assert (moves s1 (set_pending d s1)) as Hm by by apply moves_park.
      split; [done|]. cbn [bind]. apply R_ask; [done|]. intros r2 s2 h2 _ Hs2.
      assert (good (set_pending d s1)) as Hg2 by by eapply moves_good.
      split; [by eapply moves_good|]. split; [do 2 (etransitivity; [done|]); done|].
      intros _. eapply moves_known; [done|by apply good_wf|]. apply known_park.
Qed.

Lemma claim_new_rg d s :
  good s -> legitimate (abs s) (d_key d) ->
  R (claim_new cfg d) s (kept s (fun s' => d_key d ∈ known (abs s'))).
Proof.
  intros Hg Hl. unfold claim_new. cbn [bind getW get rg].
  destruct (set_has _ _ || mhas _ _) eqn:Hk; [|by apply claimOne_rg].
  split; [done|]. split; [done|]. intros _. unfold known, abs; simpl.
  rewrite elem_of_union, !elem_of_list_to_set.
  apply orb_true_iff in Hk as [Hk%bool_decide_eq_true|Hk%mhas_keys]; auto.
Qed.

Lemma until_rg f l s :
  (forall d s, good s -> legitimate (abs s) (d_key d) -> R (f d) s (kept s (fun s' => d_key d ∈ known (abs s')))) ->
  good s -> Forall (fun d => legitimate (abs s) (d_key d)) l ->
  R (until_shutdown f l) s (kept s (fun s' => Forall (fun d => d_key d ∈ known (abs s')) l)).
Proof.
  intros Hf. revert s. induction l as [|d l IH]; intros s Hg Hl; cbn [until_shutdown]; [done|].
  apply Forall_cons in Hl as [Hd Hl].
  apply rg_bind, R_ask; [done|]. intros r s1 h -> Hs. cbn [bind]. apply rg_bind.
  assert (good s1) as Hg1 by by eapply moves_good.
  eapply rg_mono; [|apply Hf; [done|by eapply (legitimate_later s)]].
  intros [[]|m] s2 (Hg2 & Hm2 & Hk); (assert (moves s s2) as Hm by by etransitivity); [|done].
  eapply rg_mono; [|apply IH; [done|]].
  - intros o s3 (Hg3 & Hm3 & Hk3). split; [done|]. split; [by etransitivity|]. intros Ho.
    apply Forall_cons. split; [|by apply Hk3]. eapply moves_known; [done|by apply good_wf|]. by apply Hk.
  - eapply Forall_impl; [done|]. intros x Hx. by eapply (legitimate_later s).
Qed.

Lemma pending_legitimate w : wf_watcher w -> Forall (fun d => legitimate (abs w) (d_key d)) (map snd (pending w)).
Proof.
  intros (_ & _ & Hk). apply Forall_forall. intros d ([k r] & -> & Hin)%list_elem_of_fmap.
  rewrite Forall_forall in Hk. pose proof (Hk _ Hin) as Hkr. simpl in *. subst k. left. apply elem_of_union_r, elem_of_list_to_set.
  apply list_elem_of_fmap. by exists (d_key r, r).
Qed.

(** The deposits of a scanned range. *)
Definition found_in (from to : Z) : list DepositRecord :=
  let logs b e := if b : bool then List.filter (in_blocks from to) (chain_logs ch e) else [] in
  omap (pushLog D_ETH) (logs (has_bridge cfg) BRIDGE_DEPOSIT_ETH_EVENT) ++
  omap (push_erc20 cfg) (logs (has_bridge cfg) BRIDGE_DEPOSIT_ERC20_EVENT) ++
  omap (pushLog D_XRGE) (logs (has_vault cfg) VAULT_DEPOSIT_EVENT).

Lemma in_filtered b (f : DepositLog -> option DepositRecord) from to l0 d :
  d ∈ omap f (if b : bool then List.filter (in_blocks from to) l0 else []) <->
  exists l, b = true /\ l ∈ l0 /\ f l = Some d /\ from <= lg_block l <= to.
Proof.
  destruct b; simpl; [|split; [by intros ?%elem_of_nil|naive_solver]]. rewrite list_elem_of_omap.
  split; intros (l & Hl).
  - destruct Hl as [Hin Hf]. apply list_elem_of_In, List.filter_In in Hin as [Hin Hb].
    apply andb_true_iff in Hb as [?%Z.leb_le ?%Z.leb_le]. apply list_elem_of_In in Hin. eauto 10.
  - destruct Hl as (_ & Hin & Hf & ? & ?). exists l. split; [|done]. apply list_elem_of_In, List.filter_In.
    split; [by apply list_elem_of_In|]. by apply andb_true_iff; split; apply Z.leb_le.
Qed.

Lemma found_iff from to d :
  d ∈ found_in from to <-> exists l, creditable cfg ch l d /\ from <= lg_block l <= to.
Proof.
  unfold found_in. rewrite !elem_of_app. simpl. rewrite !in_filtered. unfold creditable. naive_solver.
Qed.

Lemma logs_if_rg (b : bool) e from to s (Q : res (list DepositLog) -> DepositWatcher -> Prop) :
  (forall s', moves s s' ->
     Q (Ok (if b : bool then List.filter (in_blocks from to) (chain_logs ch e) else [])) s') ->
  (forall m s', moves s s' -> Q (Err m) s') -> R (logs_if b e from to) s Q.
Proof.
  intros H1 H2. unfold logs_if. destruct b; [|by apply H1].
  apply R_ask; [done|]. intros [l|m] s' h Ha Hs; simpl in Ha; [subst l; auto|auto].
Qed.

Lemma scan_rg from to s :
  good s -> accounted cfg ch a (from - 1) (abs s) ->
  R (scan_deposits cfg from to) s (kept s (fun _ => True)).
Proof.
  intros Hg Hacc. unfold scan_deposits.
  apply rg_bind, logs_if_rg; [intros s1 H1|intros; by apply kept_err].
  apply rg_bind, logs_if_rg; [intros s2 H2|intros; apply kept_err; [done|by etransitivity]].
  assert (moves s s2) as H02 by by etransitivity.
  apply rg_bind, logs_if_rg; [intros s3 H3|intros; apply kept_err; [done|by etransitivity]].
  assert (moves s s3) as H03 by by etransitivity. clear H1 H2 H02 H3 s1 s2.
  cbv zeta. change (omap (pushLog D_ETH) _ ++ _) with (found_in from to).
  assert (good s3) as Hg3 by by eapply moves_good.
  apply rg_bind. eapply rg_mono; [|apply until_rg; [apply claim_new_rg|done|]].
  2:{ apply Forall_forall. intros d (l & Hc & _)%found_iff. right. eauto. }
  intros [[]|m] s4 (Hg4 & Hm4 & Hk); [|split; [done|]; split; [by etransitivity|done]].
  cbn [bind getW putW get put rg]. specialize (Hk eq_refl). rewrite Forall_forall in Hk.
  assert (moves s s4) as H04 by by etransitivity.
  assert (moves s4 (set_lastBlock to s4)) as Hadv.
  { apply moves_advance. intros l d Hc Hb. destruct (decide (lg_block l <= from - 1)).
    - eapply moves_known; [exact H04|by apply good_wf|]. apply (Hacc l); [done|lia].
    - apply Hk, found_iff. exists l. split; [done|lia]. }
  split; [done|]. eapply rg_mono; [|apply save_rg; by eapply moves_good].
  intros o s5 H5. eapply kept_later; [|done]. by etransitivity.
Qed.

Lemma covered_from s b :
  good s -> (match lastBlock s with Some b => Some (b + 1) | None => DEPOSIT_WATCH_FROM_BLOCK cfg end) = b ->
  exists from, b = Some from /\ accounted cfg ch a (from - 1) (abs s).
Proof.
  intros [_ Hc] <-. unfold covered in Hc. destruct (lastBlock s) as [x|].
  - exists (x + 1). split; [done|]. by replace (x + 1 - 1) with x by lia.
  - exists (a + 1). split; [done|]. intros l d _ ?. lia.
Qed.

Lemma poll_rg s : good s -> R (processDeposits cfg) s (fun _ s' => good s').
Proof.
  intros Hg. unfold processDeposits. destruct (negb _); [done|]. destruct (_ && _); [done|].
  apply rg_bind, rg_attempt. apply rg_mono with (Q := fun _ s' => good s'); [done|]. unfold poll_deposits. cbn [bind getW get rg].
  apply rg_bind. eapply rg_mono; [|apply until_rg; [apply claimOne_rg|done|by apply pending_legitimate, good_wf]].
  intros [[]|m] s1 (Hg1 & Hm1 & _); [|done].
  apply rg_bind, R_ask; [done|]. intros r s2 h _ Hs2.
  assert (good s2) as Hg2 by by eapply moves_good. destruct r as [head|m]; [|done].
  destruct (depositWatcherSafeHead _ _ _) as [safeHead|]; [|done]. cbn [bind getW get rg].
  destruct (covered_from s2 _ Hg2 eq_refl) as (from & -> & Hacc).
  destruct (safeHead <? from); [done|]. eapply rg_mono; [|by apply scan_rg]. by intros o s' [? _].
Qed.

Definition polls (p : prog DepI unit) : Prop := p = processDeposits cfg.

(** Schedules of polls from the watcher [s]. *)
Definition schedule (s : DepositWatcher) (y : config DepI) : Prop :=
  rtc (step (I := DepI) polls (honest ch)) (Config (I := DepI) s [] []) y.

Lemma overlap_sound s y :
  good s -> schedule s y ->
  moves s (c_st y) /\ good (c_st y) /\ Forall (fun e : event DepI => match e with Ev c _ => saves_good c end) (c_hist y).
Proof.
  intros Hg Hrun.
  destruct (steps_sound (I := DepI) polls (honest ch) moves saves_good good) with (x := Config (I := DepI) s [] []) (y := y)
    as [Hm [H1 H2 H3]]; [intros; by eapply moves_good| |done|by split|done].
  intros p s' Hs' ->. eapply rg_mono; [|by apply poll_rg]. by intros.
Qed.
End Overlap.

(** ** What the daemon is asked to credit *)

Section Justified.
Variable cfg : DepCfg.
Variable s0 : DepositWatcher.
Abbreviation E := (@Ev DepI).

(** The log of deposit [d] was read in a range that ends at or below the confirmed head. *)
Definition confirmed (h : history DepI) (d : DepositRecord) : Prop :=
  exists ev from to logs log head safe,
    E (GetDepositLogs ev from to) (Ok logs) ∈ h /\ log ∈ logs /\
    match ev with
    | BRIDGE_DEPOSIT_ETH_EVENT => pushLog D_ETH log = Some d
    | BRIDGE_DEPOSIT_ERC20_EVENT => push_erc20 cfg log = Some d
    | VAULT_DEPOSIT_EVENT => pushLog D_XRGE log = Some d
    end /\
    E DepHead (Ok head) ∈ h /\
    depositWatcherSafeHead head (CONFIRMATIONS cfg) (dep_env cfg) = Some safe /\ to <= safe.

(** A deposit the watcher may claim: pending from an earlier poll, or confirmed in this one. *)
Definition claimable (h : history DepI) (d : DepositRecord) : Prop :=
  d ∈ map snd (pending s0) \/ confirmed h d.

Definition claim_guard (h : history DepI) (c : dep_cmd) : Prop :=
  match c with
  | PostAutoClaim t p k => OBSERVE_ONLY cfg = false /\
      exists d, claimable h d /\ d_txHash d = t /\ d_pubkey d = p /\ d_token d = k
  | WriteDepositState _ => OBSERVE_ONLY cfg = false
  | _ => True
  end.

(** The daemon credited the deposit, or reports that it was credited before. *)
Definition accepts (r : res ClaimBody) : bool :=
  match r with
  | Ok b => cb_success b || already_claimed (Some (str_or (opt_str (cb_error b)) "unknown"))
  | Err m => already_claimed (Some m)
  end.

(** Why a key is among the claimed ones. *)
Definition settled_by (h : history DepI) (k : string) : Prop :=
  OBSERVE_ONLY cfg = true \/
  exists d r, d_key d = k /\ claimable h d /\ accepts r = true /\
    E (PostAutoClaim (d_txHash d) (d_pubkey d) (d_token d)) r ∈ h.

Abbreviation W p s h Q := (wp (I := DepI) claim_guard anything p s h Q).

Lemma W_ask c s h (Q : res (dep_ans c) -> _) :
  claim_guard h c -> (forall r, Q r s (E c r :: h)) -> W (dask c) s h Q.
Proof. intros Hok HQ. apply (wp_call (I := DepI)); [done|]. intros r _. apply HQ. Qed.

Lemma confirmed_cons h d ev : confirmed h d -> confirmed (ev :: h) d.
Proof. intros (e & f & t & lo & l & hd & sf & ? & ? & ? & ? & ? & ?). exists e, f, t, lo, l, hd, sf. repeat split; try done; by right. Qed.

Lemma claimable_cons h d ev : claimable h d -> claimable (ev :: h) d.
Proof. intros [?|?]; [by left|right; by apply confirmed_cons]. Qed.

Lemma settled_cons h k ev : settled_by h k -> settled_by (ev :: h) k.
Proof.
  intros [?|(d & r & ? & ? & ? & ?)]; [by left|right]. exists d, r. repeat split; try done; [by apply claimable_cons|by right].
Qed.

(** Claimed keys are justified, and no key is forgotten. *)
Record just (s : DepositWatcher) (h : history DepI) : Prop := {
  j_claimed : forall k, k ∈ claimed s -> k ∈ claimed s0 \/ settled_by h k;
  j_kept : forall k, k ∈ claimed s0 \/ mhas k (pending s0) = true -> k ∈ claimed s \/ mhas k (pending s) = true;
}.

Lemma just_cons s h ev : just s h -> just s (ev :: h).
Proof. intros [H1 H2]. split; [|done]. intros k [?|?]%H1; [by left|right; by apply settled_cons]. Qed.

Lemma just_mark d s h : just s h -> settled_by h (d_key d) -> just (mark_claimed (d_key d) s) h.
Proof.
  intros [H1 H2] Hd. split; simpl.
  - intros k [->|Hk]%set_add_in; auto.
  - intros k [?|?]%H2; [left; apply set_add_in; by right|by right].
Qed.

Lemma just_drop k s h : just s h -> k ∈ claimed s -> just (drop_pending k s) h.
Proof.
  intros [H1 H2] Hd. split; simpl; [done|]. intros k' Hk'. destruct (decide (k' = k)) as [->|Hne]; [by left|].
  apply H2 in Hk' as [?|Hk']; [by left|right]. unfold mhas in *. by rewrite mget_mdel_ne.
Qed.

Lemma just_park d s h : just s h -> just (set_pending d s) h.
Proof.
  intros [H1 H2]. split; simpl; [done|]. intros k [?|Hk]%H2; [by left|right].
  apply mhas_keys, elem_mkeys_mset. right. by apply mhas_keys.
Qed.

(** After every sub-program, claimable deposits are still claimable. *)
Definition J' (h : history DepI) (_ : res unit) (s' : DepositWatcher) (h' : history DepI) : Prop :=
  just s' h' /\ (forall d, claimable h d -> claimable h' d).

Lemma claimOne_wp d s h : just s h -> claimable h d -> W (claimOne cfg d) s h (J' h).
Proof.
  intros Hj Hc. unfold claimOne, autoClaimDeposit. destruct (OBSERVE_ONLY cfg) eqn:Ho.
  - apply wp_bind, W_ask; [done|]. intros [[]|m]; simpl.
    + split; [|intros; by apply claimable_cons]. apply just_mark; [by apply just_cons|by left].
    + split; [by apply just_cons|intros; by apply claimable_cons].
  - cbn [bind]. apply wp_bind, wp_bind, wp_attempt, W_ask; [split; [done|]; by exists d|]. intros r. cbn [wp].
    destruct (match r with Ok _ => _ | Err _ => _ end) as [ok error] eqn:Hr. cbn [bind getW get wp].
    pose proof (just_cons s h (E (PostAutoClaim (d_txHash d) (d_pubkey d) (d_token d)) r) Hj) as Hj1.
    assert (ok || already_claimed error = accepts r) as ->.
    { unfold accepts. destruct r as [[[] ?]|m]; simpl in *; injection Hr as <- <-; done. }
    destruct (accepts r) eqn:Ha.
    + split; [|intros; by apply claimable_cons]. apply just_drop; [apply just_mark; [done|]|].
      * right. exists d, r. repeat split; [by apply claimable_cons|done|left].
      * simpl. apply set_add_in. by left.
    + cbn [bind putW put wp]. apply W_ask; [done|]. intros r2. split; [|intros; by do 2 apply claimable_cons].
      by apply just_cons, just_park.
Qed.

Lemma claim_new_wp d s h : just s h -> claimable h d -> W (claim_new cfg d) s h (J' h).
Proof.
  intros Hj Hc. unfold claim_new. cbn [bind getW get wp]. destruct (_ || _); [by split|by apply claimOne_wp].
Qed.

Lemma until_wp f l s h :
  (forall d s h, just s h -> claimable h d -> W (f d) s h (J' h)) ->
  just s h -> Forall (claimable h) l -> W (until_shutdown f l) s h (J' h).
Proof.
  intros Hf. revert s h. induction l as [|d l IH]; intros s h Hj Hl; cbn [until_shutdown]; [by split|].
  apply Forall_cons in Hl as [Hd Hl]. apply wp_bind, W_ask; [done|].
  intros [[]|m]; try (split; [by apply just_cons|intros; by apply claimable_cons]).
  apply wp_bind. eapply wp_mono; [|apply Hf; [by apply just_cons|by apply claimable_cons]].
  assert (forall d, claimable h d -> claimable (E IsShuttingDown (Ok false) :: h) d) as Hc0 by (intros; by apply claimable_cons).
  intros [[]|m] s1 h1 [Hj1 Hc1]; [|split; [done|]; auto].
  eapply wp_mono; [|apply IH; [done|]].
  - intros o s2 h2 [Hj2 Hc2]. split; [done|]. auto.
  - eapply Forall_impl; [exact Hl|]. auto.
Qed.

Lemma save_wp s h : just s h -> W (saveDepositState cfg) s h (fun _ => just).
Proof.
  intros Hj. unfold saveDepositState. destruct (OBSERVE_ONLY cfg) eqn:Ho; [done|]. cbn [bind getW get wp].
  apply wp_bind, wp_attempt, W_ask; [done|]. intros r. by apply just_cons.
Qed.

Lemma just_cursor b s h : just s h -> just (set_lastBlock b s) h.
Proof. by intros [H1 H2]. Qed.

(** The deposits of a log answer are claimable once a confirmed head bounds the range. *)
Definition event_push (ev : DepositEvent) : DepositLog -> option DepositRecord :=
  match ev with
  | BRIDGE_DEPOSIT_ETH_EVENT => pushLog D_ETH
  | BRIDGE_DEPOSIT_ERC20_EVENT => push_erc20 cfg
  | VAULT_DEPOSIT_EVENT => pushLog D_XRGE
  end.

Definition head_read (h : history DepI) (to : Z) : Prop :=
  exists head safe, E DepHead (Ok head) ∈ h /\
    depositWatcherSafeHead head (CONFIRMATIONS cfg) (dep_env cfg) = Some safe /\ to <= safe.

Lemma logs_if_wp b ev from to s h :
  just s h -> head_read h to ->
  W (logs_if b ev from to) s h (fun o s' h' => s' = s /\ just s' h' /\ head_read h' to /\
     (forall d, claimable h d -> claimable h' d) /\
     match o with Ok logs => Forall (claimable h') (omap (event_push ev) logs) | Err _ => True end).
Proof.
  intros Hj (head & safe & Hh & Hs & Ht). unfold logs_if. destruct b.
  2:{ simpl. split; [done|]. split; [done|]. split; [by exists head, safe|]. split; [done|constructor]. }
  apply W_ask; [done|]. intros r. split; [done|]. split; [by apply just_cons|].
  split; [exists head, safe; split; [by right|done]|]. split; [intros; by apply claimable_cons|].
  destruct r as [logs|]; [|done]. apply Forall_forall. intros d (log & Hin & Hp)%list_elem_of_omap.
  right. exists ev, from, to, logs, log, head, safe.
  split; [left|]. split; [done|]. split; [by destruct ev|]. split; [by right|done].
Qed.

Lemma scan_wp from to s h : just s h -> head_read h to -> W (scan_deposits cfg from to) s h (fun _ => just).
Proof.
  intros Hj Hh. unfold scan_deposits.
  apply wp_bind. eapply wp_mono; [|by apply logs_if_wp]. intros [l1|m] s1 h1 (-> & Hj1 & Hh1 & Hc1 & Hl1); [|done].
  apply wp_bind. eapply wp_mono; [|by apply logs_if_wp]. intros [l2|m] s2 h2 (-> & Hj2 & Hh2 & Hc2 & Hl2); [|done].
  apply wp_bind. eapply wp_mono; [|by apply logs_if_wp]. intros [l3|m] s3 h3 (-> & Hj3 & Hh3 & Hc3 & Hl3); [|done].
  cbv zeta. apply wp_bind. eapply wp_mono; [|apply until_wp; [apply claim_new_wp|done|]].
  - intros [[]|m] s4 h4 [Hj4 _]; [|done]. cbn [bind getW putW get put wp]. by apply save_wp, just_cursor.
  - repeat apply Forall_app_2; [eapply Forall_impl; [exact Hl1|]; auto|eapply Forall_impl; [exact Hl2|]; auto|done].
Qed.

Lemma scan_to_le from safe : scan_to cfg from safe <= safe.
Proof. unfold scan_to. destruct (Z.ltb_spec (DEPOSIT_MAX_BLOCK_SPAN cfg) (safe - from + 1)); lia. Qed.

Lemma poll_wp : W (processDeposits cfg) s0 [] (fun _ => just).
Proof.
  assert (just s0 []) as H0 by (split; auto).
  unfold processDeposits. destruct (negb _); [done|]. destruct (_ && _); [done|].
  apply wp_bind, wp_attempt. unfold poll_deposits. cbn [bind getW get wp].
  apply wp_bind. eapply wp_mono; [|apply until_wp; [apply claimOne_wp|done|]].
  2:{ apply Forall_forall. intros d Hd. by left. }
  intros [[]|m] s1 h1 [Hj1 _]; [|done].
  apply wp_bind, W_ask; [done|]. intros [head|m]; [|by apply just_cons].
  pose proof (just_cons s1 h1 (E DepHead (Ok head)) Hj1) as Hj2.
  destruct (depositWatcherSafeHead _ _ _) as [safe|] eqn:Hs; [|done]. cbn [bind getW get wp].
  destruct (match lastBlock s1 with Some _ => _ | None => _ end) as [from|].
  2:{ cbn [bind putW put wp]. eapply wp_mono; [|by apply save_wp, just_cursor]. done. }
  destruct (safe <? from); [done|]. eapply wp_mono; [|apply scan_wp; [done|]]; [done|].
  exists head, safe. split; [left|]. split; [done|apply scan_to_le].
Qed.
End Justified.

(** ** A small chain *)

Module DepositDemo.
Definition cfg : DepCfg := {|
  OBSERVE_ONLY := false; DEPOSIT_WATCHER := true; ROUGE_BRIDGE_ADDRESS := Some "0xb1"; VAULT_ADDRESS := Some "0xa2";
  CONFIRMATIONS := Some 2; DEPOSIT_WATCH_FROM_BLOCK := None; DEPOSIT_MAX_BLOCK_SPAN := 4; chain_usdc := "0xUsdc";
  dep_env := fun _ => None |}.

Definition log (b : Z) (h pk : string) (t : option string) : DepositLog := {|
  lg_block := b; lg_transactionHash := Some h; lg_pubkey := Some pk; lg_token := t |}.

Definition chain : DepChain := {|
  eth_deposits := [log 12 "0xE1" "pk1" None; log 19 "0xe2" "pk2" None];
  erc20_deposits := [log 13 "0xC1" "pk3" (Some "0xUSDC"); log 13 "0xC2" "pk3" (Some "0xother")];
  vault_deposits := [log 14 "0xF1" "pk4" None] |}.

(** Anchored at block 10 on the first run. *)
Definition start : DepositWatcher := {| lastBlock := Some 10; claimed := []; pending := [] |}.

(** Head 26, logs of the chain; [claim] answers the claims, [stop] the shutdown flag. *)
Definition env_with (claim : ClaimBody) (stop : history DepI -> bool) : env DepI := fun h c =>
  match c return res (dep_ans c) with
  | DepHead => Ok 26
  | GetDepositLogs e from to => Ok (List.filter (in_blocks from to) (chain_logs chain e))
  | PostAutoClaim _ _ _ => Ok claim
  | IsShuttingDown => Ok (stop h)
  | WriteDepositState _ | DepAlert _ | DepObserve _ | DepRefused => Ok tt
  end.

Definition accepted : ClaimBody := {| cb_success := true; cb_error := None |}.
Definition rejected : ClaimBody := {| cb_success := false; cb_error := Some "too shallow" |}.

Lemma start_good : good cfg chain 10 start.
Proof.
  split; [split; [constructor|split; [constructor|constructor]]|].
  intros l d _ Hb. simpl in Hb. lia.
Qed.

Example poll_parks_rejected :
  let s' := final (env_with rejected (fun _ => false)) (processDeposits cfg) start in
  lastBlock s' = Some 14 /\ claimed s' = [] /\ mkeys (pending s') = ["ETH:0xe1"; "USDC:0xc1"; "XRGE:0xf1"].
Proof. vm_compute. auto. Qed.

(** The shutdown flag turns true after one claim. *)
Definition stops_after_one (h : history DepI) : bool :=
  existsb (fun e : event DepI => match e with Ev (PostAutoClaim _ _ _) _ => true | _ => false end) h.
End DepositDemo.

(** Shutting down in the middle of a poll loses deposits: the loop over the deposits of the scanned
    range stops at the flag, but the cursor is advanced past the whole range and saved.  Here the
    USDC and XRGE deposits of blocks 13 and 14 are neither claimed nor pending, in memory and in
    the state file the next start loads, and the next scan begins at block 15. *)
Example shutdown_skips_deposits :
  let e := DepositDemo.env_with DepositDemo.accepted DepositDemo.stops_after_one in
  let s' := final e (processDeposits DepositDemo.cfg) DepositDemo.start in
  lastBlock s' = Some 14 /\ claimed s' = ["ETH:0xe1"] /\ pending s' = [] /\
  @Ev DepI (WriteDepositState (watcher_document s')) (Ok tt) ∈ trace e (processDeposits DepositDemo.cfg) DepositDemo.start /\
  loadDepositState (Some (Ok (watcher_document s'))) = s'.
Proof. vm_compute. repeat split. left. Qed.

(** A state file that cannot be parsed is a first run: cursor and pending deposits are gone. *)
Example torn_file_forgets msg : loadDepositState (Some (Err msg)) = fresh_watcher.
Proof. reflexivity. Qed.


(** no deposit is skipped.  In every schedule of overlapping polls, every creditable deposit
    above block [a] up to the cursor is claimed or pending, in memory and in every document
    written to the state file: a restart from any of them resumes with nothing lost. *)
Theorem no_deposit_skipped cfg ch a s y
    (Hs : good cfg ch a s) (Hrun : schedule cfg ch s y) :
  let complete w := forall b l d, lastBlock w = Some b -> creditable cfg ch l d -> a < lg_block l <= b ->
    d_key d ∈ claimed w \/ mhas (d_key d) (pending w) = true in
  complete (c_st y) /\
  forall doc r, @Ev DepI (WriteDepositState doc) r ∈ c_hist y -> complete (loadDepositState (Some (Ok doc))).
Proof.
  assert (forall w, good cfg ch a w -> forall b l d, lastBlock w = Some b -> creditable cfg ch l d -> a < lg_block l <= b ->
    d_key d ∈ claimed w \/ mhas (d_key d) (pending w) = true) as Hall.
  { intros w [_ Hc] b l d Hb Hd Hl. unfold covered in Hc. rewrite Hb in Hc. pose proof (Hc l d Hd Hl) as Hk.
    unfold known, abs in Hk. simpl in Hk. rewrite elem_of_union, !elem_of_list_to_set in Hk.
    rewrite mhas_keys. done. }
  destruct (overlap_sound cfg ch a s y Hs Hrun) as (_ & Hg & Hh). cbv zeta. split; [by apply Hall|].
  intros doc r Hin. apply Hall. rewrite Forall_forall in Hh. apply (Hh _ Hin).
Qed.

(** what the daemon is asked to credit.  In a poll, whatever the chain and the daemon answer,
    every claim sent names a deposit that was pending before or whose log was read in this poll
    from blocks at or below the confirmed head (head minus the required depth); in observation
    mode no claim is sent and no state is written.  A key becomes claimed only after the daemon
    accepted its claim or answered that it was claimed before, and no key that was claimed or
    pending is forgotten. *)
Theorem deposit_claims_justified cfg e s :
  guarded (claim_guard cfg s) (trace e (processDeposits cfg) s) /\
  just cfg s (final e (processDeposits cfg) s) (trace e (processDeposits cfg) s).
Proof.
  pose proof (poll_wp cfg s) as Hw. split; [exact (wp_guarded (I := DepI) _ e _ s _ Hw)|].
  exact (wp_post (I := DepI) _ e _ s _ Hw).
Qed.

(** One poll of the small chain, with a daemon that rejects, as a schedule. *)
Lemma demo_schedule (e := DepositDemo.env_with DepositDemo.rejected (fun _ => false)) :
  exists y, schedule DepositDemo.cfg DepositDemo.chain DepositDemo.start y /\
    c_st y = final e (processDeposits DepositDemo.cfg) DepositDemo.start.
Proof.
  assert (respects (honest DepositDemo.chain) e) as He by (by intros h []).
  destruct (alone_schedule (polls DepositDemo.cfg) (honest DepositDemo.chain) e (processDeposits DepositDemo.cfg)
              DepositDemo.start [] He) as [q Hq].
  eexists (Config (I := DepI) _ _ [q]). split; [|reflexivity]. eapply rtc_l; [|exact Hq].
  by apply (step_start (I := DepI)).
Qed.


Lemma no_deposit_skipped_witness : exists y,
  schedule DepositDemo.cfg DepositDemo.chain DepositDemo.start y /\
  forall l d, creditable DepositDemo.cfg DepositDemo.chain l d -> 10 < lg_block l <= 14 ->
    d_key d ∈ claimed (c_st y) \/ mhas (d_key d) (pending (c_st y)) = true.
Proof.
  destruct demo_schedule as (y & Hy & Hst). exists y. split; [exact Hy|]. intros l d Hd Hb.
  refine (proj1 (no_deposit_skipped _ _ 10 _ y DepositDemo.start_good Hy) 14 l d _ Hd Hb). by rewrite Hst.
Defined.
