(* ===== verification/DepositLive.v ===== *)
(** * The deposit watcher catches up

    In a cooperative environment — the head and the logs can be read, the daemon credits what it
    is asked to credit — a bounded number of polls brings the cursor to the confirmed head and
    leaves no deposit unclaimed. *)
From S2P Require Import Prelude JsText JsMap Interact Interleave BridgeCore XrgePayout DepositWatch DepositSpec DepositClaims.
Local Open Scope Z_scope.
Local Open Scope prog_scope.

(** The head is [H]; logs are answered; claims are accepted; the process keeps running.  Writes of
    the state file may fail. *)
Definition cooperative (ch : DepChain) (H : Z) (_ : history DepI) (c : dep_cmd) : res (dep_ans c) -> Prop :=
  match c with
  | DepHead => fun r => r = Ok H
  | GetDepositLogs e from to => fun r => r = Ok (List.filter (in_blocks from to) (chain_logs ch e))
  | PostAutoClaim _ _ _ => fun r => accepts r = true
  | IsShuttingDown => fun r => r = Ok false
  | _ => fun _ => True
  end.

Section Live.
Variable cfg : DepCfg.
Variable ch : DepChain.
Variables H safe : Z.
#[local] Existing Instance moves_preorder.
Hypothesis Hobs : OBSERVE_ONLY cfg = false.
Hypothesis Hon : DEPOSIT_WATCHER cfg = true.
Hypothesis Haddr : has_bridge cfg || has_vault cfg = true.
Hypothesis Hsafe : depositWatcherSafeHead H (CONFIRMATIONS cfg) (dep_env cfg) = Some safe.

Abbreviation L p s h Q := (wp (I := DepI) (fun _ _ => True) (cooperative ch H) p s h Q).

Lemma L_ask c s h (Q : res (dep_ans c) -> _) :
  (forall r, cooperative ch H h c r -> Q r s (@Ev DepI c r :: h)) -> L (dask c) s h Q.
Proof. intros HQ. by apply (wp_call (I := DepI)). Qed.

(** Claims succeed: nothing becomes pending, the cursor does not move. *)
Definition claims_done (l : list string) (s : DepositWatcher) (o : res unit) (s' : DepositWatcher) (_ : history DepI) : Prop :=
  o = Ok tt /\ lastBlock s' = lastBlock s /\ NoDup (mkeys (pending s')) /\
  forall k, k ∈ mkeys (pending s') -> k ∈ mkeys (pending s) /\ k ∉ l.

Lemma claims_none s h : NoDup (mkeys (pending s)) -> claims_done [] s (Ok tt) s h.
Proof. intros Hnd. do 3 (split; [done|]). intros k Hk. split; [done|]. by intros ?%elem_of_nil. Qed.

Lemma claimOne_live d s h :
  NoDup (mkeys (pending s)) -> L (claimOne cfg d) s h (claims_done [d_key d] s).
Proof.
  intros Hnd. unfold claimOne, autoClaimDeposit. rewrite Hobs.
  apply wp_bind, wp_bind, wp_attempt, L_ask. intros r Hr. cbn [wp].
  destruct (match r with Ok _ => _ | Err _ => _ end) as [ok error] eqn:E. cbn [bind getW get wp].
  assert (ok || already_claimed error = true) as ->.
  { rewrite <- Hr. unfold accepts. destruct r as [[[] ?]|m]; simpl in *; injection E as <- <-; done. }
  split; [done|]. split; [done|]. split; simpl; [by apply NoDup_mdel|].
  intros k Hk%elem_mkeys_mdel; [|done]. split; [apply Hk|]. intros ->%list_elem_of_singleton. by destruct Hk.
Qed.

Lemma claim_new_live d s h :
  NoDup (mkeys (pending s)) -> L (claim_new cfg d) s h (claims_done [] s).
Proof.
  intros Hnd. unfold claim_new. cbn [bind getW get wp]. destruct (set_has _ _ || mhas _ _).
  - by apply claims_none.
  - eapply wp_mono; [|by apply claimOne_live]. intros o s' h' (-> & H1 & H2 & H3). do 3 (split; [done|]).
    intros k [Hk _]%H3. split; [done|]. by intros ?%elem_of_nil.
Qed.

Lemma until_live f g l s h :
  (forall d s h, NoDup (mkeys (pending s)) -> L (f d) s h (claims_done (g d) s)) ->
  NoDup (mkeys (pending s)) -> L (until_shutdown f l) s h (claims_done (flat_map g l) s).
Proof.
  intros Hf. revert s h. induction l as [|d l IH]; intros s h Hnd; cbn [until_shutdown flat_map].
  { by apply claims_none. }
  apply wp_bind, L_ask. intros r ->. apply wp_bind. eapply wp_mono; [|by apply Hf].
  intros o s1 h1 (-> & H1 & H2 & H3). eapply wp_mono; [|by apply IH].
  intros o s2 h2 (-> & H4 & H5 & H6). split; [done|]. split; [congruence|]. split; [done|].
  intros k [Hk1 Hk2]%H6. apply H3 in Hk1 as [? ?]. split; [done|]. by intros [?|?]%elem_of_app.
Qed.

Lemma no_keys {V} (m : jmap V) : (forall k, k ∉ mkeys m) -> m = [].
Proof. destruct m as [|[k v] m]; [done|]. intros Hk. destruct (Hk k). left. Qed.

Lemma save_live s h : L (saveDepositState cfg) s h (fun o s' _ => o = Ok tt /\ s' = s).
Proof.
  unfold saveDepositState. rewrite Hobs. cbn [bind getW get wp]. apply wp_bind, wp_attempt, L_ask. done.
Qed.

Lemma logs_if_live b ev from to s h Q :
  (forall l h', Q (Ok l) s h') -> L (logs_if b ev from to) s h Q.
Proof. intros HQ. unfold logs_if. destruct b; [|apply HQ]. apply L_ask. intros r ->. apply HQ. Qed.

(** The cursor after one poll. *)
Definition next (b : Z) : Z := if safe <=? b then b else Z.min safe (b + DEPOSIT_MAX_BLOCK_SPAN cfg).

Lemma poll_live s b h :
  wf_watcher s -> lastBlock s = Some b ->
  L (processDeposits cfg) s h (fun o s' _ => o = Ok tt /\ pending s' = [] /\ lastBlock s' = Some (next b)).
Proof.
  intros (_ & Hnd & Hk) Hb. unfold processDeposits. rewrite Hon. simpl negb. cbv iota.
  replace (negb (has_bridge cfg) && negb (has_vault cfg)) with false
    by (rewrite <- negb_orb, Haddr; done).
  apply wp_bind, wp_attempt. unfold poll_deposits. cbn [bind getW get wp].
  apply wp_bind. eapply wp_mono; [|apply (until_live _ (fun d => [d_key d])); [intros; by apply claimOne_live|done]].
  intros o s1 h1 (-> & H1 & H2 & H3).
  assert (pending s1 = []) as Hp1.
  { apply no_keys. intros k [Hin Hn]%H3. apply Hn, list_elem_of_In, in_flat_map.
    apply list_elem_of_fmap in Hin as ([x r] & -> & Hin). rewrite Forall_forall in Hk. specialize (Hk _ Hin). simpl in *.
    exists r. split; [|left; done]. apply in_map_iff. exists (x, r). split; [done|]. by apply list_elem_of_In. }
  apply wp_bind, L_ask. intros r ->. rewrite Hsafe. cbn [bind getW get wp]. rewrite H1, Hb.
  unfold next. destruct (Z.ltb_spec safe (b + 1)) as [Hlt|Hge].
  { rewrite (proj2 (Z.leb_le safe b)) by lia. split; [done|]. by rewrite H1, Hb. }
  rewrite (proj2 (Z.leb_gt safe b)) by lia. unfold scan_deposits.
  do 3 (apply wp_bind, logs_if_live; intros ? ?). cbv zeta.
  apply wp_bind. eapply wp_mono; [|apply (until_live _ (fun _ => [])); [intros; by apply claim_new_live|done]].
  intros o s2 h2 (-> & H4 & H5 & H6). cbn [bind getW putW get put wp]. eapply wp_mono; [|apply save_live].
  intros o s3 h3 [-> ->]. split; [done|]. simpl. split.
  - apply no_keys. intros k [Hin _]%H6. rewrite Hp1 in Hin. by apply elem_of_nil in Hin.
  - f_equal. unfold scan_to. destruct (Z.ltb_spec (DEPOSIT_MAX_BLOCK_SPAN cfg) (safe - (b + 1) + 1)); lia.
Qed.

(** [n] polls, one after the other. *)
Definition polls_in_turn (n : nat) : prog DepI unit := for_each (fun _ => processDeposits cfg) (repeat tt n).

Fixpoint iter_next (n : nat) (b : Z) : Z := match n with O => b | S n => iter_next n (next b) end.

Lemma iter_next_reaches n b : safe - b <= Z.of_nat n * DEPOSIT_MAX_BLOCK_SPAN cfg -> iter_next n b = Z.max b safe.
Proof.
  revert b. induction n as [|n IH]; intros b Hn; cbn [iter_next]; [lia|]. unfold next.
  destruct (Z.leb_spec safe b); rewrite IH; nia.
Qed.

Lemma polls_live a n s b h :
  good cfg ch a s -> lastBlock s = Some b -> (n = O -> pending s = []) ->
  L (polls_in_turn n) s h (fun _ s' _ => good cfg ch a s' /\ pending s' = [] /\ lastBlock s' = Some (iter_next n b)).
Proof.
  unfold polls_in_turn. revert s b h. induction n as [|n IH]; intros s b h Hg Hb Hn; cbn [repeat for_each iter_next].
  { split; [done|]. split; [by apply Hn|done]. }
  apply wp_bind. eapply wp_mono; [|apply wp_and; [apply poll_live; [apply Hg|done]|]].
  2:{ apply (rg_wp (I := DepI) (honest ch) (moves cfg ch a) (saves_good cfg ch a)); [|by apply poll_rg].
      intros h' c r Hr. destruct c; simpl in *; [done|by subst r|done..]. }
  cbv beta. intros o s1 h1 [(-> & Hp & Hl) Hg1]. by apply IH.
Qed.
End Live.

(** C34: the watcher catches up.  Suppose the chain and the daemon cooperate: the head stays
    readable, logs are answered, every claim is accepted (state file writes may fail).  Whatever
    was pending and however far the cursor is behind, [n] polls with [n] times the block span at
    least the distance to the confirmed head bring the cursor to that head, empty the pending
    map, and leave every creditable deposit above block [a] claimed. *)
Theorem watcher_catches_up cfg ch a H safe s b n e
    (Hobs : OBSERVE_ONLY cfg = false) (Hon : DEPOSIT_WATCHER cfg = true)
    (Haddr : has_bridge cfg || has_vault cfg = true)
    (Hsafe : depositWatcherSafeHead H (CONFIRMATIONS cfg) (dep_env cfg) = Some safe)
    (Hs : good cfg ch a s) (Hb : lastBlock s = Some b)
    (Hn : (0 < n)%nat) (Hfar : safe - b <= Z.of_nat n * DEPOSIT_MAX_BLOCK_SPAN cfg)
    (He : respects (cooperative ch H) e) :
  let s' := final e (polls_in_turn cfg n) s in
  lastBlock s' = Some (Z.max b safe) /\ pending s' = [] /\
  forall l d, creditable cfg ch l d -> a < lg_block l <= safe -> d_key d ∈ claimed s'.
Proof.
  pose proof (polls_live cfg ch H safe Hobs Hon Haddr Hsafe a n s b [] Hs Hb ltac:(lia)) as Hw.
  apply (wp_run (I := DepI) _ _ e _ _ [] _ He Logic.I) in Hw. cbv zeta. unfold final.
  destruct (run e (polls_in_turn cfg n) s []) as [[o s'] h']. simpl. destruct Hw as [([_ Hc] & Hp & Hl) _].
  rewrite iter_next_reaches in Hl by done. split; [done|]. split; [done|].
  intros l d Hd Hbl. unfold covered in Hc. rewrite Hl in Hc. pose proof (Hc l d Hd ltac:(lia)) as Hk.
  unfold known, abs in Hk. simpl in Hk. rewrite Hp in Hk. simpl in Hk.
  rewrite elem_of_union, elem_of_list_to_set in Hk. destruct Hk as [?|Hk]; [done|]. set_solver.
Qed.

Lemma watcher_catches_up_witness :
  let s' := final (DepositDemo.env_with DepositDemo.accepted (fun _ => false)) (polls_in_turn DepositDemo.cfg 3) DepositDemo.start in
  lastBlock s' = Some (Z.max 10 20) /\ pending s' = [].
Proof.
  pose proof (watcher_catches_up DepositDemo.cfg DepositDemo.chain 10 26 20 DepositDemo.start 10 3
    (DepositDemo.env_with DepositDemo.accepted (fun _ => false)) eq_refl eq_refl eq_refl eq_refl
    DepositDemo.start_good eq_refl ltac:(lia) ltac:(simpl; lia) ltac:(intros h []; done)) as Hw.
  cbv zeta in Hw |- *. exact (conj (proj1 Hw) (proj1 (proj2 Hw))).
Defined.

Example catches_up_demo :
  claimed (final (DepositDemo.env_with DepositDemo.accepted (fun _ => false)) (polls_in_turn DepositDemo.cfg 3) DepositDemo.start)
  = ["ETH:0xe1"; "USDC:0xc1"; "XRGE:0xf1"; "ETH:0xe2"].
Proof. reflexivity. Qed.
