(* ===== verification/RelayerLoop.v ===== *)
(** * The relayer process ([src/scripts/bridge-relayer.ts])

    The wiring of the payout handlers in [main]: the sets of processed and in-flight ids, the
    nonce manager, the alert and daemon adapters that implement the dependencies of
    [processEvmWithdrawal], [processXrgeWithdrawal] and the deposit watcher, the three handlers
    a poll starts, and the health gate in front of them.  The handlers of one poll run
    concurrently ([Promise.all]) and polls may overlap ([setInterval]); their schedules are the
    pools of [Interleave].  Statistics counters and log texts are omitted. *)
From S2P Require Import Prelude JsText JsNum JsMap Interact BridgeCore LogScan EvmPayout XrgePayout DepositWatch.
Local Open Scope Z_scope.
Local Open Scope prog_scope.

(** A withdrawal as the daemon lists it. *)
Record RawXrgeWithdrawal := {
  rx_txId : option string; rx_tx_id : option string;
  rx_evmAddress : option string; rx_evm_address : option string;
  rx_amount : option number;
}.

Definition normalizeXrgeWithdrawal (w : RawXrgeWithdrawal) : XrgeWithdrawal := {|
  x_tx_id := str_or (opt_str (rx_txId w)) (opt_str (rx_tx_id w));
  x_evm_address := str_or (opt_str (rx_evmAddress w)) (opt_str (rx_evm_address w));
  x_amount := num_or (rx_amount w) None |}.

(** ** State, configuration, commands *)

Record RelState := {
  processedTxIds : list string;
  inFlightTxIds : list string;
  queuedTxs : QueuedState;
  xrgePendingFulfill : PendingFulfill;
  nonceState : jmap Z;
  depositWatcher : DepositWatcher;
  alertedTxIds : list string;
}.

Record RelCfg := {
  dep_cfg : DepCfg;
  MAX_RETRIES : Z;
  AUTO_REFUND : bool;
  ALERT_WEBHOOK_URL : string;
  account : string;
  xrgeAccount : string;
}.

Inductive rel_cmd :=
| FetchHealth
| FetchEthWithdrawals
| FetchXrgeWithdrawals
| GetBalance
| GetTransactionCount (address : string)
| VaultRelease (to : string) (wei : Z) (txId : string) (nonce : Z)
| WriteProcessed (ids : list string)
| PostWebhook (key : string)
| RIsShuttingDown
| EvmCall (c : evm_cmd)
| XrgeCall (c : xrge_cmd)
| DepCall (c : dep_cmd).

Definition rel_ans (c : rel_cmd) : Type :=
  match c with
  | FetchHealth => BridgeHealthResponse
  | FetchEthWithdrawals => list EthWithdrawal
  | FetchXrgeWithdrawals => list RawXrgeWithdrawal
  | GetBalance | GetTransactionCount _ => Z
  | VaultRelease _ _ _ _ => string
  | WriteProcessed _ | PostWebhook _ => unit
  | RIsShuttingDown => bool
  | EvmCall c => evm_ans c
  | XrgeCall c => xrge_ans c
  | DepCall c => dep_ans c
  end.

Definition RelI : iface := {| st := RelState; cmd := rel_cmd; ans := rel_ans |}.
Definition rask (c : rel_cmd) : prog RelI (rel_ans c) := call (c : cmd RelI).
Definition getR : prog RelI RelState := get.
Definition putR (s : RelState) : prog RelI unit := put (s : st RelI).

Definition with_processed (l : list string) (s : RelState) : RelState := {|
  processedTxIds := l; inFlightTxIds := inFlightTxIds s; queuedTxs := queuedTxs s;
  xrgePendingFulfill := xrgePendingFulfill s; nonceState := nonceState s;
  depositWatcher := depositWatcher s; alertedTxIds := alertedTxIds s |}.
Definition with_inflight (l : list string) (s : RelState) : RelState := {|
  processedTxIds := processedTxIds s; inFlightTxIds := l; queuedTxs := queuedTxs s;
  xrgePendingFulfill := xrgePendingFulfill s; nonceState := nonceState s;
  depositWatcher := depositWatcher s; alertedTxIds := alertedTxIds s |}.
Definition with_queue (q : QueuedState) (s : RelState) : RelState := {|
  processedTxIds := processedTxIds s; inFlightTxIds := inFlightTxIds s; queuedTxs := q;
  xrgePendingFulfill := xrgePendingFulfill s; nonceState := nonceState s;
  depositWatcher := depositWatcher s; alertedTxIds := alertedTxIds s |}.
Definition with_xpending (p : PendingFulfill) (s : RelState) : RelState := {|
  processedTxIds := processedTxIds s; inFlightTxIds := inFlightTxIds s; queuedTxs := queuedTxs s;
  xrgePendingFulfill := p; nonceState := nonceState s;
  depositWatcher := depositWatcher s; alertedTxIds := alertedTxIds s |}.
Definition with_nonces (m : jmap Z) (s : RelState) : RelState := {|
  processedTxIds := processedTxIds s; inFlightTxIds := inFlightTxIds s; queuedTxs := queuedTxs s;
  xrgePendingFulfill := xrgePendingFulfill s; nonceState := m;
  depositWatcher := depositWatcher s; alertedTxIds := alertedTxIds s |}.
Definition with_watcher (w : DepositWatcher) (s : RelState) : RelState := {|
  processedTxIds := processedTxIds s; inFlightTxIds := inFlightTxIds s; queuedTxs := queuedTxs s;
  xrgePendingFulfill := xrgePendingFulfill s; nonceState := nonceState s;
  depositWatcher := w; alertedTxIds := alertedTxIds s |}.
Definition with_alerted (l : list string) (s : RelState) : RelState := {|
  processedTxIds := processedTxIds s; inFlightTxIds := inFlightTxIds s; queuedTxs := queuedTxs s;
  xrgePendingFulfill := xrgePendingFulfill s; nonceState := nonceState s;
  depositWatcher := depositWatcher s; alertedTxIds := l |}.

(** [loadProcessedTxIds]: [Some (Ok data)] is the parsed array, [None] as inner value a document
    that is not an array. *)
Definition loadProcessedTxIds (file : option (res (option (list string)))) : list string :=
  match file with
  | Some (Ok (Some data)) => foldl (fun s k => set_add k s) [] data
  | _ => []
  end.

Section Relayer.
Context `{V : Viem}.
Variable cfg : RelCfg.

Definition observe : bool := OBSERVE_ONLY (dep_cfg cfg).
Definition bridgeAddr : option string :=
  if isEvmAddress (ROUGE_BRIDGE_ADDRESS (dep_cfg cfg)) then ROUGE_BRIDGE_ADDRESS (dep_cfg cfg) else None.

(** The configuration members of [evmDepsRaw], with [observeOnly] as [observeGuardedDeps] sets it. *)
Definition evm_cfg : EvmCfg := {|
  cfg_bridgeAddress := bridgeAddr; cfg_usdcAddress := chain_usdc (dep_cfg cfg); autoRefund := AUTO_REFUND cfg;
  maxRetries := MAX_RETRIES cfg; fulfillConfirmations := CONFIRMATIONS (dep_cfg cfg); observeOnly := observe;
  process_env := dep_env (dep_cfg cfg) |}.

(** ** Nonces *)

(** The seed is stored and read back in one go, so the next nonce is the stored or the seeded one. *)
Definition getNextNonce (address : string) : prog RelI Z :=
  let key := toLowerCase address in
  let! s := getR in
  let! nonce := match mget key (nonceState s) with
                | Some n => Ret n
                | None => rask (GetTransactionCount address)
                end in
  let! s := getR in
  do! putR (with_nonces (mset key (nonce + 1) (nonceState s)) s) in
  Ret nonce.

Definition resetNonce (address : string) : prog RelI unit :=
  let! s := getR in putR (with_nonces (mdel (toLowerCase address) (nonceState s)) s).

(** ** Adapters *)

Definition saveProcessedTxIds : prog RelI unit :=
  if observe then Ret tt else
  let! s := getR in
  let! _ := attempt (rask (WriteProcessed (processedTxIds s))) in Ret tt.

Definition markProcessed (txId : string) : prog RelI unit :=
  let! s := getR in
  do! putR (with_processed (set_add txId (processedTxIds s)) s) in
  saveProcessedTxIds.

(** Alerts are sent once per key; a failing webhook is caught. *)
Definition alert (key : string) : prog RelI unit :=
  let! s := getR in
  if set_has key (alertedTxIds s) then Ret tt else
  do! putR (with_alerted (set_add key (alertedTxIds s)) s) in
  if negb (truthy (ALERT_WEBHOOK_URL cfg)) then Ret tt else
  let! _ := attempt (rask (PostWebhook key)) in Ret tt.

Definition refuse {A} (t : ObserveTag) : prog RelI A :=
  do! rask (EvmCall (Observe (Refused t))) in Throw ("[OBSERVE] refused " +:+ tag_text t).

Definition reportWithdrawalFailure (txId error : string) : prog RelI (bool * Z) :=
  if observe then refuse WOULD_REPORT_FAILURE else
  let! r := attempt (rask (EvmCall (ReportFailure txId error))) in
  Ret (match r with Ok x => x | Err _ => (false, 0) end).

Definition refundWithdrawal (txId : string) : prog RelI bool :=
  if observe then refuse WOULD_REFUND else
  let! r := attempt (rask (EvmCall (Refund txId))) in
  Ret (match r with Ok x => x | Err _ => false end).

Definition fulfillXrgeWithdrawal (txId evmTxHash : string) : prog RelI XrgeFulfillResult :=
  if observe then refuse WOULD_FULFILL else
  let! r := attempt (rask (XrgeCall (XFulfill txId evmTxHash))) in
  Ret (match r with
       | Ok x => x
       | Err m => {| xf_ok := false; xf_status := 0; xf_error := Some ("request failed: " +:+ m) |}
       end).

Definition handleWithdrawalFailure (txId error : string) : prog RelI unit :=
  if observe then refuse WOULD_REPORT_FAILURE else
  let! (shouldRefund, attempts) := reportWithdrawalFailure txId error in
  do! if 3 <=? attempts then alert txId else Ret tt in
  if shouldRefund && AUTO_REFUND cfg then
    let! ok := refundWithdrawal txId in
    if ok then do! alert ("refund:" +:+ txId) in markProcessed txId else Ret tt
  else Ret tt.

(** The members of [evmDepsRaw]. *)
Definition evm_dep (c : evm_cmd) : prog RelI (evm_ans c) :=
  match c return prog RelI (evm_ans c) with
  | GetNonce => getNextNonce (account cfg)
  | ResetNonce => resetNonce (account cfg)
  | MarkProcessed t => markProcessed t
  | Alert k => alert k
  | ReportFailure t e => reportWithdrawalFailure t e
  | Refund t => refundWithdrawal t
  | ReleaseETH a b c d => if observe then refuse WOULD_RELEASE else rask (EvmCall (ReleaseETH a b c d))
  | ReleaseERC20 a b c d e => if observe then refuse WOULD_RELEASE else rask (EvmCall (ReleaseERC20 a b c d e))
  | Fulfill t h => if observe then refuse WOULD_FULFILL else rask (EvmCall (Fulfill t h))
  | SaveQueued q => if observe then refuse WOULD_PERSIST else rask (EvmCall (SaveQueued q))
  | c => rask (EvmCall c)
  end.

(** [evmDeps]: guarded in observation mode. *)
Definition with_evmDeps {A} (p : prog EvmI A) : prog RelI A :=
  embed (I := EvmI) (J := RelI) queuedTxs with_queue evm_dep (if observe then observeGuardedDeps p else p).

(** The dependencies passed to [processXrgeWithdrawal] and [observeXrgeWithdrawal]. *)
Definition xrge_dep (c : xrge_cmd) : prog RelI (xrge_ans c) :=
  match c return prog RelI (xrge_ans c) with
  | XRelease to wei id =>
      if observe then refuse WOULD_RELEASE else
      let! nonce := getNextNonce (xrgeAccount cfg) in
      let! r := attempt (rask (VaultRelease to wei id nonce)) in
      match r with
      | Ok h => Ret h
      | Err m => do! resetNonce (xrgeAccount cfg) in Throw m
      end
  | XWaitForReceipt h =>
      let! r := rask (XrgeCall (XWaitForReceipt h)) in
      do! if xr_success r then Ret tt else resetNonce (xrgeAccount cfg) in Ret r
  | FindReleaseTx id =>
      let! r := attempt (rask (XrgeCall (FindReleases id))) in
      Ret (match r with Ok (x :: _) => Some (vl_txHash x) | _ => None end)
  | XFulfill t h => fulfillXrgeWithdrawal t h
  | HandleFailure t e => handleWithdrawalFailure t e
  | XMarkProcessed t => markProcessed t
  | XAlert k => alert k
  | c => rask (XrgeCall c)
  end.

Definition with_xrgeDeps {A} (p : prog XrgeI A) : prog RelI A :=
  embed (I := XrgeI) (J := RelI) xrgePendingFulfill with_xpending xrge_dep p.

Definition dep_dep (c : dep_cmd) : prog RelI (dep_ans c) :=
  match c return prog RelI (dep_ans c) with
  | DepAlert k => alert k
  | IsShuttingDown => rask RIsShuttingDown
  | c => rask (DepCall c)
  end.

(** ** Handlers *)

Definition take (t : string) (s : RelState) : RelState := with_inflight (set_add t (inFlightTxIds s)) s.
Definition give_back (t : string) (s : RelState) : RelState :=
  with_inflight (List.filter (fun x => negb (x =? t)%string) (inFlightTxIds s)) s.

Definition busy (t : string) (s : RelState) : bool :=
  set_has t (processedTxIds s) || set_has t (inFlightTxIds s).

(** [inFlightTxIds.add(t); try { p } catch { resetNonce(signer) } finally { inFlightTxIds.delete(t) }]. *)
Definition in_flight {A} (t signer : string) (p : prog RelI A) : prog RelI unit :=
  let! s := getR in
  do! putR (take t s) in
  let! r := attempt p in
  do! match r with Ok _ => Ret tt | Err _ => resetNonce signer end in
  let! s := getR in putR (give_back t s).

(** One iteration; [Some tt] breaks the loop. *)
Definition eth_one (raw : EthWithdrawal) : prog RelI (option unit) :=
  let w := normalizeEthWithdrawal raw in
  let! stop := rask RIsShuttingDown in
  if stop then Ret (Some tt) else
  let! s := getR in
  if negb (truthy (tx_id w)) || busy (tx_id w) s then Ret None else
  do! in_flight (tx_id w) (account cfg) (with_evmDeps (processEvmWithdrawal evm_cfg w)) in
  Ret None.

Definition processEthWithdrawals : prog RelI unit :=
  let! _ := attempt (
    let! withdrawals := rask FetchEthWithdrawals in
    match withdrawals with
    | [] => Ret None
    | _ => do! rask GetBalance in first_some eth_one withdrawals
    end) in Ret tt.

Definition processQueued : prog RelI unit :=
  let! s := getR in
  match bridgeAddr, queuedTxs s with
  | Some _, _ :: _ =>
      let! _ := attempt (with_evmDeps (pollQueuedWithdrawals evm_cfg)) in Ret tt
  | _, _ => Ret tt
  end.

Definition XRGE_FULFILL_CONFIRMATIONS : Z :=
  xrgeFulfillConfirmations (CONFIRMATIONS (dep_cfg cfg)) (dep_env (dep_cfg cfg)).

Definition xrge_one (raw : RawXrgeWithdrawal) : prog RelI (option unit) :=
  let w := normalizeXrgeWithdrawal raw in
  let! stop := rask RIsShuttingDown in
  if stop then Ret (Some tt) else
  let! s := getR in
  if busy (x_tx_id w) s then Ret None else
  if observe then do! with_xrgeDeps (observeXrgeWithdrawal w) in Ret None else
  do! in_flight (x_tx_id w) (xrgeAccount cfg)
        (with_xrgeDeps (processXrgeWithdrawal XRGE_FULFILL_CONFIRMATIONS w)) in
  Ret None.

Definition processXrgeWithdrawals : prog RelI unit :=
  if negb (has_vault (dep_cfg cfg)) then Ret tt else
  let! _ := attempt (
    let! r := attempt (rask FetchXrgeWithdrawals) in
    first_some xrge_one (match r with Ok l => l | Err _ => [] end)) in Ret tt.

Inductive Handler := EthAndQueue | Xrge | Deposits.

Definition handler (h : Handler) : prog RelI unit :=
  match h with
  | EthAndQueue => do! processEthWithdrawals in processQueued
  | Xrge => processXrgeWithdrawals
  | Deposits => embed (I := DepI) (J := RelI) depositWatcher with_watcher dep_dep (processDeposits (dep_cfg cfg))
  end.

(** [run]: the handlers this poll starts. *)
Definition run_poll : prog RelI (list Handler) :=
  let! r := attempt (rask FetchHealth) in
  let health := match r with Ok h => Some h | Err _ => None end in
  if negb (bridgeHealthAllowsPayouts health) then
    do! attempt (alert "bridge-degraded") in Ret []
  else Ret [EthAndQueue; Xrge; Deposits].
End Relayer.
