(* ===== verification/RelayerClaims.v ===== *)
(** * Correctness of the relayer process

    Under every schedule of overlapping polls: one handler per withdrawal, observation mode
    writes nothing anywhere, payouts start only behind the health gate; and the race of the
    nonce seed. *)
From S2P Require Import Prelude JsText JsNum JsMap Interact Interleave BridgeCore LogScan EvmPayout EvmSafety EvmClaims EvmQueue.
From S2P Require Import XrgePayout DepositWatch DepositSpec RelayerLoop.
Local Open Scope Z_scope.
Local Open Scope prog_scope.

(** ** Embedded programs own what their caller owns *)

Section EmbedOwned.
Context {I J : iface} (view : st J -> st I) (upd : st I -> st J -> st J) (hd : forall c : cmd I, prog J (ans I c)).
Context (asm : history J -> forall c, res (ans J c) -> Prop) (held : st J -> gset string).
Context (okc : gset string -> cmd J -> Prop).

(** [p] leaves the ownership alone. *)
Definition owning {A} (o : gset string) (p : prog J A) : Prop :=
  forall s, o ⊆ held s -> ow held asm okc p s o (fun _ s' o' => o' = o /\ o ⊆ held s').

Lemma owning_bind {A B} o (p : prog J A) (f : A -> prog J B) :
  owning o p -> (forall a, owning o (f a)) -> owning o (bind p f).
Proof.
  intros Hp Hf s Ho. apply ow_bind. eapply ow_mono; [|by apply Hp]. intros [a|m] s' o' [-> Ho']; [by apply Hf|done].
Qed.

Lemma owning_attempt {A} o (p : prog J A) : owning o p -> owning o (attempt p).
Proof. intros Hp s Ho. apply ow_attempt. eapply ow_mono; [|by apply Hp]. done. Qed.

Lemma owning_ret {A} o (a : A) : owning o (Ret a).
Proof. by intros s Ho. Qed.

Lemma owning_throw {A} o m : owning o (Throw (A := A) m).
Proof. by intros s Ho. Qed.

Lemma owning_call o c : okc o c -> owning o (call c).
Proof. intros Hok s Ho. apply ow_call; [done|]. by intros h r s' _ Ho'. Qed.

(** Read the state and write one with the same entries held. *)
Lemma owning_modify {A} o (f : st J -> st J) (k : st J -> prog J A) :
  (forall s, held (f s) = held s) -> (forall s, owning o (k s)) ->
  owning o (bind get (fun s => bind (put (f s)) (fun _ => k s))).
Proof.
  intros Hf Hk s Ho. simpl. exists o. split; [by apply trade_refl|]. apply Hk. by rewrite Hf.
Qed.

Lemma owning_embed {A} o (P : cmd I -> Prop) (p : prog I A) :
  (forall q s, held (upd q s) = held s) -> (forall c, P c -> owning o (hd c)) -> calls P True p ->
  owning o (embed view upd hd p).
Proof.
  intros Hu Hd. induction p as [| |k IH|s' k IH|c k IH]; simpl; intros Hp; [by apply owning_ret|by apply owning_throw| | |].
  - intros s Ho. simpl. by apply IH.
  - intros s Ho. simpl. exists o. split; [by apply trade_refl|]. apply IH; [apply Hp|by rewrite Hu].
  - destruct Hp as [Hc Hk]. apply owning_bind; [by apply owning_attempt, Hd|]. intros r. by apply IH.
Qed.
End EmbedOwned.

Section Relayer.
Context `{V : Viem}.
Variable cfg : RelCfg.

(** ** Which releases a handler submits *)

(** Releases of [processEvmWithdrawal] carry the id of its withdrawal. *)
Definition evm_release_for (t : string) (c : evm_cmd) : Prop :=
  match c with
  | ReleaseETH _ _ id _ | ReleaseERC20 _ _ _ id _ => id = rougeBridgeId t
  | _ => True
  end.

Definition xrge_release_for (t : string) (c : xrge_cmd) : Prop :=
  match c with XRelease _ _ id => id = t | _ => True end.

Lemma release_loop_for t c exp fuel att le :
  canonicalId exp = rougeBridgeId t -> calls (I := EvmI) (evm_release_for t) True (release_loop c exp fuel att le).
Proof.
  intros He. revert att le. induction fuel as [|fuel IH]; intros att le; cbn [release_loop]; [done|].
  unfold send_release. calls_evm; try done; try apply IH.
Qed.

Lemma not_release_for t c : not_release c -> evm_release_for t c.
Proof. by destruct c. Qed.

Lemma process_release_for c w : calls (I := EvmI) (evm_release_for (tx_id w)) True (processEvmWithdrawal c w).
Proof.
  assert (forall A (p : prog EvmI A), calls (I := EvmI) not_release True p ->
    calls (I := EvmI) (evm_release_for (tx_id w)) True p) as Hw.
  { intros A p. apply calls_weaken; [apply not_release_for|done]. }
  unfold processEvmWithdrawal. destruct (route_asset _) as [a|]; [|calls_evm].
  destruct (_ || _); [calls_evm|]. apply calls_bind; [apply calls_getQ|]. intros q.
  destruct (mhas _ q); [calls_evm|]. destruct (negb _); [calls_evm|].
  unfold expectedReleaseFor. destruct (getAddress _) as [to|]; [|done]. simpl res_bind.
  destruct (owedAmount _ _) as [owed|]; [|done]. cbn [of_res res_bind bind].
  apply calls_bind; [calls_evm|]. intros [[]|m]; [| |done].
  - destruct (observeOnly c); [|apply calls_bind; [apply Hw, reconcile_calls, reads_not_release|intros; apply Hw, apply_calls]].
    unfold observe_withdrawal. calls_evm. apply Hw, reconcile_calls, reads_not_release.
  - destruct (observeOnly c); [unfold observe_withdrawal; calls_evm; apply Hw, reconcile_calls, reads_not_release|].
    apply calls_bind; [by apply release_loop_for|]. intros [[h|] le]; [destruct (truthy h)|];
      apply Hw; first [apply settle_calls|apply failure_calls].
Qed.

Lemma guarded_release_for {A} t (p : prog EvmI A) :
  calls (I := EvmI) (evm_release_for t) True p -> calls (I := EvmI) (evm_release_for t) True (observeGuardedDeps p).
Proof.
  induction p as [| |k IH|s' k IH|c k IH]; simpl; intros Hp; [done..| | |].
  - intros s. by apply IH.
  - split; [done|]. apply IH, Hp.
  - destruct Hp as [Hc Hk]. destruct (guard_tag c) as [tg|] eqn:Hg; simpl.
    + split; [done|]. intros [[]|m]; simpl; by apply IH.
    + split; [done|]. intros r. by apply IH.
Qed.

Lemma xrge_process_release_for n w :
  calls (I := XrgeI) (xrge_release_for (x_tx_id w)) True (processXrgeWithdrawal n w).
Proof.
  unfold processXrgeWithdrawal, reconcile_paid, release_xrge, fulfillKnownXrgePayout, remember, xask, getP, putP.
  calls_auto; apply (calls_call (I := XrgeI)); done.
Qed.

(** ** One handler per withdrawal *)

(** The daemon lists withdrawals with ids in [D]. *)
Variable D : string -> Prop.

Definition listed (_ : history RelI) (c : rel_cmd) : res (rel_ans c) -> Prop :=
  match c with
  | FetchEthWithdrawals => fun r =>
      match r with Ok l => Forall (fun w => D (tx_id (normalizeEthWithdrawal w))) l | Err _ => True end
  | _ => fun _ => True
  end.

Definition in_flight_ids (s : RelState) : gset string := list_to_set (inFlightTxIds s).

(** A release is submitted by the handler that holds its withdrawal. *)
Definition release_owned (o : gset string) (c : rel_cmd) : Prop :=
  match c with
  | EvmCall (ReleaseETH _ _ id _) | EvmCall (ReleaseERC20 _ _ _ id _) => exists t, t ∈ o /\ D t /\ id = rougeBridgeId t
  | VaultRelease _ _ t _ => t ∈ o
  | _ => True
  end.

Abbreviation O o p := (owning (J := RelI) listed in_flight_ids release_owned o p).

Lemma O_rask o c : release_owned o c -> O o (rask c).
Proof. intros. by apply (owning_call (J := RelI)). Qed.

Lemma ow_rask o c s (Q : res (rel_ans c) -> RelState -> gset string -> Prop) :
  release_owned o c -> (forall r s', listed [] c r -> o ⊆ in_flight_ids s' -> Q r s' o) ->
  ow (I := RelI) in_flight_ids listed release_owned (rask c) s o Q.
Proof. intros Hc HQ. apply (ow_call (I := RelI)); [done|]. intros h r s' Hr Ho. by apply HQ. Qed.

(** Close the writes that keep the in-flight ids. *)
Ltac keeps_ids o := exists o; split; [by apply trade_refl|].

Lemma resetNonce_owning o a : O o (resetNonce a).
Proof. intros s Ho. unfold resetNonce. simpl. keeps_ids o. done. Qed.

Lemma getNextNonce_owning o a : O o (getNextNonce a).
Proof.
  intros s Ho. unfold getNextNonce. cbn [bind getR get ow]. apply ow_bind.
  destruct (mget _ _) as [n|]; [simpl; by keeps_ids o|].
  apply (ow_rask o (GetTransactionCount a) s); [done|]. intros [n|m] s' _ Ho'; [|done]. simpl. by keeps_ids o.
Qed.

Lemma save_owning o : O o (saveProcessedTxIds cfg).
Proof.
  unfold saveProcessedTxIds. destruct (observe cfg); [by apply owning_ret|]. intros s Ho. cbn [bind getR get ow].
  apply ow_bind, ow_attempt, (ow_rask o (WriteProcessed (processedTxIds s)) s); done.
Qed.

Lemma mark_owning o t : O o (markProcessed cfg t).
Proof. intros s Ho. unfold markProcessed. simpl. keeps_ids o. by apply save_owning. Qed.

Lemma alert_owning o k : O o (alert cfg k).
Proof.
  intros s Ho. unfold alert. cbn [bind getR get ow]. destruct (set_has _ _); [done|]. simpl. keeps_ids o.
  destruct (negb _); [done|]. simpl. split; [done|]. by intros h [[]|m] s' _ Ho'.
Qed.

Create HintDb owning.
Hint Resolve resetNonce_owning getNextNonce_owning mark_owning alert_owning : owning.

Ltac owning_step :=
  match goal with
  | |- owning _ _ _ _ (bind _ _) => apply owning_bind; [|intros]
  | |- owning _ _ _ _ (attempt _) => apply owning_attempt
  | |- owning _ _ _ _ (rask _) => apply O_rask; try done
  | |- owning _ _ _ _ (Ret _) => apply owning_ret
  | |- owning _ _ _ _ (Throw _) => apply owning_throw
  | |- owning _ _ _ _ (match ?x with _ => _ end) => destruct x
  end.
Ltac owning_auto := repeat (owning_step || solve [auto with owning]).

Lemma refuse_owning {A} o t : O o (refuse (A := A) t).
Proof. unfold refuse. owning_auto. Qed.
Hint Resolve refuse_owning : owning.

Lemma report_owning o t e : O o (reportWithdrawalFailure cfg t e).
Proof. unfold reportWithdrawalFailure. owning_auto. Qed.
Lemma refund_owning o t : O o (refundWithdrawal cfg t).
Proof. unfold refundWithdrawal. owning_auto. Qed.
Hint Resolve report_owning refund_owning : owning.

Lemma evm_dep_owning o c : release_owned o (EvmCall c) -> O o (evm_dep cfg c).
Proof. intros Hc. destruct c; cbn [evm_dep]; owning_auto. Qed.

Lemma release_for_owned o t c : t ∈ o -> D t -> evm_release_for t c -> release_owned o (EvmCall c).
Proof. intros Ht HD Hc. destruct c; try done; exists t; done. Qed.

Definition vault_release_owned (o : gset string) (c : xrge_cmd) : Prop :=
  match c with XRelease _ _ t => t ∈ o | _ => True end.

Lemma xrge_dep_owning o c : vault_release_owned o c -> O o (xrge_dep cfg c).
Proof.
  intros Hc. destruct c; cbn [xrge_dep]; unfold fulfillXrgeWithdrawal, handleWithdrawalFailure; owning_auto.
Qed.

Lemma dep_dep_owning o c : O o (dep_dep cfg c).
Proof. destruct c; cbn [dep_dep]; owning_auto. Qed.

(** What holds after a part of a handler that holds nothing before and after. *)
Definition empty_handed {A} (_ : res A) (_ : RelState) (o : gset string) : Prop := o = ∅.

Abbreviation OW p s o Q := (ow (I := RelI) in_flight_ids listed release_owned p s o Q).

Lemma owning_empty {A} (p : prog RelI A) s : O ∅ p -> OW p s ∅ empty_handed.
Proof. intros Hp. eapply ow_mono; [|apply Hp; set_solver]. by intros r s' o' [-> _]. Qed.

Lemma take_trade t s : set_has t (inFlightTxIds s) = false -> trade (I := RelI) in_flight_ids s ∅ (take t s) {[t]}.
Proof.
  intros Ht%bool_decide_eq_false. split.
  - unfold in_flight_ids, take. simpl. rewrite settled_add. set_solver.
  - unfold in_flight_ids. intros x Hx%elem_of_singleton [Hin%elem_of_list_to_set _]%elem_of_difference. by subst.
Qed.

Lemma give_back_trade t s : trade (I := RelI) in_flight_ids s {[t]} (give_back t s) ∅.
Proof.
  split; [|set_solver]. unfold in_flight_ids, give_back. simpl. apply set_eq. intros x.
  rewrite elem_of_union, elem_of_difference, elem_of_singleton, !elem_of_list_to_set, !list_elem_of_In, List.filter_In.
  destruct (String.eqb_spec x t); set_solver.
Qed.

Lemma in_flight_ow {A} t signer (p : prog RelI A) s :
  set_has t (inFlightTxIds s) = false -> O {[t]} p -> OW (in_flight t signer p) s ∅ empty_handed.
Proof.
  intros Ht Hp. unfold in_flight. cbn [bind getR get putR put ow]. exists {[t]}. split; [by apply take_trade|].
  assert ({[t]} ⊆ in_flight_ids (take t s)) as Ho
    by (eapply (trade_owned (I := RelI) in_flight_ids); by apply take_trade).
  apply ow_bind, ow_attempt. eapply ow_mono; [|by apply Hp]. intros r s1 o' [-> Ho1].
  destruct r as [x|m]; simpl.
  - exists ∅. split; [apply give_back_trade|done].
  - keeps_ids ({[t]} : gset string). exists ∅. split; [|done]. apply give_back_trade.
Qed.

Lemma eth_one_ow raw s :
  D (tx_id (normalizeEthWithdrawal raw)) -> OW (eth_one cfg raw) s ∅ empty_handed.
Proof.
  intros HD. unfold eth_one. cbv zeta. set (w := normalizeEthWithdrawal raw) in *.
  apply ow_bind, (ow_rask ∅ RIsShuttingDown s); [done|]. intros [[]|m] s1 _ _; [done| |done].
  cbn [bind getR get ow]. destruct (negb _ || busy _ s1) eqn:Hb; [done|].
  apply orb_false_iff in Hb as [_ Hb]. unfold busy in Hb. apply orb_false_iff in Hb as [_ Hb].
  apply ow_bind. eapply ow_mono; [|apply in_flight_ow; [exact Hb|]].
  - by intros [[]|m] s2 o' ->.
  - unfold with_evmDeps. eapply owning_embed; [done| |].
    + intros c Hc. apply evm_dep_owning, (release_for_owned _ (tx_id w)); [set_solver|done|exact Hc].
    + destruct (observe cfg); [apply guarded_release_for|]; apply process_release_for.
Qed.

Lemma xrge_one_ow raw s : OW (xrge_one cfg raw) s ∅ empty_handed.
Proof.
  unfold xrge_one. cbv zeta. set (w := normalizeXrgeWithdrawal raw) in *.
  apply ow_bind, (ow_rask ∅ RIsShuttingDown s); [done|]. intros [[]|m] s1 _ _; [done| |done].
  cbn [bind getR get ow]. destruct (busy _ s1) eqn:Hb; [done|].
  unfold busy in Hb. apply orb_false_iff in Hb as [_ Hb]. destruct (observe cfg) eqn:Hobs; apply ow_bind.
  - assert (O ∅ (with_xrgeDeps cfg (observeXrgeWithdrawal w))) as Hx.
    { unfold with_xrgeDeps. apply (owning_embed (I := XrgeI) _ _ _ _ _ _ _ (vault_release_owned ∅)); [done| |].
      - intros c Hc. by apply xrge_dep_owning.
      - unfold observeXrgeWithdrawal, xask. calls_auto; apply (calls_call (I := XrgeI)); done. }
    eapply ow_mono; [|by apply owning_empty]. by intros [|] s2 o' ->.
  - eapply ow_mono; [|apply in_flight_ow; [exact Hb|]].
    + by intros [[]|m] s2 o' ->.
    + unfold with_xrgeDeps. eapply owning_embed; [done| |apply xrge_process_release_for].
      intros c Hc. apply xrge_dep_owning. destruct c; try done. simpl in *. set_solver.
Qed.

Lemma loop_ow {A} (f : A -> prog RelI (option unit)) l s :
  (forall x s, x ∈ l -> OW (f x) s ∅ empty_handed) -> OW (first_some f l) s ∅ empty_handed.
Proof.
  intros Hf. apply ow_first_some; [|set_solver|done]. intros x s1 Hx _. eapply ow_mono; [|by apply Hf].
  intros r s' o' ->. split; [done|]. split; [set_solver|]. by destruct r as [[]|].
Qed.

Lemma queued_ow s : OW (processQueued cfg) s ∅ empty_handed.
Proof.
  unfold processQueued. cbn [bind getR get ow]. destruct (bridgeAddr cfg), (queuedTxs s); [done| |done..].
  apply ow_bind, ow_attempt. eapply ow_mono; [|apply owning_empty]; [by intros r s2 o' ->|].
  unfold with_evmDeps. apply (owning_embed (I := EvmI) _ _ _ _ _ _ _ not_release); [done| |].
  - intros c Hc. apply evm_dep_owning. by destruct c.
  - assert (calls (I := EvmI) not_release True (pollQueuedWithdrawals (evm_cfg cfg))) as Hp.
    { eapply calls_weaken; [|done|apply poll_calls]. by intros []. }
    destruct (observe cfg); [|done]. eapply calls_weaken; [|done|apply guarded_deps_calls]. by intros [].
Qed.

Lemma handler_ow h s : OW (handler cfg h) s ∅ empty_handed.
Proof.
  destruct h; cbn [handler].
  - apply ow_bind. unfold processEthWithdrawals.
    apply ow_bind, ow_attempt, ow_bind, (ow_rask ∅ FetchEthWithdrawals s); [done|].
    intros [[|w l]|m] s1 Hl _; [by apply queued_ow| |by apply queued_ow].
    apply ow_bind, (ow_rask ∅ GetBalance s1); [done|]. intros [b|m] s2 _ _; [|by apply queued_ow].
    simpl in Hl. eapply ow_mono; [|apply loop_ow].
    + intros r s3 o' ->. by apply queued_ow.
    + intros x s3 Hx. apply eth_one_ow. rewrite Forall_forall in Hl. by apply Hl.
  - unfold processXrgeWithdrawals. destruct (negb _); [done|].
    apply ow_bind, ow_attempt, ow_bind, ow_attempt, (ow_rask ∅ FetchXrgeWithdrawals s); [done|].
    intros r s1 _ _. eapply ow_mono; [|apply loop_ow; intros; apply xrge_one_ow]. by intros o s2 o' ->.
  - apply owning_empty. apply (owning_embed (I := DepI) _ _ _ _ _ _ _ (fun _ => True)); [done| |apply calls_all].
    intros c _. apply dep_dep_owning.
Qed.

(** Schedules of the relayer: polls start handlers at any time. *)
Definition handlers (p : prog RelI unit) : Prop := exists h, p = handler cfg h.

Definition relayer_schedule (s : RelState) (y : config RelI) : Prop :=
  rtc (step (I := RelI) handlers listed) (Config (I := RelI) s [] []) y.

(** The release a suspended handler awaits: on the bridge under a canonical id, or on the vault. *)
Definition awaited_release (p : prog RelI unit) : option (bool * string) :=
  match p with
  | Call c _ =>
      match (c : rel_cmd) with
      | EvmCall (ReleaseETH _ _ id _) | EvmCall (ReleaseERC20 _ _ _ id _) => Some (false, id)
      | VaultRelease _ _ t _ => Some (true, t)
      | _ => None
      end
  | _ => None
  end.

Lemma awaited_owned c k v id :
  awaited_release (Call c k) = Some (v, id) -> forall o, release_owned o c ->
  exists t, t ∈ o /\ (v = true /\ id = t \/ v = false /\ D t /\ id = rougeBridgeId t).
Proof.
  destruct c as [| | | | | | | | |c|c|c]; try done; [|destruct c; try done]; simpl; intros [= <- <-] o Ho.
  - exists txId. auto.
  - destruct Ho as (t & ? & ? & ->). exists t. auto.
  - destruct Ho as (t & ? & ? & ->). exists t. auto.
Qed.

(** C24: one handler per withdrawal.  Polls overlap and each starts its handlers concurrently; take
    any schedule, with any failures.  No two handlers ever await the same release, on the bridge
    or on the vault, and a handler that awaits a release holds the withdrawal's id in the set of
    ids in flight.  (The daemon lists ids on which the bridge id, a hash, is injective.) *)
Theorem releases_exclusive s y
    (Hinj : forall t t', D t -> D t' -> rougeBridgeId t = rougeBridgeId t' -> t = t')
    (Hrun : relayer_schedule s y) :
  (forall i j p q, i <> j -> c_pool y !! i = Some p -> c_pool y !! j = Some q ->
     forall x, awaited_release p = Some x -> awaited_release q <> Some x) /\
  (forall i p v id, c_pool y !! i = Some p -> awaited_release p = Some (v, id) ->
     exists t, t ∈ inFlightTxIds (c_st y) /\ (if v : bool then id = t else id = rougeBridgeId t)).
Proof.
  assert (owned_pool (I := RelI) in_flight_ids listed release_owned y) as Ho.
  { eapply (steps_owned (I := RelI)); [|exact Hrun|].
    - intros p s' [h ->]. eapply ow_mono; [|apply handler_ow]. done.
    - exists []. split; [constructor|]. split; [|constructor]. intros i j x z _ Hi. by rewrite lookup_nil in Hi. }
  split.
  - intros i j p q Hij Hi Hj [v id] Hp Hq. destruct p as [| | | |c1 k1], q as [| | | |c2 k2]; try done.
    destruct (owned_disjoint (I := RelI) _ _ _ _ _ _ _ _ _ _ Ho Hij Hi Hj) as (o1 & o2 & H1 & H2 & Hd).
    destruct (awaited_owned _ _ _ _ Hp o1 H1) as (t1 & Ht1 & E1).
    destruct (awaited_owned _ _ _ _ Hq o2 H2) as (t2 & Ht2 & E2).
    assert (t1 = t2) as ->; [|set_solver].
    destruct E1 as [[? ->]|(? & ? & ->)], E2 as [[? ?]|(? & ? & ?)]; try congruence. by apply Hinj.
  - intros i p v id Hi Hp. destruct p as [| | | |c k]; try done. destruct Ho as (os & Hf & _ & Hs).
    destruct (Forall2_lookup_l _ _ _ _ _ Hf Hi) as (o & Hio & [Hok _]).
    destruct (awaited_owned _ _ _ _ Hp o Hok) as (t & Ht & E1). exists t. split.
    + rewrite Forall_lookup in Hs. pose proof (Hs i o Hio t Ht) as Hin. by apply elem_of_list_to_set in Hin.
    + by destruct E1 as [[-> ->]|(-> & _ & ->)].
Qed.

(** ** Observation mode *)

(** Commands without effect on the chains, the daemon and the state files. *)
Definition inert (c : rel_cmd) : Prop :=
  match c with
  | VaultRelease _ _ _ _ | WriteProcessed _ => False
  | EvmCall c => mutating c = false
  | XrgeCall (XRelease _ _ _) | XrgeCall (XFulfill _ _) | XrgeCall (HandleFailure _ _) | XrgeCall (XMarkProcessed _) => False
  | DepCall (PostAutoClaim _ _ _) | DepCall (WriteDepositState _) => False
  | _ => True
  end.

Section Observe.
Hypothesis Hobs : observe cfg = true.
Abbreviation inert_prog p := (calls (I := RelI) inert True p).

Lemma inert_rask c : inert c -> inert_prog (rask c).
Proof. intros. by apply (calls_call (I := RelI)). Qed.

Ltac inert_auto :=
  repeat (calls_step || match goal with
    | |- calls _ _ (rask _) => apply inert_rask; done
    | |- calls _ _ getR => intros ?; exact Logic.I
    | |- calls _ _ (putR _) => split; exact Logic.I
    end || solve [auto with calls]).

Lemma evm_dep_inert c : mutating c = false -> inert_prog (evm_dep cfg c).
Proof.
  destruct c; try done; intros _; cbn [evm_dep]; unfold getNextNonce, resetNonce, alert; inert_auto.
Qed.

Lemma with_evmDeps_inert {A} (p : prog EvmI A) : inert_prog (with_evmDeps cfg p).
Proof.
  unfold with_evmDeps. rewrite Hobs. eapply (calls_embed (I := EvmI)); [intros c; apply evm_dep_inert|].
  eapply calls_weaken; [|done|apply guarded_deps_calls]. done.
Qed.

Lemma observeXrge_inert w : inert_prog (with_xrgeDeps cfg (observeXrgeWithdrawal w)).
Proof.
  apply (calls_embed (I := XrgeI) _ _ _ (fun c => match (c : xrge_cmd) with
    ProcessedOnVault _ | FindReleaseTx _ | XObserve _ => True | _ => False end)).
  - intros [] H; try done; cbn [xrge_dep]; inert_auto.
  - unfold observeXrgeWithdrawal, xask. calls_auto; apply (calls_call (I := XrgeI)); done.
Qed.

Definition dep_reads (c : dep_cmd) : Prop :=
  match c with PostAutoClaim _ _ _ | WriteDepositState _ => False | _ => True end.

Lemma until_reads f l :
  (forall d, calls (I := DepI) dep_reads True (f d)) -> calls (I := DepI) dep_reads True (until_shutdown f l).
Proof. intros Hf. induction l as [|d l IH]; cbn [until_shutdown]; [done|].
  apply calls_bind; [by apply (calls_call (I := DepI))|]. intros []; calls_auto.
Qed.

Lemma deposits_inert :
  inert_prog (embed (I := DepI) (J := RelI) depositWatcher with_watcher (dep_dep cfg) (processDeposits (dep_cfg cfg))).
Proof.
  assert (OBSERVE_ONLY (dep_cfg cfg) = true) as Ho by exact Hobs.
  assert (forall d, calls (I := DepI) dep_reads True (claimOne (dep_cfg cfg) d)) as Hc
    by (intros d; unfold claimOne, getW, putW; rewrite Ho; calls_auto; by apply (calls_call (I := DepI))).
  apply (calls_embed (I := DepI) _ _ _ dep_reads).
  - intros [] H; try done; cbn [dep_dep]; unfold alert; inert_auto.
  - unfold processDeposits, poll_deposits, scan_deposits, logs_if, saveDepositState, getW, putW. rewrite Ho.
    calls_auto; try (apply until_reads; intros d; unfold claim_new, getW; calls_auto; done);
      by apply (calls_call (I := DepI)).
Qed.

Lemma handler_inert h : inert_prog (handler cfg h).
Proof.
  destruct h; cbn [handler]; [| |apply deposits_inert].
  - unfold processEthWithdrawals, eth_one, processQueued, in_flight, resetNonce. inert_auto; apply with_evmDeps_inert.
  - unfold processXrgeWithdrawals, xrge_one. rewrite Hobs. inert_auto. apply observeXrge_inert.
Qed.
End Observe.

(** C8: observation mode changes nothing anywhere.  With [OBSERVE_ONLY] set, in every schedule of
    overlapping polls and against every behaviour of the chains and the daemon, the whole process
    submits no release, sends no fulfillment, failure report, refund or deposit claim, and writes
    none of its state files. *)
Theorem observe_mode_inert s y c r
    (Hobs : observe cfg = true) (Hrun : relayer_schedule s y) (Hin : @Ev RelI c r ∈ c_hist y) :
  inert c.
Proof.
  assert (Forall (fun e : event RelI => match e with Ev c _ => inert c end) (c_hist y)) as Hall.
  { eapply (steps_calls (I := RelI)); [|exact Hrun|constructor|constructor].
    intros p [h ->]. by apply handler_inert. }
  rewrite Forall_forall in Hall. apply (Hall _ Hin).
Qed.

(** Behind the health gate: a poll starts handlers only after the daemon answered that its payout
    store is not degraded. *)
Lemma poll_gated e s l :
  outcome e (run_poll cfg) s = Ok l -> l <> [] ->
  exists h, @Ev RelI FetchHealth (Ok h) ∈ trace e (run_poll cfg) s /\ bridgeHealthAllowsPayouts (Some h) = true.
Proof.
  assert (wp (I := RelI) (fun _ _ => True) anything (run_poll cfg) s [] (fun o _ h' => forall l, o = Ok l -> l <> [] ->
    exists h, @Ev RelI FetchHealth (Ok h) ∈ h' /\ bridgeHealthAllowsPayouts (Some h) = true)) as Hw.
  { unfold run_poll. apply wp_bind, wp_attempt, (wp_call (I := RelI)); [done|]. intros r _. cbv zeta.
    destruct (negb (bridgeHealthAllowsPayouts _)) eqn:Hh.
    - apply wp_bind, wp_attempt. eapply wp_mono; [|apply (calls_count (I := RelI) (fun _ => True) True
        (fun _ _ => True) anything (fun _ => false)); [done|done|apply calls_all]].
      intros o s' h' _ l' [= <-]. done.
    - intros l' [= <-] _. apply negb_false_iff in Hh. destruct r as [h|m]; [|done]. exists h. split; [left|done]. }
  intros Ho Hl. pose proof (wp_post (I := RelI) _ e _ s _ Hw) as Hp. by apply Hp in Ho.
Qed.
End Relayer.

(** ** The seed of the nonce manager *)

(** The nonce of the release a handler awaits. *)
Definition awaited_nonce (p : prog RelI unit) : option Z :=
  match p with
  | Call c _ =>
      match (c : rel_cmd) with
      | EvmCall (ReleaseETH _ _ _ n) | EvmCall (ReleaseERC20 _ _ _ _ n) | VaultRelease _ _ _ n => Some n
      | _ => None
      end
  | _ => None
  end.
