(* ===== verification/RelayerDemo.v ===== *)
(** * Concrete schedules of the relayer process

    The witnesses of the claims of [RelayerClaims], and the schedule in which two handlers that
    share a signer are given the same nonce. *)
From S2P Require Import Prelude JsText JsNum JsMap Interact Interleave BridgeCore ToyViem LogScan EvmPayout EvmDemo.
From S2P Require Import XrgePayout DepositWatch RelayerLoop RelayerClaims.
Local Open Scope Z_scope.
Local Open Scope string_scope.

Module RelayerDemo.

Definition dcfg (obs : bool) : DepCfg := {|
  OBSERVE_ONLY := obs; DEPOSIT_WATCHER := true; ROUGE_BRIDGE_ADDRESS := Some Demo.vault; VAULT_ADDRESS := Some "0xa2";
  CONFIRMATIONS := Some 2; DEPOSIT_WATCH_FROM_BLOCK := None; DEPOSIT_MAX_BLOCK_SPAN := 4; chain_usdc := Demo.usdc;
  dep_env := fun _ => None |}.

(** [XRGE_RELAYER_PRIVATE_KEY] unset: both kinds of release are signed by the custody key. *)
Definition rcfg (obs : bool) : RelCfg := {|
  dep_cfg := dcfg obs; MAX_RETRIES := 3; AUTO_REFUND := false; ALERT_WEBHOOK_URL := ""; account := "0xC0"; xrgeAccount := "0xC0" |}.

Definition boot : RelState := {|
  processedTxIds := []; inFlightTxIds := []; queuedTxs := []; xrgePendingFulfill := []; nonceState := [];
  depositWatcher := fresh_watcher; alertedTxIds := [] |}.

Definition wd (id : string) : EthWithdrawal := {|
  w_txId := Some id; w_tx_id := None; w_evmAddress := Some Demo.alice; w_evm_address := None;
  w_amountUnits := Some (num_of_Z 5); w_amount_units := None; w_tokenSymbol := Some "qETH"; w_token_symbol := None |}.

Definition xwd (id : string) : RawXrgeWithdrawal := {|
  rx_txId := Some id; rx_tx_id := None; rx_evmAddress := Some Demo.alice; rx_evm_address := None;
  rx_amount := Some (num_of_Z 3) |}.

(** Two qETH withdrawals and an XRGE one are pending; the signer's next nonce is 7. *)
Definition node : env RelI := fun _ c =>
  match c return res (rel_ans c) with
  | FetchHealth => Ok {| health_status := 200; health_body := Some [("degraded", VBool false)] |}
  | FetchEthWithdrawals => Ok [wd "ab"; wd "cd"]
  | FetchXrgeWithdrawals => Ok [xwd "ef"]
  | GetBalance => Ok 1
  | GetTransactionCount _ => Ok 7
  | VaultRelease _ _ _ _ => Ok "0xvault"
  | WriteProcessed _ | PostWebhook _ => Ok tt
  | RIsShuttingDown => Ok false
  | EvmCall c => Demo.accepting (Ok Demo.paid_receipt) false c
  | XrgeCall (ProcessedOnVault _) => Ok false
  | XrgeCall _ => Err "unreachable"
  | DepCall _ => Err "unreachable"
  end.

Definition idle : config RelI := Config (I := RelI) boot [] [].
Definition listed_id (t : string) : Prop := t = "ab" \/ t = "cd".

Lemma node_lists : respects (listed listed_id) node.
Proof. intros h c. destruct c; try done. constructor; [by left|]. constructor; [by right|constructor]. Qed.

Lemma ids_injective t t' :
  listed_id t -> listed_id t' -> rougeBridgeId t = rougeBridgeId t' -> t = t'.
Proof. intros [->| ->] [->| ->]; vm_compute; congruence. Qed.

Ltac starts :=
  let p := fresh "p" in let H := fresh "H" in
  intros p H; first [discriminate H | eexists; exact (f_equal (fun a => match a with Start q => q | _ => p end) (eq_sym H))].

(** Two overlapping polls: the first awaits the release of "ab", the second skips "ab" and awaits
    the release of "cd". *)
Definition overlap : list (act (I := RelI)) :=
  [Start (handler (rcfg false) EthAndQueue)] ++ repeat (Deliver 0) 5 ++
  [Start (handler (rcfg false) EthAndQueue)] ++ repeat (Deliver 1) 5.

Lemma overlap_schedule : relayer_schedule (rcfg false) listed_id boot (play node overlap idle).
Proof.
  apply (play_steps (I := RelI)); [apply node_lists|].
  unfold overlap; cbn [app repeat]. repeat (apply Forall_cons; split; [starts|]). apply Forall_nil_2.
Qed.

Example overlap_state :
  map awaited_release (c_pool (play node overlap idle)) =
    [Some (false, rougeBridgeId "ab"); Some (false, rougeBridgeId "cd")] /\
  inFlightTxIds (c_st (play node overlap idle)) = ["ab"; "cd"] /\
  map awaited_nonce (c_pool (play node overlap idle)) = [Some 7; Some 8].
Proof. vm_compute. auto. Qed.

Lemma releases_exclusive_witness :
  relayer_schedule (rcfg false) listed_id boot (play node overlap idle) /\
  forall p q x, c_pool (play node overlap idle) !! 0%nat = Some p -> c_pool (play node overlap idle) !! 1%nat = Some q ->
    awaited_release p = Some x -> awaited_release q <> Some x.
Proof.
  split; [exact overlap_schedule|]. intros p q x Hp Hq.
  exact (proj1 (releases_exclusive (rcfg false) listed_id boot _ ids_injective overlap_schedule)
           0%nat 1%nat p q ltac:(discriminate) Hp Hq x).
Defined.

(** In observation mode. *)
Definition observed_poll : list (act (I := RelI)) :=
  [Start (handler (rcfg true) EthAndQueue); Start (handler (rcfg true) Xrge)] ++ repeat (Deliver 0) 8 ++ repeat (Deliver 1) 5.

Lemma observed_schedule : relayer_schedule (rcfg true) listed_id boot (play node observed_poll idle).
Proof.
  apply (play_steps (I := RelI)); [apply node_lists|].
  unfold observed_poll; cbn [app repeat]. repeat (apply Forall_cons; split; [starts|]). apply Forall_nil_2.
Qed.

Lemma observe_mode_inert_witness :
  @Ev RelI FetchEthWithdrawals (Ok [wd "ab"; wd "cd"]) ∈ c_hist (play node observed_poll idle) /\
  inert FetchEthWithdrawals.
Proof.
  assert (@Ev RelI FetchEthWithdrawals (Ok [wd "ab"; wd "cd"]) ∈ c_hist (play node observed_poll idle)) as Hin.
  { vm_compute. repeat first [left; reflexivity|right]. }
  split; [exact Hin|].
  exact (observe_mode_inert (rcfg true) listed_id boot _ _ _ eq_refl observed_schedule Hin).
Defined.

(** Both handlers find the nonce of their common signer unseeded and read it from the chain: the
    bridge release and the vault release are submitted with the same nonce. *)
Definition race : list (act (I := RelI)) :=
  [Start (handler (rcfg false) EthAndQueue); Start (handler (rcfg false) Xrge)] ++
  repeat (Deliver 0) 4 ++ repeat (Deliver 1) 3 ++ [Deliver 0; Deliver 1].

Example seed_race : map awaited_nonce (c_pool (play node race idle)) = [Some 7; Some 7].
Proof. vm_compute. reflexivity. Qed.
End RelayerDemo.
