(* ===== verification/BtcPlan.v ===== *)
(** * Bitcoin payout planning ([src/scripts/btc-relayer-core.ts])

    Transaction size, network fee, input selection with the withdrawer paying the fee
    ([planPayout]), the fee of an Esplora transaction and the adoption rule ([payoutSettles]).
    Satoshi values delivered by Esplora are integral numbers, modelled as integers; the fee rate
    is a double and the fee is computed in double arithmetic as in the source. *)
From Stdlib Require Import SpecFloat.
From S2P Require Import Prelude JsText JsNum.
Local Open Scope Z_scope.

Definition DEFAULT_MAX_NETWORK_FEE_SATS : Z := 10000.
Definition P2WPKH_SCRIPT_LEN : Z := 22.

Definition varIntLen (n : Z) : Z :=
  if n <? 0xfd then 1 else if n <=? 0xffff then 3 else if n <=? 0xffffffff then 5 else 9.

Definition output_bytes (lens : list Z) : Z := foldl (fun a l => a + 8 + varIntLen l + l) 0 lens.

(** [Math.ceil(x / 4)]. *)
Definition ceil_quarter (x : Z) : Z := - ((- x) / 4).

Definition p2wpkhVsize (nInputs : Z) (outputScriptLens : list Z) : res Z :=
  if nInputs <? 1 then Err "need at least one input" else
  let base := 4 + 4 + varIntLen nInputs + varIntLen (Z.of_nat (length outputScriptLens))
              + 41 * nInputs + output_bytes outputScriptLens in
  let witness := 2 + 108 * nInputs in
  Ok (ceil_quarter (base * 4 + witness)).

Definition num_zero : number := num_of_Z 0.

Definition feeForVsize (vsize : Z) (feeRate : number) : res Z :=
  if negb (num_ltb num_zero feeRate) || negb (isFinite feeRate) then Err "invalid fee rate" else
  let giga := num_of_Z 1000000000 in
  let x := Math_ceil (num_div (Math_round (num_mul (num_mul (num_of_Z vsize) feeRate) giga)) giga) in
  match BigInt_of_number x with
  | Some z => Ok z
  | None => Err "The number cannot be converted to a BigInt because it is not an integer"
  end.

Record PlanUtxo := { u_txid : string; u_vout : Z; u_value : Z }.

Inductive PayoutPlan :=
| PlanOk (inputs : list PlanUtxo) (pay change fee vsize : Z)
| PlanFeeTooHigh (fee maxFee : Z)
| PlanBelowMinimum (fee pay : Z)
| PlanInsufficient (have need : Z).

Record PlanParams := {
  utxos : list PlanUtxo; sats : Z; feeRate : number; destScriptLen : Z; maxFee : Z; dust : Z;
}.

(** [sort((a, b) => b.value - a.value)]: a stable sort, largest first. *)
Fixpoint insert_desc (x : PlanUtxo) (l : list PlanUtxo) : list PlanUtxo :=
  match l with
  | [] => [x]
  | y :: r => if u_value y <=? u_value x then x :: y :: r else y :: insert_desc x r
  end.
Definition sort_desc (l : list PlanUtxo) : list PlanUtxo := foldr insert_desc [] l.

(** The selection loop: the inputs taken and their sum. *)
Fixpoint select (need dust inSats : Z) (l : list PlanUtxo) : list PlanUtxo * Z :=
  match l with
  | [] => ([], inSats)
  | u :: r =>
      let i := inSats + u_value u in
      if (i =? need) || (need + dust <? i) then ([u], i)
      else let '(s, t) := select need dust i r in (u :: s, t)
  end.

Definition planPayout (p : PlanParams) : res PayoutPlan :=
  let '(selected, inSats) := select (sats p) (dust p) 0 (sort_desc (utxos p)) in
  if inSats <? sats p then Ok (PlanInsufficient inSats (sats p)) else
  let change0 := inSats - sats p in
  let small := (0 <? change0) && (change0 <=? dust p) in
  let extraToDest := if small then change0 else 0 in
  let change := if small then 0 else change0 in
  let outs := if 0 <? change then [destScriptLen p; P2WPKH_SCRIPT_LEN] else [destScriptLen p] in
  res_bind (p2wpkhVsize (Z.of_nat (length selected)) outs) (fun vsize =>
  res_bind (feeForVsize vsize (feeRate p)) (fun fee =>
  if maxFee p <? fee then Ok (PlanFeeTooHigh fee (maxFee p)) else
  let pay := sats p + extraToDest - fee in
  if pay <=? dust p then Ok (PlanBelowMinimum fee pay)
  else Ok (PlanOk selected pay change fee vsize))).

(** ** Esplora transactions *)

Record Prevout := { po_address : option string; po_value : option Z }.
Record EsVout := { vo_address : option string; vo_value : Z }.
Record EsploraTxLike := {
  es_txid : string;
  es_fee : option Z;
  es_vin : option (list (option Prevout));
  es_vout : list EsVout;
}.

Definition out_sum (l : list EsVout) : Z := foldl (fun a v => a + vo_value v) 0 l.

(** The sum of the spent outputs; [None] when one is unknown. *)
Fixpoint in_sum (tin : Z) (l : list (option Prevout)) : option Z :=
  match l with
  | [] => Some tin
  | v :: r =>
      match mbind po_value v with
      | Some z => in_sum (tin + z) r
      | None => None
      end
  end.

Definition esploraTxFee (tx : EsploraTxLike) : option Z :=
  let vin := default [] (es_vin tx) in
  match vin with
  | [] => None
  | _ =>
      match in_sum 0 vin with
      | None => None
      | Some tin =>
          let tout := out_sum (es_vout tx) in
          if tin <? tout then None else
          let computed := tin - tout in
          match es_fee tx with
          | Some f => if negb (f =? computed) then None else Some computed
          | None => Some computed
          end
      end
  end.

Definition spends (custody : string) (v : option Prevout) : bool :=
  match mbind po_address v with Some a => (a =? custody)%string | None => false end.

Definition pays_to (dest : string) (v : EsVout) : bool :=
  match vo_address v with Some a => (a =? dest)%string | None => false end.

Definition payoutSettles (tx : EsploraTxLike) (custody dest : string) (owed maxFee : Z) : bool :=
  if negb (existsb (spends custody) (default [] (es_vin tx))) then false else
  let paid := out_sum (List.filter (pays_to dest) (es_vout tx)) in
  if paid <=? 0 then false else
  if owed <=? paid then true else
  match esploraTxFee tx with
  | None => false
  | Some fee => if maxFee <? fee then false else owed <=? paid + fee
  end.

(** ** Input selection *)

Definition value_sum (l : list PlanUtxo) : Z := zsum (map u_value l).

Lemma insert_desc_perm x l : Permutation (x :: l) (insert_desc x l).
Proof.
  induction l as [|y l IH]; simpl; [done|]. destruct (_ <=? _); [done|].
  rewrite <- IH. constructor.
Qed.

Lemma sort_desc_perm l : Permutation l (sort_desc l).
Proof. induction l as [|x l IH]; simpl; [done|]. rewrite <- insert_desc_perm. by constructor. Qed.

Lemma select_spec need dust l acc s t :
  select need dust acc l = (s, t) ->
  exists rest, l = s ++ rest /\ t = acc + value_sum s /\
    (rest = [] \/ t = need \/ need + dust < t).
Proof.
  unfold value_sum. revert acc s t. induction l as [|u l IH]; simpl; intros acc s t H.
  - injection H as <- <-. exists []. simpl. split; [done|]. split; [lia|auto].
  - destruct (_ || _) eqn:E.
    + injection H as <- <-. exists l. simpl. breflect. split; [done|]. split; [lia|].
      destruct E; auto.
    + destruct (select need dust _ l) as [s' t'] eqn:Es. injection H as <- <-.
      destruct (IH _ _ _ Es) as (rest & -> & -> & Hr). exists rest. simpl.
      split; [done|]. split; [lia|done].
Qed.

(** The selected inputs of a plan, the unused outputs, and their sum. *)
Lemma plan_select p s t :
  select (sats p) (dust p) 0 (sort_desc (utxos p)) = (s, t) ->
  exists rest, Permutation (utxos p) (s ++ rest) /\ t = value_sum s /\
    (rest = [] \/ t = sats p \/ sats p + dust p < t).
Proof.
  intros H. destruct (select_spec _ _ _ _ _ _ H) as (rest & Hl & Ht & Hr).
  exists rest. rewrite <- Hl. split; [apply sort_desc_perm|]. split; [lia|done].
Qed.

(** What a payout plan guarantees. *)
Record good_plan (p : PlanParams) (inputs rest : list PlanUtxo) (pay change fee : Z) : Prop := {
  gp_inputs : Permutation (utxos p) (inputs ++ rest);
  gp_conserve : value_sum inputs = pay + change + fee;
  gp_fee : fee <= maxFee p;
  gp_pay : dust p < pay;
  gp_change : change = 0 \/ dust p < change;
  gp_custody : value_sum inputs - change = sats p \/
    (change = 0 /\ rest = [] /\ sats p < value_sum inputs <= sats p + dust p);
}.

Lemma plan_ok_inv p inputs pay change fee vsize :
  planPayout p = Ok (PlanOk inputs pay change fee vsize) ->
  exists rest, good_plan p inputs rest pay change fee.
Proof.
  unfold planPayout. destruct (select _ _ _ _) as [s t] eqn:Es.
  destruct (plan_select _ _ _ Es) as (rest & Hperm & -> & Hr).
  destruct (_ <? sats p) eqn:E1; [done|]. unfold res_bind.
  destruct (p2wpkhVsize _ _) as [vs|]; [|done]. destruct (feeForVsize _ _) as [f|]; [|done].
  destruct (maxFee p <? f) eqn:E2; [done|]. destruct (_ <=? dust p) eqn:E3; [done|].
  intros [= <- <- <- <- <-]. exists rest.
  destruct ((0 <? value_sum s - sats p) && (value_sum s - sats p <=? dust p)) eqn:E4; breflect;
    split; try done; try lia.
  - right. split; [done|]. split; [|lia]. destruct Hr as [?|Hr]; [done|lia].
Qed.

(** C15: a payout plan conserves value and charges the withdrawer exactly.  When [planPayout]
    plans a payout, its inputs are distinct candidates from the custody outputs; inputs = payment
    + change + fee; the fee is within the cap; the payment is above dust and so is any change;
    and custody falls by exactly the amount owed, except when every candidate is used and the
    remainder is at most dust, in which case there is no change and the remainder goes to the
    withdrawer. *)
Theorem planPayout_conserves p inputs pay change fee vsize
    (Hplan : planPayout p = Ok (PlanOk inputs pay change fee vsize)) :
  exists rest, good_plan p inputs rest pay change fee.
Proof. by eapply plan_ok_inv. Qed.

Definition demo_plan : PlanParams := {|
  utxos := [{| u_txid := "a"; u_vout := 0; u_value := 40000 |}; {| u_txid := "b"; u_vout := 1; u_value := 90000 |}];
  sats := 50000; feeRate := num_of_Z 3; destScriptLen := 22; maxFee := 10000; dust := 546 |}.

Lemma planPayout_conserves_witness :
  exists rest, good_plan demo_plan [{| u_txid := "b"; u_vout := 1; u_value := 90000 |}] rest 49577 40000 423.
Proof. apply (planPayout_conserves demo_plan _ _ _ _ 141). vm_compute. reflexivity. Defined.

#[export] Instance value_sum_proper : Proper (Permutation ==> eq) value_sum.
Proof. intros l k H. unfold value_sum. apply zsum_perm. by rewrite H. Qed.

Lemma value_sum_app l k : value_sum (l ++ k) = value_sum l + value_sum k.
Proof. unfold value_sum. rewrite map_app. apply zsum_app. Qed.

(** Funds are reported missing only when they are.  With a non-negative dust limit and
    non-negative candidate values, [planPayout] answers [insufficient] exactly when all the
    candidates together do not cover the amount owed, and it reports their total. *)
Theorem planPayout_insufficient p have need
    (Hdust : 0 <= dust p) (Hpos : Forall (fun u => 0 <= u_value u) (utxos p)) :
  planPayout p = Ok (PlanInsufficient have need) <->
  have = value_sum (utxos p) /\ need = sats p /\ value_sum (utxos p) < sats p.
Proof.
  unfold planPayout. destruct (select _ _ _ _) as [s t] eqn:Es.
  destruct (plan_select _ _ _ Es) as (rest & Hperm & -> & Hr).
  assert (value_sum (utxos p) = value_sum s + value_sum rest) as Hs by by rewrite Hperm, value_sum_app.
  rewrite Hperm in Hpos. apply Forall_app in Hpos as [_ Hpos].
  assert (0 <= value_sum rest) as Hrest by (apply zsum_nonneg; by apply Forall_fmap).
  destruct (_ <? sats p) eqn:E1; breflect.
  - destruct Hr as [->|[?|?]]; [|lia..]. change (value_sum []) with 0 in Hs.
    split; [intros [= <- <-]; lia|]. intros (-> & -> & _). do 2 f_equal; lia.
  - split; [|lia]. unfold res_bind. destruct (p2wpkhVsize _ _); [|done].
    destruct (feeForVsize _ _); [|done]. destruct (maxFee p <? _); [done|]. by destruct (_ <=? dust p).
Qed.

Definition poor_plan : PlanParams := {|
  utxos := [{| u_txid := "a"; u_vout := 0; u_value := 40000 |}];
  sats := 50000; feeRate := num_of_Z 3; destScriptLen := 22; maxFee := 10000; dust := 546 |}.

Lemma planPayout_insufficient_witness :
  planPayout poor_plan = Ok (PlanInsufficient 40000 50000).
Proof.
  apply (planPayout_insufficient poor_plan); [simpl; lia|repeat constructor; simpl; lia|].
  vm_compute. done.
Defined.

(** ** The planned transaction settles the withdrawal *)

(** The transaction [buildPayout] signs for a plan, as Esplora reports it. *)
Definition payout_tx (txid custody dest : string) (inputs : list PlanUtxo) (pay change : Z) (fee : option Z)
  : EsploraTxLike := {|
  es_txid := txid; es_fee := fee;
  es_vin := Some (map (fun u => Some {| po_address := Some custody; po_value := Some (u_value u) |}) inputs);
  es_vout := {| vo_address := Some dest; vo_value := pay |} ::
             (if 0 <? change then [{| vo_address := Some custody; vo_value := change |}] else []) |}.

Lemma in_sum_inputs custody acc inputs :
  in_sum acc (map (fun u => Some {| po_address := Some custody; po_value := Some (u_value u) |}) inputs)
  = Some (acc + value_sum inputs).
Proof.
  unfold value_sum. revert acc. induction inputs as [|u l IH]; intros acc; simpl; [f_equal; lia|].
  rewrite IH. f_equal; lia.
Qed.

Lemma payout_paid txid custody dest inputs pay change fee :
  pay <= out_sum (List.filter (pays_to dest) (es_vout (payout_tx txid custody dest inputs pay change fee))).
Proof.
  unfold payout_tx, pays_to, out_sum. simpl. rewrite String.eqb_refl.
  destruct (0 <? change) eqn:E; simpl; [|lia].
  destruct (custody =? dest)%string; simpl; breflect; lia.
Qed.

Lemma payout_fee txid custody dest inputs pay change fee reported :
  inputs <> [] -> 0 <= fee -> 0 <= change -> value_sum inputs = pay + change + fee ->
  (reported = None \/ reported = Some fee) ->
  esploraTxFee (payout_tx txid custody dest inputs pay change reported) = Some fee.
Proof.
  intros Hne Hf Hc Hsum Hrep. unfold esploraTxFee, payout_tx. simpl.
  destruct inputs as [|u l]; [done|]. rewrite in_sum_inputs.
  assert (out_sum ({| vo_address := Some dest; vo_value := pay |} ::
    (if 0 <? change then [{| vo_address := Some custody; vo_value := change |}] else [])) = pay + change) as Hout.
  { unfold out_sum. destruct (0 <? change) eqn:E; simpl; breflect; lia. }
  simpl map. rewrite Hout. rewrite (proj2 (Z.ltb_ge _ _)) by lia.
  replace (0 + value_sum (u :: l) - (pay + change)) with fee by lia.
  destruct Hrep as [->| ->]; [done|]. by rewrite Z.eqb_refl.
Qed.

Lemma plan_inputs_nonempty p inputs pay change fee vsize :
  planPayout p = Ok (PlanOk inputs pay change fee vsize) -> inputs <> [].
Proof.
  unfold planPayout. destruct (select _ _ _ _) as [s t]. destruct (_ <? sats p); [done|].
  unfold res_bind, p2wpkhVsize. destruct s; [done|]. intros H ->.
  repeat case_match; try discriminate; try congruence.
Qed.

Lemma plan_settles p inputs pay change fee vsize txid custody dest reported cap
    (Hplan : planPayout p = Ok (PlanOk inputs pay change fee vsize)) (Hdust : 0 <= dust p)
    (Hcap : maxFee p <= cap) (Hrep : reported = None \/ reported = Some fee) :
  payoutSettles (payout_tx txid custody dest inputs pay change reported) custody dest (sats p) cap = true.
Proof.
  pose proof (plan_inputs_nonempty _ _ _ _ _ _ Hplan) as Hne.
  destruct (plan_ok_inv _ _ _ _ _ _ Hplan) as [rest [_ Hsum Hfee Hpay Hchg Hcust]].
  unfold payoutSettles. pose proof (payout_paid txid custody dest inputs pay change reported) as Hpaid.
  revert Hpaid. generalize (out_sum (List.filter (pays_to dest)
    (es_vout (payout_tx txid custody dest inputs pay change reported)))). intros paid Hpaid.
  replace (existsb _ _) with true.
  2:{ simpl. destruct inputs; [done|]. simpl. unfold spends. simpl. by rewrite String.eqb_refl. }
  simpl negb. cbv iota zeta. rewrite (proj2 (Z.leb_gt _ _)) by lia.
  destruct (sats p <=? paid) eqn:E; [done|]. breflect.
  rewrite (payout_fee _ _ _ _ _ _ fee) by (done || lia).
  rewrite (proj2 (Z.ltb_ge _ _)) by lia. apply Z.leb_le. lia.
Qed.

(** the relayer recognises its own payouts.  The transaction signed for a plan (inputs from
    custody, the payment to the destination, the change back to custody) satisfies the adoption
    rule [payoutSettles] for the amount owed under any cap at least the plan's, with or without
    the [fee] field of Esplora.  So the scan that runs before a new payout is built finds a payout
    that left the relayer before its state was saved. *)
Theorem planned_payout_settles p inputs pay change fee vsize txid custody dest reported cap
    (Hplan : planPayout p = Ok (PlanOk inputs pay change fee vsize)) (Hdust : 0 <= dust p)
    (Hcap : maxFee p <= cap) (Hrep : reported = None \/ reported = Some fee) :
  payoutSettles (payout_tx txid custody dest inputs pay change reported) custody dest (sats p) cap = true.
Proof. by eapply plan_settles. Qed.

Lemma planned_payout_settles_witness :
  payoutSettles (payout_tx "t" "custody" "dest" [{| u_txid := "b"; u_vout := 1; u_value := 90000 |}]
    49577 40000 (Some 423)) "custody" "dest" 50000 10000 = true.
Proof.
  apply (planned_payout_settles demo_plan _ _ _ 423 141); [vm_compute; reflexivity|simpl; lia|simpl; lia|by right].
Defined.

(** ** The adoption rule *)

(** What is adopted really settles.  [payoutSettles] accepts a transaction exactly when it
    spends an output of the custody address and pays the destination a positive amount that is
    at least the amount owed, or that reaches it together with the transaction's own fee, where
    that fee is known (every spent output known, and equal to the [fee] field when present),
    non-negative and within the cap. *)
Theorem payoutSettles_exact tx custody dest owed cap :
  payoutSettles tx custody dest owed cap = true <->
  (exists v, v ∈ default [] (es_vin tx) /\ spends custody v = true) /\
  (let paid := out_sum (List.filter (pays_to dest) (es_vout tx)) in
   0 < paid /\
   (owed <= paid \/
    exists tin, in_sum 0 (default [] (es_vin tx)) = Some tin /\ out_sum (es_vout tx) <= tin /\
      (es_fee tx = None \/ es_fee tx = Some (tin - out_sum (es_vout tx))) /\
      tin - out_sum (es_vout tx) <= cap /\ owed <= paid + (tin - out_sum (es_vout tx)))).
Proof.
  unfold payoutSettles. set (paid := out_sum (List.filter _ _)). cbv zeta.
  assert (existsb (spends custody) (default [] (es_vin tx)) = true <->
          exists v, v ∈ default [] (es_vin tx) /\ spends custody v = true) as Hex.
  { rewrite existsb_exists. by setoid_rewrite list_elem_of_In. }
  rewrite <- Hex. clear Hex.
  destruct (existsb _ _) eqn:Ee; simpl negb; cbv iota; [|naive_solver].
  destruct (paid <=? 0) eqn:E0; breflect; [split; [done|lia]|].
  destruct (owed <=? paid) eqn:E1; breflect; [split; [|done]; intros _; split; [done|split; [lia|by left]]|].
  unfold esploraTxFee. destruct (default [] (es_vin tx)) as [|v0 vs] eqn:Ev; [done|].
  destruct (in_sum 0 (v0 :: vs)) as [tin|]; [|split; [done|]; intros (_ & _ & [?|(? & ? & _)]); [lia|done]].
  assert (forall P Q : Prop, (P <-> Q) -> (P <-> true = true /\ 0 < paid /\ (owed <= paid \/ Q))) as Hred.
  { intros P Q H. rewrite H. split; [intros; split; [done|]; split; [lia|by right]|]. intros (_ & _ & [?|?]); [lia|done]. }
  apply Hred. clear Hred.
  destruct (tin <? out_sum (es_vout tx)) eqn:E2; breflect.
  { split; [done|]. intros (? & [= <-] & ? & _). lia. }
  destruct (es_fee tx) as [f|]; [destruct (f =? _) eqn:E3; simpl|]; breflect.
  - destruct (cap <? _) eqn:E4; breflect; [split; [done|]; intros (? & [= <-] & ?); lia|].
    split; [|intros (? & [= <-] & ?); lia]. intros. exists tin.
    split; [done|]. split; [lia|]. split; [right; by rewrite E3|lia].
  - split; [done|]. intros (? & [= <-] & ? & [?|[= ->]] & _); done.
  - destruct (cap <? _) eqn:E4; breflect; [split; [done|]; intros (? & [= <-] & ?); lia|].
    split; [|intros (? & [= <-] & ?); lia]. intros. exists tin.
    split; [done|]. split; [lia|]. split; [by left|lia].
Qed.

(** ** Sizes and fees *)

(** Every payout of at most 5 inputs to a standard destination, with or without change. *)
Definition usual_shapes : list (Z * list Z) :=
  flat_map (fun n => flat_map (fun l => [(n, [l]); (n, [l; P2WPKH_SCRIPT_LEN])]) [22; 23; 25; 34])
    (seqZ 1 5).

Definition fee_exact (shape : Z * list Z) (rate : Z) : bool :=
  match p2wpkhVsize shape.1 shape.2 with
  | Ok v => match feeForVsize v (num_of_Z rate) with Ok f => f =? v * rate | Err _ => false end
  | Err _ => false
  end.

(** The fee has no phantom satoshi.  For every payout of at most 5 inputs to a P2WPKH,
    P2SH, P2PKH, P2WSH or P2TR destination, with or without change, and every whole fee rate
    from 1 to 40 sat/vB, the fee computed in double arithmetic is exactly the size times the
    rate. *)
Theorem usual_fees_exact shape rate (Hs : shape ∈ usual_shapes) (Hr : rate ∈ seqZ 1 40) :
  exists v, p2wpkhVsize shape.1 shape.2 = Ok v /\ feeForVsize v (num_of_Z rate) = Ok (v * rate).
Proof.
  assert (forallb (fun s => forallb (fee_exact s) (seqZ 1 40)) usual_shapes = true) as H
    by (vm_compute; reflexivity).
  rewrite forallb_forall in H. specialize (H shape (proj1 (list_elem_of_In _ _) Hs)).
  rewrite forallb_forall in H. specialize (H rate (proj1 (list_elem_of_In _ _) Hr)).
  unfold fee_exact in H. destruct (p2wpkhVsize _ _) as [v|]; [|done].
  exists v. split; [done|]. destruct (feeForVsize _ _); [|done]. by apply Z.eqb_eq in H as ->.
Qed.

Lemma usual_fees_exact_witness :
  exists v, p2wpkhVsize 1 [22; 22] = Ok v /\ feeForVsize v (num_of_Z 3) = Ok (v * 3).
Proof.
  apply (usual_fees_exact (1, [22; 22]) 3); [right; left|apply elem_of_seqZ; lia].
Defined.
