(* ===== verification/BtcPayout.v ===== *)
(** * The Bitcoin payout decision ([src/scripts/btc-relayer-core.ts])

    [knownPayoutTxids], [reservedInputs], [classifyBroadcastResponse], [processBtcWithdrawal] and
    [settleBroadcast], over the interface [BtcI] of [BtcPayoutDeps].  The shared mutable state is
    the object [state] (withdrawal id to entry); [Save] carries the state it writes to the state
    file.  An entry mutated in place is stored back under its key.  Log texts are omitted. *)
From S2P Require Import Prelude JsText JsNum JsMap Interact.
Local Open Scope Z_scope.
Local Open Scope prog_scope.

Record BuiltPayout := {
  bp_txid : string; bp_rawHex : string; bp_inputs : list string;
  bp_pay : option string; bp_fee : option string;
}.

Record BtcStateEntry := {
  e_dest : string;
  e_sats : string;
  attempts : Z;
  btcTxid : option string;
  planned : option BuiltPayout;
  needsReview : option string;
  broadcasting : option bool;
}.

Abbreviation BtcState := (jmap BtcStateEntry).

Record PendingBtcWithdrawal := { p_txId : string; p_evmAddress : string; p_amountUnits : number }.

Inductive BroadcastResult :=
| BAccepted (txid : string)
| BRejected (reason : string) (inputsSpent : bool)
| BUnknown (reason : string).

Inductive BuildResult :=
| Built (b : BuiltPayout)
| BuildFeeTooHigh (fee maxFee : Z)
| BuildBelowMinimum (fee pay : Z).

(** ** Sets of strings *)

Definition set_add (x : string) (s : list string) : list string :=
  if existsb (String.eqb x) s then s else s ++ [x].

Lemma elem_set_add x y s : y ∈ set_add x s <-> y = x \/ y ∈ s.
Proof.
  unfold set_add. destruct (existsb (String.eqb x) s) eqn:E.
  - apply existsb_exists in E as (z & Hz & ->%String.eqb_eq). apply list_elem_of_In in Hz. naive_solver.
  - rewrite elem_of_app, list_elem_of_singleton. naive_solver.
Qed.

(** A truthy optional string ([undefined] and [""] are falsy). *)
Definition given (x : option string) : option string :=
  match x with Some s => if truthy s then Some s else None | None => None end.

(** Every txid the relayer already attributes to some withdrawal. *)
Definition knownPayoutTxids (state : BtcState) : list string :=
  foldl (fun s kv =>
    let e := snd kv in
    let s1 := match given (btcTxid e) with Some t => set_add t s | None => s end in
    match planned e with Some p => set_add (bp_txid p) s1 | None => s1 end) [] state.

(** Inputs held by signed-but-unsettled payouts. *)
Definition reservedInputs (state : BtcState) (exceptTxId : string) : list string :=
  foldl (fun s kv =>
    match planned (snd kv) with
    | Some p => if (fst kv =? exceptTxId)%string then s else foldl (fun s i => set_add i s) s (bp_inputs p)
    | None => s
    end) [] state.

(** ** Classification of an Esplora answer *)

Fixpoint includes (pat s : string) : bool :=
  String.prefix pat s || match s with EmptyString => false | String _ r => includes pat r end.

Definition is_hex_char (c : ascii) : bool := match hex_digit c with Some _ => true | None => false end.

(** [/^[0-9a-f]{64}$/i]. *)
Definition is_txid (s : string) : bool := (String.length s =? 64)%nat && forallb is_hex_char (chars s).

Definition any_of (pats : list string) (text : string) : bool :=
  existsb (fun p => includes p (toLowerCase text)) pats.

(** The alternatives of [/already[ -](in[ -]mempool|known|have)|.../i]. *)
Definition already_known_patterns : list string :=
  ["already in mempool"; "already in-mempool"; "already-in mempool"; "already-in-mempool";
   "already known"; "already-known"; "already have"; "already-have";
   "txn-already-in-mempool"; "txn-already-known"; "transaction already in block chain"].

Definition inputs_spent_patterns : list string :=
  ["missingorspent"; "missing-inputs"; "missing inputs"; "txn-mempool-conflict"; "conflict"; "bad-txns-inputs"].

Definition classifyBroadcastResponse (status : option Z) (body expectedTxid : string) : BroadcastResult :=
  let text := trim body in
  match status with
  | None => BUnknown (str_or text "no response")
  | Some st =>
      if (200 <=? st) && (st <? 300) then
        if is_txid text then BAccepted (toLowerCase text)
        else BUnknown ("unexpected success body: " +:+ substring 0 120 text)
      else if any_of already_known_patterns text then BAccepted expectedTxid
      else if (400 <=? st) && (st <? 500) then
        BRejected (str_or (substring 0 200 text) ("HTTP " +:+ dec st)) (any_of inputs_spent_patterns text)
      else BUnknown ("HTTP " +:+ dec st +:+ ": " +:+ substring 0 120 text)
  end.

(** ** Interface *)

Inductive btc_cmd :=
| HealthOk
| Confirmations (txid : string)
| TxKnown (txid : string)
| FindExistingPayout (dest : string) (sats : Z) (known : list string)
| Build (dest : string) (sats : Z) (excludeInputs : list string)
| Broadcast (rawHex expectedTxid : string)
| BtcFulfill (txId btcTxid : string)
| Save (state : BtcState).

(** Of a count of confirmations ([number | null]), the inner [None] is NaN. *)
Definition btc_ans (c : btc_cmd) : Type :=
  match c with
  | HealthOk => bool
  | Confirmations _ => option (option Z)
  | TxKnown _ => option bool
  | FindExistingPayout _ _ _ => option string
  | Build _ _ _ => BuildResult
  | Broadcast _ _ => BroadcastResult
  | BtcFulfill _ _ => bool
  | Save _ => unit
  end.

Definition BtcI : iface := {| st := BtcState; cmd := btc_cmd; ans := btc_ans |}.

Definition bask (c : btc_cmd) : prog BtcI (btc_ans c) := call (c : cmd BtcI).
Definition getB : prog BtcI BtcState := get.
Definition putB (s : BtcState) : prog BtcI unit := put (s : st BtcI).

Record BtcCfg := {
  live : bool;
  minConfirmations : Z;
  maxSats : Z;
  btcMaxRetries : Z;
  btcDust : Z;
  isValidDest : string -> bool;
}.

Inductive BtcOutcome :=
| b_skipped_invalid | b_skipped_cap | b_needs_review | b_read_failed | b_awaiting_confirmations
| b_fulfilled | b_fulfill_refused | b_adopted | b_health_blocked | b_gave_up | b_would_pay
| b_build_failed | b_broadcast | b_broadcast_unknown | b_broadcast_rejected | b_fee_too_high
| b_below_minimum_after_fee.
#[export] Instance BtcOutcome_eq_dec : EqDecision BtcOutcome.
Proof. solve_decision. Defined.

(** Field updates of an entry. *)
Definition with_review (m : string) (e : BtcStateEntry) : BtcStateEntry := {|
  e_dest := e_dest e; e_sats := e_sats e; attempts := attempts e; btcTxid := btcTxid e;
  planned := planned e; needsReview := Some m; broadcasting := broadcasting e |}.
Definition with_txid (t : string) (e : BtcStateEntry) : BtcStateEntry := {|
  e_dest := e_dest e; e_sats := e_sats e; attempts := attempts e; btcTxid := Some t;
  planned := planned e; needsReview := needsReview e; broadcasting := broadcasting e |}.
Definition without_plan (e : BtcStateEntry) : BtcStateEntry := {|
  e_dest := e_dest e; e_sats := e_sats e; attempts := attempts e; btcTxid := btcTxid e;
  planned := None; needsReview := needsReview e; broadcasting := broadcasting e |}.
Definition not_broadcasting (e : BtcStateEntry) : BtcStateEntry := {|
  e_dest := e_dest e; e_sats := e_sats e; attempts := attempts e; btcTxid := btcTxid e;
  planned := planned e; needsReview := needsReview e; broadcasting := Some false |}.
Definition with_plan (b : BuiltPayout) (e : BtcStateEntry) : BtcStateEntry := {|
  e_dest := e_dest e; e_sats := e_sats e; attempts := attempts e + 1; btcTxid := btcTxid e;
  planned := Some b; needsReview := needsReview e; broadcasting := broadcasting e |}.

Definition fresh_entry (dest sats : string) : BtcStateEntry := {|
  e_dest := dest; e_sats := sats; attempts := 0; btcTxid := None; planned := None;
  needsReview := None; broadcasting := None |}.

(** Store the entry under [id] and save the state. *)
Definition store (id : string) (e : BtcStateEntry) : prog BtcI unit :=
  let! s := getB in
  let s' := mset id e s in
  do! putB s' in
  bask (Save s').

(** [entry] is the entry stored under [txId], with [planned] set to [p]. *)
Definition settleBroadcast (txId : string) (entry : BtcStateEntry) (p : BuiltPayout) (r : BroadcastResult)
  : prog BtcI BtcOutcome :=
  match r with
  | BAccepted t =>
      if negb (t =? bp_txid p)%string then
        do! store txId (with_review ("broadcast returned txid " +:+ t +:+ ", expected " +:+ bp_txid p) entry) in
        Ret b_needs_review
      else
        do! store txId (without_plan (with_txid (bp_txid p) entry)) in
        Ret b_broadcast
  | BUnknown _ =>
      let! s := getB in
      do! bask (Save s) in
      Ret b_broadcast_unknown
  | BRejected reason true =>
      do! store txId (with_review ("broadcast rejected, inputs already spent (" +:+ reason +:+
            ") — check custody history for a payout to " +:+ e_dest entry) entry) in
      Ret b_needs_review
  | BRejected _ false =>
      do! store txId (without_plan entry) in
      Ret b_broadcast_rejected
  end.

(** 4. New payout. *)
Definition new_payout (cfg : BtcCfg) (id dest : string) (sats : Z) (entry : BtcStateEntry)
  : prog BtcI BtcOutcome :=
  let! ok := bask HealthOk in
  if negb ok then Ret b_health_blocked else
  let! s := getB in
  let! found := attempt (bask (FindExistingPayout dest sats (knownPayoutTxids s))) in
  match found with
  | Err _ => Ret b_read_failed
  | Ok ex =>
      match given ex with
      | Some t => do! store id (with_txid t entry) in Ret b_adopted
      | None =>
          if btcMaxRetries cfg <=? attempts entry then Ret b_gave_up else
          let! s := getB in
          let! rb := attempt (bask (Build dest sats (reservedInputs s id))) in
          match rb with
          | Err _ => Ret b_build_failed
          | Ok (BuildFeeTooHigh _ _) => Ret b_fee_too_high
          | Ok (BuildBelowMinimum fee pay) =>
              if live cfg then
                do! store id (with_review (dec sats +:+ " sats owed minus " +:+ dec fee +:+
                      " sats network fee leaves " +:+ dec pay +:+ " sats (at or below dust " +:+
                      dec (btcDust cfg) +:+ ") — not paid; needs manual handling") entry) in
                Ret b_below_minimum_after_fee
              else Ret b_below_minimum_after_fee
          | Ok (Built b) =>
              if negb (live cfg) then Ret b_would_pay else
              do! store id (with_plan b entry) in
              let! r := bask (Broadcast (bp_rawHex b) (bp_txid b)) in
              settleBroadcast id (with_plan b entry) b r
          end
      end
  end.

(** [confs < min]: false on NaN. *)
Definition below (confs : option Z) (min : Z) : bool :=
  match confs with Some n => n <? min | None => false end.

(** Steps 1 to 4 for an entry without a review stop. *)
Definition advance (cfg : BtcCfg) (id dest : string) (sats : Z) (entry : BtcStateEntry) : prog BtcI BtcOutcome :=
  match given (btcTxid entry) with
  | Some t =>
      let! confs := bask (Confirmations t) in
      match confs with
      | None => Ret b_read_failed
      | Some n =>
          if below n (minConfirmations cfg) then Ret b_awaiting_confirmations else
          let! ok := bask (BtcFulfill id t) in
          Ret (if ok then b_fulfilled else b_fulfill_refused)
      end
  | None =>
  match planned entry with
  | Some p =>
      let! known := bask (TxKnown (bp_txid p)) in
      match known with
      | None => Ret b_read_failed
      | Some true =>
          do! store id (without_plan (with_txid (bp_txid p) entry)) in Ret b_broadcast
      | Some false =>
          if negb (live cfg) then Ret b_would_pay else
          let! r := bask (Broadcast (bp_rawHex p) (bp_txid p)) in
          settleBroadcast id entry p r
      end
  | None =>
      if default false (broadcasting entry) then
        let! s := getB in
        let! found := attempt (bask (FindExistingPayout dest sats (knownPayoutTxids s))) in
        match found with
        | Err _ => Ret b_read_failed
        | Ok ex =>
            match given ex with
            | Some t => do! store id (not_broadcasting (with_txid t entry)) in Ret b_adopted
            | None =>
                do! store id (with_review
                  "legacy relayer stopped mid-broadcast and no matching payout was found — check custody history before paying" entry) in
                Ret b_needs_review
            end
        end
      else new_payout cfg id dest sats entry
  end
  end.

Definition processBtcWithdrawal (cfg : BtcCfg) (w : PendingBtcWithdrawal) : prog BtcI BtcOutcome :=
  let dest := trim (p_evmAddress w) in
  let id := p_txId w in
  match BigInt_of_number (p_amountUnits w) with
  | None => Ret b_skipped_invalid
  | Some sats =>
      if sats <=? btcDust cfg then Ret b_skipped_invalid else
      if negb (isValidDest cfg dest) then Ret b_skipped_invalid else
      if (0 <? maxSats cfg) && (maxSats cfg <? sats) then Ret b_skipped_cap else
      let! s := getB in
      let! entry :=
        match mget id s with
        | Some e =>
            if negb (e_dest e =? dest)%string || negb (e_sats e =? dec sats)%string then
              let e' := with_review ("daemon record changed: state has " +:+ e_sats e +:+ " → " +:+ e_dest e
                          +:+ ", daemon now " +:+ dec sats +:+ " → " +:+ dest) e in
              do! store id e' in Ret e'
            else Ret e
        | None => Ret (fresh_entry dest (dec sats))
        end in
      match given (needsReview entry) with
      | Some _ => Ret b_needs_review
      | None => advance cfg id dest sats entry
      end
  end.
