(* ===== verification/BtcSafety.v ===== *)
(** * No second Bitcoin payment

    The rule stated at the top of [src/scripts/btc-relayer-core.ts]: a payout is signed once,
    saved before it is broadcast, and only the same bytes are ever sent again, until the network
    definitely rejects them.  It is proved for every sequence of cycles, crashes and restarts. *)
From S2P Require Import Prelude JsText JsNum JsMap Interact BtcPayout.
Local Open Scope Z_scope.
Local Open Scope prog_scope.

Abbreviation BE := (@Ev BtcI).

(** The network refused the transaction for a reason that proves it was never accepted. *)
Definition definite (r : res BroadcastResult) : bool :=
  match r with Ok (BRejected _ false) => true | _ => false end.

(** The state file after a history: the last state saved successfully, or the one before. *)
Fixpoint disk_of (d : BtcState) (h : history BtcI) : BtcState :=
  match h with
  | [] => d
  | Ev (Save q) (Ok _) :: _ => q
  | _ :: h => disk_of d h
  end.

(** The signed payout that was sent last and has not been definitely rejected. *)
Fixpoint in_flight (L : option (string * string)) (h : history BtcI) : option (string * string) :=
  match h with
  | [] => L
  | Ev c r :: h' =>
      match c as c0 return res (btc_ans c0) -> _ with
      | Broadcast raw x => fun r => if definite r then None else Some (raw, x)
      | _ => fun _ => in_flight L h'
      end r
  end.

(** An entry that keeps a sent payout: its bytes are still planned, its txid is recorded as
    broadcast, or the entry is stopped for review. *)
Definition holds (o : option BtcStateEntry) (raw x : string) : Prop :=
  exists en, o = Some en /\
    ((exists p, planned en = Some p /\ bp_rawHex p = raw /\ bp_txid p = x) \/
     given (btcTxid en) = Some x \/ given (needsReview en) <> None).

(** The entry of [t] plans the payout [p]. *)
Definition plans (s : BtcState) (t : string) (p : BuiltPayout) : Prop :=
  exists en, mget t s = Some en /\ planned en = Some p.

Definition disjoint_inputs (p q : BuiltPayout) : Prop := forall i, i ∈ bp_inputs p -> i ∉ bp_inputs q.

(** Planned payouts carry a transaction id, and no two of them spend the same output. *)
Definition wf_plans (s : BtcState) : Prop :=
  (forall t p, plans s t p -> truthy (bp_txid p) = true) /\
  (forall t1 t2 p1 p2, t1 <> t2 -> plans s t1 p1 -> plans s t2 p2 -> disjoint_inputs p1 p2).

(** Assumption on the dependencies: saving succeeds; a built payout carries its id and spends no
    excluded input. *)
Definition sound_deps (h : history BtcI) (c : btc_cmd) : res (btc_ans c) -> Prop :=
  match c with
  | Save _ => fun r => is_ok r = true
  | Build _ _ excl => fun r => forall b, r = Ok (Built b) ->
      truthy (bp_txid b) = true /\ forall i, i ∈ bp_inputs b -> i ∉ excl
  | _ => fun _ => True
  end.

Lemma fold_add_elem i l s : i ∈ foldl (fun s i => set_add i s) s l <-> i ∈ s \/ i ∈ l.
Proof.
  revert s. induction l as [|x l IH]; intros s; simpl; [rewrite elem_of_nil; tauto|].
  rewrite IH, elem_set_add, elem_of_cons. tauto.
Qed.

(** [reservedInputs] holds exactly the inputs of the other planned payouts. *)
Lemma reservedInputs_elem id s i :
  i ∈ reservedInputs s id <->
  exists t en p, (t, en) ∈ s /\ t <> id /\ planned en = Some p /\ i ∈ bp_inputs p.
Proof.
  unfold reservedInputs.
  assert (forall acc, i ∈ foldl (fun s kv => match planned (snd kv) with
      | Some p => if (fst kv =? id)%string then s else foldl (fun s i => set_add i s) s (bp_inputs p)
      | None => s end) acc s <->
    i ∈ acc \/ exists t en p, (t, en) ∈ s /\ t <> id /\ planned en = Some p /\ i ∈ bp_inputs p) as H.
  2:{ rewrite H, elem_of_nil. tauto. }
  induction s as [|[t en] s IH]; intros acc; simpl.
  - split; [by left|]. intros [?|(t & en & p & Hin & _)]; [done|by apply elem_of_nil in Hin].
  - rewrite IH. setoid_rewrite elem_of_cons.
    destruct (planned en) as [p|] eqn:Ep; [destruct (t =? id)%string eqn:Et; breflect; [|rewrite fold_add_elem]|];
      split; intros; break; naive_solver.
Qed.

Section OneRun.
Variables (id : string) (d : BtcState) (L : option (string * string)).
Hypothesis Hwfd : wf_plans d.

(** The planned payout of [id] in the state file has these bytes. *)
Definition saved_plan (s : BtcState) (raw x : string) : Prop :=
  exists en p, mget id s = Some en /\ planned en = Some p /\ bp_rawHex p = raw /\ bp_txid p = x.

Definition btc_ok (h : history BtcI) (c : btc_cmd) : Prop :=
  match c with
  | Broadcast raw x =>
      saved_plan (disk_of d h) raw x /\
      (forall raw0 x0, in_flight L h = Some (raw0, x0) -> raw = raw0 /\ x = x0)
  | Save q =>
      (forall k, k <> id -> mget k q = mget k d) /\ wf_plans q /\
      (forall raw x, in_flight L h = Some (raw, x) -> holds (mget id q) raw x)
  | _ => True
  end.

Abbreviation B p s h Q := (wp (I := BtcI) btc_ok sound_deps p s h Q).

(** The invariant between commands: memory and file agree, and hold what is in flight. *)
Record synced (s : BtcState) (h : history BtcI) : Prop := {
  sy_disk : s = disk_of d h;
  sy_frame : forall k, k <> id -> mget k s = mget k d;
  sy_wf : wf_plans s;
  sy_holds : forall raw x, in_flight L h = Some (raw, x) -> holds (mget id s) raw x;
}.

Abbreviation done_ok := (fun _ s' h' => synced s' h').

Lemma synced_read c r s h :
  match c with Save _ | Broadcast _ _ => False | _ => True end ->
  synced s h -> synced s (BE c r :: h).
Proof. intros Hc [Hd Hf Hw Hh]. destruct c; try done; by split. Qed.

Lemma B_ask c s h (Q : res (btc_ans c) -> _) :
  btc_ok h c -> (forall r, sound_deps h c r -> Q r s (BE c r :: h)) -> B (bask c) s h Q.
Proof. intros. by apply (wp_call (I := BtcI)). Qed.

(** A read: the invariant is kept. *)
Lemma B_read {A} c (k : btc_ans c -> prog BtcI A) s h :
  match c with Save _ | Broadcast _ _ => False | _ => True end -> synced s h ->
  (forall a h', sound_deps h c (Ok a) -> h' = BE c (Ok a) :: h -> synced s h' -> B (k a) s h' done_ok) ->
  B (bind (bask c) k) s h done_ok.
Proof.
  intros Hc Hs Hk. apply wp_bind, B_ask; [by destruct c|]. intros [a|m] Ha.
  - eapply Hk; [done|reflexivity|by apply synced_read].
  - by apply synced_read.
Qed.

Lemma B_try {A} c (k : res (btc_ans c) -> prog BtcI A) s h :
  match c with Save _ | Broadcast _ _ => False | _ => True end -> synced s h ->
  (forall r h', sound_deps h c r -> h' = BE c r :: h -> synced s h' -> B (k r) s h' done_ok) ->
  B (bind (attempt (bask c)) k) s h done_ok.
Proof.
  intros Hc Hs Hk. apply wp_bind, wp_attempt, B_ask; [by destruct c|]. intros r Ha.
  eapply Hk; [done|reflexivity|by apply synced_read].
Qed.

(** The plan of an entry of [id] has an id and is disjoint from the other plans. *)
Definition plan_ok (en : BtcStateEntry) : Prop := forall p, planned en = Some p ->
  truthy (bp_txid p) = true /\ forall t q, t <> id -> plans d t q -> disjoint_inputs p q.

Lemma disjoint_inputs_sym p q : disjoint_inputs p q -> disjoint_inputs q p.
Proof. unfold disjoint_inputs. naive_solver. Qed.

Lemma plans_mset s en t p :
  (forall k, k <> id -> mget k s = mget k d) -> plans (mset id en s) t p ->
  (t = id /\ planned en = Some p) \/ (t <> id /\ plans d t p).
Proof.
  intros Hf (e & Hg & Hp). destruct (decide (t = id)) as [->|Hne].
  - rewrite mget_mset_eq in Hg. injection Hg as <-. by left.
  - rewrite mget_mset_ne, Hf in Hg by done. right. split; [done|]. by exists e.
Qed.

Lemma wf_plans_mset s en :
  (forall k, k <> id -> mget k s = mget k d) -> wf_plans d -> plan_ok en -> wf_plans (mset id en s).
Proof.
  intros Hf [Hi Hd] He. split.
  - intros t p Hp. destruct (plans_mset _ _ _ _ Hf Hp) as [[-> ?]|[? ?]]; [by apply He|by eapply Hi].
  - intros t1 t2 p1 p2 Hne Hp1 Hp2.
    destruct (plans_mset _ _ _ _ Hf Hp1) as [[-> H1]|[Hn1 H1]],
      (plans_mset _ _ _ _ Hf Hp2) as [[-> H2]|[Hn2 H2]]; try done.
    + by apply (proj2 (He _ H1) t2).
    + by apply disjoint_inputs_sym, (proj2 (He _ H2) t1).
    + by apply (Hd t1 t2).
Qed.

(** The base of [synced] without the hold: what a store re-establishes. *)
Definition pre_store (s : BtcState) : Prop := (forall k, k <> id -> mget k s = mget k d) /\ wf_plans s.

Lemma B_store {A} en (k : unit -> prog BtcI A) s h :
  pre_store s -> plan_ok en ->
  (forall raw x, in_flight L h = Some (raw, x) -> holds (Some en) raw x) ->
  (forall s' h', synced s' h' -> mget id s' = Some en -> in_flight L h' = in_flight L h -> B (k tt) s' h' done_ok) ->
  B (bind (store id en) k) s h done_ok.
Proof.
  intros [Hf Hw] He Hh Hk. apply wp_bind. unfold store.
  apply wp_bind, (wp_get (I := BtcI)). cbv zeta. apply wp_bind, (wp_put (I := BtcI)).
  set (s' := mset id en s).
  assert (forall k, k <> id -> mget k s' = mget k d) as Hf'
    by (intros k0 Hne; unfold s'; rewrite mget_mset_ne by done; auto).
  assert (mget id s' = Some en) as Hg by apply mget_mset_eq.
  assert (wf_plans s') as Hw' by by apply wf_plans_mset.
  apply B_ask; [split; [done|]; split; [done|]; by rewrite Hg|].
  intros [[]|m] Hr; [|done]. apply Hk; [|done|done]. split; [done..|]. by rewrite Hg.
Qed.

Lemma B_store_end en (o : BtcOutcome) s h :
  pre_store s -> plan_ok en ->
  (forall raw x, in_flight L h = Some (raw, x) -> holds (Some en) raw x) ->
  B (bind (store id en) (fun _ => Ret o)) s h done_ok.
Proof. intros ? ? ?. apply B_store; [done..|]. by intros s' h' Hs' _ _. Qed.

Lemma synced_pre s h : synced s h -> pre_store s.
Proof. by intros []. Qed.

Lemma stored_plan_ok s h en : synced s h -> mget id s = Some en -> plan_ok en.
Proof.
  intros Hs Hg p Hp. destruct (sy_wf _ _ Hs) as [Hi Hd].
  assert (plans s id p) as Hpl by by exists en.
  split; [by eapply Hi|]. intros t q Hne (e & Hge & Hq). apply (Hd id t); [done|done|].
  exists e. by rewrite (sy_frame _ _ Hs).
Qed.

Lemma btc_settle_spec en p raw x r s h0 :
  synced s h0 -> mget id s = Some en -> planned en = Some p -> bp_rawHex p = raw -> bp_txid p = x ->
  B (settleBroadcast id en p r) s (BE (Broadcast raw x) (Ok r) :: h0) done_ok.
Proof.
  intros Hs Hg Hp Hraw Hx.
  pose proof (stored_plan_ok _ _ _ Hs Hg) as Hpo.
  assert (truthy x = true) as Htx by (rewrite <- Hx; by apply Hpo).
  pose proof (synced_pre _ _ Hs) as Hpre.
  unfold settleBroadcast. destruct r as [t|reason []|reason].
  - destruct (t =? bp_txid p)%string; simpl negb; cbv iota.
    + apply B_store_end; [done|done|]. simpl. intros ? ? [= <- <-]. eexists. split; [done|].
      right; left. simpl. by rewrite Hx, Htx.
    + apply B_store_end; [done|done|]. simpl. intros ? ? [= <- <-]. eexists. split; [done|]. by right; right.
  - apply B_store_end; [done|done|]. simpl. intros ? ? [= <- <-]. eexists. split; [done|]. by right; right.
  - by apply B_store_end.
  - apply wp_bind, (wp_get (I := BtcI)).
    assert (forall raw1 x1, Some (raw, x) = Some (raw1, x1) -> holds (mget id s) raw1 x1) as Hh.
    { intros ? ? [= <- <-]. exists en. split; [done|]. left. eauto. }
    apply wp_bind, B_ask; [split; [apply Hpre|]; split; [apply Hpre|done]|].
    intros [[]|m] Hr; [|done]. split; [done|apply Hpre..|done].
Qed.

Lemma broadcast_settle en p s h :
  synced s h -> mget id s = Some en -> planned en = Some p ->
  (forall raw0 x0, in_flight L h = Some (raw0, x0) -> bp_rawHex p = raw0 /\ bp_txid p = x0) ->
  B (let! r := bask (Broadcast (bp_rawHex p) (bp_txid p)) in settleBroadcast id en p r) s h done_ok.
Proof.
  intros Hs Hg Hp Hfl. apply wp_bind, B_ask.
  { split; [|done]. rewrite <- (sy_disk _ _ Hs). by exists en, p. }
  intros [r|m] _; [by apply btc_settle_spec|].
  split; [apply Hs|apply Hs|apply Hs|]. simpl. intros ? ? [= <- <-]. exists en. split; [done|]. left. eauto.
Qed.

(** The entry a run works on: the stored one, or a fresh one. *)
Definition current (s : BtcState) (en : BtcStateEntry) : Prop :=
  mget id s = Some en \/ (mget id s = None /\ planned en = None).

(** An entry with nothing sent, planned or stopped: nothing is in flight. *)
Lemma nothing_in_flight s h en :
  synced s h -> current s en -> given (btcTxid en) = None -> planned en = None ->
  given (needsReview en) = None -> in_flight L h = None.
Proof.
  intros Hs Hc Hb Hp Hn. destruct (in_flight L h) as [[raw x]|] eqn:E; [|done].
  destruct (sy_holds _ _ Hs _ _ E) as (e & He & Hcase).
  destruct Hc as [Hc|[Hc _]]; rewrite Hc in He; [injection He as <-|done].
  destruct Hcase as [(p & ? & _)|[?|?]]; congruence.
Qed.

Ltac free Hfl := intros ? ? ?; exfalso; simpl in *; congruence.

Lemma new_payout_spec cfg dest sats en s h :
  synced s h -> planned en = None -> in_flight L h = None ->
  B (new_payout cfg id dest sats en) s h done_ok.
Proof.
  intros Hs Hp Hfl. unfold new_payout.
  assert (plan_ok en) as Hpo by (intros q; congruence).
  apply B_read; [done|done|]. intros ok h1 _ -> Hs1. destruct (negb ok); [done|].
  apply wp_bind, (wp_get (I := BtcI)). apply B_try; [done|done|]. intros [ex|m] h2 _ -> Hs2; [|done].
  destruct (given ex) as [t|].
  { apply B_store_end; [by eapply synced_pre|done|]. free Hfl. }
  destruct (_ <=? _); [done|]. apply wp_bind, (wp_get (I := BtcI)).
  apply B_try; [done|done|]. intros [[b|f m|f pay]|m] h3 Hb -> Hs3; [|done| |done].
  - destruct (live cfg); simpl negb; cbv iota; [|done].
    apply B_store; [by eapply synced_pre| |free Hfl|].
    { intros q. simpl. intros [= <-]. destruct (Hb b eq_refl) as [? Hex]. split; [done|].
      intros t q Hne (e & Hge & Hq) i Hi Hin. apply (Hex i Hi), reservedInputs_elem.
      exists t, e, q. split; [|done]. apply mget_elem. by rewrite (sy_frame _ _ Hs). }
    intros s4 h4 Hs4 Hg4 Hf4. apply broadcast_settle; [done|done|done|].
    intros raw0 x0. rewrite Hf4. simpl. congruence.
  - destruct (live cfg); [|done]. apply B_store_end; [by eapply synced_pre|done|]. free Hfl.
Qed.

Lemma advance_spec cfg dest sats en s h :
  synced s h -> current s en -> given (needsReview en) = None ->
  B (advance cfg id dest sats en) s h done_ok.
Proof.
  intros Hs Hc Hn. unfold advance.
  destruct (given (btcTxid en)) as [t|] eqn:Eb.
  { apply B_read; [done|done|]. intros [n|] h1 _ _ Hs1; [|done]. destruct (below _ _); [done|].
    apply B_read; [done|done|]. by intros ok h2 _ _ Hs2. }
  destruct (planned en) as [p|] eqn:Ep.
  { destruct Hc as [Hc|[_ Hc]]; [|congruence].
    assert (forall raw0 x0, in_flight L h = Some (raw0, x0) -> bp_rawHex p = raw0 /\ bp_txid p = x0) as Hfl.
    { intros raw0 x0 E. destruct (sy_holds _ _ Hs _ _ E) as (e & He & Hcase).
      rewrite Hc in He. injection He as <-. destruct Hcase as [(q & Hq & ? & ?)|[?|?]]; [|congruence..].
      rewrite Ep in Hq. by injection Hq as <-. }
    assert (truthy (bp_txid p) = true) as Htx by by apply (stored_plan_ok _ _ _ Hs Hc).
    assert (plan_ok en) as Hpo by by eapply stored_plan_ok.
    apply B_read; [done|done|]. intros known h1 _ -> Hs1. destruct known as [[]|]; [| |done].
    - apply B_store_end; [by eapply synced_pre|done|]. intros raw x E. simpl in E.
      destruct (Hfl _ _ E) as [_ <-]. eexists. split; [done|]. right; left. simpl. by rewrite Htx.
    - destruct (live cfg); simpl negb; cbv iota; [|done]. by apply broadcast_settle. }
  pose proof (nothing_in_flight _ _ _ Hs Hc Eb Ep Hn) as Hfl.
  destruct (default false (broadcasting en)); [|by apply new_payout_spec].
  assert (plan_ok en) as Hpo by (intros q; congruence).
  apply wp_bind, (wp_get (I := BtcI)). apply B_try; [done|done|]. intros [ex|m] h2 _ -> Hs2; [|done].
  destruct (given ex) as [t|]; (apply B_store_end; [by eapply synced_pre|done|]; free Hfl).
Qed.

Lemma process_btc_spec cfg w s h :
  p_txId w = id -> synced s h -> B (processBtcWithdrawal cfg w) s h done_ok.
Proof.
  intros Hid Hs. unfold processBtcWithdrawal. destruct (BigInt_of_number _) as [sats|]; [|done].
  destruct (_ <=? _); [done|]. destruct (negb (isValidDest _ _)); [done|]. destruct (_ && _); [done|].
  rewrite Hid. apply wp_bind, (wp_get (I := BtcI)).
  destruct (mget id s) as [e|] eqn:Eg.
  2:{ apply wp_bind, wp_ret, advance_spec; [done|by right|done]. }
  assert (plan_ok e) as Hpo by by eapply stored_plan_ok.
  destruct (_ || _).
  - cbv zeta. apply wp_bind, wp_bind. unfold store. apply wp_bind, (wp_get (I := BtcI)). cbv zeta.
    apply wp_bind, (wp_put (I := BtcI)).
    set (e' := with_review _ e).
    assert (forall raw x, in_flight L h = Some (raw, x) -> holds (mget id (mset id e' s)) raw x) as Hh.
    { intros. rewrite mget_mset_eq. exists e'. split; [done|]. by right; right. }
    assert (wf_plans (mset id e' s)) as Hw by (by apply wf_plans_mset; [apply Hs|..]).
    assert (forall k, k <> id -> mget k (mset id e' s) = mget k d) as Hf
      by (intros k Hne; rewrite mget_mset_ne by done; by apply Hs).
    apply B_ask; [done|]. intros [[]|m] Hr; [|done]. simpl. by split.
  - apply wp_bind, wp_ret. destruct (given (needsReview e)) eqn:En; [done|].
    apply advance_spec; [done|by left|done].
Qed.

(** At every point of a run the state file holds what is in flight. *)
Lemma prefix_holds h :
  guarded btc_ok h -> (forall raw x, L = Some (raw, x) -> holds (mget id d) raw x) ->
  (forall k, k <> id -> mget k (disk_of d h) = mget k d) /\ wf_plans (disk_of d h) /\
  (forall raw x, in_flight L h = Some (raw, x) -> holds (mget id (disk_of d h)) raw x).
Proof.
  intros Hg Hh. induction h as [|[c r] h IH]; [done|]. destruct Hg as [Hok Hg].
  specialize (IH Hg). destruct c; try done.
  - split; [apply IH|]. split; [apply IH|]. simpl. destruct (definite r); [done|].
    intros ? ? [= <- <-]. destruct Hok as [(en & p & ? & ? & ? & ?) _].
    exists en. split; [done|]. left. eauto.
  - destruct r; [|done]. destruct Hok as (? & ? & ?). done.
Qed.
End OneRun.

(** ** Cycles, crashes and restarts *)

(** The relayer's memory, its state file, and the commands of all cycles with their answers
    (newest first), each with the withdrawal it was issued for. *)
Record system := { mem : BtcState; disk : BtcState; log : list (string * event BtcI) }.

Definition tagged (id : string) (h : history BtcI) : list (string * event BtcI) := map (pair id) h.

(** One cycle on one withdrawal, with any configuration and dependencies that satisfy the
    assumption: it runs to its end (or to an exception), or the process crashes after any of its
    commands and restarts from the state file. *)
Inductive step : system -> system -> Prop :=
| step_cycle cfg w e sys o m' h :
    respects sound_deps e ->
    run e (processBtcWithdrawal cfg w) (mem sys) [] = (o, m', h) ->
    step sys {| mem := m'; disk := disk_of (disk sys) h; log := tagged (p_txId w) h ++ log sys |}
| step_crash cfg w e sys o m' post pre :
    respects sound_deps e ->
    run e (processBtcWithdrawal cfg w) (mem sys) [] = (o, m', post ++ pre) ->
    step sys {| mem := disk_of (disk sys) pre; disk := disk_of (disk sys) pre;
                log := tagged (p_txId w) pre ++ log sys |}.

(** The commands issued for one withdrawal. *)
Fixpoint of_id (id : string) (l : list (string * event BtcI)) : history BtcI :=
  match l with
  | [] => []
  | (t, ev) :: l' => if (t =? id)%string then ev :: of_id id l' else of_id id l'
  end.

(** The payout of a withdrawal that was sent last and not definitely rejected since. *)
Definition sent_payout (id : string) (l : list (string * event BtcI)) : option (string * string) :=
  in_flight None (of_id id l).

Lemma of_id_app id l k : of_id id (l ++ k) = of_id id l ++ of_id id k.
Proof. induction l as [|[t ev] l IH]; simpl; [done|]. rewrite IH. by destruct (t =? id)%string. Qed.

Lemma of_id_tagged id h : of_id id (tagged id h) = h.
Proof. induction h as [|ev h IH]; simpl; [done|]. by rewrite String.eqb_refl, IH. Qed.

Lemma of_id_other id t h : t <> id -> of_id id (tagged t h) = [].
Proof. intros Hne. induction h as [|ev h IH]; simpl; [done|]. by rewrite (proj2 (String.eqb_neq t id)). Qed.

Lemma in_flight_app L h k : in_flight L (h ++ k) = in_flight (in_flight L k) h.
Proof. induction h as [|[c r] h IH]; simpl; [done|]. by destruct c. Qed.

(** Every broadcast of the log: the bytes are those of the payout in flight, if there is one. *)
Fixpoint never_resigned (l : list (string * event BtcI)) : Prop :=
  match l with
  | [] => True
  | (t, Ev (Broadcast raw x) _) :: l' =>
      (forall raw0 x0, sent_payout t l' = Some (raw0, x0) -> raw = raw0 /\ x = x0) /\ never_resigned l'
  | _ :: l' => never_resigned l'
  end.

Record sys_inv (sys : system) : Prop := {
  si_synced : mem sys = disk sys;
  si_wf : wf_plans (disk sys);
  si_holds : forall t raw x, sent_payout t (log sys) = Some (raw, x) -> holds (mget t (disk sys)) raw x;
  si_log : never_resigned (log sys);
}.

Lemma never_resigned_run id L d h l :
  guarded (btc_ok id d L) h -> sent_payout id l = L -> never_resigned l -> never_resigned (tagged id h ++ l).
Proof.
  intros Hg HL Hl. induction h as [|[c r] h IH]; [done|]. destruct Hg as [Hok Hg]. specialize (IH Hg).
  destruct c; try done. simpl. split; [|done]. unfold sent_payout.
  rewrite of_id_app, of_id_tagged, in_flight_app. fold (sent_payout id l). rewrite HL. apply Hok.
Qed.

(** A prefix of a guarded run keeps the invariant when the process restarts from the file. *)
Lemma inv_prefix sys id h :
  sys_inv sys -> guarded (btc_ok id (disk sys) (sent_payout id (log sys))) h ->
  sys_inv {| mem := disk_of (disk sys) h; disk := disk_of (disk sys) h; log := tagged id h ++ log sys |}.
Proof.
  intros [Hm Hw Hh Hl] Hg.
  destruct (prefix_holds _ _ _ Hw _ Hg (Hh id)) as (Hfr & Hw' & Hh').
  split; simpl; [done|done| |by eapply never_resigned_run].
  intros t raw x. unfold sent_payout. rewrite of_id_app.
  destruct (decide (t = id)) as [->|Hne].
  - rewrite of_id_tagged, in_flight_app. apply Hh'.
  - rewrite of_id_other by done. simpl. rewrite Hfr by done. apply Hh.
Qed.

Lemma run_guarded cfg w e sys o m' h :
  sys_inv sys -> respects sound_deps e ->
  run e (processBtcWithdrawal cfg w) (mem sys) [] = (o, m', h) ->
  m' = disk_of (disk sys) h /\
  guarded (btc_ok (p_txId w) (disk sys) (sent_payout (p_txId w) (log sys))) h.
Proof.
  intros [Hm Hw Hh Hl] He Hrun.
  assert (synced (p_txId w) (disk sys) (sent_payout (p_txId w) (log sys)) (mem sys) []) as Hs0.
  { rewrite Hm. split; [done|done|done|]. intros raw x. apply Hh. }
  pose proof (wp_run (I := BtcI) _ _ e _ _ [] _ He Logic.I
    (process_btc_spec _ _ _ Hw cfg w _ [] eq_refl Hs0)) as H.
  rewrite Hrun in H. destruct H as [Hs Hg]. split; [apply Hs|done].
Qed.

Lemma step_inv sys sys' : sys_inv sys -> step sys sys' -> sys_inv sys'.
Proof.
  intros Hi Hst. destruct Hst as [cfg w e sys o m' h He Hrun|cfg w e sys o m' post pre He Hrun];
    destruct (run_guarded _ _ _ _ _ _ _ Hi He Hrun) as [Hm Hg].
  - rewrite Hm. by apply inv_prefix.
  - apply guarded_app in Hg. by apply inv_prefix.
Qed.

Lemma reach_inv s0 sys :
  wf_plans s0 -> rtc step {| mem := s0; disk := s0; log := [] |} sys -> sys_inv sys.
Proof.
  intros Hwf Hreach. assert (sys_inv {| mem := s0; disk := s0; log := [] |}) as H0 by by split.
  revert H0. induction Hreach as [|x y z Hxy _ IH]; [done|]. intros H0. apply IH. by eapply step_inv.
Qed.

(** C20: the rule that prevents double payment.  Start from any state file with well-formed plans
    and let any sequence of cycles, exceptions, crashes and restarts happen, with any
    configuration and any answers of Esplora and of the daemon, provided that saving the state
    file succeeds and that built payouts carry their id and avoid the excluded inputs.  Whenever
    a transaction is broadcast for a withdrawal and an earlier one was broadcast for it that has
    not been definitely rejected since, the two have the same bytes and the same id.  Memory and
    state file agree after every step. *)
Theorem btc_never_resigned s0 sys
    (Hwf : wf_plans s0) (Hreach : rtc step {| mem := s0; disk := s0; log := [] |} sys) :
  never_resigned (log sys) /\ mem sys = disk sys.
Proof. by destruct (reach_inv _ _ Hwf Hreach). Qed.

(** payouts in flight never compete for coins.  In every state reached by cycles, exceptions,
    crashes and restarts under the same assumptions, the planned payouts of two different
    withdrawals spend different custody outputs. *)
Theorem btc_plans_disjoint s0 sys t1 t2 p1 p2
    (Hwf : wf_plans s0) (Hreach : rtc step {| mem := s0; disk := s0; log := [] |} sys)
    (Hne : t1 <> t2) (H1 : plans (mem sys) t1 p1) (H2 : plans (mem sys) t2 p2) :
  disjoint_inputs p1 p2.
Proof.
  destruct (reach_inv _ _ Hwf Hreach) as [Hm [_ Hd] _ _]. rewrite Hm in H1, H2. by apply (Hd t1 t2).
Qed.

(** ** Evidence before each outgoing action *)

Section Evidence.
Variables (cfg : BtcCfg) (w : PendingBtcWithdrawal) (s : BtcState).

(** No payout of the withdrawal exists: the custody history was read just now, skipping exactly
    the transactions already attributed, and the daemon was healthy just before. *)
Definition no_existing_payout (h : history BtcI) (sats : Z) : Prop :=
  exists r h', h = BE (FindExistingPayout (trim (p_evmAddress w)) sats (knownPayoutTxids s)) (Ok r)
                   :: BE HealthOk (Ok true) :: h' /\ given r = None.

(** The daemon record matches the stored one, if there is one, which is not stopped for review. *)
Definition record_unchanged (sats : Z) : Prop :=
  forall e, mget (p_txId w) s = Some e ->
    e_dest e = trim (p_evmAddress w) /\ e_sats e = dec sats /\ given (needsReview e) = None.

Definition payable (sats : Z) : Prop :=
  BigInt_of_number (p_amountUnits w) = Some sats /\ btcDust cfg < sats /\
  isValidDest cfg (trim (p_evmAddress w)) = true /\ (0 < maxSats cfg -> sats <= maxSats cfg) /\
  record_unchanged sats.

Definition btc_evidence (h : history BtcI) (c : btc_cmd) : Prop :=
  match c with
  | Build dest sats excl =>
      payable sats /\ dest = trim (p_evmAddress w) /\ excl = reservedInputs s (p_txId w) /\
      no_existing_payout h sats
  | Broadcast raw x =>
      live cfg = true /\ (exists sats, payable sats) /\
      ((exists b sats q r h', h = BE (Save q) r :: BE (Build (trim (p_evmAddress w)) sats
            (reservedInputs s (p_txId w))) (Ok (Built b)) :: h' /\ bp_rawHex b = raw /\ bp_txid b = x /\
            plans q (p_txId w) b) \/
       (exists p h', h = BE (TxKnown x) (Ok (Some false)) :: h' /\ plans s (p_txId w) p /\
            bp_rawHex p = raw /\ bp_txid p = x))
  | BtcFulfill t x =>
      t = p_txId w /\ (exists sats, payable sats) /\
      (exists e, mget t s = Some e /\ btcTxid e = Some x) /\
      exists n h', h = BE (Confirmations x) (Ok (Some n)) :: h' /\ below n (minConfirmations cfg) = false
  | _ => True
  end.

Abbreviation B p s1 h Q := (wp (I := BtcI) btc_evidence anything p s1 h Q).
Abbreviation fine := (fun _ _ _ => True).

Lemma E_ask c s1 h (Q : res (btc_ans c) -> _) :
  btc_evidence h c -> (forall r, Q r s1 (BE c r :: h)) -> B (bask c) s1 h Q.
Proof. intros. apply (wp_call (I := BtcI)); auto. Qed.

Lemma E_store_gen {A} en (k : unit -> prog BtcI A) s1 h Q :
  (forall m s' h', Q (Err m) s' h') ->
  (forall r, B (k tt) (mset (p_txId w) en s1) (BE (Save (mset (p_txId w) en s1)) r :: h) Q) ->
  B (bind (store (p_txId w) en) k) s1 h Q.
Proof.
  intros Hm Hk. apply wp_bind. unfold store. apply wp_bind, (wp_get (I := BtcI)). cbv zeta.
  apply wp_bind, (wp_put (I := BtcI)), E_ask; [done|]. intros [[]|m]; [apply Hk|apply Hm].
Qed.

Lemma E_store {A} en (k : unit -> prog BtcI A) s1 h :
  (forall r, B (k tt) (mset (p_txId w) en s1) (BE (Save (mset (p_txId w) en s1)) r :: h) fine) ->
  B (bind (store (p_txId w) en) k) s1 h fine.
Proof. by apply E_store_gen. Qed.

Lemma E_settle en p r s1 h : B (settleBroadcast (p_txId w) en p r) s1 h fine.
Proof.
  unfold settleBroadcast. destruct r as [t|reason []|reason]; try (by apply E_store; intros).
  - destruct (negb _); by apply E_store; intros.
  - apply wp_bind, (wp_get (I := BtcI)), wp_bind, E_ask; [done|]. by intros [[]|m].
Qed.

Lemma E_broadcast en p s1 h :
  btc_evidence h (Broadcast (bp_rawHex p) (bp_txid p)) ->
  B (let! r := bask (Broadcast (bp_rawHex p) (bp_txid p)) in settleBroadcast (p_txId w) en p r) s1 h fine.
Proof. intros H. apply wp_bind, E_ask; [done|]. intros [r|m]; [apply E_settle|done]. Qed.

Lemma E_new_payout sats en h :
  payable sats -> B (new_payout cfg (p_txId w) (trim (p_evmAddress w)) sats en) s h fine.
Proof.
  intros Hpay. unfold new_payout. apply wp_bind, E_ask; [done|]. intros [[]|m]; [|done..]. simpl negb. cbv iota.
  apply wp_bind, (wp_get (I := BtcI)), wp_bind, wp_attempt, E_ask; [done|]. intros [ex|m]; [|done].
  destruct (given ex) as [t|] eqn:Eg; [by apply E_store; intros|]. destruct (_ <=? _); [done|].
  apply wp_bind, (wp_get (I := BtcI)), wp_bind, wp_attempt, E_ask.
  { split; [done|]. split; [done|]. split; [done|]. by eexists _, _. }
  intros [[b|f m|f pay]|m]; [|done| |done].
  - destruct (live cfg) eqn:El; simpl negb; cbv iota; [|done]. apply E_store. intros r. apply E_broadcast.
    split; [done|]. split; [by exists sats|]. left. eexists b, sats, _, r, _. split; [done|].
    split; [done|]. split; [done|]. exists (with_plan b en). split; [apply mget_mset_eq|done].
  - destruct (live cfg); [by apply E_store; intros|done].
Qed.

Lemma given_Some o x : given o = Some x -> o = Some x.
Proof. unfold given. destruct o as [y|]; [|done]. by destruct (truthy y). Qed.

Lemma E_advance sats en h :
  payable sats -> mget (p_txId w) s = Some en \/ en = fresh_entry (trim (p_evmAddress w)) (dec sats) ->
  B (advance cfg (p_txId w) (trim (p_evmAddress w)) sats en) s h fine.
Proof.
  intros Hpay Hen. unfold advance. destruct (given (btcTxid en)) as [t|] eqn:Eb.
  { apply wp_bind, E_ask; [done|]. intros [[n|]|m]; [|done..]. destruct (below n _) eqn:En; [done|].
    apply given_Some in Eb. destruct Hen as [Hen| ->]; [|done].
    apply wp_bind, E_ask; [|by intros [[]|]].
    split; [done|]. split; [by exists sats|]. split; [by exists en|]. by eexists _, _. }
  destruct (planned en) as [p|] eqn:Ep.
  { destruct Hen as [Hen| ->]; [|done].
    apply wp_bind, E_ask; [done|]. intros [[[]|]|m]; [|destruct (live cfg) eqn:El|done..]; [by apply E_store; intros| |done].
    simpl negb. cbv iota. apply E_broadcast. split; [done|]. split; [by exists sats|]. right.
    eexists p, _. split; [done|]. split; [by exists en|done]. }
  destruct (default false _); [|by apply E_new_payout].
  apply wp_bind, (wp_get (I := BtcI)), wp_bind, wp_attempt, E_ask; [done|]. intros [ex|m]; [|done].
  destruct (given ex); by apply E_store; intros.
Qed.

Lemma E_process h : B (processBtcWithdrawal cfg w) s h fine.
Proof.
  unfold processBtcWithdrawal. destruct (BigInt_of_number _) as [sats|] eqn:Es; [|done].
  destruct (sats <=? _) eqn:E1; [done|]. destruct (isValidDest _ _) eqn:E2; [|done]. simpl negb. cbv iota.
  destruct (_ && _) eqn:E3; [done|]. apply wp_bind, (wp_get (I := BtcI)).
  assert (record_unchanged sats -> payable sats) as Hpay by (intros; breflect; do 4 (split; [done || lia|]); done).
  destruct (mget (p_txId w) s) as [e|] eqn:Eg.
  2:{ apply wp_bind, wp_ret, E_advance; [|by right]. apply Hpay. intros e. congruence. }
  destruct (_ || _) eqn:E4.
  - cbv zeta. by apply wp_bind, E_store_gen.
  - apply wp_bind, wp_ret. destruct (given (needsReview e)) eqn:En; [done|].
    apply E_advance; [|by left]. apply Hpay. intros e' He'. rewrite Eg in He'. injection He' as <-.
    breflect. naive_solver.
Qed.
End Evidence.


(** ** Dry run *)

(** Every plan of [q] is a plan of [s], and no entry counts more attempts. *)
Definition no_new_plan (s q : BtcState) : Prop :=
  forall t, (forall p, plans q t p -> plans s t p) /\
    forall e, mget t q = Some e -> attempts e = default 0 (attempts <$> mget t s).

Definition dry_cmd (s0 : BtcState) (c : btc_cmd) : Prop :=
  match c with Broadcast _ _ => False | Save q => no_new_plan s0 q | _ => True end.

Section DryRun.
Variables (cfg : BtcCfg) (s0 : BtcState).
Hypothesis Hdry : live cfg = false.
Abbreviation B p s h Q := (wp (I := BtcI) (fun _ => dry_cmd s0) anything p s h Q).
Abbreviation dry := (fun _ s' _ => no_new_plan s0 s').

Lemma D_ask c s h (Q : res (btc_ans c) -> _) :
  dry_cmd s0 c -> (forall r, Q r s (BE c r :: h)) -> B (bask c) s h Q.
Proof. intros. apply (wp_call (I := BtcI)); auto. Qed.

(** An entry that adds no plan and no attempt. *)
Definition tame (id : string) (en : BtcStateEntry) : Prop :=
  (forall p, planned en = Some p -> plans s0 id p) /\ attempts en = default 0 (attempts <$> mget id s0).

Lemma D_store {A} id en (k : unit -> prog BtcI A) s h Q :
  no_new_plan s0 s -> tame id en -> (forall m s' h', no_new_plan s0 s' -> Q (Err m) s' h') ->
  (forall h', no_new_plan s0 (mset id en s) -> B (k tt) (mset id en s) h' Q) ->
  B (bind (store id en) k) s h Q.
Proof.
  intros Hs [Hp Ha] Hm Hk.
  assert (no_new_plan s0 (mset id en s)) as Hn.
  { intros t. destruct (decide (t = id)) as [->|Hne]; unfold plans.
    - rewrite mget_mset_eq. split; [intros p (e & [= <-] & ?); by apply Hp|]. by intros e [= <-].
    - rewrite mget_mset_ne by done. apply Hs. }
  apply wp_bind. unfold store. apply wp_bind, (wp_get (I := BtcI)). cbv zeta.
  apply wp_bind, (wp_put (I := BtcI)), D_ask; [done|]. intros [[]|m]; [by apply Hk|by apply Hm].
Qed.

Lemma D_advance id dest sats en s h :
  no_new_plan s0 s -> tame id en -> B (advance cfg id dest sats en) s h dry.
Proof.
  intros Hs Hen.
  assert (forall (en' : BtcStateEntry) (o : BtcOutcome) s1 h1, no_new_plan s0 s1 -> tame id en' ->
    B (bind (store id en') (fun _ => Ret o)) s1 h1 dry) as Hend by (intros; by apply D_store).
  unfold advance. destruct (given (btcTxid en)) as [t|].
  { apply wp_bind, D_ask; [done|]. intros [[n|]|m]; [|done..]. destruct (below _ _); [done|].
    apply wp_bind, D_ask; [done|]. by intros [[]|]. }
  destruct (planned en) as [p|] eqn:Ep.
  { apply wp_bind, D_ask; [done|]. intros [[[]|]|m]; [|by rewrite Hdry|done..].
    apply Hend; [done|]. split; [done|apply Hen]. }
  destruct (default false _).
  { apply wp_bind, (wp_get (I := BtcI)), wp_bind, wp_attempt, D_ask; [done|]. intros [ex|m]; [|done].
    destruct (given ex); apply Hend; try done; split; try apply Hen. }
  unfold new_payout. apply wp_bind, D_ask; [done|]. intros [[]|m]; [|done..]. simpl negb. cbv iota.
  apply wp_bind, (wp_get (I := BtcI)), wp_bind, wp_attempt, D_ask; [done|]. intros [ex|m]; [|done].
  destruct (given ex) as [t|]; [apply Hend; [done|]; split; apply Hen|]. destruct (_ <=? _); [done|].
  apply wp_bind, (wp_get (I := BtcI)), wp_bind, wp_attempt, D_ask; [done|].
  intros [[b|f m|f pay]|m]; rewrite ?Hdry; done.
Qed.

Lemma D_process w h : B (processBtcWithdrawal cfg w) s0 h dry.
Proof.
  unfold processBtcWithdrawal. assert (no_new_plan s0 s0) as Hs0.
  { intros t. split; [done|]. by intros e ->. }
  destruct (BigInt_of_number _) as [sats|]; [|done]. destruct (_ <=? _); [done|].
  destruct (negb _); [done|]. destruct (_ && _); [done|]. apply wp_bind, (wp_get (I := BtcI)).
  destruct (mget (p_txId w) s0) as [e|] eqn:Eg.
  2:{ apply wp_bind, wp_ret, D_advance; [done|]. split; [done|]. simpl. by rewrite Eg. }
  assert (tame (p_txId w) e) as Ht by (split; [intros p Hp; by exists e|by rewrite Eg]).
  destruct (_ || _).
  - cbv zeta. apply wp_bind, D_store; [done|split; apply Ht|done|done].
  - apply wp_bind, wp_ret. destruct (given (needsReview e)); [done|]. by apply D_advance.
Qed.
End DryRun.

(** A dry run sends nothing.  Without live mode a run of [processBtcWithdrawal] broadcasts no
    transaction, and no state it saves or leaves in memory has a new planned payout or a higher
    attempt count, whatever the dependencies answer. *)
Theorem btc_dry_run cfg w e s (Hdry : live cfg = false) :
  guarded (I := BtcI) (fun _ => dry_cmd s) (trace e (processBtcWithdrawal cfg w) s) /\
  no_new_plan s (final e (processBtcWithdrawal cfg w) s).
Proof.
  pose proof (D_process cfg s Hdry w []) as H.
  split; [by eapply (wp_guarded (I := BtcI))|by eapply (wp_post (I := BtcI) _ e) in H].
Qed.
