(* ===== verification/BtcDemo.v ===== *)
(** * Concrete runs of the Bitcoin payout decision

    Witnesses of the claims on cycles and crashes, the classification of broadcast answers, and
    the run in which a failed save is followed by a broadcast of unsaved bytes. *)
From S2P Require Import Prelude JsText JsNum JsMap Interact BtcPayout BtcSafety.
Local Open Scope Z_scope.
Local Open Scope string_scope.

(** ** Classification of broadcast answers *)

(** When a payout may be dropped.  An Esplora answer is classified as a definite rejection
    that allows building another payout ([rejected] with [inputsSpent = false]) only for a 4xx
    status whose text, ignoring case, neither says that the transaction is already known nor that
    its inputs are spent; no answer at all, and any 5xx, is [unknown] unless the text says the
    transaction is already known; a success is accepted only with a 64-digit hexadecimal id. *)
Theorem classify_broadcast status body x :
  (forall reason, classifyBroadcastResponse status body x = BRejected reason false ->
     exists st, status = Some st /\ 400 <= st < 500 /\
       any_of already_known_patterns (trim body) = false /\ any_of inputs_spent_patterns (trim body) = false) /\
  (forall t, classifyBroadcastResponse status body x = BAccepted t ->
     (is_txid (trim body) = true /\ t = toLowerCase (trim body)) \/
     (any_of already_known_patterns (trim body) = true /\ t = x)) /\
  (status = None -> exists reason, classifyBroadcastResponse status body x = BUnknown reason).
Proof.
  unfold classifyBroadcastResponse. destruct status as [st|]; [|naive_solver].
  split; [|split]; [| |done].
  - intros reason. repeat case_match; try discriminate. intros [= _ Hsp]. exists st.
    split; [done|]. split; [breflect; lia|]. by split.
  - intros t. repeat case_match; try discriminate; intros [= <-]; [by left|by right].
Qed.

Module Demo.

Definition wd : PendingBtcWithdrawal := {| p_txId := "w1"; p_evmAddress := "bc1dest"; p_amountUnits := num_of_Z 50000 |}.

Definition cfg : BtcCfg := {| live := true; minConfirmations := 2; maxSats := 0; btcMaxRetries := 3;
  btcDust := 546; isValidDest := fun _ => true |}.

Definition dry_cfg : BtcCfg := {| live := false; minConfirmations := 2; maxSats := 0; btcMaxRetries := 3;
  btcDust := 546; isValidDest := fun _ => true |}.

Definition pay1 : BuiltPayout := {| bp_txid := "t1"; bp_rawHex := "raw1"; bp_inputs := ["a:0"];
  bp_pay := Some "49577"; bp_fee := Some "423" |}.

(** Dependencies: [b] answers the broadcast, [sv] the save, [kn] whether the network knows it. *)
Definition answers (b : res BroadcastResult) (sv : res unit) (kn : bool) (c : btc_cmd) : res (btc_ans c) :=
  match c with
  | HealthOk => Ok true
  | Confirmations _ => Ok (Some (Some 6))
  | TxKnown _ => Ok (Some kn)
  | FindExistingPayout _ _ _ => Ok None
  | Build _ _ excl => if existsb (String.eqb "a:0") excl then Err "no utxo" else Ok (Built pay1)
  | Broadcast _ _ => b
  | BtcFulfill _ _ => Ok true
  | Save _ => sv
  end.
Definition world (b : res BroadcastResult) (sv : res unit) (kn : bool) : env BtcI := fun _ c => answers b sv kn c.

Lemma world_sound b kn : respects sound_deps (world b (Ok tt) kn).
Proof.
  intros h c. destruct c; try done. unfold sound_deps, world, answers. intros b0.
  destruct (existsb (String.eqb "a:0") excludeInputs) eqn:E; [done|]. intros [= <-]. split; [done|].
  intros i ->%list_elem_of_singleton Hin. apply not_true_iff_false in E. apply E, existsb_exists.
  exists "a:0". split; [by apply list_elem_of_In|done].
Qed.

(** The system after a cycle. *)
Definition after (e : env BtcI) (c : BtcCfg) (w : PendingBtcWithdrawal) (sys : system) : system :=
  let '(_, m', h) := run e (processBtcWithdrawal c w) (mem sys) [] in
  {| mem := m'; disk := disk_of (disk sys) h; log := tagged (p_txId w) h ++ log sys |}.

Lemma after_step e c w sys : respects sound_deps e -> step sys (after e c w sys).
Proof.
  intros He. unfold after. destruct (run e (processBtcWithdrawal c w) (mem sys) []) as [[o m'] h] eqn:E.
  by eapply step_cycle.
Qed.

Definition start : system := {| mem := []; disk := []; log := [] |}.
Definition lost : system := after (world (Ok (BUnknown "timeout")) (Ok tt) false) cfg wd start.
Definition resent : system := after (world (Ok (BAccepted "t1")) (Ok tt) false) cfg wd lost.

(** A broadcast with an unknown outcome is followed by the same bytes. *)
Example resend_same_bytes :
  outcome (world (Ok (BUnknown "timeout")) (Ok tt) false) (processBtcWithdrawal cfg wd) [] = Ok b_broadcast_unknown /\
  map (fun te : string * event BtcI => match te with (_, Ev (Broadcast raw x) _) => Some (raw, x) | _ => None end) (log resent)
  = [None; Some ("raw1", "t1"); None; None; Some ("raw1", "t1"); None; None; None; None].
Proof. vm_compute. split; reflexivity. Qed.

Lemma wf_empty : wf_plans [].
Proof. split; [intros t p (e & [=] & _)|]. intros t1 t2 p1 p2 _ (e & [=] & _). Defined.

Lemma btc_never_resigned_witness : never_resigned (log resent) /\ mem resent = disk resent.
Proof.
  apply (btc_never_resigned [] resent wf_empty). eapply rtc_l; [apply after_step, world_sound|].
  eapply rtc_l; [apply after_step, world_sound|]. apply rtc_refl.
Defined.

Definition pay2 : BuiltPayout := {| bp_txid := "t2"; bp_rawHex := "raw2"; bp_inputs := ["b:1"];
  bp_pay := None; bp_fee := None |}.
Definition two_plans : BtcState :=
  [("w1", with_plan pay1 (fresh_entry "bc1dest" "50000")); ("w2", with_plan pay2 (fresh_entry "bc1other" "60000"))].

Lemma wf_two_plans : wf_plans two_plans.
Proof.
  assert (forall t p, plans two_plans t p -> (t = "w1" /\ p = pay1) \/ (t = "w2" /\ p = pay2)) as H.
  { intros t p (e & Hg & Hp). apply mget_elem in Hg.
    apply elem_of_cons in Hg as [[= -> ->]|Hg]; [left; by injection Hp as <-|].
    apply list_elem_of_singleton in Hg as [= -> ->]. right. by injection Hp as <-. }
  split; [by intros t p [[-> ->]|[-> ->]]%H|].
  intros t1 t2 p1 p2 Hne [[-> ->]|[-> ->]]%H [[-> ->]|[-> ->]]%H; try done;
    intros i ->%list_elem_of_singleton; by intros ?%list_elem_of_singleton.
Defined.

Lemma btc_plans_disjoint_witness : disjoint_inputs pay1 pay2.
Proof.
  apply (btc_plans_disjoint two_plans {| mem := two_plans; disk := two_plans; log := [] |} "w1" "w2");
    [exact wf_two_plans|apply rtc_refl|done|by eexists|by eexists].
Defined.

Lemma btc_dry_run_witness : no_new_plan [] (final (world (Err "x") (Ok tt) false) (processBtcWithdrawal dry_cfg wd) []).
Proof. exact (proj2 (btc_dry_run dry_cfg wd (world (Err "x") (Ok tt) false) [] eq_refl)). Defined.

(** ** A failed save

    When saving the state file throws, the payout just signed stays planned in memory, the main
    loop catches the exception, and the next cycle broadcasts it although the state file does not
    have it: the file is still empty when the bytes leave the relayer. *)
Definition unsaved : system := after (world (Err "x") (Err "disk full") false) cfg wd start.

Example broadcast_after_failed_save :
  disk unsaved = [] /\
  disk (after (world (Ok (BUnknown "timeout")) (Err "disk full") false) cfg wd unsaved) = [] /\
  map (fun te : string * event BtcI => match te with (_, Ev c _) => c end)
    (log (after (world (Ok (BUnknown "timeout")) (Err "disk full") false) cfg wd unsaved))
  = [Save (mem unsaved); Broadcast "raw1" "t1"; TxKnown "t1"; Save (mem unsaved);
     Build "bc1dest" 50000 []; FindExistingPayout "bc1dest" 50000 []; HealthOk].
Proof. vm_compute. repeat split. Qed.

End Demo.
