(* ===== verification/BtcProcess.v ===== *)
(** * The Bitcoin relayer process ([src/scripts/btc-bridge-relayer.ts])

    The adapters behind [BtcPayoutDeps] over Esplora, the daemon and the state file, the HD
    deposit pool with its sweeps, and the polling cycle.  A command is one HTTP request (an HTTP
    answer is its status with the parsed body; a failing request or an unreadable body is an
    exception) or one file operation.  Addresses, key derivation and signing of
    [@scure/btc-signer] are the class [BtcLib].  Log lines are omitted. *)
From Stdlib Require Import SpecFloat.
From S2P Require Import Prelude JsText JsNum JsMap Interact BtcPlan BtcPayout.
Local Open Scope Z_scope.
Local Open Scope prog_scope.

(** The custody key, or the key of a deposit index. *)
Inductive SigningKey := CustodyKey | HdKey (index : Z).

Record SignedTx := { tx_id_ : string; tx_hex : string; tx_vsize : Z }.

Class BtcLib := {
  (** Length of the output script of an address of the configured network; [None]: not decoded. *)
  script_len : string -> option Z;
  hd_address : Z -> res string;
  (** Sign and finalize a transaction with these inputs, all of the key's address, and outputs. *)
  sign_tx : SigningKey -> list PlanUtxo -> list (string * Z) -> res SignedTx;
  signed_id : forall k i o t, sign_tx k i o = Ok t -> truthy (tx_id_ t) = true;
}.

Record EsUtxo := { eu_utxo : PlanUtxo; eu_confirmed : bool }.
Record EsTxStatus := { es_confirmed : bool; es_block_height : option Z }.
Record DepositAddr := { da_address : string; da_index : Z }.
Record DepositAddresses := {
  dp_success : bool; dp_addresses : option (list DepositAddr);
  dp_poolRemaining : option Z; dp_maxIndex : option Z;
}.

Inductive proc_cmd :=
| EsUtxos (address : string)
| EsFeeEstimates
| EsTx (txid : string)
| EsTip
| EsStatus (txid : string)
| EsTxs (address : string)
| EsPostTx (raw : string)
| DaemonHealth
| DaemonPending
| DaemonFulfill (txId btcTxid : string)
| DaemonDeposits
| DaemonPool (addresses : list (Z * string))
| WriteTmp (s : BtcState)
| RenameTmp
| DateNow.

Definition proc_ans (c : proc_cmd) : Type :=
  match c with
  | EsUtxos _ => Z * list EsUtxo
  | EsFeeEstimates => Z * jmap number
  | EsTx _ => Z * EsTxStatus
  | EsTip => Z * string
  | EsStatus _ => Z
  | EsTxs _ => Z * list EsploraTxLike
  | EsPostTx _ => Z * string
  (** [degraded], when it is a boolean *)
  | DaemonHealth => Z * option bool
  | DaemonPending => list PendingBtcWithdrawal
  (** [success]; [None]: the body is no JSON *)
  | DaemonFulfill _ _ => option bool
  | DaemonDeposits => DepositAddresses
  | DaemonPool _ => bool
  | WriteTmp _ | RenameTmp => unit
  | DateNow => Z
  end.

Record ProcState := { STATE : BtcState; lastHdRun : Z }.

Definition ProcI : iface := {| st := ProcState; cmd := proc_cmd; ans := proc_ans |}.
Definition pask (c : proc_cmd) : prog ProcI (proc_ans c) := call (c : cmd ProcI).
Definition getP : prog ProcI ProcState := get.
Definition putP (s : ProcState) : prog ProcI unit := put (s : st ProcI).

Record ProcCfg := {
  LIVE : bool;
  MIN_CONFIRMATIONS : Z;
  MAX_SATS : Z;
  BTC_MAX_RETRIES : Z;
  MAX_NETWORK_FEE_SATS : Z;
  CUSTODY_ADDRESS : string;
  FEE_TARGET_BLOCKS : string;
  HD_ENABLED : bool;
  (** [parseInt]; [None] is NaN *)
  POOL_TARGET : option Z;
  SWEEP_MIN_SATS : Z;
}.

Definition DUST : Z := 546.

(** [loadState]: [Some (Ok s)] is the parsed document. *)
Definition loadState (file : option (res BtcState)) : BtcState :=
  match file with Some (Ok s) => s | _ => [] end.

Section Process.
Context `{L : BtcLib}.
Variable cfg : ProcCfg.

Definition saveState (s : BtcState) : prog ProcI unit :=
  do! pask (WriteTmp s) in pask RenameTmp.

(** ** Esplora *)

Definition http_ok (status : Z) : bool := (200 <=? status) && (status <? 300).

(** [esploraJson], [esploraText]: a status outside 200..299 throws. *)
Definition esplora {A} (p : prog ProcI (Z * A)) : prog ProcI A :=
  let! (status, body) := p in
  if http_ok status then Ret body else Throw ("esplora HTTP " +:+ dec status).

Definition tipHeight : prog ProcI (option Z) :=
  let! t := esplora (pask EsTip) in Ret (parseInt10 (trim t)).

Definition getUtxos (addr : string) : prog ProcI (list EsUtxo) := esplora (pask (EsUtxos addr)).

(** [Math.max(1, x)]. *)
Definition max1 (x : number) : number :=
  match x with S754_nan => x | _ => if num_ltb x (num_of_Z 1) then num_of_Z 1 else x end.

Definition getFeeRate : prog ProcI number :=
  let! r := attempt (esplora (pask EsFeeEstimates)) in
  Ret (match r with
       | Ok est =>
           let r := match mget (FEE_TARGET_BLOCKS cfg) est with
                    | Some x => x
                    | None => match mget "3" est with
                              | Some x => x
                              | None => default (num_of_Z 5) (mget "6" est)
                              end
                    end in
           max1 (Math_ceil r)
       | Err _ => num_of_Z 5
       end).

Definition txConfirmations (txid : string) : prog ProcI (option (option Z)) :=
  let! r := attempt (
    let! status := esplora (pask (EsTx txid)) in
    match es_block_height status with
    | Some b =>
        if es_confirmed status then
          let! tip := tipHeight in Ret ((fun t => t - b + 1) <$> tip)
        else Ret (Some 0)
    | None => Ret (Some 0)
    end) in
  Ret (match r with Ok n => Some n | Err _ => None end).

Definition txKnown (txid : string) : prog ProcI (option bool) :=
  let! r := attempt (pask (EsStatus txid)) in
  Ret (match r with
       | Ok st => if st =? 404 then Some false else if http_ok st then Some true else None
       | Err _ => None
       end).

Definition isValidDest (addr : string) : bool :=
  match script_len addr with Some _ => true | None => false end.

Definition daemonHealthOk : prog ProcI bool :=
  let! r := attempt (pask DaemonHealth) in
  Ret (match r with
       | Ok (st, degraded) => (st =? 200) && match degraded with Some d => negb d | None => false end
       | Err _ => false
       end).

Definition findExistingPayout (dest : string) (owed : Z) (knownTxids : list string) : prog ProcI (option string) :=
  let! r := attempt (esplora (pask (EsTxs (CUSTODY_ADDRESS cfg)))) in
  match r with
  | Ok txs =>
      Ret (es_txid <$> find (fun tx =>
        negb (existsb (String.eqb (es_txid tx)) knownTxids)
        && payoutSettles tx (CUSTODY_ADDRESS cfg) dest owed (MAX_NETWORK_FEE_SATS cfg)) txs)
  | Err e => Throw ("custody history scan failed: " +:+ e)
  end.

(** ** Build and sign a payout *)

(** The key of an output: txid and index. *)
Definition outpoint (u : PlanUtxo) : string := u_txid u +:+ ":" +:+ dec (u_vout u).

Definition payout_outputs (dest : string) (pay change : Z) : list (string * Z) :=
  (dest, pay) :: (if 0 <? change then [(CUSTODY_ADDRESS cfg, change)] else []).

Definition spendable (exclude : list string) (l : list EsUtxo) : list PlanUtxo :=
  map eu_utxo (List.filter (fun u => eu_confirmed u && negb (existsb (String.eqb (outpoint (eu_utxo u))) exclude)) l).

Definition buildPayout (dest : string) (owed : Z) (exclude : list string) : prog ProcI BuildResult :=
  let! all := getUtxos (CUSTODY_ADDRESS cfg) in
  let us := spendable exclude all in
  match us with
  | [] => Throw "no confirmed custody UTXOs available"
  | _ =>
      let! rate := getFeeRate in
      match script_len dest with
      | None => Throw "invalid address"
      | Some len =>
          let! plan := of_res (planPayout {| utxos := us; sats := owed; feeRate := rate; destScriptLen := len;
                                             maxFee := MAX_NETWORK_FEE_SATS cfg; dust := DUST |}) in
          match plan with
          | PlanInsufficient _ _ => Throw "insufficient custody balance"
          | PlanFeeTooHigh fee max => Ret (BuildFeeTooHigh fee max)
          | PlanBelowMinimum fee pay => Ret (BuildBelowMinimum fee pay)
          | PlanOk inputs pay change fee vsize =>
              let! tx := of_res (sign_tx CustodyKey inputs (payout_outputs dest pay change)) in
              if vsize <? tx_vsize tx then Throw "signed vsize exceeds planned" else
              Ret (Built {| bp_txid := tx_id_ tx; bp_rawHex := tx_hex tx; bp_inputs := map outpoint inputs;
                            bp_pay := Some (dec pay); bp_fee := Some (dec fee) |})
          end
      end
  end.

Definition broadcastRaw (rawHex expectedTxid : string) : prog ProcI BroadcastResult :=
  let! r := attempt (pask (EsPostTx rawHex)) in
  Ret (match r with
       | Ok (st, body) => classifyBroadcastResponse (Some st) body expectedTxid
       | Err m => classifyBroadcastResponse None m expectedTxid
       end).

(** ** Daemon *)

Definition fetchPending : prog ProcI (list PendingBtcWithdrawal) :=
  let! r := attempt (pask DaemonPending) in Ret (match r with Ok l => l | Err _ => [] end).

Definition fulfill (txId btcTxid : string) : prog ProcI bool :=
  let! d := pask (DaemonFulfill txId btcTxid) in Ret (default false d).

(** [DEPS]. *)
Definition deps_cfg : BtcCfg := {|
  live := LIVE cfg; minConfirmations := MIN_CONFIRMATIONS cfg; maxSats := MAX_SATS cfg;
  btcMaxRetries := BTC_MAX_RETRIES cfg; btcDust := DUST; BtcPayout.isValidDest := isValidDest |}.

Definition btc_dep (c : btc_cmd) : prog ProcI (btc_ans c) :=
  match c return prog ProcI (btc_ans c) with
  | HealthOk => daemonHealthOk
  | Confirmations t => txConfirmations t
  | TxKnown t => txKnown t
  | FindExistingPayout d z k => findExistingPayout d z k
  | Build d z x => buildPayout d z x
  | Broadcast r t => broadcastRaw r t
  | BtcFulfill t x => fulfill t x
  | Save s => saveState s
  end.

Definition with_STATE (s : BtcState) (p : ProcState) : ProcState := {| STATE := s; lastHdRun := lastHdRun p |}.

Definition processOne (w : PendingBtcWithdrawal) : prog ProcI BtcOutcome :=
  embed (I := BtcI) (J := ProcI) STATE with_STATE btc_dep (processBtcWithdrawal deps_cfg w).

(** ** Deposit pool and sweep *)

Definition fetchDepositAddresses : prog ProcI (list DepositAddr * Z * Z) :=
  let! d := pask DaemonDeposits in
  if negb (dp_success d) then Throw "deposit-addresses fetch failed" else
  Ret (default [] (dp_addresses d), default 0 (dp_poolRemaining d), default (-1) (dp_maxIndex d)).

(** [Array.from({ length: need }, ...)]. *)
Fixpoint derive (start : Z) (n : nat) : res (list (Z * string)) :=
  match n with
  | O => Ok []
  | S n => res_bind (hd_address start) (fun a => res_bind (derive (start + 1) n) (fun l => Ok ((start, a) :: l)))
  end.

Definition topUpPool : prog ProcI unit :=
  if negb (HD_ENABLED cfg) then Ret tt else
  let! _ := attempt (
    let! (_, poolRemaining, maxIndex) := fetchDepositAddresses in
    let need := (fun t => t - poolRemaining) <$> POOL_TARGET cfg in
    if match need with Some n => n <=? 0 | None => false end then Ret true else
    let! addresses := of_res (derive (maxIndex + 1) (Z.to_nat (default 0 need))) in
    pask (DaemonPool addresses)) in
  Ret tt.

Definition balance (l : list PlanUtxo) : Z := foldl (fun s u => s + u_value u) 0 l.

(** [BigInt(Math.ceil((utxos.length * 68 + 31 + 11) * feeRate))]. *)
Definition sweep_fee (n : nat) (rate : number) : res Z :=
  match BigInt_of_number (Math_ceil (num_mul (num_of_Z (Z.of_nat n * 68 + 31 + 11)) rate)) with
  | Some z => Ok z
  | None => Err "The number cannot be converted to a BigInt because it is not an integer"
  end.

Definition sweep_one (a : DepositAddr) : prog ProcI unit :=
  let! all := getUtxos (da_address a) in
  let us := map eu_utxo (List.filter eu_confirmed all) in
  let bal := balance us in
  if bal <? SWEEP_MIN_SATS cfg then Ret tt else
  let! rate := getFeeRate in
  let! fee := of_res (sweep_fee (length us) rate) in
  if bal <=? fee + DUST then Ret tt else
  let! _ := of_res (hd_address (da_index a)) in
  let! tx := of_res (sign_tx (HdKey (da_index a)) us [(CUSTODY_ADDRESS cfg, bal - fee)]) in
  let! _ := pask (EsPostTx (tx_hex tx)) in Ret tt.

Definition sweepDeposits : prog ProcI unit :=
  if negb (HD_ENABLED cfg) || negb (LIVE cfg) then Ret tt else
  let! r := attempt fetchDepositAddresses in
  match r with
  | Err _ => Ret tt
  | Ok (addrs, _, _) => for_each (fun a => let! _ := attempt (sweep_one a) in Ret tt) addrs
  end.

(** ** The cycle *)

Definition set_lastHdRun (t : Z) : prog ProcI unit :=
  let! s := getP in putP {| STATE := STATE s; lastHdRun := t |}.

Definition loop : prog ProcI unit :=
  let! pending := fetchPending in
  do! for_each (fun w => let! _ := attempt (processOne w) in Ret tt) pending in
  if HD_ENABLED cfg then
    let! now := pask DateNow in
    let! s := getP in
    if 120000 <? now - lastHdRun s then
      let! now := pask DateNow in
      do! set_lastHdRun now in
      do! topUpPool in
      sweepDeposits
    else Ret tt
  else Ret tt.

(** [main]: prime the pool, then cycle; [n] cycles run before the shutdown signal. *)
Definition main (n : nat) : prog ProcI unit :=
  do! (if HD_ENABLED cfg then
         do! topUpPool in
         let! now := pask DateNow in set_lastHdRun now
       else Ret tt) in
  for_each (fun _ => let! _ := attempt loop in Ret tt) (repeat tt n).
End Process.
