(* ===== verification/BtcProcessClaims.v ===== *)
(** * Correctness of the Bitcoin relayer process

    What the process sends to the Bitcoin network, over any number of cycles and whatever
    Esplora, the daemon and the file system answer: payouts that pay what a listed withdrawal is
    owed, and sweeps into custody.  The signed payouts in the state file keep this true across
    restarts. *)
From S2P Require Import Prelude JsText JsNum JsMap Interact BtcPlan BtcPayout BtcSafety BtcProcess.
Local Open Scope Z_scope.
Local Open Scope prog_scope.

(** ** The payout decision keeps its plans correct

    [pay_ok dest sats p]: the signed payout [p] is right for this destination and amount. *)
Section Decision.
Variable pay_ok : string -> string -> BuiltPayout -> Prop.
Variable cfg : BtcCfg.
Variable w : PendingBtcWithdrawal.

Definition payouts_ok (s : BtcState) : Prop :=
  forall t en p, mget t s = Some en -> planned en = Some p -> pay_ok (e_dest en) (e_sats en) p.

Definition plan_for (en : BtcStateEntry) : Prop := forall p, planned en = Some p -> pay_ok (e_dest en) (e_sats en) p.

Definition builds_ok (h : history BtcI) (c : btc_cmd) : res (btc_ans c) -> Prop :=
  match c with
  | Build d z _ => fun r => forall b, r = Ok (Built b) -> pay_ok d (dec z) b
  | _ => fun _ => True
  end.

(** A payable withdrawal: an integral amount above dust and within the cap. *)
Definition owed_sats (z : Z) : Prop :=
  BigInt_of_number (p_amountUnits w) = Some z /\ btcDust cfg < z /\ (0 < maxSats cfg -> z <= maxSats cfg).

Definition sends_ok (h : history BtcI) (c : btc_cmd) : Prop :=
  match c with
  | Broadcast raw x => live cfg = true /\
      exists z p, owed_sats z /\ pay_ok (trim (p_evmAddress w)) (dec z) p /\ bp_rawHex p = raw /\ bp_txid p = x
  | Save q => payouts_ok q
  | _ => True
  end.

Abbreviation D p s h Q := (wp (I := BtcI) sends_ok builds_ok p s h Q).
Abbreviation safe := (fun _ s' _ => payouts_ok s').

Lemma K_ask c s h (Q : res (btc_ans c) -> _) :
  sends_ok h c -> (forall r, builds_ok h c r -> Q r s (@Ev BtcI c r :: h)) -> D (bask c) s h Q.
Proof. apply (wp_call (I := BtcI)). Qed.

Lemma payouts_mset t en s : payouts_ok s -> plan_for en -> payouts_ok (mset t en s).
Proof.
  intros Hs He t' en' p. destruct (decide (t' = t)) as [->|Hne].
  - rewrite mget_mset_eq. intros [= <-]. apply He.
  - rewrite mget_mset_ne by done. apply Hs.
Qed.

Lemma K_store {A} t en (k : unit -> prog BtcI A) s h (Q : res A -> _ -> _ -> Prop) :
  payouts_ok s -> plan_for en -> (forall m s' h', payouts_ok s' -> Q (Err m) s' h') ->
  (forall s' h', payouts_ok s' -> D (k tt) s' h' Q) -> D (bind (store t en) k) s h Q.
Proof.
  intros Hs He Hm Hk. apply wp_bind. unfold store. apply wp_bind, (wp_get (I := BtcI)). cbv zeta.
  pose proof (payouts_mset t en s Hs He). apply wp_bind, (wp_put (I := BtcI)), K_ask; [done|].
  intros [[]|m] _; [by apply Hk|by apply Hm].
Qed.

Lemma K_settle t en p r s h : payouts_ok s -> plan_for en -> D (settleBroadcast t en p r) s h safe.
Proof.
  intros Hs He. assert (forall x, plan_for (with_review x en)) by (intros x q; apply He).
  assert (plan_for (without_plan en)) by done. assert (plan_for (without_plan (with_txid (bp_txid p) en))) by done.
  unfold settleBroadcast. destruct r as [x|reason []|reason]; try (apply K_store; done).
  - destruct (negb _); apply K_store; done.
  - apply wp_bind, (wp_get (I := BtcI)), wp_bind, K_ask; [done|]. by intros [[]|m] _.
Qed.

Lemma K_broadcast t en p z s h :
  payouts_ok s -> plan_for en -> live cfg = true -> owed_sats z -> pay_ok (trim (p_evmAddress w)) (dec z) p ->
  D (let! r := bask (Broadcast (bp_rawHex p) (bp_txid p)) in settleBroadcast t en p r) s h safe.
Proof.
  intros Hs He Hl Hz Hp. apply wp_bind, K_ask; [split; [done|]; by exists z, p|].
  intros [r|m] _; [by apply K_settle|done].
Qed.

(** The entry of the withdrawal, for the amount [z]. *)
Definition entry_for (z : Z) (en : BtcStateEntry) : Prop :=
  e_dest en = trim (p_evmAddress w) /\ e_sats en = dec z /\ plan_for en.

Lemma K_new_payout z en s h :
  payouts_ok s -> owed_sats z -> entry_for z en ->
  D (new_payout cfg (p_txId w) (trim (p_evmAddress w)) z en) s h safe.
Proof.
  intros Hs Hz (Hd & Hq & He). unfold new_payout. apply wp_bind, K_ask; [done|]. intros [[]|m] _; [|done..].
  cbn [negb]. apply wp_bind, (wp_get (I := BtcI)), wp_bind, wp_attempt, K_ask; [done|]. intros [ex|m] _; [|done].
  destruct (given ex) as [x|]; [apply K_store; try done; intros p; apply He|]. destruct (_ <=? _); [done|].
  apply wp_bind, (wp_get (I := BtcI)), wp_bind, wp_attempt, K_ask; [done|].
  intros [[b|f m|f pay]|m] Hb; [|done| |done]; destruct (live cfg) eqn:El; cbn [negb]; try done.
  - specialize (Hb b eq_refl). assert (plan_for (with_plan b en)).
    { intros p [= <-]. cbn. by rewrite Hd, Hq. }
    apply K_store; try done. intros s' h' Hs'. by eapply K_broadcast.
  - apply K_store; done.
Qed.

Lemma K_advance z en s h :
  payouts_ok s -> owed_sats z -> entry_for z en ->
  D (advance cfg (p_txId w) (trim (p_evmAddress w)) z en) s h safe.
Proof.
  intros Hs Hz Hen. pose proof Hen as (Hd & Hq & He). unfold advance. destruct (given (btcTxid en)) as [x|].
  { apply wp_bind, K_ask; [done|]. intros [[n|]|m] _; [|done..]. destruct (below n _); [done|].
    apply wp_bind, K_ask; [done|]. by intros [[]|m] _. }
  destruct (planned en) as [p|] eqn:Ep.
  { apply wp_bind, K_ask; [done|]. intros [[[]|]|m] _; [|destruct (live cfg) eqn:El|done..]; [by apply K_store| |done].
    apply (K_broadcast _ _ _ z); try done. rewrite <- Hd, <- Hq. by apply He. }
  destruct (default false _); [|by apply K_new_payout].
  apply wp_bind, (wp_get (I := BtcI)), wp_bind, wp_attempt, K_ask; [done|]. intros [ex|m] _; [|done].
  destruct (given ex); apply K_store; try done; intros p; apply He.
Qed.

Lemma K_process s h : payouts_ok s -> D (processBtcWithdrawal cfg w) s h safe.
Proof.
  intros Hs. unfold processBtcWithdrawal. destruct (BigInt_of_number _) as [z|] eqn:Ez; [|done].
  destruct (z <=? _) eqn:E1; [done|]. destruct (BtcPayout.isValidDest _ _); [|done]. cbn [negb].
  destruct (_ && _) eqn:E3; [done|]. assert (owed_sats z) as Hz by (breflect; split; [done|lia]).
  apply wp_bind, (wp_get (I := BtcI)). destruct (mget (p_txId w) s) as [en|] eqn:Eg.
  2:{ apply wp_bind, wp_ret. by apply K_advance. }
  assert (plan_for en) as He by (intros p; by apply Hs with (1 := Eg)).
  destruct (_ || _) eqn:E4.
  - cbv zeta. apply wp_bind. apply K_store; done.
  - apply wp_bind, wp_ret. destruct (given (needsReview en)); [done|]. breflect.
    apply K_advance; [done|done|]. split; [naive_solver|]. split; [naive_solver|done].
Qed.
End Decision.

(** ** What the process signs *)
Section Process.
Context `{L : BtcLib}.
Variable cfg : ProcCfg.

(** [b] is a signed transaction of the custody key that pays [dest] what [owed] leaves after the
    network fee, which is within the cap: value is conserved, custody falls by exactly [owed]
    (or all of custody is spent and a remainder up to dust goes to [dest]), neither payment nor
    change is dust, and the relayer's own adoption rule recognises it. *)
Definition pays_owed (dest : string) (owed : Z) (b : BuiltPayout) : Prop :=
  exists inputs pay change fee t,
    sign_tx CustodyKey inputs (payout_outputs cfg dest pay change) = Ok t /\
    bp_txid b = tx_id_ t /\ bp_rawHex b = tx_hex t /\ bp_inputs b = map outpoint inputs /\
    value_sum inputs = pay + change + fee /\ fee <= MAX_NETWORK_FEE_SATS cfg /\
    DUST < pay /\ (change = 0 \/ DUST < change) /\
    (value_sum inputs - change = owed \/ (change = 0 /\ owed < value_sum inputs <= owed + DUST)) /\
    payoutSettles (payout_tx (tx_id_ t) (CUSTODY_ADDRESS cfg) dest inputs pay change None)
      (CUSTODY_ADDRESS cfg) dest owed (MAX_NETWORK_FEE_SATS cfg) = true.

Definition payout_for (dest satsText : string) (b : BuiltPayout) : Prop :=
  exists owed, satsText = dec owed /\ pays_owed dest owed b.

(** A sweep: a deposit address pays everything above the fee to custody. *)
Definition is_sweep (raw : string) : Prop :=
  exists i us fee t, sign_tx (HdKey i) us [(CUSTODY_ADDRESS cfg, balance us - fee)] = Ok t /\
    tx_hex t = raw /\ DUST < balance us - fee.

Abbreviation PE := (@Ev ProcI).

(** The daemon listed a withdrawal of an integral amount above dust and within the cap, and the
    transaction pays it. *)
Definition pays_listed (h : history ProcI) (raw : string) : Prop :=
  exists l w z b, PE DaemonPending (Ok l) ∈ h /\ w ∈ l /\ owed_sats (deps_cfg cfg) w z /\
    pays_owed (trim (p_evmAddress w)) z b /\ bp_rawHex b = raw.

Definition proc_ok (h : history ProcI) (c : proc_cmd) : Prop :=
  match c with
  | EsPostTx raw => LIVE cfg = true /\ (pays_listed h raw \/ is_sweep raw)
  | WriteTmp q => payouts_ok payout_for q
  | _ => True
  end.

Definition reads_only (c : proc_cmd) : Prop :=
  match c with EsPostTx _ | WriteTmp _ => False | _ => True end.

Abbreviation P p s h Q := (wp (I := ProcI) proc_ok anything p s h Q).

Lemma calls_pask (R : proc_cmd -> Prop) pt c : R c -> calls (I := ProcI) R pt (pask c).
Proof. apply (calls_call (I := ProcI)). Qed.

Lemma P_reads {A} (p : prog ProcI A) s h :
  calls (I := ProcI) reads_only False p -> P p s h (fun _ s' h' => s' = s /\ exists x, h' = x ++ h).
Proof. apply wp_calls. by intros h' []. Qed.

Ltac reads := repeat (calls_step || (by apply calls_pask)).

Lemma utxos_reads a : calls (I := ProcI) reads_only False (getUtxos a).
Proof. unfold getUtxos, esplora. reads. Qed.
Lemma fee_reads : calls (I := ProcI) reads_only False (getFeeRate cfg).
Proof. unfold getFeeRate, esplora. reads. Qed.

Definition plain_read (c : btc_cmd) : bool :=
  match c with Broadcast _ _ | Save _ | Build _ _ _ => false | _ => true end.

Lemma dep_reads c : plain_read c = true ->
  calls (I := ProcI) reads_only False (btc_dep cfg c).
Proof.
  destruct c; try done; intros _; cbn [btc_dep];
    unfold daemonHealthOk, txConfirmations, txKnown, findExistingPayout, fulfill, tipHeight, esplora; reads.
Qed.

Lemma spendable_in exclude l u : u ∈ spendable exclude l -> outpoint u ∉ exclude.
Proof.
  unfold spendable. rewrite list_elem_of_In, in_map_iff. intros (x & <- & Hx) Hin.
  apply List.filter_In in Hx as [_ [_ Hn%negb_true_iff]%andb_true_iff].
  rewrite <- not_true_iff_false in Hn. apply Hn, existsb_exists. exists (outpoint (eu_utxo x)).
  split; [by apply list_elem_of_In|apply String.eqb_refl].
Qed.

(** [buildPayout] keeps the contract of its dependency: what it returns pays the amount owed,
    carries its id, and spends no excluded output. *)
Lemma build_keeps_contract dest owed exclude s h :
  P (buildPayout cfg dest owed exclude) s h (fun o s' h' => s' = s /\ (exists x, h' = x ++ h) /\
    forall b, o = Ok (Built b) ->
      pays_owed dest owed b /\ truthy (bp_txid b) = true /\ forall i, i ∈ bp_inputs b -> i ∉ exclude).
Proof.
  unfold buildPayout. apply wp_bind. eapply wp_mono; [|apply P_reads, utxos_reads].
  intros [l|m] s1 h1 (-> & x1 & ->); [|split; [done|]; split; [by eexists|done]].
  destruct (spendable exclude l) as [|u us] eqn:Eu; [split; [done|]; split; [by eexists|done]|].
  apply wp_bind. eapply wp_mono; [|apply P_reads, fee_reads].
  intros [rate|m] s2 h2 (-> & x2 & ->); rewrite app_assoc; [|split; [done|]; split; [by eexists|done]].
  destruct (script_len dest) as [len|]; [|split; [done|]; split; [by eexists|done]].
  apply wp_bind, wp_of_res. destruct (planPayout _) as [[inputs pay change fee vsize|?|?|?]|m] eqn:Ep;
    try (split; [done|]; split; [by eexists|done]).
  apply wp_bind, wp_of_res. destruct (sign_tx _ _ _) as [t|m] eqn:Es; [|split; [done|]; split; [by eexists|done]].
  destruct (vsize <? _); (split; [done|]; split; [by eexists|]); [done|]. intros b [= <-]. cbn.
  destruct (plan_ok_inv _ _ _ _ _ _ Ep) as [rest [Hin Hsum Hfee Hpay Hchg Hcust]]. cbn in *.
  split; [|split; [by eapply signed_id|]].
  - exists inputs, pay, change, fee, t. repeat (split; [done|]). split; [naive_solver|].
    eapply (plan_settles _ _ _ _ _ _ _ _ _ None _ Ep); [done|done|by left].
  - intros i. rewrite list_elem_of_In, in_map_iff. intros (y & <- & Hy). apply (spendable_in exclude l).
    rewrite Eu, Hin. apply elem_of_app. left. by apply list_elem_of_In.
Qed.

(** The state keeps only correct payouts, and the history grows. *)
Definition steady (h : history ProcI) (s' : ProcState) (h' : history ProcI) : Prop :=
  payouts_ok payout_for (STATE s') /\ exists x, h' = x ++ h.

Lemma steady_cons h s e h' : steady h s h' -> steady h s (e :: h').
Proof. intros [? [x ->]]. split; [done|]. by exists (e :: x). Qed.
Lemma steady_trans h s1 h1 s2 h2 : steady h s1 h1 -> steady h1 s2 h2 -> steady h s2 h2.
Proof. intros [_ [x ->]] [? [y ->]]. split; [done|]. exists (y ++ x). by rewrite app_assoc. Qed.
Lemma steady_refl s h : payouts_ok payout_for (STATE s) -> steady h s h.
Proof. split; [done|by exists []]. Qed.

Lemma P_ask c s h (Q : res (proc_ans c) -> _) :
  proc_ok h c -> (forall r, Q r s (PE c r :: h)) -> P (pask c) s h Q.
Proof. intros Hc HQ. apply (wp_call (I := ProcI)); [done|]. intros r _. apply HQ. Qed.

Lemma P_quiet {A} (p : prog ProcI A) s h :
  calls (I := ProcI) reads_only False p -> payouts_ok payout_for (STATE s) -> P p s h (fun _ => steady h).
Proof. intros Hp Hs. eapply wp_mono; [|by apply P_reads]. intros o s' h' [-> Hx]. by split. Qed.

Section One.
Variables (w : PendingBtcWithdrawal) (l : list PendingBtcWithdrawal) (h0 : history ProcI).
Hypothesis Hlist : PE DaemonPending (Ok l) ∈ h0.
Hypothesis Hw : w ∈ l.

Definition proc_sim (s : BtcState) (_ : history BtcI) (p : ProcState) (h : history ProcI) : Prop :=
  STATE p = s /\ exists x, h = x ++ h0.

Lemma sim_ext s hI p h hI' h' : proc_sim s hI p h -> (exists x, h' = x ++ h) -> proc_sim s hI' p h'.
Proof. intros [? [x ->]] [y ->]. split; [done|]. exists (y ++ x). by rewrite app_assoc. Qed.

Lemma btc_dep_sim s hI c p h :
  proc_sim s hI p h -> sends_ok payout_for (deps_cfg cfg) w hI c ->
  P (btc_dep cfg c) p h (fun r p' h' =>
    builds_ok payout_for hI c r /\ proc_sim s (@Ev BtcI c r :: hI) p' h').
Proof.
  intros Hs Hc. destruct (plain_read c) eqn:Hd.
  { eapply wp_mono; [|by apply P_reads, dep_reads]. intros o p' h' [-> Hx]. split; [by destruct c|by eapply sim_ext]. }
  destruct c as [| | | |d z x|raw x| |q]; try done; cbn [btc_dep].
  - eapply wp_mono; [|apply build_keeps_contract]. intros o p' h' (-> & Hx & Hb). split; [|by eapply sim_ext].
    intros b Ho. exists z. split; [done|]. by apply Hb.
  - destruct Hc as [Hl (z & b & Hz & (owed & Hd' & Hb) & Hr & _)]. apply dec_inj in Hd' as ->.
    unfold broadcastRaw. apply wp_bind, wp_attempt, P_ask.
    + split; [done|]. left. exists l, w, owed, b. destruct Hs as [_ [y ->]].
      split; [apply elem_of_app; by right|]. by repeat split; try apply Hz.
    + intros r. apply wp_ret. split; [done|]. eapply sim_ext; [done|]. by eexists [_].
  - unfold saveState. apply wp_bind, P_ask; [done|]. intros [[]|m]; [apply P_ask; [done|]; intros r|];
      (split; [done|]; eapply sim_ext; [done|]); [by eexists [_; _]|by eexists [_]].
Qed.

Lemma one_steady s : payouts_ok payout_for (STATE s) -> P (processOne cfg w) s h0 (fun _ => steady h0).
Proof.
  intros Hs. unfold processOne.
  eapply wp_mono; [|eapply (wp_embed (I := BtcI) (J := ProcI) STATE with_STATE (btc_dep cfg) proc_sim
    (sends_ok payout_for (deps_cfg cfg) w) (builds_ok payout_for) proc_ok anything _ (STATE s) [] s h0
    (fun _ q _ => payouts_ok payout_for q))].
  - intros o s' h' (q & hI & [<- Hx] & HQ). split; [exact HQ|exact Hx].
  - intros. by apply btc_dep_sim.
  - by intros ? ? ? ? [-> _].
  - by intros ? ? ? ? ? [_ ?].
  - split; [done|by exists []].
  - by apply K_process.
Qed.
End One.

Lemma sweep_one_steady a s h : LIVE cfg = true -> payouts_ok payout_for (STATE s) ->
  P (sweep_one cfg a) s h (fun _ => steady h).
Proof.
  intros Hl Hs. unfold sweep_one. apply wp_bind. eapply wp_mono; [|apply P_reads, utxos_reads].
  intros [us|m] s1 h1 (-> & Hx); [|by split]. cbv zeta. destruct (_ <? _); [by split|].
  apply wp_bind. eapply wp_mono; [|apply P_reads, fee_reads].
  intros [rate|m] s2 h2 (-> & Hy).
  2:{ eapply steady_trans; [split; [exact Hs|exact Hx]|by split]. }
  assert (steady h s h2) as Hst by (eapply steady_trans; [split; [exact Hs|exact Hx]|by split]). clear Hx Hy.
  apply wp_bind, wp_of_res. destruct (sweep_fee _ _) as [fee|m]; [|done]. destruct (_ <=? _) eqn:Eb; [done|]. breflect.
  apply wp_bind, wp_of_res. destruct (hd_address _) as [ad|m]; [|done].
  apply wp_bind, wp_of_res. destruct (sign_tx _ _ _) as [t|m] eqn:Es; [|done].
  apply wp_bind, P_ask.
  - split; [done|]. right. eexists _, _, fee, t. split; [exact Es|]. split; [done|]. lia.
  - intros [r|m]; by apply steady_cons.
Qed.

(** A loop whose iterations catch their exceptions. *)
Lemma each_steady {A B} (f : A -> prog ProcI B) l s h :
  (forall x s h, x ∈ l -> payouts_ok payout_for (STATE s) -> P (f x) s h (fun _ => steady h)) ->
  payouts_ok payout_for (STATE s) ->
  P (for_each (fun x => let! _ := attempt (f x) in Ret tt) l) s h (fun _ => steady h).
Proof.
  intros Hf Hs. apply (wp_for_each (I := ProcI) _ _ _ _ (steady h)); [by apply steady_refl| |done].
  intros x s1 h1 Hx H1. apply wp_bind, wp_attempt. eapply wp_mono; [|apply Hf; [done|apply H1]].
  intros o s2 h2 H2. cbn. by eapply steady_trans.
Qed.

Lemma pool_reads : calls (I := ProcI) reads_only False (topUpPool cfg).
Proof. unfold topUpPool, fetchDepositAddresses. reads. Qed.

Lemma sweep_steady s h : payouts_ok payout_for (STATE s) -> P (sweepDeposits cfg) s h (fun _ => steady h).
Proof.
  intros Hs. unfold sweepDeposits. destruct (LIVE cfg) eqn:El; rewrite ?orb_true_r; [|by apply steady_refl].
  destruct (HD_ENABLED cfg); [|by apply steady_refl]. cbn [negb orb]. apply wp_bind, wp_attempt.
  eapply wp_mono; [|apply P_quiet; [|exact Hs]]. 2:{ unfold fetchDepositAddresses. reads. }
  intros [[[addrs pr] mi]|m] s1 h1 H1; [|done]. eapply wp_mono; [|apply each_steady; [|apply H1]].
  - intros o s2 h2 H2. by eapply steady_trans.
  - intros a s2 h2 _ H2. by apply sweep_one_steady.
Qed.

(** Sequencing of steady programs. *)
Lemma then_steady {A B} (p : prog ProcI A) (k : A -> prog ProcI B) s h :
  P p s h (fun _ => steady h) ->
  (forall a s' h', payouts_ok payout_for (STATE s') -> P (k a) s' h' (fun _ => steady h')) ->
  P (bind p k) s h (fun _ => steady h).
Proof.
  intros Hp Hk. apply wp_bind. eapply wp_mono; [|exact Hp]. intros [a|m] s1 h1 H1; [|done].
  eapply wp_mono; [|apply Hk, H1]. intros o s2 h2 H2. by eapply steady_trans.
Qed.

Lemma ask_steady c s h : reads_only c -> payouts_ok payout_for (STATE s) -> P (pask c) s h (fun _ => steady h).
Proof. intros Hc Hs. apply P_quiet; [by apply calls_pask|done]. Qed.

Lemma set_hd_steady t s h : payouts_ok payout_for (STATE s) -> P (set_lastHdRun t) s h (fun _ => steady h).
Proof. intros Hs. by apply steady_refl. Qed.

Lemma hd_steady s h : payouts_ok payout_for (STATE s) ->
  P (if HD_ENABLED cfg then
       let! now := pask DateNow in
       let! s := getP in
       if 120000 <? now - lastHdRun s then
         let! now := pask DateNow in
         do! set_lastHdRun now in do! topUpPool cfg in sweepDeposits cfg
       else Ret tt
     else Ret tt) s h (fun _ => steady h).
Proof.
  intros Hs. destruct (HD_ENABLED cfg); [|by apply steady_refl].
  apply then_steady; [by apply ask_steady|]. intros now s1 h1 H1. apply wp_bind, (wp_get (I := ProcI)).
  destruct (_ <? _); [|by apply steady_refl]. apply then_steady; [by apply ask_steady|]. intros now' s2 h2 H2.
  apply then_steady; [by apply set_hd_steady|]. intros _ s3 h3 H3.
  apply then_steady; [by apply P_quiet; [apply pool_reads|]|]. intros _ s4 h4 H4. by apply sweep_steady.
Qed.

Lemma fetchPending_spec s h :
  P fetchPending s h (fun o s' h' => s' = s /\
    exists r, h' = PE DaemonPending r :: h /\ o = Ok (match r with Ok l => l | Err _ => [] end)).
Proof. apply wp_bind, wp_attempt, P_ask; [done|]. intros r. split; [done|]. by exists r. Qed.

Lemma payouts_steady l s h : (l = [] \/ PE DaemonPending (Ok l) ∈ h) -> payouts_ok payout_for (STATE s) ->
  P (for_each (fun w => let! _ := attempt (processOne cfg w) in Ret tt) l) s h (fun _ => steady h).
Proof.
  intros [->|Hl] Hs; [by apply steady_refl|].
  apply (wp_for_each (I := ProcI) _ _ _ _ (steady h)); [by apply steady_refl| |done].
  intros w s1 h1 Hw H1. apply wp_bind, wp_attempt. eapply wp_mono; [|eapply (one_steady w l); [|done|apply H1]].
  - intros o s2 h2 H2. cbn. by eapply steady_trans.
  - destruct H1 as [_ [x ->]]. apply elem_of_app. by right.
Qed.

Lemma loop_steady s h : payouts_ok payout_for (STATE s) -> P (loop cfg) s h (fun _ => steady h).
Proof.
  intros Hs. unfold loop. apply wp_bind. eapply wp_mono; [|apply fetchPending_spec].
  intros o s1 h1 (-> & r & -> & ->).
  assert (steady h s (PE DaemonPending r :: h)) as H1 by by apply steady_cons, steady_refl.
  eapply (wp_mono (I := ProcI)); [intros o s2 h2 H2; exact (steady_trans _ _ _ _ _ H1 H2)|].
  apply then_steady; [|intros; by apply hd_steady]. apply payouts_steady; [|done]. destruct r; [right; left|by left].
Qed.

Lemma main_steady n s h : payouts_ok payout_for (STATE s) -> P (main cfg n) s h (fun _ => steady h).
Proof.
  intros Hs. unfold main. apply then_steady.
  - destruct (HD_ENABLED cfg); [|by apply steady_refl].
    apply then_steady; [by apply P_quiet; [apply pool_reads|]|]. intros _ s1 h1 H1.
    apply then_steady; [by apply ask_steady|]. intros; by apply set_hd_steady.
  - intros _ s1 h1 H1. apply each_steady; [|done]. intros. by apply loop_steady.
Qed.
End Process.


(** ** Concrete runs *)
Module BtcProcessDemo.
Local Open Scope string_scope.

#[local] Instance toy_lib : BtcLib.
Proof.
  refine {| script_len := fun a => if truthy a then Some 22 else None;
            hd_address := fun i => Ok ("hd" +:+ dec i);
            sign_tx := fun k i o => Ok {| tx_id_ := "id" +:+ String.concat "," (map outpoint i);
              tx_hex := String.concat "," (map (fun x => fst x +:+ "=" +:+ dec (snd x)) o); tx_vsize := 140 |} |}.
  intros k i o t [= <-]. reflexivity.
Defined.

Definition cfg : ProcCfg := {|
  LIVE := true; MIN_CONFIRMATIONS := 2; MAX_SATS := 0; BTC_MAX_RETRIES := 3; MAX_NETWORK_FEE_SATS := 10000;
  CUSTODY_ADDRESS := "custody"; FEE_TARGET_BLOCKS := "3"; HD_ENABLED := true; POOL_TARGET := Some 2;
  SWEEP_MIN_SATS := 2000 |}.

Definition utxo (t : string) (v : Z) (c : bool) : EsUtxo :=
  {| eu_utxo := {| u_txid := t; u_vout := 0; u_value := v |}; eu_confirmed := c |}.

(** One pending withdrawal; [posted] is the answer to a broadcast, [tip] the text of the tip. *)
Definition world (posted : res (Z * string)) (tip : string) : env ProcI := fun _ c =>
  match c return res (proc_ans c) with
  | EsUtxos a => Ok (200, if (a =? "custody")%string then [utxo "a" 90000 true; utxo "b" 70000 false]
                          else [utxo "d" 30000 true])
  | EsFeeEstimates => Ok (200, [("3", num_of_Z 3)])
  | EsTx _ => Ok (200, {| es_confirmed := true; es_block_height := Some 800000 |})
  | EsTip => Ok (200, tip)
  | EsStatus _ => Ok 404
  | EsTxs _ => Ok (200, [])
  | EsPostTx _ => posted
  | DaemonHealth => Ok (200, Some false)
  | DaemonPending => Ok [{| p_txId := "w1"; p_evmAddress := " bob "; p_amountUnits := num_of_Z 50000 |}]
  | DaemonFulfill _ _ => Ok (Some true)
  | DaemonDeposits => Ok {| dp_success := true; dp_addresses := Some [{| da_address := "hd0"; da_index := 0 |}];
                            dp_poolRemaining := Some 1; dp_maxIndex := Some 6 |}
  | DaemonPool _ => Ok true
  | WriteTmp _ | RenameTmp => Ok tt
  | DateNow => Ok 200000
  end.

Definition start : ProcState := {| STATE := []; lastHdRun := 0 |}.

Definition sent (h : history ProcI) : list string :=
  omap (fun e : event ProcI => match e with Ev (EsPostTx raw) _ => Some raw | _ => None end) (rev h).
Definition fulfilled_ids (h : history ProcI) : list string :=
  omap (fun e : event ProcI => match e with Ev (DaemonFulfill t _) _ => Some t | _ => None end) (rev h).

(** The payout is signed once and sent again, with the same bytes, until the network answers. *)
Example unanswered_payout_resent :
  sent (trace (world (Err "timeout") "800005") (main cfg 2) start) =
    ["bob=49577,custody=40000"; "bob=49577,custody=40000"].
Proof. vm_compute. reflexivity. Qed.

(** The pool is topped up and a cycle sweeps a deposit into custody. *)
Example cycle_sweeps :
  sent (trace (world (Err "timeout") "800005") (loop cfg) start) = ["bob=49577,custody=40000"; "custody=29670"].
Proof. vm_compute. reflexivity. Qed.

(** A tip that is not a number makes the confirmations NaN, which is not below the required
    count: the withdrawal is reported as paid although the depth of the payout is unknown. *)
Example garbage_tip_fulfills :
  let s := {| STATE := [("w1", with_txid "t1" (fresh_entry "bob" "50000"))]; lastHdRun := 200000 |} in
  fulfilled_ids (trace (world (Err "timeout") "<html>") (loop cfg) s) = ["w1"] /\
  fulfilled_ids (trace (world (Err "timeout") "800000") (loop cfg) s) = [].
Proof. vm_compute. split; reflexivity. Qed.

End BtcProcessDemo.
