(* ===== verification/Preflight.v ===== *)
(** * Production preflight ([preflight] of [src/scripts/bridge-relayer-core.ts])

    The checks that gate the start of the relayer, over the read-only interface of the injected
    client.  Log texts are omitted; messages of the thrown [PreflightError] are abbreviated to the
    failed check. *)
From S2P Require Import Prelude JsText JsNum Interact BridgeCore ToyViem.
Local Open Scope Z_scope.
Local Open Scope prog_scope.

Inductive pre_cmd :=
| GetChainId
| GetCode (address : Hex)
| ReadContract (address : Hex) (functionName : string) (args : list string).

Definition pre_ans (c : pre_cmd) : Type :=
  match c with GetChainId => Z | GetCode _ => option Hex | ReadContract _ _ _ => jsval end.

Definition PreI : iface := {| st := unit; cmd := pre_cmd; ans := pre_ans |}.
Definition pask (c : pre_cmd) : prog PreI (pre_ans c) := call (c : cmd PreI).

Record PreflightConfig := {
  expectedChainId : Z;
  pf_bridgeAddress : option string;
  configuredUsdc : option string;
  chainUsdc : string;
  vaultAddress : option string;
  expectedOwner : string;
}.

Definition hasCode (code : option Hex) : bool :=
  match code with
  | Some c => truthy c && negb (c =? "0x")%string && (2 <? String.length c)%nat
  | None => false
  end.

Record PreflightResult := { pf_paused : bool; pf_owner : string; pf_chainId : Z }.

Section Preflight.
Context `{V : Viem}.

(** [if (cond) throw new PreflightError(msg)]. *)
Definition refuse_if (cond : bool) (msg : string) : prog PreI unit :=
  if cond then Throw ("[preflight] " +:+ msg) else Ret tt.

Definition check_vault (vault : option string) : prog PreI unit :=
  match vault with
  | Some v =>
      if truthy v then
        do! refuse_if (negb (isEvmAddress (Some v))) "XRGE_BRIDGE_VAULT is not an address" in
        let! code := pask (GetCode v) in
        refuse_if (negb (hasCode code)) "no contract code at XRGE_BRIDGE_VAULT"
      else Ret tt
  | None => Ret tt
  end.

Definition preflight (cfg : PreflightConfig) : prog PreI PreflightResult :=
  let! chainId := pask GetChainId in
  do! refuse_if (negb (chainId =? expectedChainId cfg)) "chain id mismatch" in
  do! refuse_if (negb (truthy (opt_str (pf_bridgeAddress cfg))) || negb (isEvmAddress (pf_bridgeAddress cfg)))
        "ROUGE_BRIDGE_ADDRESS missing or invalid" in
  let bridge := opt_str (pf_bridgeAddress cfg) in
  let! code := pask (GetCode bridge) in
  do! refuse_if (negb (hasCode code)) "no contract code at ROUGE_BRIDGE_ADDRESS" in
  let! ov := pask (ReadContract bridge "owner" []) in
  let owner := js_String ov in
  do! refuse_if (negb (sameAddress owner (expectedOwner cfg))) "RougeBridge owner mismatch" in
  let! pv := pask (ReadContract bridge "paused" []) in
  let paused := js_Boolean pv in
  do! refuse_if (negb (isEvmAddress (Some (chainUsdc cfg)))) "CHAIN_CONFIG usdc is not an address" in
  do! refuse_if (match configuredUsdc cfg with
                 | Some u => negb (u =? "")%string && negb (sameAddress u (chainUsdc cfg))
                 | None => false
                 end) "configured USDC != CHAIN_CONFIG usdc" in
  let! sv := pask (ReadContract bridge "supportedTokens" [chainUsdc cfg]) in
  do! refuse_if (negb (js_Boolean sv)) "RougeBridge.supportedTokens == false" in
  do! check_vault (vaultAddress cfg) in
  Ret {| pf_paused := paused; pf_owner := owner; pf_chainId := chainId |}.

(** ** What a passed preflight establishes *)

Abbreviation PE := (@Ev PreI).

(** The answers read during the preflight that justify starting. *)
Definition environment_checked (cfg : PreflightConfig) (h : history PreI) (r : PreflightResult) : Prop :=
  exists bridge code ov pv sv,
    pf_bridgeAddress cfg = Some bridge /\ isEvmAddress (Some bridge) = true /\
    PE GetChainId (Ok (expectedChainId cfg)) ∈ h /\ pf_chainId r = expectedChainId cfg /\
    PE (GetCode bridge) (Ok code) ∈ h /\ hasCode code = true /\
    PE (ReadContract bridge "owner" []) (Ok ov) ∈ h /\ pf_owner r = js_String ov /\
    sameAddress (js_String ov) (expectedOwner cfg) = true /\
    PE (ReadContract bridge "paused" []) (Ok pv) ∈ h /\ pf_paused r = js_Boolean pv /\
    PE (ReadContract bridge "supportedTokens" [chainUsdc cfg]) (Ok sv) ∈ h /\ js_Boolean sv = true /\
    (forall u, configuredUsdc cfg = Some u -> u <> "" -> sameAddress u (chainUsdc cfg) = true) /\
    (forall v, vaultAddress cfg = Some v -> v <> "" -> isEvmAddress (Some v) = true /\
       exists vcode, PE (GetCode v) (Ok vcode) ∈ h /\ hasCode vcode = true).

Definition any_pre (h : history PreI) (c : pre_cmd) : Prop := True.
Abbreviation F p s h Q := (wp (I := PreI) any_pre anything p s h Q).

Lemma F_ask {A} c (k : pre_ans c -> prog PreI A) s h Q :
  (forall m, Q (Err m) s (PE c (Err m) :: h)) -> (forall a, F (k a) s (PE c (Ok a) :: h) Q) ->
  F (bind (pask c) k) s h Q.
Proof. intros. apply wp_bind, (wp_call (I := PreI)); [done|]. intros [a|m] _; auto. Qed.

Lemma F_refuse {A} b msg (k : unit -> prog PreI A) s h Q :
  (forall m, Q (Err m) s h) -> (b = false -> F (k tt) s h Q) -> F (bind (refuse_if b msg) k) s h Q.
Proof. intros Hm Hk. unfold refuse_if. destruct b; [apply Hm|by apply Hk]. Qed.

Definition passes (cfg : PreflightConfig) (o : res PreflightResult) (s : unit) (h : history PreI) : Prop :=
  forall r, o = Ok r -> environment_checked cfg h r.

Lemma vault_spec vault s h Q :
  (forall m s' h', Q (Err m) s' h') ->
  (forall h', h' = h \/ (exists c, h' = c :: h) ->
     (forall v, vault = Some v -> v <> "" -> isEvmAddress (Some v) = true /\
        exists vcode, PE (GetCode v) (Ok vcode) ∈ h' /\ hasCode vcode = true) -> Q (Ok tt) s h') ->
  F (check_vault vault) s h Q.
Proof.
  intros Hm Hk. unfold check_vault. destruct vault as [v|]; [|apply Hk; [by left|done]].
  destruct (truthy v) eqn:Et.
  - apply F_refuse; [done|]. intros Hv%negb_false_iff. apply F_ask; [done|]. intros code.
    unfold refuse_if. destruct (hasCode code) eqn:Ec; [|apply Hm].
    apply Hk; [right; by eexists|]. intros v' [= <-] _. split; [done|]. exists code. split; [left|done].
  - apply Hk; [by left|]. intros v' [= <-] Hne. apply truthy_true in Hne. congruence.
Qed.

Lemma preflight_spec cfg s h : F (preflight cfg) s h (passes cfg).
Proof.
  unfold preflight. apply F_ask; [done|]. intros chainId. apply F_refuse; [done|].
  intros Hc%negb_false_iff%Z.eqb_eq. subst chainId. apply F_refuse; [done|].
  intros [Ht Hb]%orb_false_iff. apply negb_false_iff in Hb.
  destruct (pf_bridgeAddress cfg) as [bridge|] eqn:Eb; [|done]. cbv zeta. change (opt_str (Some bridge)) with bridge.
  apply F_ask; [done|]. intros code. apply F_refuse; [done|]. intros Hcode%negb_false_iff.
  apply F_ask; [done|]. intros ov. apply F_refuse; [done|]. intros Hown%negb_false_iff.
  apply F_ask; [done|]. intros pv. apply F_refuse; [done|]. intros _. apply F_refuse; [done|]. intros Husdc.
  apply F_ask; [done|]. intros sv. apply F_refuse; [done|]. intros Hsv%negb_false_iff.
  apply wp_bind, vault_spec; [done|]. intros h' Hh' Hv r [= <-].
  assert (forall ev, ev ∈ PE (ReadContract bridge "supportedTokens" [chainUsdc cfg]) (Ok sv)
    :: PE (ReadContract bridge "paused" []) (Ok pv) :: PE (ReadContract bridge "owner" []) (Ok ov)
    :: PE (GetCode bridge) (Ok code) :: PE GetChainId (Ok (expectedChainId cfg)) :: h -> ev ∈ h') as Hin.
  { intros ev Hev. destruct Hh' as [->|[c ->]]; [done|by right]. }
  exists bridge, code, ov, pv, sv. simpl.
  repeat match goal with |- _ /\ _ => split end; try done; try (apply Hin; set_solver).
  intros u Hu Hne. rewrite Hu in Husdc. apply andb_false_iff in Husdc as [Hx|Hx]; apply negb_false_iff in Hx; [|done].
  by apply String.eqb_eq in Hx.
Qed.

(** The relayer starts only in a verified environment.  When [preflight] returns, the RPC
    endpoint reported the expected chain id, contract code was read at the configured, valid
    bridge address, that contract's owner is the operational owner, it supports the USDC token of
    the chain, an explicitly configured USDC address is that token, and a configured vault address
    is valid and has code; the reported pause flag and owner are those read.  In every other case
    it throws. *)
Theorem preflight_sound cfg e r (Hok : outcome e (preflight cfg) tt = Ok r) :
  environment_checked cfg (trace e (preflight cfg) tt) r.
Proof. exact (wp_post (I := PreI) _ e _ tt _ (preflight_spec cfg tt []) r Hok). Qed.
End Preflight.

Module PreflightDemo.
Definition vault : string := "0x00000000000000000000000000000000000000b2".
Definition cfg : PreflightConfig := {|
  expectedChainId := 8453; pf_bridgeAddress := Some vault; configuredUsdc := None; chainUsdc := vault;
  vaultAddress := Some vault; expectedOwner := vault |}.
Definition world : env PreI := fun _ c =>
  match c with
  | GetChainId => Ok 8453
  | GetCode _ => Ok (Some "0x6080"%string)
  | ReadContract _ f _ => Ok (if (f =? "owner")%string then VStr vault else VBool true)
  end.
Lemma preflight_sound_witness :
  environment_checked cfg (trace world (preflight cfg) tt)
    {| pf_paused := true; pf_owner := vault; pf_chainId := 8453 |}.
Proof. apply (preflight_sound cfg world). vm_compute. reflexivity. Defined.
End PreflightDemo.
