(* ===== verification/QueueStore.v ===== *)
(** * The queue's state file ([src/scripts/bridge-relayer-core.ts])

    [atomicWriteFile] with its behaviour at a crash or a failing operation, and
    [loadQueuedState] / [saveQueuedState] with the round trip through the stored document.  The
    document is a JSON value; the file system maps names to contents. *)
From S2P Require Import Prelude JsText JsNum JsMap Interact BridgeCore EvmPayout.
Local Open Scope Z_scope.
Local Open Scope prog_scope.

(** ** Atomic replacement of a file *)

Section Atomic.
(** File contents. *)
Context {C : Type}.

Inductive fs_cmd :=
| WriteFileSync (f : string) (c : C)
| RenameSync (a b : string)
| ExistsSync (f : string)
| UnlinkSync (f : string).

Definition fs_ans (c : fs_cmd) : Type :=
  match c with ExistsSync _ => bool | _ => unit end.

Definition FsI : iface := {| st := unit; cmd := fs_cmd; ans := fs_ans |}.
Definition fask (c : fs_cmd) : prog FsI (fs_ans c) := call (c : cmd FsI).

(** [tmp] is the name [`${file}.tmp-${process.pid}-${Date.now()}`]. *)
Definition atomicWriteFile (file tmp : string) (content : C) : prog FsI unit :=
  let! r := attempt (
    do! fask (WriteFileSync tmp content) in
    fask (RenameSync tmp file)) in
  match r with
  | Ok _ => Ret tt
  | Err e =>
      let! _ := attempt (
        let! ex := fask (ExistsSync tmp) in
        if ex then fask (UnlinkSync tmp) else Ret tt) in
      Throw e
  end.

(** Effect of an operation on the files.  A write that fails, or is cut by a crash, leaves the
    target with some unspecified content or as it was; renaming is atomic. *)
Inductive fs_step (d : jmap C) : event FsI -> jmap C -> Prop :=
| fs_write f c : fs_step d (Ev (WriteFileSync f c : cmd FsI) (Ok tt)) (mset f c d)
| fs_write_cut f c m part : fs_step d (Ev (WriteFileSync f c : cmd FsI) (Err m)) (mset f part d)
| fs_write_none f c m : fs_step d (Ev (WriteFileSync f c : cmd FsI) (Err m)) d
| fs_rename a b v : mget a d = Some v ->
    fs_step d (Ev (RenameSync a b : cmd FsI) (Ok tt)) (mset b v (mdel a d))
| fs_rename_none a b m : fs_step d (Ev (RenameSync a b : cmd FsI) (Err m)) d
| fs_exists f r : fs_step d (Ev (ExistsSync f : cmd FsI) r) d
| fs_unlink f : fs_step d (Ev (UnlinkSync f : cmd FsI) (Ok tt)) (mdel f d)
| fs_unlink_none f m : fs_step d (Ev (UnlinkSync f : cmd FsI) (Err m)) d.

(** The files after a history (newest event first). *)
Inductive fs_run (d : jmap C) : history FsI -> jmap C -> Prop :=
| fs_nil : fs_run d [] d
| fs_cons h d1 ev d2 : fs_run d h d1 -> fs_step d1 ev d2 -> fs_run d (ev :: h) d2.

(** What the operations of [atomicWriteFile] may be, by position. *)
Definition atomic_ok (file tmp : string) (content : C) (h : history FsI) (c : fs_cmd) : Prop :=
  match c with
  | WriteFileSync f x => h = [] /\ f = tmp /\ x = content
  | RenameSync a b => a = tmp /\ b = file /\ h = [Ev (WriteFileSync tmp content : cmd FsI) (Ok tt)]
  | ExistsSync _ => True
  | UnlinkSync f => f = tmp
  end.

Abbreviation W ok p s h Q := (wp (I := FsI) ok anything p s h Q).

(** When it returns normally, the write and the rename both succeeded. *)
Definition written (file tmp : string) (content : C) (o : res unit) (h : history FsI) : Prop :=
  o = Ok tt -> h = [Ev (RenameSync tmp file : cmd FsI) (Ok tt); Ev (WriteFileSync tmp content : cmd FsI) (Ok tt)].

Lemma atomic_spec file tmp content s :
  W (atomic_ok file tmp content) (atomicWriteFile file tmp content) s []
    (fun o _ h => written file tmp content o h).
Proof.
  unfold atomicWriteFile, written. simpl. split; [by repeat split|]. intros [[]|m] _; simpl.
  - split; [by repeat split|]. intros [[]|m] _; simpl; [done|]. split; [done|]. intros [[]|m2] _; simpl; [|done..].
    split; [done|]. by intros [[]|m3] _.
  - split; [done|]. intros [[]|m2] _; simpl; [|done..]. split; [done|]. by intros [[]|m3] _.
Qed.

(** At every point: other files are untouched, and the target has its old content or, after the
    rename, the new one. *)
Record files_ok (file tmp : string) (content : C) (d : jmap C) (h : history FsI) (d' : jmap C) : Prop := {
  fo_nodup : NoDup (mkeys d');
  fo_frame : forall f, f <> file -> f <> tmp -> mget f d' = mget f d;
  fo_target : mget file d' = mget file d \/ mget file d' = Some content;
  fo_tmp : h = [Ev (WriteFileSync tmp content : cmd FsI) (Ok tt)] -> mget tmp d' = Some content;
}.

Lemma files_same file tmp content d h h' d1 :
  files_ok file tmp content d h d1 -> h' <> [Ev (WriteFileSync tmp content : cmd FsI) (Ok tt)] ->
  files_ok file tmp content d h' d1.
Proof. intros [? ? ? ?] Hne. by split. Qed.

(** Writing or removing the temporary file. *)
Lemma files_tmp file tmp content d h h' d1 d2 :
  tmp <> file -> files_ok file tmp content d h d1 -> NoDup (mkeys d2) ->
  (forall f, f <> tmp -> mget f d2 = mget f d1) ->
  (h' = [Ev (WriteFileSync tmp content : cmd FsI) (Ok tt)] -> mget tmp d2 = Some content) ->
  files_ok file tmp content d h' d2.
Proof.
  intros Hne [Hn Hf Ht _] Hn2 H2 Hw. split; [done| | |done].
  - intros f H1 H3. rewrite H2 by done. by apply Hf.
  - by rewrite H2.
Qed.

Lemma files_step file tmp content d h d1 c r d2 :
  tmp <> file -> atomic_ok file tmp content h c -> files_ok file tmp content d h d1 ->
  fs_step d1 (Ev (c : cmd FsI) r) d2 -> files_ok file tmp content d (Ev (c : cmd FsI) r :: h) d2.
Proof.
  intros Hne Hok Hi Hs. pose proof (fo_nodup _ _ _ _ _ _ Hi) as Hn.
  inversion Hs; subst; simpl in Hok; simplify_eq/=.
  - destruct Hok as (-> & -> & ->). eapply files_tmp; [done|done|by apply NoDup_mset| |].
    + intros f' Hf'. by apply mget_mset_ne.
    + intros _. apply mget_mset_eq.
  - destruct Hok as (-> & -> & ->). eapply files_tmp; [done|done|by apply NoDup_mset| |done].
    intros f' Hf'. by apply mget_mset_ne.
  - by eapply files_same.
  - destruct Hok as (-> & -> & ->). assert (v = content) as ->.
    { rewrite (fo_tmp _ _ _ _ _ _ Hi eq_refl) in H0. by injection H0. }
    split; [by apply NoDup_mset, NoDup_mdel| |right; apply mget_mset_eq|done].
    intros f Hf Hft. rewrite mget_mset_ne, mget_mdel_ne by done. by apply Hi.
  - by eapply files_same.
  - by eapply files_same.
  - eapply files_tmp; [done|done|by apply NoDup_mdel| |done]. intros f' Hf'. by apply mget_mdel_ne.
  - by eapply files_same.
Qed.

Lemma files_run file tmp content d h d' :
  tmp <> file -> NoDup (mkeys d) -> guarded (I := FsI) (atomic_ok file tmp content) h -> fs_run d h d' ->
  files_ok file tmp content d h d'.
Proof.
  intros Hne Hnd Hg Hr. induction Hr as [|h d1 [c r] d2 Hr IH Hs].
  { split; [done|done|by left|done]. }
  destruct Hg as [Hok Hg]. by eapply files_step; eauto.
Qed.

(** replacing the state file is crash safe.  Cut [atomicWriteFile] after any of its
    operations, with any of them failing or leaving a partial temporary file: the target file has
    either its complete old content (or is still absent) or the complete new content, and no other
    file but the temporary one is touched.  When it returns without an exception, the target has
    the new content and the temporary file is gone. *)
Theorem atomicWriteFile_crash_safe file tmp content e d post pre d'
    (Hne : tmp <> file) (Hnd : NoDup (mkeys d))
    (Hcut : trace e (atomicWriteFile file tmp content) tt = post ++ pre) (Hfs : fs_run d pre d') :
  (mget file d' = mget file d \/ mget file d' = Some content) /\
  (forall f, f <> file -> f <> tmp -> mget f d' = mget f d) /\
  (post = [] -> outcome e (atomicWriteFile file tmp content) tt = Ok tt ->
   mget file d' = Some content /\ mget tmp d' = None).
Proof.
  pose proof (wp_guarded (I := FsI) _ e _ tt _ (atomic_spec file tmp content tt)) as Hg.
  rewrite Hcut in Hg. apply guarded_app in Hg.
  destruct (files_run _ _ _ _ _ _ Hne Hnd Hg Hfs) as [_ Hf Ht _].
  split; [done|]. split; [done|]. intros -> Hout.
  pose proof (wp_post (I := FsI) _ e _ tt _ (atomic_spec file tmp content tt) Hout) as Hh.
  rewrite Hcut in Hh. simpl in Hh. subst pre. clear -Hfs Hne Hnd.
  inversion Hfs as [|h d1 ev d2 Hr Hs]; subst. inversion Hr as [|h0 d0 ev0 d3 Hr0 Hs0]; subst.
  inversion Hr0; subst. inversion Hs0; subst. inversion Hs; subst.
  match goal with H : mget tmp _ = Some _ |- _ => rewrite mget_mset_eq in H; injection H as <- end.
  split; [apply mget_mset_eq|]. rewrite mget_mset_ne by done. by apply mget_mdel_eq, NoDup_mset.
Qed.
End Atomic.
Arguments FsI C : clear implicits.
Arguments fs_cmd C : clear implicits.

Lemma atomicWriteFile_crash_safe_witness :
  let d := [("state", "old")] in
  mget "state" (mset "state.tmp" "ne" d) = Some "old".
Proof.
  set (e := fun (h : history (FsI string)) (c : fs_cmd string) => match c return res (fs_ans c) with
     | ExistsSync _ => Ok false | WriteFileSync _ _ => Err "crash" | _ => Ok tt end).
  assert (fs_run (C := string) [("state", "old")] [Ev (WriteFileSync "state.tmp" "new" : cmd (FsI string)) (Err "crash")]
            (mset "state.tmp" "ne" [("state", "old")])) as Hr
    by (eapply fs_cons; [apply fs_nil|apply fs_write_cut]).
  destruct (atomicWriteFile_crash_safe "state" "state.tmp" "new" e [("state", "old")]
    [Ev (ExistsSync "state.tmp" : cmd (FsI string)) (Ok false)] _ _ ltac:(done) ltac:(apply NoDup_singleton) eq_refl Hr)
    as [[H|H] _]; [exact H|discriminate H].
Defined.

(** ** The stored document *)

(** JSON values, as [JSON.parse] returns them. *)
Inductive json :=
| JNull | JBool (b : bool) | JNum (n : number) | JStr (s : string)
| JArr (l : list json) | JObj (o : list (string * json)).

Definition jfield (k : string) (j : json) : option json :=
  match j with JObj o => mget k o | _ => None end.

(** The entries of a parsed document: an array, or an object with an array [entries]. *)
Definition doc_entries (data : json) : list json :=
  match data with
  | JArr l => l
  | _ => match jfield "entries" data with Some (JArr l) => l | _ => [] end
  end.

(** [r && typeof r.canonical_l1_tx_id === "string" && typeof r.stored_tx_id === "string"]. *)
Definition entry_ids (r : json) : option (string * string) :=
  match jfield "canonical_l1_tx_id" r, jfield "stored_tx_id" r with
  | Some (JStr c), Some (JStr t) => Some (c, t)
  | _, _ => None
  end.

(** [loadQueuedState]: [None] is a missing file, [Some (Err _)] one that cannot be read or parsed.
    The loaded values are the parsed objects themselves. *)
Definition loadQueuedState (file : option (res json)) : jmap json :=
  match file with
  | Some (Ok data) =>
      foldl (fun state r =>
        match entry_ids r with Some (c, _) => mset (queuedKey c) r state | None => state end)
        [] (doc_entries data)
  | _ => []
  end.

Definition asset_json (a : EvmAsset) : string := match a with Eth => "Eth" | Usdc => "Usdc" end.
Definition status_json (s : QueuedStatus) : string :=
  match s with
  | QQueued => "queued" | QCancelledRefundCandidate => "cancelled_refund_candidate" | QAmbiguous => "ambiguous"
  end.

(** [JSON.stringify] omits undefined members. *)
Definition opt_member (k : string) (v : option string) : list (string * json) :=
  match v with Some s => [(k, JStr s)] | None => [] end.

Definition record_json (r : QueuedRecord) : json := JObj (
  [("stored_tx_id", JStr (stored_tx_id r)); ("canonical_l1_tx_id", JStr (canonical_l1_tx_id r));
   ("request_id", JStr (request_id r)); ("asset", JStr (asset_json (q_asset r)));
   ("recipient", JStr (q_recipient r)); ("amount", JStr (q_amount r));
   ("execute_after", JStr (execute_after r));
   ("release_submission_tx_hash", JStr (release_submission_tx_hash r));
   ("status", JStr (status_json (status r)))]
  ++ opt_member "note" (note r) ++ opt_member "updated_at" (updated_at r)).

(** The document [saveQueuedState] writes through [atomicWriteFile]. *)
Definition queue_document (state : QueuedState) : json :=
  JObj [("version", JNum (num_of_Z 1)); ("entries", JArr (map (fun kv => record_json (snd kv)) state))].

(** [saveQueuedState]: a failing write is caught. *)
Definition saveQueuedState (file tmp : string) (state : QueuedState) : prog (FsI json) unit :=
  let! _ := attempt (atomicWriteFile file tmp (queue_document state)) in Ret tt.

(** Reading a stored entry back as a record. *)
Definition str_field (k : string) (j : json) : option string :=
  match jfield k j with Some (JStr s) => Some s | _ => None end.

Definition json_asset (s : string) : option EvmAsset :=
  if (s =? "Eth")%string then Some Eth else if (s =? "Usdc")%string then Some Usdc else None.
Definition json_status (s : string) : option QueuedStatus :=
  if (s =? "queued")%string then Some QQueued
  else if (s =? "cancelled_refund_candidate")%string then Some QCancelledRefundCandidate
  else if (s =? "ambiguous")%string then Some QAmbiguous else None.

Definition json_record (j : json) : option QueuedRecord :=
  t ← str_field "stored_tx_id" j; c ← str_field "canonical_l1_tx_id" j;
  rid ← str_field "request_id" j; a ← str_field "asset" j ≫= json_asset;
  to ← str_field "recipient" j; am ← str_field "amount" j; ea ← str_field "execute_after" j;
  sub ← str_field "release_submission_tx_hash" j; st ← str_field "status" j ≫= json_status;
  Some {| stored_tx_id := t; canonical_l1_tx_id := c; request_id := rid; q_asset := a;
          q_recipient := to; q_amount := am; execute_after := ea; release_submission_tx_hash := sub;
          status := st; note := str_field "note" j; updated_at := str_field "updated_at" j |}.

Lemma json_record_json r : json_record (record_json r) = Some r.
Proof. destruct r as [? ? ? [] ? ? ? ? [] [] []]; reflexivity. Qed.

Lemma record_json_ids r : entry_ids (record_json r) = Some (canonical_l1_tx_id r, stored_tx_id r).
Proof. reflexivity. Qed.


Lemma load_fold l acc :
  NoDup (mkeys acc ++ mkeys l) -> Forall (fun kv => fst kv = queuedKey (canonical_l1_tx_id (snd kv))) l ->
  foldl (fun state r => match entry_ids r with Some (c, _) => mset (queuedKey c) r state | None => state end)
    acc (map (fun kv => record_json (snd kv)) l)
  = acc ++ map (fun kv => (fst kv, record_json (snd kv))) l.
Proof.
  revert acc. induction l as [|[k r] l IH]; intros acc Hnd Hk; [by rewrite app_nil_r|].
  apply Forall_cons in Hk as [Hk Hl]. simpl in Hk. cbn [map foldl fst snd]. rewrite record_json_ids, <- Hk.
  assert (k ∉ mkeys acc) as Hn.
  { apply NoDup_app in Hnd as (_ & Hdis & _). intros Hin. apply (Hdis k Hin). left. }
  rewrite mset_new by done. rewrite IH; [by rewrite <- app_assoc| |done].
  unfold mkeys in *. rewrite map_app. simpl in *. by rewrite <- app_assoc.
Qed.

(** the queue survives a restart.  Writing a well-formed queue (distinct keys, each the key of
    its record's canonical id) and loading the document back yields the same keys in the same
    order, with records that decode to the ones written. *)
Theorem queue_store_roundtrip (s : QueuedState)
    (Hnd : NoDup (mkeys s)) (Hk : Forall (fun kv => fst kv = queuedKey (canonical_l1_tx_id (snd kv))) s) :
  map (fun kv => (fst kv, json_record (snd kv))) (loadQueuedState (Some (Ok (queue_document s))))
  = map (fun kv => (fst kv, Some (snd kv))) s.
Proof.
  unfold loadQueuedState. change (doc_entries (queue_document s)) with (map (fun kv => record_json (snd kv)) s).
  rewrite load_fold by done. simpl. rewrite map_map. apply map_ext. intros [k r]. cbn [fst snd].
  by rewrite json_record_json.
Qed.

Definition demo_record : QueuedRecord := {|
  stored_tx_id := "ab"; canonical_l1_tx_id := "0xAB"; request_id := "7"; q_asset := Usdc;
  q_recipient := "0xa1"; q_amount := "5"; execute_after := "5000"; release_submission_tx_hash := "0xh";
  status := QQueued; note := None; updated_at := Some "now" |}.

Lemma queue_store_roundtrip_witness :
  map (fun kv => (fst kv, json_record (snd kv)))
    (loadQueuedState (Some (Ok (queue_document [("0xab", demo_record)])))) = [("0xab", Some demo_record)].
Proof. apply (queue_store_roundtrip [("0xab", demo_record)]); [apply NoDup_singleton|by repeat constructor]. Defined.
