(* ===== verification/LosslessJson.v ===== *)
(** * Lossless JSON ([parseJsonLossless], [stringifyLossless] of
    [src/packages/core/src/finality-verify.ts])

    The parser keeps every number as its source text, rejects duplicate keys and bounds the
    nesting; the printer writes numbers verbatim.  Objects are insertion-ordered; [object_keys] is
    JavaScript's property order, in which array-index keys come first. *)
From S2P Require Import Prelude JsText JsUtf16.
Local Open Scope Z_scope.

Inductive LosslessJson :=
| LNull
| LBool (b : bool)
| LStr (s : units)
| LNum (raw : units)
| LArr (l : list LosslessJson)
| LObj (o : list (units * LosslessJson)).

(** ** Objects *)

Fixpoint oget {A} (k : units) (o : list (units * A)) : option A :=
  match o with
  | [] => None
  | (k', v) :: r => if units_eqb k k' then Some v else oget k r
  end.

Definition ohas {A} (k : units) (o : list (units * A)) : bool :=
  match oget k o with Some _ => true | None => false end.

(** An array index: a canonical decimal below 2^32 - 1. *)
Definition is_index (k : units) : bool := uint_text k && (digits_val k <? 4294967295).

Fixpoint insert_index {A} (x : units * A) (l : list (units * A)) : list (units * A) :=
  match l with
  | [] => [x]
  | y :: r => if digits_val (fst x) <=? digits_val (fst y) then x :: y :: r else y :: insert_index x r
  end.

(** The members in property order: index keys ascending, then the others as inserted. *)
Definition own_members {A} (o : list (units * A)) : list (units * A) :=
  foldr insert_index [] (List.filter (fun kv => is_index (fst kv)) o)
  ++ List.filter (fun kv => negb (is_index (fst kv))) o.

Definition object_keys {A} (o : list (units * A)) : list units := map fst (own_members o).

(** ** Numbers: the sticky expression [NUM_RE] *)

Fixpoint take_digits (l : units) : units * units :=
  match l with
  | c :: r => if is_dec c then let '(d, k) := take_digits r in (c :: d, k) else ([], l)
  | [] => ([], [])
  end.

(** [0|[1-9][0-9]*]. *)
Definition lex_int (l : units) : option (units * units) :=
  match l with
  | c :: r =>
      if c =? 48 then Some ([c], r)
      else if is_dec c then let '(d, k) := take_digits r in Some (c :: d, k)
      else None
  | [] => None
  end.

(** The optional fraction: a point followed by at least one digit. *)
Definition lex_frac (l : units) : units * units :=
  match l with
  | c :: r =>
      if c =? 46 then
        match take_digits r with
        | ([], _) => ([], l)
        | (d, k) => (c :: d, k)
        end
      else ([], l)
  | [] => ([], [])
  end.

(** The optional exponent: [e] or [E], an optional sign, at least one digit. *)
Definition lex_exp (l : units) : units * units :=
  match l with
  | c :: r =>
      if (c =? 101) || (c =? 69) then
        let '(sg, r1) := match r with
                         | x :: r' => if (x =? 43) || (x =? 45) then ([x], r') else ([], r)
                         | [] => ([], [])
                         end in
        match take_digits r1 with
        | ([], _) => ([], l)
        | (d, k) => (c :: sg ++ d, k)
        end
      else ([], l)
  | [] => ([], [])
  end.

Definition lex_num (l : units) : option (units * units) :=
  let '(sg, l0) := match l with
                   | c :: r => if c =? 45 then ([c], r) else ([], l)
                   | [] => ([], [])
                   end in
  match lex_int l0 with
  | None => None
  | Some (i, l1) =>
      let '(f, l2) := lex_frac l1 in
      let '(e, l3) := lex_exp l2 in
      Some (sg ++ i ++ f ++ e, l3)
  end.

(** ** The parser *)

Definition is_ws_unit (c : Z) : bool := (c =? 32) || (c =? 9) || (c =? 10) || (c =? 13).

Fixpoint ws (l : units) : units :=
  match l with
  | c :: r => if is_ws_unit c then ws r else l
  | [] => []
  end.

(** [str()] after its opening quote. *)
Definition str (l : units) : res (units * units) :=
  match scan_str l with
  | Err m => Err m
  | Ok (body, rest) =>
      match unescape body with
      | Some s => Ok (s, rest)
      | None => Err "Unexpected token in JSON"
      end
  end.

(** [text.startsWith(p, i)]: the rest after [p]. *)
Fixpoint strip (p l : units) : option units :=
  match p, l with
  | [], _ => Some l
  | x :: p', y :: l' => if x =? y then strip p' l' else None
  | _ :: _, [] => None
  end.

Definition literal (l : units) : option (LosslessJson * units) :=
  match strip (u "true") l with
  | Some r => Some (LBool true, r)
  | None =>
  match strip (u "false") l with
  | Some r => Some (LBool false, r)
  | None =>
  match strip (u "null") l with
  | Some r => Some (LNull, r)
  | None => None
  end end end.

(** [text[i] === c]: the rest after it. *)
Definition expect (c : Z) (l : units) : option units :=
  match l with x :: r => if x =? c then Some r else None | [] => None end.

(** A string, a literal or a number. *)
Definition scalar (t : units) : res (LosslessJson * units) :=
  match expect 34 t with
  | Some r => res_bind (str r) (fun p => Ok (LStr (fst p), snd p))
  | None =>
      match literal t with
      | Some p => Ok p
      | None =>
          match lex_num t with
          | Some (raw, r) => Ok (LNum raw, r)
          | None => Err "unexpected token"
          end
      end
  end.

(** [val(depth)], with the loops over members and elements; one unit of fuel per call or
    iteration.  The text that is left replaces the index [i]. *)
Fixpoint val (fuel : nat) (depth : Z) (text : units) : res (LosslessJson * units) :=
  match fuel with
  | O => Err "out of fuel"
  | S fuel =>
      if 256 <? depth then Err "nesting too deep" else
      let t := ws text in
      match expect 123 t with
      | Some r =>
          match expect 125 (ws r) with
          | Some r' => Ok (LObj [], r')
          | None => members fuel depth [] r
          end
      | None =>
          match expect 91 t with
          | Some r =>
              match expect 93 (ws r) with
              | Some r' => Ok (LArr [], r')
              | None => elements fuel depth [] r
              end
          | None => scalar t
          end
      end
  end
with members (fuel : nat) (depth : Z) (o : list (units * LosslessJson)) (text : units)
  : res (LosslessJson * units) :=
  match fuel with
  | O => Err "out of fuel"
  | S fuel =>
      match expect 34 (ws text) with
      | None => Err "expected key"
      | Some t =>
          match str t with
          | Err m => Err m
          | Ok (k, r) =>
              if ohas k o then Err "duplicate key" else
              match expect 58 (ws r) with
              | None => Err "expected ':'"
              | Some r1 =>
                  match val fuel (depth + 1) r1 with
                  | Err m => Err m
                  | Ok (v, r2) =>
                      match expect 44 (ws r2) with
                      | Some r3 => members fuel depth (o ++ [(k, v)]) r3
                      | None =>
                          match expect 125 (ws r2) with
                          | Some r3 => Ok (LObj (o ++ [(k, v)]), r3)
                          | None => Err "expected ',' or '}'"
                          end
                      end
                  end
              end
          end
      end
  end
with elements (fuel : nat) (depth : Z) (a : list LosslessJson) (text : units)
  : res (LosslessJson * units) :=
  match fuel with
  | O => Err "out of fuel"
  | S fuel =>
      match val fuel (depth + 1) text with
      | Err m => Err m
      | Ok (v, r) =>
          match expect 44 (ws r) with
          | Some r1 => elements fuel depth (a ++ [v]) r1
          | None =>
              match expect 93 (ws r) with
              | Some r1 => Ok (LArr (a ++ [v]), r1)
              | None => Err "expected ',' or ']'"
              end
          end
      end
  end.

(** Every call and iteration but the first consumes text, or is followed by one that does. *)
Definition parse_fuel (text : units) : nat := 2 * length text + 2.

Definition parseJsonLossless (text : units) : res LosslessJson :=
  match val (parse_fuel text) 0 text with
  | Err m => Err m
  | Ok (v, r) => match ws r with [] => Ok v | _ => Err "trailing data" end
  end.

(** ** The printer *)

Definition join (sep : Z) (l : list units) : units :=
  match l with [] => [] | x :: r => x ++ flat_map (fun y => sep :: y) r end.

Fixpoint stringifyLossless (v : LosslessJson) : units :=
  match v with
  | LNull => u "null"
  | LNum raw => raw
  | LBool b => if b then u "true" else u "false"
  | LStr s => json_quote s
  | LArr l => 91 :: join 44 (map stringifyLossless l) ++ [93]
  | LObj o =>
      123 :: join 44 (map (fun kt => json_quote (fst kt) ++ 58 :: snd kt)
                        (own_members (map (fun kv => (fst kv, stringifyLossless (snd kv))) o))) ++ [125]
  end.

(** ** The fuel is enough *)

Lemma ws_len l : (length (ws l) <= length l)%nat.
Proof. induction l as [|c r IH]; simpl; [lia|]. destruct (is_ws_unit c); simpl; lia. Qed.

Lemma scan_len l b r : scan_str l = Ok (b, r) -> (length r < length l)%nat.
Proof.
  revert b r. induction l as [|c|c e r0 IH1 IH2] using units_ind2; intros b r; cbn [scan_str]; [done| |].
  - destruct (c =? 34); [intros [= <- <-]; simpl; lia|]. destruct (c =? 92); [done|]. by destruct (c <? 32).
  - fold scan_str. destruct (c =? 34); [intros [= <- <-]; simpl; lia|].
    destruct (c =? 92).
    + destruct (scan_str r0) as [[b1 r1]|] eqn:E; [|done]. intros [= <- <-]. specialize (IH2 _ _ eq_refl). simpl in *; lia.
    + destruct (c <? 32); [done|]. change (res_bind (scan_str (e :: r0)) (fun p => Ok (c :: fst p, snd p)) = Ok (b, r) -> (length r < length (c :: e :: r0))%nat).
      destruct (scan_str (e :: r0)) as [[b1 r1]|] eqn:E; [|done]. intros [= <- <-]. specialize (IH1 _ _ eq_refl). simpl in *; lia.
Qed.

Lemma str_len l s r : str l = Ok (s, r) -> (length r < length l)%nat.
Proof.
  unfold str. destruct (scan_str l) as [[b r1]|] eqn:E; [|done]. destruct (unescape b); [|done].
  intros [= <- <-]. by eapply scan_len.
Qed.

Lemma strip_len p l r : strip p l = Some r -> length l = (length p + length r)%nat.
Proof.
  revert l. induction p as [|x p IH]; intros [|y l]; simpl; try done; try (by intros [= <-]).
  destruct (x =? y); [|done]. intros H%IH. lia.
Qed.

Lemma literal_len l v r : literal l = Some (v, r) -> (length r < length l)%nat.
Proof.
  unfold literal. destruct (strip (u "true") l) eqn:E1; [intros [= _ <-]; apply strip_len in E1; simpl in E1; lia|].
  destruct (strip (u "false") l) eqn:E2; [intros [= _ <-]; apply strip_len in E2; simpl in E2; lia|].
  destruct (strip (u "null") l) eqn:E3; [intros [= _ <-]; apply strip_len in E3; simpl in E3; lia|done].
Qed.

Lemma take_digits_app l d k : take_digits l = (d, k) -> l = d ++ k.
Proof.
  revert d k. induction l as [|c r IH]; simpl; intros d k; [by intros [= <- <-]|].
  destruct (is_dec c); [|by intros [= <- <-]]. destruct (take_digits r) as [d1 k1]. intros [= <- <-].
  simpl. f_equal. by apply IH.
Qed.

Lemma lex_int_app l i k : lex_int l = Some (i, k) -> l = i ++ k /\ i <> [].
Proof.
  unfold lex_int. destruct l as [|c r]; [done|]. destruct (c =? 48); [by intros [= <- <-]|].
  destruct (is_dec c); [|done]. destruct (take_digits r) as [d k1] eqn:E. intros [= <- <-].
  apply take_digits_app in E as ->. done.
Qed.

Lemma lex_frac_app l f k : lex_frac l = (f, k) -> l = f ++ k.
Proof.
  unfold lex_frac. destruct l as [|c r]; [by intros [= <- <-]|]. destruct (c =? 46); [|by intros [= <- <-]].
  destruct (take_digits r) as [[|d0 d] k1] eqn:E; [by intros [= <- <-]|]. intros [= <- <-].
  by apply take_digits_app in E as ->.
Qed.

Lemma lex_exp_app l f k : lex_exp l = (f, k) -> l = f ++ k.
Proof.
  unfold lex_exp. destruct l as [|c r]; [by intros [= <- <-]|].
  destruct ((c =? 101) || (c =? 69)); [|by intros [= <- <-]].
  set (sr := match r with x :: r' => if (x =? 43) || (x =? 45) then ([x], r') else ([], r) | [] => ([], []) end).
  assert (r = fst sr ++ snd sr) as Hr.
  { unfold sr. destruct r as [|x r']; [done|]. by destruct ((x =? 43) || (x =? 45)). }
  destruct sr as [sg r1]. simpl in Hr. destruct (take_digits r1) as [[|d0 d] k1] eqn:E; [by intros [= <- <-]|].
  intros [= <- <-]. apply take_digits_app in E. rewrite Hr, E. simpl. by rewrite <- app_assoc.
Qed.

Lemma lex_num_app l raw k : lex_num l = Some (raw, k) -> l = raw ++ k /\ raw <> [].
Proof.
  unfold lex_num.
  set (sl := match l with c :: r => if c =? 45 then ([c], r) else ([], l) | [] => ([], []) end).
  assert (l = fst sl ++ snd sl) as Hl.
  { unfold sl. destruct l as [|c r]; [done|]. by destruct (c =? 45). }
  destruct sl as [sg l0]. simpl in Hl. destruct (lex_int l0) as [[i l1]|] eqn:Ei; [|done].
  destruct (lex_frac l1) as [f l2] eqn:Ef. destruct (lex_exp l2) as [e l3] eqn:Ee. intros [= <- <-].
  apply lex_int_app in Ei as [-> Hi]. apply lex_frac_app in Ef as ->. apply lex_exp_app in Ee as ->.
  split; [by rewrite Hl, <- !app_assoc|]. destruct sg, i; done.
Qed.

(** A call that returns consumed at least one unit, and none runs out of fuel. *)
Definition consumes (n : nat) (r : res (LosslessJson * units)) : Prop :=
  match r with Ok (_, rest) => (length rest < n)%nat | Err m => m <> "out of fuel" end.

Lemma consumes_mono n m r : consumes n r -> (n <= m)%nat -> consumes m r.
Proof. destruct r as [[v rest]|]; simpl; [lia|done]. Qed.

Lemma str_err l m : str l = Err m -> m <> "out of fuel".
Proof.
  unfold str. assert (forall l m, scan_str l = Err m -> m <> "out of fuel") as Hs.
  { clear. intros l. induction l as [|c|c e r IH1 IH2] using units_ind2; intros m; cbn [scan_str].
    - by intros [= <-].
    - repeat case_match; try done; by intros [= <-].
    - fold scan_str. destruct (c =? 34); [done|]. destruct (c =? 92).
      + destruct (scan_str r); [done|]. intros [= <-]. by apply IH2.
      + destruct (c <? 32); [by intros [= <-]|].
        change (res_bind (scan_str (e :: r)) (fun p => Ok (c :: fst p, snd p)) = Err m -> m <> "out of fuel").
        destruct (scan_str (e :: r)); [done|]. intros [= <-]. by apply IH1. }
  destruct (scan_str l) as [[b r]|m'] eqn:E; [|intros [= <-]; by eapply Hs].
  destruct (unescape b); [done|by intros [= <-]].
Qed.

Lemma expect_len c l r : expect c l = Some r -> length l = S (length r).
Proof. unfold expect. destruct l as [|x k]; [done|]. destruct (x =? c); [|done]. by intros [= <-]. Qed.

Lemma expect_ws_len c l r : expect c (ws l) = Some r -> (length r < length l)%nat.
Proof. intros H%expect_len. pose proof (ws_len l). lia. Qed.

Lemma scalar_consumes l : consumes (length l) (scalar l).
Proof.
  unfold scalar. destruct (expect 34 l) as [r|] eqn:E1.
  - apply expect_len in E1. destruct (str r) as [[s k]|m] eqn:Es; simpl; [|by eapply str_err].
    apply str_len in Es. lia.
  - destruct (literal l) as [[v r]|] eqn:El; [by eapply literal_len|].
    destruct (lex_num l) as [[raw r]|] eqn:En; simpl; [|done].
    apply lex_num_app in En as [-> Hne]. rewrite length_app. destruct raw; [done|]. simpl. lia.
Qed.

(** The three parsing functions together. *)
Lemma parse_consumes fuel :
  (forall depth text, (2 * length text + 1 <= fuel)%nat -> consumes (length text) (val fuel depth text)) /\
  (forall depth o text, (2 * length text + 2 <= fuel)%nat -> consumes (length text) (members fuel depth o text)) /\
  (forall depth a text, (2 * length text + 2 <= fuel)%nat -> consumes (length text) (elements fuel depth a text)).
Proof.
  induction fuel as [|fuel (IHv & IHm & IHe)]; [split; [|split]; intros; lia|].
  split; [|split].
  - intros depth text Hf. cbn [val]. destruct (256 <? depth); [done|]. cbv zeta.
    destruct (expect 123 (ws text)) as [r|] eqn:E1.
    { apply expect_ws_len in E1. destruct (expect 125 (ws r)) as [r'|] eqn:E2.
      - apply expect_ws_len in E2. simpl. lia.
      - eapply consumes_mono; [apply IHm; lia|lia]. }
    destruct (expect 91 (ws text)) as [r|] eqn:E2.
    { apply expect_ws_len in E2. destruct (expect 93 (ws r)) as [r'|] eqn:E3.
      - apply expect_ws_len in E3. simpl. lia.
      - eapply consumes_mono; [apply IHe; lia|lia]. }
    eapply consumes_mono; [apply scalar_consumes|apply ws_len].
  - intros depth o text Hf. cbn [members]. destruct (expect 34 (ws text)) as [t|] eqn:E1; [|done].
    apply expect_ws_len in E1. destruct (str t) as [[k r]|m] eqn:Es; [|by eapply str_err].
    apply str_len in Es. destruct (ohas k o); [done|]. destruct (expect 58 (ws r)) as [r1|] eqn:E2; [|done].
    apply expect_ws_len in E2. specialize (IHv (depth + 1) r1 ltac:(lia)).
    destruct (val fuel (depth + 1) r1) as [[v r2]|m]; simpl in IHv; [|done].
    destruct (expect 44 (ws r2)) as [r3|] eqn:E3.
    { apply expect_ws_len in E3. eapply consumes_mono; [apply IHm; lia|lia]. }
    destruct (expect 125 (ws r2)) as [r3|] eqn:E4; [|done]. apply expect_ws_len in E4. simpl. lia.
  - intros depth a text Hf. cbn [elements]. specialize (IHv (depth + 1) text ltac:(lia)).
    destruct (val fuel (depth + 1) text) as [[v r]|m]; simpl in IHv; [|done].
    destruct (expect 44 (ws r)) as [r1|] eqn:E3.
    { apply expect_ws_len in E3. eapply consumes_mono; [apply IHe; lia|lia]. }
    destruct (expect 93 (ws r)) as [r1|] eqn:E4; [|done]. apply expect_ws_len in E4. simpl. lia.
Qed.

(** C28: the parser always answers.  On every text [parseJsonLossless] returns a value or one of
    the parser's own errors: the fuel of the model, which stands for the source's unbounded
    recursion and loops, never runs out. *)
Theorem parse_total text : parseJsonLossless text <> Err "out of fuel".
Proof.
  unfold parseJsonLossless, parse_fuel.
  pose proof (proj1 (parse_consumes (2 * length text + 2)) 0 text ltac:(lia)) as H.
  destruct (val _ 0 text) as [[v r]|m]; simpl in H; [by destruct (ws r)|congruence].
Qed.

(** ** Round trip *)

(** A number text: one that the sticky expression matches completely. *)
Definition num_text (raw : units) : bool :=
  match lex_num raw with Some (_, []) => true | _ => false end.

(** Values whose members are stored in property order (the order in which they are printed), with
    their nesting. *)
Fixpoint wfj (v : LosslessJson) : Prop :=
  match v with
  | LNull | LBool _ => True
  | LStr s => Forall is_unit s
  | LNum raw => num_text raw = true
  | LArr l => (fix all l := match l with [] => True | x :: r => wfj x /\ all r end) l
  | LObj o =>
      NoDup (map fst o) /\ object_keys o = map fst o /\
      (fix all o := match o with
                    | [] => True
                    | (k, x) :: r => Forall is_unit k /\ wfj x /\ all r
                    end) o
  end.

Fixpoint nesting (v : LosslessJson) : Z :=
  match v with
  | LArr l => 1 + (fix mx l := match l with [] => 0 | x :: r => Z.max (nesting x) (mx r) end) l
  | LObj o => 1 + (fix mx o := match o with [] => 0 | (_, x) :: r => Z.max (nesting x) (mx r) end) o
  | _ => 0
  end.

(** Induction over nested arrays and objects. *)
Section Induction.
Variable P : LosslessJson -> Prop.
Hypothesis Hnull : P LNull.
Hypothesis Hbool : forall b, P (LBool b).
Hypothesis Hstr : forall s, P (LStr s).
Hypothesis Hnum : forall r, P (LNum r).
Hypothesis Harr : forall l, Forall P l -> P (LArr l).
Hypothesis Hobj : forall o, Forall (fun kv => P (snd kv)) o -> P (LObj o).

Fixpoint lossless_ind (v : LosslessJson) : P v :=
  match v with
  | LNull => Hnull
  | LBool b => Hbool b
  | LStr s => Hstr s
  | LNum r => Hnum r
  | LArr l => Harr l ((fix go l : Forall P l :=
      match l with [] => List.Forall_nil _ | x :: r => List.Forall_cons _ _ _ (lossless_ind x) (go r) end) l)
  | LObj o => Hobj o ((fix go o : Forall (fun kv => P (snd kv)) o :=
      match o with [] => List.Forall_nil _ | (k, x) :: r => List.Forall_cons _ (k, x) _ (lossless_ind x) (go r) end) o)
  end.
End Induction.

(** The text after a value: the end, a separator or a closing bracket. *)
Definition stop (rest : units) : Prop :=
  match rest with [] => True | c :: _ => c = 44 \/ c = 93 \/ c = 125 end.

Lemma take_digits_ext l d k rest :
  stop rest -> take_digits l = (d, k) -> take_digits (l ++ rest) = (d, k ++ rest).
Proof.
  intros Hs. revert d k. induction l as [|c r IH]; simpl; intros d k.
  - intros [= <- <-]. destruct rest as [|x rest]; [done|]. simpl in *.
    by destruct Hs as [-> | [-> | ->]].
  - destruct (is_dec c); [|by intros [= <- <-]]. destruct (take_digits r) as [d1 k1].
    intros [= <- <-]. by rewrite (IH _ _ eq_refl).
Qed.

Lemma lex_int_ext l i k rest : stop rest -> lex_int l = Some (i, k) -> lex_int (l ++ rest) = Some (i, k ++ rest).
Proof.
  intros Hs. unfold lex_int. destruct l as [|c r]; [done|]. simpl. destruct (c =? 48); [by intros [= <- <-]|].
  destruct (is_dec c); [|done]. destruct (take_digits r) as [d k1] eqn:E. intros [= <- <-].
  by rewrite (take_digits_ext _ _ _ _ Hs E).
Qed.

Lemma lex_frac_ext l f k rest : stop rest -> lex_frac l = (f, k) -> lex_frac (l ++ rest) = (f, k ++ rest).
Proof.
  intros Hs. unfold lex_frac. destruct l as [|c r]; simpl.
  - intros [= <- <-]. destruct rest as [|x rest]; [done|]. simpl in Hs. by destruct Hs as [-> | [-> | ->]].
  - destruct (c =? 46); [|by intros [= <- <-]]. destruct (take_digits r) as [[|d0 d] k1] eqn:E;
      rewrite (take_digits_ext _ _ _ _ Hs E); by intros [= <- <-].
Qed.

Lemma lex_exp_ext l f k rest : stop rest -> lex_exp l = (f, k) -> lex_exp (l ++ rest) = (f, k ++ rest).
Proof.
  intros Hs. unfold lex_exp. destruct l as [|c r]; simpl.
  - intros [= <- <-]. destruct rest as [|x rest]; [done|]. simpl in Hs. by destruct Hs as [-> | [-> | ->]].
  - destruct ((c =? 101) || (c =? 69)); [|by intros [= <- <-]].
    destruct r as [|x r'].
    + simpl. destruct (take_digits []) eqn:E0; simplify_eq/=. intros [= <- <-].
      destruct rest as [|y rest]; [done|]. simpl in Hs. by destruct Hs as [-> | [-> | ->]].
    + cbn [app]. destruct ((x =? 43) || (x =? 45)); cbv beta iota.
      * destruct (take_digits r') as [[|d0 d] k1] eqn:E; rewrite (take_digits_ext _ _ _ _ Hs E); by intros [= <- <-].
      * change (x :: r' ++ rest) with ((x :: r') ++ rest).
        destruct (take_digits (x :: r')) as [[|d0 d] k1] eqn:E; rewrite (take_digits_ext _ _ _ _ Hs E); by intros [= <- <-].
Qed.

Lemma lex_num_ext raw rest : stop rest -> num_text raw = true -> lex_num (raw ++ rest) = Some (raw, rest).
Proof.
  intros Hs. unfold num_text. destruct (lex_num raw) as [[r0 [|]]|] eqn:E; try done. intros _.
  pose proof (lex_num_app _ _ _ E) as [Hr _]. rewrite app_nil_r in Hr. subst r0.
  unfold lex_num in *. destruct raw as [|c r]; [done|]. cbn [app] in *.
  destruct (c =? 45); cbv beta iota in *.
  - destruct (lex_int r) as [[i l1]|] eqn:Ei; [|done]. rewrite (lex_int_ext _ _ _ _ Hs Ei).
    destruct (lex_frac l1) as [f l2] eqn:Ef. rewrite (lex_frac_ext _ _ _ _ Hs Ef).
    destruct (lex_exp l2) as [e l3] eqn:Ee. rewrite (lex_exp_ext _ _ _ _ Hs Ee). by injection E as -> ->.
  - destruct (lex_int (c :: r)) as [[i l1]|] eqn:Ei; [|done].
    change (c :: r ++ rest) with ((c :: r) ++ rest). rewrite (lex_int_ext _ _ _ _ Hs Ei).
    destruct (lex_frac l1) as [f l2] eqn:Ef. rewrite (lex_frac_ext _ _ _ _ Hs Ef).
    destruct (lex_exp l2) as [e l3] eqn:Ee. rewrite (lex_exp_ext _ _ _ _ Hs Ee). by injection E as -> ->.
Qed.

(** The first unit of a number. *)
Lemma num_head raw : num_text raw = true -> exists c r, raw = c :: r /\ (c = 45 \/ 48 <= c <= 57).
Proof.
  unfold num_text, lex_num. destruct raw as [|c r]; [done|]. destruct (c =? 45) eqn:E; breflect.
  - intros _. eauto.
  - unfold lex_int. destruct (c =? 48) eqn:E0; breflect; [intros _; exists c, r; split; [done|lia]|].
    destruct (is_dec c) eqn:Ed; [|done]. intros _. unfold is_dec in Ed. breflect. exists c, r. split; [done|lia].
Qed.

Lemma scalar_num raw rest : stop rest -> num_text raw = true -> scalar (raw ++ rest) = Ok (LNum raw, rest).
Proof.
  intros Hs Hn. destruct (num_head raw Hn) as (c & r & -> & Hc). unfold scalar.
  rewrite (lex_num_ext _ _ Hs Hn).
  assert (forall x, x <> 45 -> (x < 48 \/ 57 < x) -> (c =? x) = false /\ (x =? c) = false) as Hx by (intros; lia).
  unfold expect, literal. cbn [app strip u chars list_ascii_of_string map].
  rewrite (proj1 (Hx 34 ltac:(lia) ltac:(lia))).
  change (code "t") with 116. change (code "f") with 102. change (code "n") with 110.
  by rewrite (proj2 (Hx 116 ltac:(lia) ltac:(lia))), (proj2 (Hx 102 ltac:(lia) ltac:(lia))),
    (proj2 (Hx 110 ltac:(lia) ltac:(lia))).
Qed.

(** [val] on a text that starts with a scalar. *)
Lemma val_scalar fuel depth c r :
  depth <= 256 -> is_ws_unit c = false -> c <> 123 -> c <> 91 ->
  val (S fuel) depth (c :: r) = scalar (c :: r).
Proof.
  intros Hd Hw H1 H2. cbn [val]. rewrite (proj2 (Z.ltb_ge 256 depth)) by done. cbv zeta. cbn [ws]. rewrite Hw.
  assert (forall x, c <> x -> expect x (c :: r) = None) as He
    by (intros x Hx; unfold expect; by rewrite (proj2 (Z.eqb_neq c x))).
  by rewrite !He.
Qed.

Lemma stop_ws rest : stop rest -> ws rest = rest.
Proof. destruct rest as [|c r]; [done|]. simpl. by intros [-> | [-> | ->]]. Qed.

Definition parses (v : LosslessJson) : Prop :=
  forall fuel depth rest, stop rest -> depth + nesting v <= 256 -> 0 <= depth ->
    (2 * length (stringifyLossless v ++ rest) + 1 <= fuel)%nat ->
    val fuel depth (stringifyLossless v ++ rest) = Ok (v, rest).

Lemma str_quote s rest : Forall is_unit s -> str (quote_body s ++ 34 :: rest) = Ok (s, rest).
Proof. intros Hs. unfold str. by rewrite scan_quote, unescape_quote. Qed.

(** The printed form of a value does not start with white space or a closing bracket. *)
Lemma stringify_head v : wfj v -> exists c r, stringifyLossless v = c :: r /\ is_ws_unit c = false /\ c <> 93.
Proof.
  destruct v as [|[]|s|raw|l|o]; simpl; intros Hw; try by eexists _, _.
  destruct (num_head raw Hw) as (c & r & -> & Hc). exists c, r. split; [done|]. unfold is_ws_unit.
  split; [|lia]. repeat rewrite (proj2 (Z.eqb_neq c _)) by lia. done.
Qed.

Lemma wfj_arr l : wfj (LArr l) <-> Forall wfj l.
Proof. simpl. split; [|by induction 1]. induction l as [|x r IH]; [done|]. intros [? ?]. constructor; auto. Qed.

Lemma nesting_arr l x : x ∈ l -> 1 + nesting x <= nesting (LArr l).
Proof.
  simpl. induction l as [|y r IH]; [by intros ?%elem_of_nil|]. intros [->|Hin]%elem_of_cons; [lia|].
  specialize (IH Hin). lia.
Qed.

Lemma wfj_obj o : wfj (LObj o) <->
  NoDup (map fst o) /\ object_keys o = map fst o /\ Forall (fun kv => Forall is_unit (fst kv) /\ wfj (snd kv)) o.
Proof.
  simpl. split; intros (Hn & Hi & Ha); (split; [done|]); (split; [done|]); clear Hn Hi.
  - induction o as [|[k x] r IH]; [done|]. destruct Ha as (? & ? & ?). constructor; [done|auto].
  - induction Ha as [|[k x] r [? ?] _ IH]; [done|]. done.
Qed.

Lemma nesting_obj o k x : (k, x) ∈ o -> 1 + nesting x <= nesting (LObj o).
Proof.
  simpl. induction o as [|[k' y] r IH]; [by intros ?%elem_of_nil|]. intros [[= -> ->]|Hin]%elem_of_cons; [lia|].
  specialize (IH Hin). lia.
Qed.

Lemma nesting_nonneg v : 0 <= nesting v.
Proof.
  destruct v as [| | | |l|o]; simpl; try lia.
  - induction l as [|x r IH]; simpl in *; lia.
  - induction o as [|[k x] r IH]; simpl in *; lia.
Qed.

(** Separated items, then a closing bracket. *)
Lemma join_cons sep x l close :
  join sep (x :: l) ++ close = x ++ match l with [] => close | _ => sep :: (join sep l ++ close) end.
Proof. unfold join. rewrite <- app_assoc. f_equal. by destruct l as [|y l]. Qed.

Lemma elements_spec l a fuel depth rest :
  l <> [] -> Forall (fun x => parses x /\ depth + 1 + nesting x <= 256) l -> 0 <= depth ->
  (2 * length (join 44%Z (map stringifyLossless l) ++ 93%Z :: rest) + 2 <= fuel)%nat ->
  elements fuel depth a (join 44 (map stringifyLossless l) ++ 93 :: rest) = Ok (LArr (a ++ l), rest).
Proof.
  revert a fuel. induction l as [|x l IH]; intros a fuel Hne Hl Hd Hf; [done|].
  apply Forall_cons in Hl as [[Hx Hn] Hl]. cbn [map] in *. rewrite join_cons in *.
  destruct fuel as [|fuel]; [lia|]. cbn [elements]. rewrite length_app in Hf.
  rewrite Hx; [|destruct l; simpl; auto|lia|lia|rewrite length_app; lia].
  destruct l as [|y l]; cbn [map].
  - reflexivity.
  - change (ws (44 :: ?t)) with (44 :: t). cbn [map] in Hf. cbn [length] in Hf.
    change (expect 44 (44 :: ?t)) with (Some t). cbv iota.
    etrans; [apply (IH (a ++ [x]) fuel ltac:(done) Hl Hd); cbn [map]; lia|]. by rewrite <- app_assoc.
Qed.

Definition member_text (kv : units * LosslessJson) : units :=
  json_quote (fst kv) ++ 58 :: stringifyLossless (snd kv).

Lemma oget_elem {A} k (v : A) o : oget k o = Some v -> k ∈ map fst o.
Proof.
  induction o as [|[k' v'] o IH]; simpl; [done|]. destruct (units_eqb k k') eqn:E.
  - apply units_eqb_true in E as ->. left.
  - right; auto.
Qed.

Lemma ohas_notin {A} k (o : list (units * A)) : k ∉ map fst o -> ohas k o = false.
Proof. intros Hn. unfold ohas. destruct (oget k o) eqn:E; [|done]. by apply oget_elem in E. Qed.

Lemma members_spec o acc fuel depth rest :
  o <> [] -> NoDup (map fst acc ++ map fst o) ->
  Forall (fun kv => Forall is_unit (fst kv) /\ parses (snd kv) /\ depth + 1 + nesting (snd kv) <= 256) o ->
  0 <= depth ->
  (2 * length (join 44%Z (map member_text o) ++ 125%Z :: rest) + 2 <= fuel)%nat ->
  members fuel depth acc (join 44 (map member_text o) ++ 125 :: rest) = Ok (LObj (acc ++ o), rest).
Proof.
  revert acc fuel. induction o as [|[k x] o IH]; intros acc fuel Hne Hnd Ho Hd Hf; [done|].
  apply Forall_cons in Ho as [(Hk & Hx & Hn) Ho]. simpl in Hk, Hx, Hn. cbn [map] in *. rewrite join_cons in *.
  assert (k ∉ map fst acc) as Hka.
  { apply NoDup_app in Hnd as (_ & Hdis & _). intros Hin. apply (Hdis k Hin). left. }
  destruct fuel as [|fuel]; [lia|]. cbn [members]. unfold member_text at 1, json_quote. cbn [fst snd].
  rewrite <- !app_assoc. cbn [app]. change (ws (34 :: ?t)) with (34 :: t). change (expect 34 (34 :: ?t)) with (Some t).
  rewrite <- app_assoc. cbn [app]. rewrite str_quote by done. rewrite ohas_notin by done.
  change (ws (58 :: ?t)) with (58 :: t). change (expect 58 (58 :: ?t)) with (Some t). cbv iota.
  unfold member_text at 1, json_quote in Hf. cbn [fst snd] in Hf. rewrite !length_app in Hf. cbn [length] in Hf.
  rewrite length_app in Hf. cbn [length] in Hf.
  rewrite Hx; [|destruct o; simpl; auto|lia|lia|rewrite length_app; lia].
  destruct o as [|[k2 x2] o]; cbn [map].
  - reflexivity.
  - change (ws (44 :: ?t)) with (44 :: t). change (expect 44 (44 :: ?t)) with (Some t). cbv iota.
    cbn [map] in Hf. cbn [length] in Hf.
    etrans; [apply (IH (acc ++ [(k, x)]) fuel ltac:(done)); [|done|done|cbn [map]; lia]|by rewrite <- app_assoc].
    rewrite map_app, <- app_assoc. simpl in *. done.
Qed.

Lemma insert_index_perm {A} (x : units * A) l : insert_index x l ≡ₚ x :: l.
Proof. induction l as [|y r IH]; simpl; [done|]. destruct (_ <=? _); [done|]. rewrite IH. constructor. Qed.

(** Property order only reorders. *)
Lemma own_members_perm {A} (o : list (units * A)) : own_members o ≡ₚ o.
Proof.
  unfold own_members. induction o as [|[k v] o IH]; simpl; [done|]. destruct (is_index k); simpl.
  - by rewrite insert_index_perm, <- app_comm_cons, IH.
  - by rewrite <- Permutation_middle, IH.
Qed.

Definition on_snd {A B} (f : A -> B) (kv : units * A) : units * B := (fst kv, f (snd kv)).

Lemma insert_index_map {A B} (f : A -> B) x l :
  insert_index (on_snd f x) (map (on_snd f) l) = map (on_snd f) (insert_index x l).
Proof. induction l as [|y r IH]; simpl; [done|]. destruct (_ <=? _); simpl; [done|]. by rewrite IH. Qed.

(** ... and looks only at the keys. *)
Lemma own_members_map {A B} (f : A -> B) o : own_members (map (on_snd f) o) = map (on_snd f) (own_members o).
Proof.
  unfold own_members. rewrite map_app. f_equal.
  - induction o as [|[k v] o IH]; simpl; [done|]. destruct (is_index k); simpl; [|done]. rewrite IH. apply insert_index_map.
  - induction o as [|[k v] o IH]; simpl; [done|]. destruct (is_index k); simpl; [done|]. by rewrite IH.
Qed.

Lemma keys_determine {A} (l l' : list (units * A)) :
  NoDup (map fst l) -> l ≡ₚ l' -> map fst l = map fst l' -> l = l'.
Proof.
  revert l'. induction l as [|[k v] l IH]; intros [|[k' v'] l'] Hn Hp Hk; simpl in *; try done.
  injection Hk as -> Hk. apply NoDup_cons in Hn as [Hk' Hn].
  assert (v = v') as ->.
  { assert ((k', v) ∈ (k', v') :: l') as Hin by (rewrite <- Hp; left). apply elem_of_cons in Hin as [[= ->]|Hin]; [done|].
    destruct Hk'. rewrite Hk. apply list_elem_of_fmap. by exists (k', v). }
  f_equal. apply IH; [done| |done]. by apply Permutation.Permutation_cons_inv in Hp.
Qed.

Lemma own_members_ordered {A} (o : list (units * A)) :
  NoDup (map fst o) -> object_keys o = map fst o -> own_members o = o.
Proof. intros Hn Hk. apply keys_determine; [|apply own_members_perm|done]. by rewrite own_members_perm. Qed.

Lemma stringify_members o :
  stringifyLossless (LObj o) = 123 :: join 44 (map member_text (own_members o)) ++ [125].
Proof.
  cbn [stringifyLossless]. change (fun kv => (fst kv, stringifyLossless (snd kv))) with (on_snd stringifyLossless).
  by rewrite own_members_map, map_map.
Qed.

Lemma stringify_obj o : own_members o = o ->
  stringifyLossless (LObj o) = 123 :: join 44 (map member_text o) ++ [125].
Proof. intros H. by rewrite stringify_members, H. Qed.

Lemma roundtrip_val v : wfj v -> parses v.
Proof.
  induction v as [|b|s|raw|l IH|o IH] using lossless_ind; intros Hw fuel depth rest Hs Hn Hd Hf;
    (destruct fuel as [|fuel]; [lia|]).
  - cbn [stringifyLossless u chars list_ascii_of_string map app]. by rewrite val_scalar by (simpl in *; done || lia).
  - destruct b; cbn [stringifyLossless u chars list_ascii_of_string map app];
      by rewrite val_scalar by (simpl in *; done || lia).
  - cbn [stringifyLossless]. unfold json_quote. cbn [app]. rewrite val_scalar by (simpl in *; done || lia).
    unfold scalar. change (expect 34 (34 :: ?t)) with (Some t). cbv iota.
    rewrite <- app_assoc. cbn [app]. by rewrite str_quote.
  - cbn [stringifyLossless]. simpl in Hw. destruct (num_head raw Hw) as (c & r & -> & Hc). cbn [app].
    simpl in Hn. rewrite val_scalar; [by apply (scalar_num (c :: r))|lia| |lia|lia].
    unfold is_ws_unit. by repeat rewrite (proj2 (Z.eqb_neq c _)) by lia.
  - assert (Forall (fun x => parses x /\ depth + 1 + nesting x <= 256) l) as Hl.
    { apply Forall_elem. intros x Hx. pose proof (nesting_arr l x Hx). split; [|lia].
      rewrite Forall_elem in IH. apply IH; [done|]. apply wfj_arr in Hw. rewrite Forall_elem in Hw. by apply Hw. }
    cbn [stringifyLossless app]. cbn [val]. rewrite (proj2 (Z.ltb_ge 256 depth)) by (pose proof (nesting_nonneg (LArr l)); lia).
    cbv zeta. change (ws (91 :: ?t)) with (91 :: t). change (expect 123 (91 :: ?t)) with (@None units).
    change (expect 91 (91 :: ?t)) with (Some t). cbv iota. rewrite <- app_assoc. cbn [app].
    destruct l as [|x l]; [done|].
    assert (exists c r, stringifyLossless x = c :: r /\ is_ws_unit c = false /\ c <> 93) as (c & r & Ex & Hc1 & Hc2)
      by (apply stringify_head; apply wfj_arr in Hw; by apply Forall_cons in Hw as [? _]).
    assert (expect 93 (ws (join 44 (map stringifyLossless (x :: l)) ++ 93 :: rest)) = None) as He.
    { cbn [map]. rewrite join_cons, Ex. cbn [app ws]. rewrite Hc1. simpl. by rewrite (proj2 (Z.eqb_neq c 93)). }
    rewrite He. rewrite elements_spec; [done|done|done|done|].
    cbn [stringifyLossless] in Hf. cbn [app length] in Hf. rewrite <- app_assoc in Hf. cbn [app] in Hf. lia.
  - apply wfj_obj in Hw as (Hnd & Hi & Hw). apply own_members_ordered in Hi; [|done].
    assert (Forall (fun kv => Forall is_unit (fst kv) /\ parses (snd kv) /\ depth + 1 + nesting (snd kv) <= 256) o) as Ho.
    { apply Forall_elem. intros [k x] Hx. pose proof (nesting_obj o k x Hx).
      rewrite Forall_elem in Hw, IH. destruct (Hw _ Hx) as (? & ?). split; [done|]. split; [|simpl; lia].
      by apply (IH (k, x) Hx). }
    rewrite (stringify_obj o Hi) in *. cbn [app]. cbn [val].
    rewrite (proj2 (Z.ltb_ge 256 depth)) by (pose proof (nesting_nonneg (LObj o)); lia).
    cbv zeta. change (ws (123 :: ?t)) with (123 :: t). change (expect 123 (123 :: ?t)) with (Some t). cbv iota.
    rewrite <- app_assoc. cbn [app]. destruct o as [|[k x] o]; [done|].
    assert (expect 125 (ws (join 44 (map member_text ((k, x) :: o)) ++ 125 :: rest)) = None) as He
      by (cbn [map]; rewrite join_cons; done).
    rewrite He. rewrite members_spec; [done|done|done|done|done|].
    cbn [app length] in Hf. rewrite <- app_assoc in Hf. cbn [app] in Hf. lia.
Qed.

(** numbers survive.  A value whose numbers are JSON number texts, whose strings are code
    units, whose objects have distinct keys in property order (array indices first), and whose
    nesting is at most 256, is printed by [stringifyLossless] to a text that [parseJsonLossless] parses back to
    exactly the same value, with every number digit for digit. *)
Theorem lossless_roundtrip v (Hwf : wfj v) (Hdepth : nesting v <= 256) :
  parseJsonLossless (stringifyLossless v) = Ok v.
Proof.
  unfold parseJsonLossless.
  pose proof (roundtrip_val v Hwf (parse_fuel (stringifyLossless v)) 0 [] Logic.I ltac:(lia) ltac:(lia)) as H.
  rewrite app_nil_r in H. rewrite H; [done|]. unfold parse_fuel. lia.
Qed.

Definition demo_value : LosslessJson :=
  LObj [(u "amount", LNum (u "340282366920938463463374607431768211455"));
        (u "list", LArr [LNum (u "-0.50e+3"); LStr [34; 92; 10; 0xd83d; 0xde00; 0xd800]; LBool true; LNull; LObj []])].

Lemma lossless_roundtrip_witness : parseJsonLossless (stringifyLossless demo_value) = Ok demo_value.
Proof.
  apply (lossless_roundtrip demo_value); [|vm_compute; discriminate].
  split; [apply (bool_decide_unpack _); vm_compute; exact Logic.I|].
  repeat split; try (vm_compute; reflexivity); apply (bool_decide_unpack _); vm_compute; exact Logic.I.
Defined.

(** Array-index keys do not keep their insertion order: an object written with the key [b] before
    the key [1] is printed with [1] first. *)
Example index_keys_reordered :
  let item k v := json_quote (u k) ++ u v in
  match parseJsonLossless (u "{" ++ item "b" ":1," ++ item "1" ":2}") with
  | Ok v => stringifyLossless v = u "{" ++ item "1" ":2," ++ item "b" ":1}"
  | Err _ => False
  end.
Proof. vm_compute. reflexivity. Qed.
