(* ===== verification/JsValue.v ===== *)
(** * JavaScript values and [JSON.stringify]

    The values that payloads are made of: what JSON can express, and [undefined].  Objects are
    insertion-ordered lists of own members with distinct keys.  [sortKeysDeep] and
    [serializePayload] have the same bodies in [packages/core/src/pqc-signer.ts] and
    [apps/extension/src/lib/sign-request.ts]. *)
From S2P Require Import Prelude JsText JsNum JsUtf16 JsFloat LosslessJson.
Local Open Scope Z_scope.

Inductive js :=
| JUndef
| JNull
| JBool (b : bool)
| JNum (n : number)
| JStr (s : units)
| JArr (l : list js)
| JObj (o : list (units * js)).

Abbreviation object := (list (units * js)).

Section Induction.
Variable P : js -> Prop.
Hypothesis Hundef : P JUndef.
Hypothesis Hnull : P JNull.
Hypothesis Hbool : forall b, P (JBool b).
Hypothesis Hnum : forall n, P (JNum n).
Hypothesis Hstr : forall s, P (JStr s).
Hypothesis Harr : forall l, Forall P l -> P (JArr l).
Hypothesis Hobj : forall o, Forall (fun kv => P (snd kv)) o -> P (JObj o).

(** Induction over nested arrays and objects. *)
Fixpoint js_nested_ind (v : js) : P v :=
  match v with
  | JUndef => Hundef
  | JNull => Hnull
  | JBool b => Hbool b
  | JNum n => Hnum n
  | JStr s => Hstr s
  | JArr l => Harr l ((fix go l : Forall P l :=
      match l with [] => List.Forall_nil _ | x :: r => List.Forall_cons _ _ _ (js_nested_ind x) (go r) end) l)
  | JObj o => Hobj o ((fix go o : Forall (fun kv => P (snd kv)) o :=
      match o with [] => List.Forall_nil _ | (k, x) :: r => List.Forall_cons _ (k, x) _ (js_nested_ind x) (go r) end) o)
  end.
End Induction.

(** ** Reading and writing members *)

(** [o.k] of an object; [undefined] when there is no such member. *)
Definition prop (k : string) (o : object) : js := default JUndef (oget (u k) o).

(** [o[k] = v], and the members of [{ ...o, k: v }]. *)
Fixpoint oset {A} (k : units) (v : A) (o : list (units * A)) : list (units * A) :=
  match o with
  | [] => [(k, v)]
  | (k', v') :: r => if units_eqb k k' then (k', v) :: r else (k', v') :: oset k v r
  end.
Definition with_prop (k : string) (v : js) (o : object) : object := oset (u k) v o.

Definition js_truthy (v : js) : bool :=
  match v with
  | JUndef | JNull => false
  | JBool b => b
  | JNum n => num_truthy n
  | JStr s => negb (bool_decide (s = []))
  | JArr _ | JObj _ => true
  end.

(** [a ?? b]. *)
Definition nullish (a b : js) : js := match a with JUndef | JNull => b | _ => a end.

Lemma oget_oset {A} k k' (v : A) o : oget k (oset k' v o) = if units_eqb k k' then Some v else oget k o.
Proof.
  unfold units_eqb. induction o as [|[x w] o IH]; simpl; [done|]. unfold units_eqb in *.
  destruct (bool_decide (k' = x)) eqn:E; simpl; unfold units_eqb; [|rewrite IH];
    repeat case_bool_decide; congruence.
Qed.

Lemma oset_keys {A} k (v : A) o : map fst (oset k v o) = if ohas k o then map fst o else map fst o ++ [k].
Proof.
  unfold ohas. induction o as [|[x w] o IH]; simpl; [done|]. destruct (units_eqb k x) eqn:E; simpl; [done|].
  rewrite IH. by destruct (oget k o).
Qed.

Lemma oset_nodup {A} k (v : A) o : NoDup (map fst o) -> NoDup (map fst (oset k v o)).
Proof.
  intros Hn. rewrite oset_keys. destruct (ohas k o) eqn:E; [done|]. apply NoDup_app. split; [done|].
  split; [|apply NoDup_singleton]. intros x Hx ->%list_elem_of_singleton. clear Hn. unfold ohas in E.
  induction o as [|[y w] o IH]; simpl in *; [by apply elem_of_nil in Hx|]. unfold units_eqb in *.
  case_bool_decide as Ey; [done|]. apply elem_of_cons in Hx as [->|Hx]; [done|by auto].
Qed.

(** ** [JSON.stringify] *)

(** What of a value the JSON text holds; [None] is [undefined]. *)
Fixpoint toJson (v : js) : option LosslessJson :=
  match v with
  | JUndef => None
  | JNull => Some LNull
  | JBool b => Some (LBool b)
  | JNum n => Some (if isFinite n then LNum (number_text n) else LNull)
  | JStr s => Some (LStr s)
  | JArr l => Some (LArr (map (fun x => default LNull (toJson x)) l))
  | JObj o => Some (LObj (flat_map (fun kv => match toJson (snd kv) with Some x => [(fst kv, x)] | None => [] end) o))
  end.

Definition JSON_stringify (v : js) : option units := stringifyLossless <$> toJson v.

(** ** [String] *)

(** [String(v)]; an object whose own [toString] is no function cannot be converted. *)
Fixpoint js_String (v : js) : res units :=
  match v with
  | JUndef => Ok (u "undefined")
  | JNull => Ok (u "null")
  | JBool b => Ok (u (if b then "true" else "false"))
  | JNum n => Ok (number_text n)
  | JStr s => Ok s
  | JArr l =>
      res_bind ((fix go l := match l with
        | [] => Ok []
        | x :: r => res_bind (match x with JUndef | JNull => Ok [] | _ => js_String x end) (fun t => res_bind (go r) (fun ts => Ok (t :: ts)))
        end) l) (fun ts => Ok (LosslessJson.join 44 ts))
  | JObj o => if ohas (u "toString") o then Err "TypeError" else Ok (u "[object Object]")
  end.

(** ** Canonical order *)

(** The order of [Array.prototype.sort] on strings: by code units. *)
Fixpoint units_leb (a b : units) : bool :=
  match a, b with
  | [], _ => true
  | _ :: _, [] => false
  | x :: a', y :: b' => (x <? y) || ((x =? y) && units_leb a' b')
  end.

Fixpoint insert_member {A} (x : units * A) (l : list (units * A)) : list (units * A) :=
  match l with
  | [] => [x]
  | y :: r => if units_leb (fst x) (fst y) then x :: y :: r else y :: insert_member x r
  end.
Definition sort_members {A} (l : list (units * A)) : list (units * A) := foldr insert_member [] l.

(** Assigning the key [__proto__] sets the prototype and creates no member. *)
Definition assignable {A} (kv : units * A) : bool := negb (units_eqb (fst kv) (u "__proto__")).

Fixpoint sortKeysDeep (obj : js) : js :=
  match obj with
  | JArr l => JArr (map sortKeysDeep l)
  | JObj o => JObj (List.filter assignable (sort_members (map (fun kv => (fst kv, sortKeysDeep (snd kv))) o)))
  | _ => obj
  end.

(** The text of a payload; the extension signs its UTF-8 bytes as the core library does. *)
Definition payload_text (payload : object) : units := default [] (JSON_stringify (sortKeysDeep (JObj payload))).
Definition serializePayload (payload : object) : list Z := utf8 (payload_text payload).
