(* ===== verification/Finality.v ===== *)
(** * Finality verification ([src/packages/core/src/finality-verify.ts])

    The serde_json-exact encoders, the recomputed hashes, the verification of a finality
    certificate and of a block, and [verifyTxFinalized] over a fetch function.  The hash function
    and the ML-DSA-65 verifier are the class [Crypto].  Of a check its name, verdict and severity
    are modelled (not its detail text and node); error messages name the failed rule. *)
From Stdlib Require Import SpecFloat.
From S2P Require Import Prelude JsText JsNum JsUtf16 JsFloat Interact LosslessJson.
Local Open Scope Z_scope.

(** The functions of the noble libraries the verifier calls: [sha256(bytes)] and
    [ml_dsa65.verify(sig, msg, pk)], which may throw. *)
Class Crypto := {
  sha256 : list Z -> list Z;
  ml_dsa65_verify : list Z -> list Z -> list Z -> res bool;
}.

Definition FINALITY_VOTE_DOMAIN_V2 : units := u "ROUGECHAIN_FINALITY_VOTE_V2".
Definition FINALITY_ONLY_ROUND : Z := 0.
Definition FINALITY_MAX_PROOF_VOTES : Z := 1024.

(** ** Encoding *)

Definition bad {A} (m : string) : res A := Err m.

Definition isObj (v : option LosslessJson) : option (list (units * LosslessJson)) :=
  match v with Some (LObj o) => Some o | _ => None end.

(** Exact serde_json text of a double. *)
Definition formatF64 (x : number) : res units :=
  match x with
  | S754_infinity _ | S754_nan => bad "non-finite float"
  | S754_zero s => Ok (if s then u "-0.0" else u "0.0")
  | S754_finite s m ex =>
      match toExponential m ex with
      | None => bad "no shortest digits"
      | Some (digits, e) =>
          let sign := if s then [45] else [] in
          let len := Z.of_nat (length digits) in
          if (-5 <=? e) && (e <=? 15) then
            if len - 1 <=? e then Ok (sign ++ digits ++ repeat 48 (Z.to_nat (e - (len - 1))) ++ u ".0")
            else if 0 <=? e then
              Ok (sign ++ take (Z.to_nat (e + 1)) digits ++ [46] ++ drop (Z.to_nat (e + 1)) digits)
            else Ok (sign ++ u "0." ++ repeat 48 (Z.to_nat (- e - 1)) ++ digits)
          else
            Ok (sign ++ take 1 digits ++ (if 1 <? len then 46 :: drop 1 digits else []) ++ [101]
                ++ (if e <? 0 then [45] else [43]) ++ udec (Z.abs e))
      end
  end.

Definition U64_MAX : Z := 2 ^ 64 - 1.
Definition U128_MAX : Z := 2 ^ 128 - 1.
Definition I64_MIN : Z := - 2 ^ 63.

Definition encUint (v : option LosslessJson) (max : Z) : res units :=
  match v with
  | Some (LNum raw) =>
      if negb (uint_text raw) then bad "not an unsigned integer"
      else if max <? digits_val raw then bad "out of range"
      else Ok raw
  | _ => bad "not an unsigned integer"
  end.

Definition encF64 (v : option LosslessJson) : res units :=
  match v with Some (LNum raw) => formatF64 (Number_of_text raw) | _ => bad "not a number" end.

Definition encStr (v : option LosslessJson) : res units :=
  match v with Some (LStr s) => Ok (json_quote s) | _ => bad "not a string" end.

Definition encBool (v : option LosslessJson) : res units :=
  match v with Some (LBool b) => Ok (if b then u "true" else u "false") | _ => bad "not a boolean" end.

(** [arr.map(f)] with the first exception. *)
Fixpoint map_res {A B} (f : A -> res B) (l : list A) : res (list B) :=
  match l with
  | [] => Ok []
  | x :: r => res_bind (f x) (fun a => res_bind (map_res f r) (fun b => Ok (a :: b)))
  end.

(** The comparison of keys by code points. *)
Fixpoint points_leb (a b : list Z) : bool :=
  match a, b with
  | [], _ => true
  | _ :: _, [] => false
  | x :: a', y :: b' => if x =? y then points_leb a' b' else x <? y
  end.

Fixpoint insert_key {A} (x : units * A) (l : list (units * A)) : list (units * A) :=
  match l with
  | [] => [x]
  | y :: r => if points_leb (code_points (fst x)) (code_points (fst y)) then x :: y :: r
              else y :: insert_key x r
  end.
Definition sort_keys {A} (l : list (units * A)) : list (units * A) := foldr insert_key [] l.

(** A signed integer text other than [-0]. *)
Definition int_raw (raw : units) : option Z :=
  match raw with
  | c :: r => if c =? 45 then
                if uint_text r && negb (units_eqb raw (u "-0")) then Some (- digits_val r) else None
              else if uint_text raw then Some (digits_val raw) else None
  | [] => None
  end.

(** serde_json::Value: object keys sorted by code point. *)
Fixpoint encValue (v : LosslessJson) : res units :=
  match v with
  | LNull | LBool _ | LStr _ => Ok (stringifyLossless v)
  | LNum raw =>
      match int_raw raw with
      | Some n => if (n <=? U64_MAX) && (I64_MIN <=? n) then Ok (udec n) else formatF64 (Number_of_text raw)
      | None => formatF64 (Number_of_text raw)
      end
  | LArr l =>
      res_bind ((fix go l := match l with
                             | [] => Ok []
                             | x :: r => res_bind (encValue x) (fun a => res_bind (go r) (fun b => Ok (a :: b)))
                             end) l)
        (fun xs => Ok (91 :: join 44 xs ++ [93]))
  | LObj o =>
      res_bind ((fix go o := match o with
                             | [] => Ok []
                             | (k, x) :: r => res_bind (encValue x) (fun a => res_bind (go r) (fun b => Ok ((k, a) :: b)))
                             end) o)
        (fun xs => Ok (123 :: join 44 (map (fun kt => json_quote (fst kt) ++ 58 :: snd kt) (sort_keys xs)) ++ [125]))
  end.

Inductive Kind := KStr | KU8 | KU16 | KU32 | KU64 | KU128 | KF64 | KBool | KVStr | KVU64 | KValue | KVValue.
Inductive Mode := MReq | MNull | MSkip.
Definition Field : Type := string * Kind * Mode.

(** An array field encoded element by element. *)
Definition encArr (f : LosslessJson -> res units) (v : option LosslessJson) : res units :=
  match v with
  | Some (LArr l) => res_bind (map_res f l) (fun xs => Ok (91 :: join 44 xs ++ [93]))
  | _ => bad "not an array"
  end.

(** [encKind] on a present value. *)
Definition encKind (k : Kind) (v : LosslessJson) : res units :=
  match k with
  | KStr => encStr (Some v)
  | KU8 => encUint (Some v) 255
  | KU16 => encUint (Some v) 65535
  | KU32 => encUint (Some v) 4294967295
  | KU64 => encUint (Some v) U64_MAX
  | KU128 => encUint (Some v) U128_MAX
  | KF64 => encF64 (Some v)
  | KBool => encBool (Some v)
  | KVStr => encArr (fun x => encStr (Some x)) (Some v)
  | KVU64 => encArr (fun x => encUint (Some x) U64_MAX) (Some v)
  | KValue => encValue v
  | KVValue => encArr encValue (Some v)
  end.

Definition member (name : string) (t : units) : units := json_quote (u name) ++ 58 :: t.

(** One field: its text, or nothing. *)
Definition encField (o : list (units * LosslessJson)) (f : Field) : res (list units) :=
  let '(name, kind, mode) := f in
  let x := oget (u name) o in
  match mode, x with
  | MReq, None => bad "missing"
  | MReq, Some v => res_bind (encKind kind v) (fun t => Ok [member name t])
  | MNull, (None | Some LNull) => Ok [member name (u "null")]
  | MSkip, (None | Some LNull) => Ok []
  | _, Some v => res_bind (encKind kind v) (fun t => Ok [member name t])
  end.

Definition only_known (known : list string) (o : list (units * LosslessJson)) : bool :=
  forallb (fun kv => existsb (fun n => units_eqb (fst kv) (u n)) known) o.

Definition encStruct (v : option LosslessJson) (fields : list Field) : res units :=
  match isObj v with
  | None => bad "not an object"
  | Some o =>
      if negb (only_known (map (fun f => fst (fst f)) fields) o) then bad "unexpected field" else
      res_bind (map_res (encField o) fields) (fun ts => Ok (123 :: join 44 (concat ts) ++ [125]))
  end.

(** [TxPayload] in declaration order. *)
Definition PAYLOAD_FIELDS : list Field :=
  [("to_pub_key_hex", KStr, MNull); ("amount", KU64, MNull); ("faucet", KBool, MNull);
   ("target_pub_key", KStr, MNull); ("reason", KStr, MNull); ("token_name", KStr, MNull);
   ("token_symbol", KStr, MNull); ("token_decimals", KU8, MNull);
   ("token_total_supply", KU64, MNull); ("metadata_image", KStr, MNull);
   ("metadata_description", KStr, MNull); ("metadata_website", KStr, MNull);
   ("metadata_twitter", KStr, MNull); ("metadata_discord", KStr, MNull); ("pool_id", KStr, MNull);
   ("token_a_symbol", KStr, MNull); ("token_b_symbol", KStr, MNull); ("amount_a", KU64, MNull);
   ("amount_b", KU64, MNull); ("min_amount_out", KU64, MNull); ("swap_path", KVStr, MNull);
   ("lp_amount", KU64, MNull); ("evm_address", KStr, MNull); ("nft_collection_symbol", KStr, MSkip);
   ("nft_collection_name", KStr, MSkip); ("nft_collection_id", KStr, MSkip);
   ("nft_description", KStr, MSkip); ("nft_image", KStr, MSkip); ("nft_max_supply", KU64, MSkip);
   ("nft_royalty_bps", KU16, MSkip); ("nft_royalty_recipient", KStr, MSkip);
   ("nft_token_id", KU64, MSkip); ("nft_token_name", KStr, MSkip); ("nft_metadata_uri", KStr, MSkip);
   ("nft_attributes", KValue, MSkip); ("nft_locked", KBool, MSkip);
   ("nft_public_mint", KBool, MNull); ("nft_mint_price", KF64, MSkip);
   ("nft_token_gate_symbol", KStr, MSkip); ("nft_token_gate_amount", KF64, MSkip);
   ("nft_discount_pct", KU32, MSkip); ("nft_frozen", KBool, MSkip);
   ("nft_batch_names", KVStr, MSkip); ("nft_batch_uris", KVStr, MSkip);
   ("nft_batch_attributes", KVValue, MSkip); ("shielded_nullifiers", KVStr, MSkip);
   ("shielded_output_commitments", KVStr, MSkip); ("shielded_proof", KStr, MSkip);
   ("shielded_fee", KU64, MSkip); ("shielded_commitment", KStr, MSkip);
   ("shielded_value", KU64, MSkip); ("shielded_randomness", KStr, MSkip);
   ("lock_until_height", KU64, MSkip); ("lock_id", KStr, MSkip); ("staking_pool_id", KStr, MSkip);
   ("staking_reward_rate", KU64, MSkip); ("proposal_id", KStr, MSkip);
   ("proposal_title", KStr, MSkip); ("proposal_description", KStr, MSkip);
   ("vote_option", KStr, MSkip); ("proposal_end_height", KU64, MSkip);
   ("proposal_type", KStr, MSkip); ("proposal_action_payload", KValue, MSkip);
   ("proposal_quorum", KU64, MSkip); ("proposal_timelock_blocks", KU64, MSkip);
   ("delegate_to", KStr, MSkip); ("spender_pub_key", KStr, MSkip); ("allowance_amount", KU64, MSkip);
   ("owner_pub_key", KStr, MSkip); ("airdrop_recipients", KVStr, MSkip);
   ("airdrop_amounts", KVU64, MSkip); ("contract_wasm", KStr, MSkip); ("contract_addr", KStr, MSkip);
   ("contract_method", KStr, MSkip); ("contract_args", KValue, MSkip);
   ("contract_gas_limit", KU64, MSkip); ("contract_attach_symbol", KStr, MSkip);
   ("contract_attach_amount", KU64, MSkip); ("multisig_wallet_id", KStr, MSkip);
   ("multisig_signers", KVStr, MSkip); ("multisig_threshold", KU32, MSkip);
   ("multisig_label", KStr, MSkip); ("multisig_proposal_id", KStr, MSkip);
   ("multisig_proposal_tx_type", KStr, MSkip); ("multisig_proposal_payload", KValue, MSkip);
   ("multisig_proposal_fee", KF64, MSkip); ("multisig_approval_sig", KStr, MSkip);
   ("limit_order_id", KStr, MSkip); ("limit_order_expires", KU64, MSkip);
   ("token_mintable", KBool, MSkip); ("token_max_supply", KU64, MSkip);
   ("shield_v2_body", KStr, MSkip); ("shield_v2_proof", KStr, MSkip)].

Definition VOTE_FIELDS : list Field :=
  [("vote_type", KStr, MReq); ("height", KU64, MReq); ("round", KU32, MReq); ("block_hash", KStr, MReq);
   ("voter_pub_key", KStr, MReq); ("signature", KStr, MReq)].

(** The common prologue of the three encoders: an object with only known fields, the first
    [required] of which are present. *)
Definition shaped (v : option LosslessJson) (known : list string) (required : nat)
  : res (list (units * LosslessJson)) :=
  match isObj v with
  | None => bad "not an object"
  | Some o =>
      if negb (only_known known o) then bad "unexpected field"
      else if negb (forallb (fun n => ohas (u n) o) (take required known)) then bad "missing"
      else Ok o
  end.

(** Members in order, each encoded, braces around. *)
Definition object_text (ms : list (string * res units)) : res units :=
  res_bind (map_res (fun m => res_bind (snd m) (fun t => Ok (member (fst m) t))) ms)
    (fun ts => Ok (123 :: join 44 ts ++ [125])).

(** A member that is omitted when absent or null. *)
Definition optional (name : string) (x : option LosslessJson) (enc : LosslessJson -> res units)
  : list (string * res units) :=
  match x with None | Some LNull => [] | Some v => [(name, enc v)] end.

Definition TX_FIELDS : list string :=
  ["version"; "tx_type"; "from_pub_key"; "nonce"; "payload"; "fee"; "sig"; "signed_payload"].

Definition encodeTxV1 (tx : LosslessJson) : res units :=
  res_bind (shaped (Some tx) TX_FIELDS 7) (fun o =>
  let g n := oget (u n) o in
  object_text (
    [("version", encUint (g "version") 4294967295); ("tx_type", encStr (g "tx_type"));
     ("from_pub_key", encStr (g "from_pub_key")); ("nonce", encUint (g "nonce") U64_MAX);
     ("payload", encStruct (g "payload") PAYLOAD_FIELDS); ("fee", encF64 (g "fee")); ("sig", encStr (g "sig"))]
    ++ optional "signed_payload" (g "signed_payload") (fun v => encStr (Some v)))).

Definition PROOF_FIELDS : list string :=
  ["height"; "block_hash"; "total_stake"; "voting_stake"; "quorum_threshold"; "precommit_votes"; "created_at"].

Definition encodeFinalityProof (p : LosslessJson) : res units :=
  res_bind (shaped (Some p) PROOF_FIELDS 7) (fun o =>
  let g n := oget (u n) o in
  match g "precommit_votes" with
  | Some (LArr _) =>
      object_text
        [("height", encUint (g "height") U64_MAX); ("block_hash", encStr (g "block_hash"));
         ("total_stake", encUint (g "total_stake") U128_MAX); ("voting_stake", encUint (g "voting_stake") U128_MAX);
         ("quorum_threshold", encUint (g "quorum_threshold") U128_MAX);
         ("precommit_votes", encArr (fun v => encStruct (Some v) VOTE_FIELDS) (g "precommit_votes"));
         ("created_at", encUint (g "created_at") U64_MAX)]
  | _ => bad "parent_commit.precommit_votes: not an array"
  end).

Definition HEADER_FIELDS : list string :=
  ["version"; "chain_id"; "height"; "time"; "prev_hash"; "tx_hash"; "proposer_pub_key"; "state_root"; "parent_commit"].

Definition encodeHeaderV1 (h : LosslessJson) : res units :=
  res_bind (shaped (Some h) HEADER_FIELDS 7) (fun o =>
  let g n := oget (u n) o in
  object_text (
    [("version", encUint (g "version") 4294967295); ("chain_id", encStr (g "chain_id"));
     ("height", encUint (g "height") U64_MAX); ("time", encUint (g "time") U64_MAX);
     ("prev_hash", encStr (g "prev_hash")); ("tx_hash", encStr (g "tx_hash"));
     ("proposer_pub_key", encStr (g "proposer_pub_key"))]
    ++ optional "state_root" (g "state_root") (fun v => encStr (Some v))
    ++ optional "parent_commit" (g "parent_commit") encodeFinalityProof)).

(** ** Bytes and hexadecimal *)

Definition toHex (b : list Z) : units := flat_map (fun x => [hexd (x / 16); hexd (x mod 16)]) b.

Fixpoint fromHex (h : units) : option (list Z) :=
  match h with
  | [] => Some []
  | a :: b :: r =>
      match hexv a, hexv b with
      | Some x, Some y => cons (16 * x + y) <$> fromHex r
      | _, _ => None
      end
  | _ => None
  end.

(** A lower-case hash of 64 digits. *)
Definition isHash (s : option LosslessJson) : bool :=
  match s with
  | Some (LStr h) => (length h =? 64)%nat && forallb (fun c => is_dec c || ((97 <=? c) && (c <=? 102))) h
  | _ => false
  end.

Section Verify.
Context `{C : Crypto}.

Definition computeSingleTxHash (tx : LosslessJson) : res units :=
  res_bind (encodeTxV1 tx) (fun t => Ok (toHex (sha256 (utf8 t)))).

Definition computeTxListHash (txs : list LosslessJson) : res units :=
  res_bind (map_res (fun t => res_bind (encodeTxV1 t) (fun x => Ok (utf8 x))) txs) (fun parts =>
  Ok (toHex (sha256 (concat parts)))).

Definition computeBlockHash (header : LosslessJson) (proposerSig : units) : res units :=
  res_bind (encodeHeaderV1 header) (fun t => Ok (toHex (sha256 (utf8 t ++ utf8 proposerSig)))).

Definition voteSigningMessage (chainId voteType height round blockHash : units) : units :=
  FINALITY_VOTE_DOMAIN_V2 ++ u "|chain=" ++ chainId ++ u "|type=" ++ voteType ++ u "|height=" ++ height
  ++ u "|round=" ++ round ++ u "|block=" ++ blockHash.

Definition mlDsaVerify (pubHex : units) (msg : list Z) (sigHex : units) : bool :=
  match fromHex pubHex, fromHex sigHex with
  | Some pk, Some sig =>
      if negb (Z.of_nat (length pk) =? 1952) || negb (Z.of_nat (length sig) =? 3309) then false
      else match ml_dsa65_verify sig msg pk with Ok true => true | _ => false end
  | _, _ => false
  end.

(** ** Checks *)

Record FinalityCheck := { ck_name : string; ck_ok : bool; ck_critical : bool }.
Definition ck (n : string) (ok : bool) : FinalityCheck := {| ck_name := n; ck_ok := ok; ck_critical := true |}.
Definition info (n : string) (ok critical : bool) : FinalityCheck :=
  {| ck_name := n; ck_ok := ok; ck_critical := critical |}.
(** [checks.every((c) => c.ok || !c.critical)]. *)
Definition all_passed (cs : list FinalityCheck) : bool := forallb (fun c => ck_ok c || negb (ck_critical c)) cs.

(** ** Validator set *)

Record TrustedValidatorSet := { validators : list (units * Z); vs_height : option number }.
Record StakeSet := { stakes : list (units * Z); total : Z; quorum : Z; ss_height : option number }.

Fixpoint add_stake (k : units) (s : Z) (m : list (units * Z)) : list (units * Z) :=
  match m with
  | [] => [(k, s)]
  | (k', v) :: r => if units_eqb k k' then (k', v + s) :: r else (k', v) :: add_stake k s r
  end.

Definition finalityQuorum (totalStake : Z) : Z := totalStake * 2 / 3 + 1.

Definition toStakeSet (entries : list (units * Z)) (height : option number) : StakeSet :=
  let m := foldl (fun m e => if 0 <? snd e then add_stake (fst e) (snd e) m else m) [] entries in
  let t := foldl (fun a e => a + snd e) 0 m in
  {| stakes := m; total := t; quorum := t * 2 / 3 + 1; ss_height := height |}.

(** ** Certificate verification *)

Record CertContext := { cx_chainId : units; cx_height : number; cx_blockHash : units; cx_set : TrustedValidatorSet }.

Record VerifiedCertificate := {
  vc_height : number; vc_blockHash : units; vc_votingStake : Z; vc_totalStake : Z; vc_quorum : Z;
  vc_voters : list units;
}.

Record CertResult := { cr_ok : bool; cr_checks : list FinalityCheck; cr_verified : option VerifiedCertificate }.

(** The text of a number field; the encoder has checked that it is one. *)
Definition num_raw (v : option LosslessJson) : units :=
  match v with Some (LNum raw) => raw | _ => [] end.
Definition str_val (v : option LosslessJson) : units :=
  match v with Some (LStr s) => s | _ => [] end.
Definition is_str (v : option LosslessJson) (s : units) : bool :=
  match v with Some (LStr t) => units_eqb t s | _ => false end.

Definition vote_message (cx : CertContext) : list Z :=
  utf8 (voteSigningMessage (cx_chainId cx) (u "precommit") (number_text (cx_height cx))
          (udec FINALITY_ONLY_ROUND) (cx_blockHash cx)).

(** One vote against the voters so far: the voter and its stake. *)
Definition check_vote (cx : CertContext) (set : StakeSet) (voters : list units) (raw : LosslessJson)
  : option (units * Z) :=
  match raw with
  | LObj v =>
      let g n := oget (u n) v in
      if negb (is_str (g "vote_type") (u "precommit")) then None
      else if negb (units_eqb (num_raw (g "round")) (udec FINALITY_ONLY_ROUND)) then None
      else if negb (units_eqb (num_raw (g "height")) (number_text (cx_height cx))) then None
      else if negb (isHash (g "block_hash")) || negb (is_str (g "block_hash") (cx_blockHash cx)) then None
      else
        let pk := str_val (g "voter_pub_key") in
        match oget pk (stakes set) with
        | None => None
        | Some stake =>
            if negb (mlDsaVerify pk (vote_message cx) (str_val (g "signature"))) then None
            else if existsb (units_eqb pk) voters then None
            else Some (pk, stake)
        end
  | _ => None
  end.

(** The loop over the votes: voters in order, voting stake, and one check per vote. *)
Fixpoint count_votes (cx : CertContext) (set : StakeSet) (votes : list LosslessJson)
    (voters : list units) (voting : Z) : list units * Z * list FinalityCheck :=
  match votes with
  | [] => (voters, voting, [])
  | v :: r =>
      match check_vote cx set voters v with
      | Some (pk, stake) =>
          let '(vs, t, cs) := count_votes cx set r (voters ++ [pk]) (voting + stake) in
          (vs, t, ck "cert.vote" true :: cs)
      | None =>
          let '(vs, t, cs) := count_votes cx set r voters voting in
          (vs, t, ck "cert.vote" false :: cs)
      end
  end.

Definition verifyFinalityCertificate (cert : LosslessJson) (cx : CertContext) : CertResult :=
  let set := toStakeSet (validators (cx_set cx)) (vs_height (cx_set cx)) in
  let refuse cs := {| cr_ok := false; cr_checks := cs; cr_verified := None |} in
  match isObj (Some cert) with
  | None => refuse [ck "cert.shape" false]
  | Some o =>
  match encodeFinalityProof cert with
  | Err _ => refuse [ck "cert.shape" false]
  | Ok _ =>
  let c1 := [ck "cert.shape" true] in
  let g n := oget (u n) o in
  let k2 := ck "cert.height" (units_eqb (num_raw (g "height")) (number_text (cx_height cx))) in
  if negb (ck_ok k2) then refuse (c1 ++ [k2]) else
  let k3 := ck "cert.block_hash" (is_str (g "block_hash") (cx_blockHash cx)) in
  if negb (ck_ok k3) then refuse (c1 ++ [k2; k3]) else
  let n := Z.of_nat (length (stakes set)) in
  let k4 := ck "validator_set.nonempty" ((0 <? n) && (0 <? total set)) in
  if negb (ck_ok k4) then refuse (c1 ++ [k2; k3; k4]) else
  let votes := match g "precommit_votes" with Some (LArr l) => l | _ => [] end in
  let nv := Z.of_nat (length votes) in
  let k5 := ck "cert.vote_count" ((nv <=? FINALITY_MAX_PROOF_VOTES) && (nv <=? n)) in
  if negb (ck_ok k5) then refuse (c1 ++ [k2; k3; k4; k5]) else
  let '(voters, voting, cs) := count_votes cx set votes [] 0 in
  let c5 := c1 ++ [k2; k3; k4; k5] ++ cs in
  if negb (forallb ck_ok cs) then refuse c5 else
  let k6 := ck "cert.quorum" (quorum set <=? voting) in
  if negb (ck_ok k6) then refuse (c5 ++ [k6]) else
  let forHeight := match ss_height set with Some h => num_eqb h (cx_height cx) | None => false end in
  let claim f v := info ("cert.claim." +:+ f) (units_eqb (num_raw (g f)) (udec v)) forHeight in
  let checks := c5 ++ [k6; claim "voting_stake" voting; claim "total_stake" (total set);
                       claim "quorum_threshold" (quorum set)] in
  let critOk := all_passed checks in
  {| cr_ok := critOk; cr_checks := checks;
     cr_verified := if critOk then Some {|
       vc_height := cx_height cx; vc_blockHash := cx_blockHash cx; vc_votingStake := voting;
       vc_totalStake := total set; vc_quorum := quorum set; vc_voters := voters |} else None |}
  end
  end.

(** ** Block verification *)

Record VerifiedBlock := {
  vb_height : number; vb_blockHash : units; vb_chainId : units; vb_proposer : units;
  vb_txHashes : list units; vb_raw : list (units * LosslessJson);
}.

Record BlockResult := { br_ok : bool; br_block : option VerifiedBlock; br_checks : list FinalityCheck }.

Definition verifyBlock (raw : LosslessJson) (chainId : units) (height : option number) : BlockResult :=
  let refuse cs := {| br_ok := false; br_block := None; br_checks := cs |} in
  match raw with
  | LObj o =>
  let g n := oget (u n) o in
  match g "header", g "txs", g "proposer_sig" with
  | Some (LObj ho), Some (LArr txs), Some (LStr sig) =>
  let header := LObj ho in
  match encodeHeaderV1 header, map_res computeSingleTxHash txs with
  | Ok headerBytes, Ok txHashes =>
  let h := Number_of_text (num_raw (oget (u "height") ho)) in
  let hc := match height with Some want => [ck "block.height" (num_eqb h want)] | None => [] end in
  if negb (forallb ck_ok hc) then refuse (ck "block.shape" true :: hc) else
  match computeTxListHash txs with
  | Err _ => refuse [ck "block.shape" false]
  | Ok recomputedTxHash =>
  let blockHash := toHex (sha256 (utf8 headerBytes ++ utf8 sig)) in
  let proposer := str_val (oget (u "proposer_pub_key") ho) in
  let checks := ck "block.shape" true :: hc ++
    [ck "block.chain_id" (is_str (oget (u "chain_id") ho) chainId);
     ck "block.tx_hash" (is_str (oget (u "tx_hash") ho) recomputedTxHash);
     ck "block.hash" (is_str (g "hash") blockHash);
     ck "block.proposer_signature" (mlDsaVerify proposer (utf8 headerBytes) sig)] in
  let ok := all_passed checks in
  {| br_ok := ok;
     br_block := if ok then Some {| vb_height := h; vb_blockHash := blockHash; vb_chainId := chainId;
                                    vb_proposer := proposer; vb_txHashes := txHashes; vb_raw := o |} else None;
     br_checks := checks |}
  end
  | _, _ => refuse [ck "block.shape" false]
  end
  | _, _, _ => refuse [ck "block.shape" false]
  end
  | _ => refuse [ck "block.shape" false]
  end.

(** ** Fetching *)

(** The injected [fetch]: an HTTP answer ([ok], [status], body text), or an exception. *)
Inductive fin_cmd := Fetch (url : units).
Definition fin_ans (c : fin_cmd) : Type := bool * Z * units.
Definition FinI : iface := {| st := unit; cmd := fin_cmd; ans := fin_ans |}.

(** [n.replace(/\/+$/, "")]: without trailing slashes. *)
Fixpoint drop_slashes (l : units) : units :=
  match l with c :: r => if c =? 47 then drop_slashes r else l | [] => [] end.

Definition apiBase (node : units) : units :=
  let n := rev (drop_slashes (rev node)) in
  match strip (rev (u "/api")) (rev n) with Some _ => n | None => n ++ u "/api" end.

(** [getJson]: a value, or the error of the request or of the parser. *)
Definition getJson (url : units) : prog FinI (res LosslessJson) :=
  bind (attempt (call (Fetch url : cmd FinI))) (fun r =>
  Ret (match r with
       | Err m => Err m
       | Ok (ok, status, text) =>
           if negb ok then Err ("HTTP " +:+ dec status) else parseJsonLossless text
       end)).

(** A member of an answer that is an object. *)
Definition body_field (r : res LosslessJson) (k : string) : option LosslessJson :=
  match r with Ok (LObj o) => oget (u k) o | _ => None end.

Definition body_list (r : res LosslessJson) (k : string) : option (list LosslessJson) :=
  match body_field r k with Some (LArr l) => Some l | _ => None end.

Record FetchBlockResult := {
  fb_ok : bool; fb_block : option VerifiedBlock; fb_next : option (list (units * LosslessJson));
  fb_checks : list FinalityCheck;
}.

Local Open Scope prog_scope.

(** [second], when it is the block of the next height. *)
Definition next_block (height : number) (second : option LosslessJson) : option (list (units * LosslessJson)) :=
  match second with
  | Some (LObj o) =>
      match oget (u "header") o with
      | Some (LObj ho) =>
          match oget (u "height") ho with
          | Some (LNum raw) => if units_eqb raw (number_text (num_add height (num_of_Z 1))) then Some o else None
          | _ => None
          end
      | _ => None
      end
  | _ => None
  end.

Definition fetchAndVerifyBlock (height : number) (node0 chainId : units) : prog FinI FetchBlockResult :=
  let node := apiBase node0 in
  let! r := getJson (node ++ u "/blocks?from_height=" ++ number_text height ++ u "&limit=2") in
  let blocks := default [] (body_list r "blocks") in
  match blocks with
  | [] => Ret {| fb_ok := false; fb_block := None; fb_next := None; fb_checks := [ck "block.fetch" false] |}
  | first :: more =>
      (* a null, false or empty-string element is falsy *)
      let truthy1 := match first with LNull | LBool false | LStr [] => false | _ => true end in
      if negb truthy1 then
        Ret {| fb_ok := false; fb_block := None; fb_next := None; fb_checks := [ck "block.fetch" false] |}
      else
      let v := verifyBlock first chainId (Some height) in
      Ret {| fb_ok := br_ok v; fb_block := br_block v; fb_next := next_block height (head more);
             fb_checks := ck "block.fetch" true :: br_checks v |}
  end.

(** ** [verifyTxFinalized] *)

Inductive FinalityStatus := Finalized | IncludedNotFinalized | NotFound | Invalid.
Inductive ValidatorSetTrust := PinnedSet | NodeReportedSet.
Inductive CertificateSource := FromParentCommit | FromFinalityApi.
#[export] Instance FinalityStatus_eq_dec : EqDecision FinalityStatus.
Proof. solve_decision. Defined.

Record FinalityOptions := {
  o_txHash : units; o_nodes : list units; o_chainId : units;
  o_trusted : option TrustedValidatorSet; o_minConfirmations : number;
}.

Record FinalityResult := {
  f_status : FinalityStatus; f_height : option number; f_blockHash : option units; f_txIndex : option nat;
  f_trust : ValidatorSetTrust; f_certSource : option CertificateSource;
  f_certificate : option VerifiedCertificate; f_agreeing : list units;
  f_outcome : option LosslessJson; f_checks : list FinalityCheck;
}.

(** [Array.from(new Set(l))]. *)
Fixpoint dedup (seen l : list units) : list units :=
  match l with
  | [] => []
  | x :: r => if existsb (units_eqb x) seen then dedup seen r else x :: dedup (seen ++ [x]) r
  end.


Definition others (n : units) (nodes : list units) : list units := List.filter (fun m => negb (units_eqb m n)) nodes.

(** 1. The node's answer is a hint: the height, the node and its receipt. *)
Fixpoint lookup_hint (txHash : units) (nodes : list units) : prog FinI (option (number * units * option LosslessJson)) :=
  match nodes with
  | [] => Ret None
  | node :: rest =>
      let! r := getJson (node ++ u "/tx/" ++ txHash) in
      match body_field r "success", body_field r "blockHeight" with
      | Some (LBool true), Some (LNum raw) =>
          Ret (Some (Number_of_text raw, node,
                     match body_field r "receipt" with Some (LObj ro) => oget (u "status") ro | _ => None end))
      | _, _ => lookup_hint txHash rest
      end
  end.

(** 2. The block, from the first node that serves one. *)
Fixpoint fetch_block (height : number) (chainId : units) (nodes : list units) (checks : list FinalityCheck)
  : prog FinI (option (FetchBlockResult * units) * list FinalityCheck) :=
  match nodes with
  | [] => Ret (None, checks)
  | node :: rest =>
      let! r := fetchAndVerifyBlock height node chainId in
      let checks' := checks ++ fb_checks r in
      if existsb (fun c => (ck_name c =? "block.fetch")%string && ck_ok c) (fb_checks r)
      then Ret (Some (r, node), checks')
      else fetch_block height chainId rest checks'
  end.

(** 3. The validator set: the pinned one, or the active validators a node reports. *)
Definition validator_entry (v : LosslessJson) : option (units * units) :=
  match v with
  | LObj o =>
      match oget (u "status") o, oget (u "publicKey") o, oget (u "stake") o with
      | Some (LStr s), Some (LStr pk), Some (LNum raw) => if units_eqb s (u "active") then Some (pk, raw) else None
      | _, _, _ => None
      end
  | _ => None
  end.

(** [BigInt(raw)] of a number text throws unless it is an integer text. *)
Definition bigint_raw (raw : units) : res Z :=
  match raw with
  | c :: r => if c =? 45 then if forallb is_dec r && negb (units_eqb r []) then Ok (- digits_val r) else Err "SyntaxError"
              else if forallb is_dec raw then Ok (digits_val raw) else Err "SyntaxError"
  | [] => Err "SyntaxError"
  end.

Definition node_validators (l : list LosslessJson) : res (list (units * Z)) :=
  map_res (fun e => res_bind (bigint_raw (snd e)) (fun s => Ok (fst e, s))) (omap validator_entry l).

Definition obtain_set (trusted : option TrustedValidatorSet) (primary : units)
  : prog FinI (option TrustedValidatorSet) :=
  match trusted with
  | Some v => Ret (Some v)
  | None =>
      let! r := getJson (primary ++ u "/validators") in
      match body_list r "validators" with
      | Some l =>
          let! vs := of_res (node_validators l) in
          Ret (Some {| validators := vs; vs_height := None |})
      | None => Ret None
      end
  end.

(** 4. The certificate: the next block's parent commit, else the finality endpoint. *)
Fixpoint certificate_api (height : number) (nodes : list units) : prog FinI (option LosslessJson) :=
  match nodes with
  | [] => Ret None
  | node :: rest =>
      let! r := getJson (node ++ u "/finality/" ++ number_text height) in
      match body_field r "success", body_field r "proof" with
      | Some (LBool true), Some (LObj p) => Ret (Some (LObj p))
      | _, _ => certificate_api height rest
      end
  end.

Definition parent_commit (next : option (list (units * LosslessJson))) : option LosslessJson :=
  match next with
  | Some o =>
      match oget (u "header") o with
      | Some (LObj ho) => match oget (u "parent_commit") ho with Some (LObj p) => Some (LObj p) | _ => None end
      | _ => None
      end
  | None => None
  end.

(** 5. Cross-check: what another node serves at the height, as a recomputed hash. *)
Definition served_hash (height : number) (r : res LosslessJson) : option (res units) :=
  match body_list r "blocks" with
  | Some (LObj b :: _) =>
      match oget (u "header") b, oget (u "proposer_sig") b with
      | Some (LObj ho), Some (LStr sig) =>
          match oget (u "height") ho with
          | Some (LNum raw) =>
              if units_eqb raw (number_text height) then Some (computeBlockHash (LObj ho) sig) else None
          | _ => None
          end
      | _, _ => None
      end
  | _ => None
  end.

(** Agreeing nodes, whether one conflicts, and the checks. *)
Fixpoint cross_check (height : number) (blockHash : units) (nodes : list units)
    (agreeing : list units) (conflict : bool) (checks : list FinalityCheck)
  : prog FinI (list units * bool * list FinalityCheck) :=
  match nodes with
  | [] => Ret (agreeing, conflict, checks)
  | node :: rest =>
      let! r := getJson (node ++ u "/blocks?from_height=" ++ number_text height ++ u "&limit=1") in
      match served_hash height r with
      | None => cross_check height blockHash rest agreeing conflict (checks ++ [info "nodes.answer" false false])
      | Some h =>
          if match h with Ok x => units_eqb x blockHash | Err _ => false end
          then cross_check height blockHash rest (agreeing ++ [node]) conflict (checks ++ [ck "nodes.same_block" true])
          else cross_check height blockHash rest agreeing true (checks ++ [ck "nodes.same_block" false])
      end
  end.

Definition verifyTxFinalized (opt : FinalityOptions) : prog FinI FinalityResult :=
  let trust := match o_trusted opt with Some _ => PinnedSet | None => NodeReportedSet end in
  let txHash := map lower_unit (o_txHash opt) in
  let nodes := dedup [] (map apiBase (o_nodes opt)) in
  let result s h bh ti src cert agree out cs := {|
    f_status := s; f_height := h; f_blockHash := bh; f_txIndex := ti; f_trust := trust; f_certSource := src;
    f_certificate := cert; f_agreeing := agree; f_outcome := out; f_checks := cs |} in
  let k0 := ck "input" (isHash (Some (LStr txHash)) && negb (bool_decide (nodes = []))
                        && negb (bool_decide (o_chainId opt = []))) in
  if negb (ck_ok k0) then Ret (result Invalid None None None None None [] None [k0]) else
  let! hint := lookup_hint txHash nodes in
  match hint with
  | None => Ret (result NotFound None None None None None [] None [k0; ck "tx.lookup" false])
  | Some (height, hintNode, outcome) =>
  let! (fb, cs) := fetch_block height (o_chainId opt) (hintNode :: others hintNode nodes) [k0; ck "tx.lookup" true] in
  match fb with
  | None => Ret (result NotFound (Some height) None None None None [] outcome cs)
  | Some (r, primary) =>
  match fb_block r with
  | None => Ret (result Invalid (Some height) None None None None [] outcome cs)
  | Some block =>
  if negb (fb_ok r) then Ret (result Invalid (Some height) None None None None [] outcome cs) else
  let txIndex := fst <$> list_find (fun h => h = txHash) (vb_txHashes block) in
  let hb := (Some (vb_height block)) in
  match txIndex with
  | None => Ret (result NotFound hb (Some (vb_blockHash block)) None None None [] outcome (cs ++ [ck "tx.in_block" false]))
  | Some idx =>
  let answer s src cert agree cs := result s hb (Some (vb_blockHash block)) (Some idx) src cert agree outcome cs in
  let! vset := obtain_set (o_trusted opt) primary in
  let cs := cs ++ [ck "tx.in_block" true; ck "validator_set" (match vset with Some _ => true | None => false end)] ++
    match vset with
    | Some v => [info "block.proposer_in_set" (existsb (fun e => units_eqb (fst e) (vb_proposer block)) (validators v)) false]
    | None => []
    end in
  let! (cert, src) :=
    match parent_commit (fb_next r) with
    | Some p => Ret (Some p, Some FromParentCommit)
    | None =>
        let! p := certificate_api (vb_height block) (primary :: others primary nodes) in
        Ret (p, match p with Some _ => Some FromFinalityApi | None => None end)
    end in
  match cert with
  | None => Ret (answer IncludedNotFinalized None None [primary] (cs ++ [ck "finality.certificate" false]))
  | Some p =>
  let cs := cs ++ [ck "finality.certificate" true] in
  match vset with
  | None => Ret (answer IncludedNotFinalized src None [primary] cs)
  | Some v =>
  let cv := verifyFinalityCertificate p {| cx_chainId := o_chainId opt; cx_height := vb_height block;
              cx_blockHash := vb_blockHash block; cx_set := v |} in
  let cs := cs ++ cr_checks cv in
  if negb (cr_ok cv) then Ret (answer Invalid src None [primary] cs) else
  let! (agreeing, conflict, cs) := cross_check (vb_height block) (vb_blockHash block) (others primary nodes) [primary] false cs in
  let majority := Z.of_nat (length nodes) / 2 + 1 in
  if conflict then Ret (answer Invalid src (cr_verified cv) agreeing cs) else
  let km := ck "nodes.majority" (majority <=? Z.of_nat (length agreeing)) in
  if negb (ck_ok km) then Ret (answer IncludedNotFinalized src (cr_verified cv) agreeing (cs ++ [km])) else
  if num_ltb (num_of_Z 1) (o_minConfirmations opt) then
    let! sr := getJson (primary ++ u "/stats") in
    let conf := match body_field sr "network_height" with
                | Some (LNum raw) => num_add (num_sub (Number_of_text raw) (vb_height block)) (num_of_Z 1)
                | _ => num_of_Z 0
                end in
    let kc := ck "confirmations" (num_leb (o_minConfirmations opt) conf) in
    if negb (ck_ok kc) then Ret (answer IncludedNotFinalized src (cr_verified cv) agreeing (cs ++ [km; kc]))
    else Ret (answer Finalized src (cr_verified cv) agreeing (cs ++ [km; kc]))
  else Ret (answer Finalized src (cr_verified cv) agreeing (cs ++ [km]))
  end
  end
  end
  end
  end
  end.
End Verify.
