(* ===== verification/FinalityClaims.v ===== *)
(** * Claims on finality verification

    What a verified certificate, a verified block and the answer [finalized] establish, and what
    two certificates over one validator set have in common. *)
From S2P Require Import Prelude JsText JsNum JsUtf16 JsFloat Interact LosslessJson Finality.
Local Open Scope Z_scope.

(** ** Stake sets *)

Definition stake_of (m : list (units * Z)) (k : units) : Z := default 0 (oget k m).
Definition stake_sum (m : list (units * Z)) (l : list units) : Z := zsum (map (stake_of m) l).

Lemma oget_none {A} k (o : list (units * A)) : oget k o = None <-> k ∉ map fst o.
Proof.
  induction o as [|[k' v] o IH]; simpl; [split; [intros _; apply not_elem_of_nil|done]|].
  destruct (units_eqb k k') eqn:E.
  - apply units_eqb_true in E as ->. split; [done|]. intros H. destruct H. left.
  - rewrite not_elem_of_cons, IH. split; [|tauto]. intros; split; [|done]. intros ->.
    assert (units_eqb k' k' = true) by by apply units_eqb_true. congruence.
Qed.

Lemma add_stake_keys k s m x : x ∈ map fst (add_stake k s m) <-> x = k \/ x ∈ map fst m.
Proof.
  induction m as [|[k' v] m IH]; simpl; [by rewrite !elem_of_cons, elem_of_nil|].
  destruct (units_eqb k k') eqn:E; simpl; rewrite !elem_of_cons.
  - apply units_eqb_true in E as ->. tauto.
  - rewrite IH. tauto.
Qed.

Lemma add_stake_nodup k s m : NoDup (map fst m) -> NoDup (map fst (add_stake k s m)).
Proof.
  induction m as [|[k' v] m IH]; simpl; intros H; [apply NoDup_singleton|].
  apply NoDup_cons in H as [Hn Hd]. destruct (units_eqb k k') eqn:E; simpl; apply NoDup_cons; [done|].
  split; [|auto]. rewrite add_stake_keys. intros [->|?]; [|done].
  assert (units_eqb k k = true) by by apply units_eqb_true. congruence.
Qed.

Lemma add_stake_pos k s m : 0 < s -> Forall (fun e => 0 < snd e) m -> Forall (fun e => 0 < snd e) (add_stake k s m).
Proof.
  intros Hs. induction m as [|[k' v] m IH]; simpl; intros H; [by repeat constructor|].
  apply Forall_cons in H as [Hv H]. simpl in Hv. destruct (units_eqb k k'); constructor; simpl; auto; lia.
Qed.

(** A stake set has distinct voters with positive stakes, and its quorum is exact. *)
Record wf_stakes (s : StakeSet) : Prop := {
  ws_nodup : NoDup (map fst (stakes s));
  ws_pos : Forall (fun e => 0 < snd e) (stakes s);
  ws_total : total s = zsum (map snd (stakes s));
  ws_quorum : quorum s = finalityQuorum (total s);
}.

Lemma foldl_sum (m : list (units * Z)) a : foldl (fun a e => a + snd e) a m = a + zsum (map snd m).
Proof. revert a. induction m as [|e m IH]; intros a; simpl; [lia|]. rewrite IH. lia. Qed.

Lemma toStakeSet_wf entries h : wf_stakes (toStakeSet entries h).
Proof.
  set (f := fun m (e : units * Z) => if 0 <? snd e then add_stake (fst e) (snd e) m else m).
  assert (forall acc, NoDup (map fst acc) -> Forall (fun e => 0 < snd e) acc ->
    NoDup (map fst (foldl f acc entries)) /\ Forall (fun e => 0 < snd e) (foldl f acc entries)) as H.
  { induction entries as [|e es IH]; intros acc H1 H2; [done|]. apply IH; unfold f;
      destruct (0 <? snd e) eqn:E; try done; breflect; [by apply add_stake_nodup|by apply add_stake_pos]. }
  destruct (H [] ltac:(apply NoDup_nil_2) ltac:(done)) as [Hn Hp].
  split; [done|done| |done]. cbn [total stakes toStakeSet]. fold f. rewrite foldl_sum. lia.
Qed.

Lemma stake_sum_all m : NoDup (map fst m) -> stake_sum m (map fst m) = zsum (map snd m).
Proof.
  unfold stake_sum. induction m as [|[k v] m IH]; simpl; intros H; [done|]. apply NoDup_cons in H as [Hn Hd].
  unfold stake_of at 1. simpl. assert (units_eqb k k = true) as -> by by apply units_eqb_true. simpl. f_equal.
  rewrite <- IH by done. f_equal. apply map_ext_in. intros x Hx%list_elem_of_In. unfold stake_of. simpl.
  destruct (units_eqb x k) eqn:E; [|done]. apply units_eqb_true in E as ->. done.
Qed.

Lemma oget_elem_pair {A} k (v : A) o : oget k o = Some v -> (k, v) ∈ o.
Proof.
  induction o as [|[k' v'] o IH]; simpl; [done|]. destruct (units_eqb k k') eqn:E.
  - apply units_eqb_true in E as ->. intros [= ->]. left.
  - intros; right; auto.
Qed.

Lemma stake_nonneg m k : Forall (fun e => 0 < snd e) m -> 0 <= stake_of m k.
Proof.
  intros H. unfold stake_of. destruct (oget k m) as [v|] eqn:E; simpl; [|lia].
  apply oget_elem_pair in E. rewrite Forall_elem in H. specialize (H _ E). simpl in H. lia.
Qed.

Lemma stake_sum_app m l k : stake_sum m (l ++ k) = stake_sum m l + stake_sum m k.
Proof. unfold stake_sum. rewrite map_app. apply zsum_app. Qed.

#[export] Instance stake_sum_proper m : Proper (Permutation ==> eq) (stake_sum m).
Proof. intros l k H. unfold stake_sum. apply zsum_perm. by rewrite H. Qed.

Lemma stake_sum_nonneg m l : Forall (fun e => 0 < snd e) m -> 0 <= stake_sum m l.
Proof. intros H. apply zsum_nonneg. apply Forall_map, Forall_elem. intros. by apply stake_nonneg. Qed.

(** Distinct voters of the set hold at most the total. *)
Lemma stake_sum_le s l :
  wf_stakes s -> NoDup l -> (forall k, k ∈ l -> k ∈ map fst (stakes s)) -> stake_sum (stakes s) l <= total s.
Proof.
  intros [Hn Hp Ht _] Hl Hin. rewrite Ht, <- stake_sum_all by done.
  destruct (submseteq_Permutation l (map fst (stakes s)) (NoDup_submseteq _ _ Hl Hin)) as [r Hr].
  rewrite Hr, stake_sum_app. pose proof (stake_sum_nonneg (stakes s) r Hp). lia.
Qed.

(** Two groups of distinct voters: their common part. *)
Definition common (a b : list units) : list units := List.filter (fun k => existsb (units_eqb k) b) a.

Lemma existsb_units k l : existsb (units_eqb k) l = true <-> k ∈ l.
Proof.
  rewrite existsb_exists. split.
  - intros (x & Hx%list_elem_of_In & ->%units_eqb_true). done.
  - intros Hk. exists k. rewrite <- list_elem_of_In, units_eqb_true. done.
Qed.

Lemma elem_common k a b : k ∈ common a b <-> k ∈ a /\ k ∈ b.
Proof. unfold common. rewrite list_elem_of_In, List.filter_In, <- list_elem_of_In, existsb_units. done. Qed.

Lemma common_split m a b :
  stake_sum m a = stake_sum m (common a b) + stake_sum m (List.filter (fun k => negb (existsb (units_eqb k) b)) a).
Proof.
  unfold common, stake_sum. induction a as [|x a IH]; simpl; [done|].
  destruct (existsb (units_eqb x) b); simpl; lia.
Qed.

Lemma nodup_filter {A} (f : A -> bool) l : NoDup l -> NoDup (List.filter f l).
Proof. rewrite !NoDup_ListNoDup. apply List.NoDup_filter. Qed.

Lemma quorum_overlap s a b :
  wf_stakes s -> NoDup a -> NoDup b ->
  (forall k, k ∈ a \/ k ∈ b -> k ∈ map fst (stakes s)) ->
  quorum s <= stake_sum (stakes s) a -> quorum s <= stake_sum (stakes s) b ->
  total s < 3 * stake_sum (stakes s) (common a b).
Proof.
  intros Hw Ha Hb Hin Hqa Hqb.
  set (a' := List.filter (fun k => negb (existsb (units_eqb k) b)) a).
  assert (NoDup (a' ++ b)) as Hab.
  { apply NoDup_app. split; [by apply nodup_filter|]. split; [|done]. intros k Hk Hkb.
    apply list_elem_of_In, List.filter_In in Hk as [_ Hk]. apply negb_true_iff in Hk.
    apply existsb_units in Hkb. congruence. }
  assert (stake_sum (stakes s) (a' ++ b) <= total s) as Hle.
  { apply stake_sum_le; [done|done|]. intros k [Hk|Hk]%elem_of_app; apply Hin; [|by right].
    apply list_elem_of_In, List.filter_In in Hk as [Hk _]. left. by apply list_elem_of_In. }
  rewrite stake_sum_app in Hle. pose proof (common_split (stakes s) a b) as Hs. fold a' in Hs.
  rewrite (ws_quorum _ Hw) in *. unfold finalityQuorum in *.
  pose proof (Z.div_mod (total s * 2) 3 ltac:(lia)). pose proof (Z.mod_pos_bound (total s * 2) 3 ltac:(lia)). lia.
Qed.

(** ** Certificates *)

Section Certificates.
Context `{C : Crypto}.

(** [pk] is in the set and a signature of the vote message of [cx] by it was verified. *)
Definition signed_vote (cx : CertContext) (set : StakeSet) (pk : units) : Prop :=
  pk ∈ map fst (stakes set) /\ exists sig, mlDsaVerify pk (vote_message cx) sig = true.

Lemma is_str_true v s : is_str v s = true <-> v = Some (LStr s).
Proof.
  destruct v as [[]|]; simpl; try (split; [done|by intros [= ]]).
  rewrite units_eqb_true. split; [by intros ->|by intros [= ->]].
Qed.

Lemma check_vote_spec cx set voters raw pk stake :
  check_vote cx set voters raw = Some (pk, stake) ->
  signed_vote cx set pk /\ stake_of (stakes set) pk = stake /\ pk ∉ voters.
Proof.
  unfold check_vote. destruct raw as [| | | | |v]; try done.
  destruct (negb (is_str _ _)); [done|]. destruct (negb (units_eqb _ _)); [done|].
  destruct (negb (units_eqb _ _)); [done|]. destruct (negb (isHash _) || _); [done|].
  cbv zeta. destruct (oget _ (stakes set)) as [z|] eqn:Eo; [|done].
  destruct (mlDsaVerify _ _ _) eqn:Em; cbn [negb]; [|done].
  destruct (existsb _ voters) eqn:Ee; [done|]. intros [= <- <-]. split; [split|split].
  - apply oget_elem_pair in Eo. by apply (list_elem_of_fmap_2 fst _ _) in Eo.
  - by eexists.
  - unfold stake_of. by rewrite Eo.
  - rewrite <- existsb_units. by rewrite Ee.
Qed.

(** What the loop over the votes keeps. *)
Lemma count_votes_spec cx set votes voters voting vs t cs :
  NoDup voters -> Forall (signed_vote cx set) voters -> voting = stake_sum (stakes set) voters ->
  count_votes cx set votes voters voting = (vs, t, cs) ->
  NoDup vs /\ Forall (signed_vote cx set) vs /\ t = stake_sum (stakes set) vs.
Proof.
  revert voters voting vs t cs. induction votes as [|v votes IH]; intros voters voting vs t cs Hn Hf Hs; simpl.
  { by intros [= <- <- <-]. }
  destruct (check_vote cx set voters v) as [[pk stake]|] eqn:Ev.
  - apply check_vote_spec in Ev as (Hv & Hst & Hni).
    destruct (count_votes cx set votes (voters ++ [pk]) (voting + stake)) as [[vs' t'] cs'] eqn:Ec.
    intros [= <- <- <-]. eapply IH; [| | |exact Ec].
    + apply NoDup_app. split; [done|]. split; [|apply NoDup_singleton].
      intros x Hx Hx'%list_elem_of_singleton. by subst.
    + apply Forall_app. split; [done|by apply Forall_singleton].
    + rewrite stake_sum_app. unfold stake_sum at 2. simpl. lia.
  - destruct (count_votes cx set votes voters voting) as [[vs' t'] cs'] eqn:Ec.
    intros [= <- <- <-]. by eapply IH.
Qed.

(** What a verified certificate establishes of its verified content [vc]. *)
Record certified (cert : LosslessJson) (cx : CertContext) (vc : VerifiedCertificate) : Prop := {
  cf_height : vc_height vc = cx_height cx;
  cf_block : vc_blockHash vc = cx_blockHash cx;
  cf_shape : exists o, cert = LObj o /\ is_ok (encodeFinalityProof cert) = true
    /\ num_raw (oget (u "height") o) = number_text (cx_height cx)
    /\ oget (u "block_hash") o = Some (LStr (cx_blockHash cx));
  cf_nodup : NoDup (vc_voters vc);
  cf_signed : Forall (signed_vote cx (toStakeSet (validators (cx_set cx)) (vs_height (cx_set cx)))) (vc_voters vc);
  cf_stake : vc_votingStake vc
    = stake_sum (stakes (toStakeSet (validators (cx_set cx)) (vs_height (cx_set cx)))) (vc_voters vc);
  cf_total : vc_totalStake vc = total (toStakeSet (validators (cx_set cx)) (vs_height (cx_set cx)));
  cf_quorum : vc_quorum vc = finalityQuorum (vc_totalStake vc) /\ vc_quorum vc <= vc_votingStake vc;
}.

Lemma certificate_inv cert cx :
  cr_ok (verifyFinalityCertificate cert cx) = true ->
  exists vc, cr_verified (verifyFinalityCertificate cert cx) = Some vc /\ certified cert cx vc.
Proof.
  unfold verifyFinalityCertificate. set (set := toStakeSet _ _).
  destruct (isObj (Some cert)) as [o|] eqn:Eo; [|done].
  assert (cert = LObj o) as -> by (destruct cert; simpl in Eo; by simplify_eq).
  destruct (encodeFinalityProof (LObj o)) as [t|] eqn:Ee; [|done]. cbv zeta. cbn [ck_ok ck].
  destruct (units_eqb (num_raw _) _) eqn:Eh; cbn [negb]; [|done].
  destruct (is_str _ _) eqn:Eb; cbn [negb]; [|done].
  destruct ((0 <? _) && _); cbn [negb]; [|done]. destruct ((_ <=? FINALITY_MAX_PROOF_VOTES) && _); cbn [negb]; [|done].
  destruct (count_votes cx set _ [] 0) as [[vs t'] cs] eqn:Ec.
  destruct (negb (forallb ck_ok cs)); [done|].
  destruct (quorum set <=? t') eqn:Eq; cbn [negb]; [|done]. cbn [cr_ok cr_verified].
  intros Hok. rewrite Hok. eexists. split; [done|].
  apply count_votes_spec in Ec as (Hn & Hf & ->); [|apply NoDup_nil_2|done|done].
  apply units_eqb_true in Eh. apply is_str_true in Eb.
  split; cbn; try done; [|by breflect]. exists o. by rewrite Ee.
Qed.

(** C30 A certificate that [verifyFinalityCertificate] accepts is what it claims: it is an
    encodable proof for the height and the block hash asked for, its counted voters are distinct
    members of the validator set given, each with an ML-DSA-65 signature that verifies over the
    vote message of this chain, height and block, and the stake they hold, recomputed from the
    set, reaches the quorum of more than two thirds of the set's total. *)
Theorem certificate_sound cert cx :
  cr_ok (verifyFinalityCertificate cert cx) = true ->
  exists vc, cr_verified (verifyFinalityCertificate cert cx) = Some vc /\ certified cert cx vc
    /\ 2 * vc_totalStake vc < 3 * vc_votingStake vc /\ vc_votingStake vc <= vc_totalStake vc.
Proof.
  intros (vc & Hv & Hc)%certificate_inv. exists vc. split; [done|]. split; [done|].
  pose proof (toStakeSet_wf (validators (cx_set cx)) (vs_height (cx_set cx))) as Hw.
  destruct (cf_quorum _ _ _ Hc) as [Hq Hle]. rewrite Hq in Hle. unfold finalityQuorum in Hle.
  pose proof (Z.div_mod (vc_totalStake vc * 2) 3 ltac:(lia)).
  pose proof (Z.mod_pos_bound (vc_totalStake vc * 2) 3 ltac:(lia)). split; [lia|].
  rewrite (cf_stake _ _ _ Hc), (cf_total _ _ _ Hc). apply stake_sum_le; [done|apply Hc|].
  intros k Hk. pose proof (cf_signed _ _ _ Hc) as Hs. rewrite Forall_elem in Hs. by apply Hs.
Qed.

(** C31 Accountable safety: two certificates accepted against the same validator set, whatever
    their chains, heights and blocks, have common voters that hold more than a third of the
    stake, and each of those voters signed the vote messages of both.  So two conflicting blocks
    can both be certified only if more than a third of the stake signed for both. *)
Theorem conflicting_certificates_share_signers cert cert' cx cx' :
  cx_set cx = cx_set cx' ->
  cr_ok (verifyFinalityCertificate cert cx) = true ->
  cr_ok (verifyFinalityCertificate cert' cx') = true ->
  exists both : list units,
    NoDup both
    /\ Forall (fun pk => exists sig sig', mlDsaVerify pk (vote_message cx) sig = true
                                        /\ mlDsaVerify pk (vote_message cx') sig' = true) both
    /\ total (toStakeSet (validators (cx_set cx)) (vs_height (cx_set cx)))
       < 3 * stake_sum (stakes (toStakeSet (validators (cx_set cx)) (vs_height (cx_set cx)))) both.
Proof.
  intros Hset (vc & _ & Hc)%certificate_inv (vc' & _ & Hc')%certificate_inv.
  pose proof (cf_signed _ _ _ Hc) as Hs. pose proof (cf_signed _ _ _ Hc') as Hs'.
  pose proof (cf_stake _ _ _ Hc) as Ht. pose proof (cf_stake _ _ _ Hc') as Ht'.
  pose proof (cf_total _ _ _ Hc) as Hto. pose proof (cf_total _ _ _ Hc') as Hto'.
  destruct (cf_quorum _ _ _ Hc) as [Hq Hle], (cf_quorum _ _ _ Hc') as [Hq' Hle'].
  rewrite <- Hset in *. set (set := toStakeSet _ _) in *. rewrite Forall_elem in Hs, Hs'.
  pose proof (toStakeSet_wf (validators (cx_set cx)) (vs_height (cx_set cx))) as Hw. fold set in Hw.
  exists (common (vc_voters vc) (vc_voters vc')). split; [|split].
  - apply nodup_filter, Hc.
  - apply Forall_elem. intros pk [H1 H2]%elem_common.
    destruct (Hs _ H1) as [_ [sig Hsig]], (Hs' _ H2) as [_ [sig' Hsig']].
    exists sig, sig'. split; [exact Hsig|exact Hsig'].
  - apply quorum_overlap; [done|apply Hc|apply Hc'| | |].
    + intros k [Hk|Hk]; [by apply Hs|by apply Hs'].
    + by rewrite (ws_quorum _ Hw), <- Hto, <- Hq, <- Ht.
    + by rewrite (ws_quorum _ Hw), <- Hto', <- Hq', <- Ht'.
Qed.
End Certificates.

(** ** Blocks *)

Section Blocks.
Context `{C : Crypto}.

(** The content of a block that passed every check: [blk] is recomputed from the served object. *)
Record block_checked (raw : LosslessJson) (chainId : units) (blk : VerifiedBlock) : Prop := {
  bk_shape : exists o ho txs sig headerBytes listHash,
    raw = LObj o /\ vb_raw blk = o
    /\ oget (u "header") o = Some (LObj ho) /\ oget (u "txs") o = Some (LArr txs)
    /\ oget (u "proposer_sig") o = Some (LStr sig)
    /\ oget (u "chain_id") ho = Some (LStr chainId)
    /\ encodeHeaderV1 (LObj ho) = Ok headerBytes
    /\ vb_height blk = Number_of_text (num_raw (oget (u "height") ho))
    /\ computeTxListHash txs = Ok listHash /\ oget (u "tx_hash") ho = Some (LStr listHash)
    /\ map_res computeSingleTxHash txs = Ok (vb_txHashes blk)
    /\ computeBlockHash (LObj ho) sig = Ok (vb_blockHash blk)
    /\ oget (u "hash") o = Some (LStr (vb_blockHash blk))
    /\ mlDsaVerify (vb_proposer blk) (utf8 headerBytes) sig = true;
  bk_chain : vb_chainId blk = chainId;
}.

Lemma block_inv raw chainId height :
  br_ok (verifyBlock raw chainId height) = true ->
  exists blk, br_block (verifyBlock raw chainId height) = Some blk /\ block_checked raw chainId blk
    /\ (forall want, height = Some want -> num_eqb (vb_height blk) want = true).
Proof.
  unfold verifyBlock. destruct raw as [| | | | |o]; try done. cbv zeta.
  destruct (oget (u "header") o) as [[| | | | |ho]|] eqn:Eh; try done.
  destruct (oget (u "txs") o) as [[| | | |txs|]|] eqn:Et; try done.
  destruct (oget (u "proposer_sig") o) as [[| |sg| | |]|] eqn:Es; try done.
  destruct (encodeHeaderV1 (LObj ho)) as [hb|] eqn:Ee; [|done].
  destruct (map_res computeSingleTxHash txs) as [ths|] eqn:Em; [|done].
  destruct (negb (forallb ck_ok _)) eqn:Ehc; [done|].
  destruct (computeTxListHash txs) as [lh|] eqn:El; [|done]. cbn [br_ok br_block].
  intros Hok. rewrite Hok. eexists. split; [done|].
  unfold all_passed in Hok. cbn [forallb] in Hok. rewrite forallb_app in Hok.
  apply andb_true_iff in Hok as [_ [_ Hok]%andb_true_iff].
  cbn [forallb ck ck_ok ck_critical negb] in Hok. rewrite !orb_false_r, andb_true_r in Hok.
  apply andb_true_iff in Hok as [H1 Hok]. apply andb_true_iff in Hok as [H2 Hok]. apply andb_true_iff in Hok as [H3 H4].
  apply is_str_true in H1, H2, H3. split; [split; [|done]|].
  - exists o, ho, txs, sg, hb, lh. repeat split; try assumption; try reflexivity.
    unfold computeBlockHash. by rewrite Ee.
  - intros want ->. simpl in Ehc. by destruct (num_eqb _ want).
Qed.

End Blocks.
