(* ===== verification/FinalityRun.v ===== *)
(** * Claims on [verifyTxFinalized]

    What the answer [finalized] rests on, as evidence found in the fetched answers; the text a
    vote signs; and a run of the verifier against one concrete node. *)
From S2P Require Import Prelude JsText JsNum JsUtf16 JsFloat Interact LosslessJson Finality FinalityClaims.
Local Open Scope Z_scope.

(** ** Evidence in the history of fetches *)

(** What [getJson] makes of an answer. *)
Definition decode (a : res (bool * Z * units)) : res LosslessJson :=
  match a with
  | Err m => Err m
  | Ok (ok, status, text) => if negb ok then Err ("HTTP " +:+ dec status) else parseJsonLossless text
  end.

(** The fetch of [url] was answered, and decoded to [r]. *)
Definition got (h : history FinI) (url : units) (r : res LosslessJson) : Prop :=
  exists a, Ev (Fetch url : cmd FinI) a ∈ h /\ r = decode a.

(** Later histories keep the evidence. *)
Definition ext (h h' : history FinI) : Prop := forall e, e ∈ h -> e ∈ h'.
#[export] Instance ext_preorder : PreOrder ext.
Proof. split; [by intros h e|intros h1 h2 h3 H1 H2 e He; auto]. Qed.

Lemma got_ext h h' url r : got h url r -> ext h h' -> got h' url r.
Proof. intros (a & Ha & ->) He. exists a. auto. Qed.

Definition top : history FinI -> cmd FinI -> Prop := fun _ _ => True.
Notation fwp := (wp top anything).

Lemma getJson_spec url s h :
  fwp (getJson url) s h (fun o s' h' => exists r, o = Ok r /\ ext h h' /\ got h' url r).
Proof.
  unfold getJson. apply wp_bind, wp_attempt, wp_call; [done|]. intros a _. apply wp_ret.
  eexists. split; [done|]. split; [intros e He; by right|]. exists a. split; [left|].
  by destruct a as [[[b t] x]|].
Qed.

Section Run.
Context `{C : Crypto}.

Definition blocks_url (node : units) (height : number) (limit : string) : units :=
  node ++ u "/blocks?from_height=" ++ number_text height ++ u "&limit=" ++ u limit.

(** [node] served, for [height], a block that verifies as [blk]. *)
Definition block_from (h : history FinI) (chainId node : units) (height : number) (blk : VerifiedBlock) : Prop :=
  exists r first more,
    got h (blocks_url (apiBase node) height "2") r /\ body_list r "blocks" = Some (first :: more)
    /\ block_checked first chainId blk /\ num_eqb (vb_height blk) height = true.

(** What [node] said of the block at [height]: the recomputed hash, or nothing usable. *)
Definition says (h : history FinI) (node : units) (height : number) (x : option (res units)) : Prop :=
  exists r, got h (blocks_url node height "1") r /\ served_hash height r = x.

Lemma fetchAndVerifyBlock_spec height node chainId s h :
  fwp (fetchAndVerifyBlock height node chainId) s h (fun o s' h' => ext h h' /\
    forall r, o = Ok r -> fb_ok r = true ->
      exists blk, fb_block r = Some blk /\ block_from h' chainId node height blk).
Proof.
  unfold fetchAndVerifyBlock. cbv zeta. apply wp_bind. wp_apply getJson_spec.
  intros o s' h' (r & -> & He & Hg). cbn beta iota.
  destruct (default [] (body_list r "blocks")) as [|first more] eqn:Eb; [by split; [|intros ? [= <-]]|].
  destruct (negb _); [by split; [|intros ? [= <-]]|]. apply wp_ret. split; [done|].
  intros x [= <-]. cbn [fb_ok fb_block]. intros (blk & Hb & Hc & Hh)%block_inv. exists blk. split; [done|].
  exists r, first, more. split; [exact Hg|]. split; [|by auto].
  destruct (body_list r "blocks"); simpl in Eb; [by subst|done].
Qed.

Lemma lookup_hint_spec txHash nodes s h :
  fwp (lookup_hint txHash nodes) s h (fun o s' h' => ext h h' /\
    forall x, o = Ok (Some x) -> snd (fst x) ∈ nodes).
Proof.
  revert s h. induction nodes as [|n nodes IH]; intros s h; cbn [lookup_hint].
  { apply wp_ret. by split; [|intros x [= ]]. }
  apply wp_bind. wp_apply getJson_spec. intros o s' h' (r & -> & He & Hg).
  assert (fwp (lookup_hint txHash nodes) s' h' (fun o s'' h'' => ext h h'' /\
    forall x, o = Ok (Some x) -> snd (fst x) ∈ n :: nodes)) as Hrest.
  { wp_apply IH. intros o2 s2 h2 [He2 Hx]. split; [by etrans|]. intros x Ho. right. by apply Hx. }
  destruct (body_field r "success") as [[|[]| | | |]|]; try exact Hrest.
  destruct (body_field r "blockHeight") as [[]|]; try exact Hrest.
  apply wp_ret. split; [done|]. intros x [= <-]. left.
Qed.

Lemma fetch_block_spec height chainId nodes checks s h :
  fwp (fetch_block height chainId nodes checks) s h (fun o s' h' => ext h h' /\
    forall r node cs, o = Ok (Some (r, node), cs) -> node ∈ nodes /\
      (fb_ok r = true -> exists blk, fb_block r = Some blk /\ block_from h' chainId node height blk)).
Proof.
  revert checks s h. induction nodes as [|n nodes IH]; intros checks s h; cbn [fetch_block].
  { apply wp_ret. split; [done|]. by intros ? ? ? [= ]. }
  apply wp_bind. wp_apply fetchAndVerifyBlock_spec. intros [r|e] s' h' [He Hr]; [|by split].
  cbv zeta. destruct (existsb _ (fb_checks r)).
  - apply wp_ret. split; [done|]. intros r0 node cs [= <- <- <-]. split; [left|]. by apply Hr.
  - wp_apply IH. intros o s2 h2 [He2 H2]. split; [by etrans|]. intros r0 node cs Ho.
    destruct (H2 _ _ _ Ho) as [? ?]. split; [by right|done].
Qed.

Lemma obtain_set_spec trusted primary s h :
  fwp (obtain_set trusted primary) s h (fun o s' h' => ext h h' /\
    forall v w, o = Ok (Some v) -> trusted = Some w -> v = w).
Proof.
  unfold obtain_set. destruct trusted as [w|].
  { apply wp_ret. split; [done|]. intros v x [= ->] [= ->]. done. }
  apply wp_bind. wp_apply getJson_spec. intros o s' h' (r & -> & He & Hg).
  destruct (body_list r "validators"); [apply wp_bind, wp_of_res; destruct (node_validators _)|];
    by split.
Qed.

Lemma certificate_api_spec height nodes s h :
  fwp (certificate_api height nodes) s h (fun o s' h' => ext h h').
Proof.
  revert s h. induction nodes as [|n nodes IH]; intros s h; cbn [certificate_api]; [apply wp_ret; reflexivity|].
  apply wp_bind. wp_apply getJson_spec. intros o s' h' (r & -> & He & Hg).
  assert (fwp (certificate_api height nodes) s' h' (fun o s'' h'' => ext h h'')) as Hrest.
  { wp_apply IH. intros o2 s2 h2 He2. by etrans. }
  destruct (body_field r "success") as [[|[]| | | |]|]; try exact Hrest.
  destruct (body_field r "proof") as [[]|]; try exact Hrest. done.
Qed.

(** After the cross-check without a conflict: every node asked said the same block or nothing
    usable, and the agreeing nodes are the ones that said the block. *)
Lemma cross_check_spec height hash nodes agreeing conflict checks s h :
  fwp (cross_check height hash nodes agreeing conflict checks) s h (fun o s' h' => ext h h' /\
    forall ag cs, o = Ok (ag, false, cs) -> conflict = false /\
      exists more, ag = agreeing ++ more /\ more `sublist_of` nodes
        /\ Forall (fun n => says h' n height (Some (Ok hash))) more
        /\ Forall (fun n => n ∈ more \/ says h' n height None) nodes).
Proof.
  revert agreeing conflict checks s h.
  induction nodes as [|n nodes IH]; intros agreeing conflict checks s h; cbn [cross_check].
  { apply wp_ret. split; [done|]. intros ag cs [= <- -> <-]. split; [done|]. exists []. by rewrite app_nil_r. }
  apply wp_bind. wp_apply getJson_spec. intros o s' h' (r & -> & He & Hg).
  assert (says h' n height (served_hash height r)) as Hs by (exists r; by split).
  assert (forall h2 x, says h' n height x -> ext h' h2 -> says h2 n height x) as Hmono.
  { intros h2 x (r2 & Hg2 & Hx) He2. exists r2. split; [by eapply got_ext|done]. }
  destruct (served_hash height r) as [[x|m]|].
  - destruct (units_eqb x hash) eqn:Ex.
    + apply units_eqb_true in Ex as ->. wp_apply IH. intros o s2 h2 [He2 H2]. split; [by etrans|].
      intros ag cs Ho. destruct (H2 _ _ Ho) as (Hc & more & -> & Hsub & Hall & Hrest). split; [done|].
      exists (n :: more). rewrite <- app_assoc. split; [done|]. split; [by constructor|].
      split; [constructor; [by eapply Hmono|done]|]. constructor; [left; left|].
      eapply Forall_impl; [exact Hrest|]. intros k [?|?]; [left; by right|by right].
    + wp_apply IH. intros o s2 h2 [He2 H2]. split; [by etrans|]. intros ag cs Ho. by destruct (H2 _ _ Ho).
  - wp_apply IH. intros o s2 h2 [He2 H2]. split; [by etrans|]. intros ag cs Ho. by destruct (H2 _ _ Ho).
  - wp_apply IH. intros o s2 h2 [He2 H2]. split; [by etrans|].
    intros ag cs Ho. destruct (H2 _ _ Ho) as (Hc & more & -> & Hsub & Hall & Hrest). split; [done|].
    exists more. split; [done|]. split; [by constructor|]. split; [done|]. constructor; [|done].
    right. by eapply Hmono.
Qed.

(** ** What [finalized] means *)

Definition nodes_of (opt : FinalityOptions) : list units := dedup [] (map apiBase (o_nodes opt)).

Definition cert_context (opt : FinalityOptions) (blk : VerifiedBlock) (v : TrustedValidatorSet) : CertContext :=
  {| cx_chainId := o_chainId opt; cx_height := vb_height blk; cx_blockHash := vb_blockHash blk; cx_set := v |}.

(** The number of confirmations in the answer of [/stats]. *)
Definition confirmations (r : res LosslessJson) (height : number) : number :=
  match body_field r "network_height" with
  | Some (LNum raw) => num_add (num_sub (Number_of_text raw) height) (num_of_Z 1)
  | _ => num_of_Z 0
  end.

(** The evidence behind the answer [finalized]. *)
Record evidence (opt : FinalityOptions) (r : FinalityResult) (h : history FinI)
    (primary : units) (blk : VerifiedBlock) (v : TrustedValidatorSet) : Prop := {
  ev_primary : primary ∈ nodes_of opt;
  ev_block : exists height, block_from h (o_chainId opt) primary height blk;
  ev_result : f_height r = Some (vb_height blk) /\ f_blockHash r = Some (vb_blockHash blk);
  ev_tx : exists i, f_txIndex r = Some i /\ vb_txHashes blk !! i = Some (map lower_unit (o_txHash opt));
  ev_set : forall w, o_trusted opt = Some w -> v = w /\ f_trust r = PinnedSet;
  ev_cert : exists cert vc, f_certificate r = Some vc /\ certified cert (cert_context opt blk v) vc;
  ev_agree : exists more, f_agreeing r = primary :: more /\ NoDup (f_agreeing r)
    /\ (forall n, n ∈ f_agreeing r -> n ∈ nodes_of opt)
    /\ Forall (fun n => says h n (vb_height blk) (Some (Ok (vb_blockHash blk)))) more
    /\ (forall n, n ∈ nodes_of opt -> n ∈ f_agreeing r \/ says h n (vb_height blk) None);
  ev_majority : Z.of_nat (length (nodes_of opt)) < 2 * Z.of_nat (length (f_agreeing r));
  ev_confirmed : num_ltb (num_of_Z 1) (o_minConfirmations opt) = true ->
    exists a, got h (primary ++ u "/stats") a
      /\ num_leb (o_minConfirmations opt) (confirmations a (vb_height blk)) = true;
}.

Lemma dedup_spec seen l : NoDup (dedup seen l) /\ (forall x, x ∈ dedup seen l -> x ∉ seen).
Proof.
  revert seen. induction l as [|x l IH]; intros seen; simpl; [split; [apply NoDup_nil_2|intros x []%not_elem_of_nil]|].
  destruct (existsb (units_eqb x) seen) eqn:E; [apply IH|]. destruct (IH (seen ++ [x])) as [Hn Hs].
  split.
  - apply NoDup_cons. split; [|done]. intros Hx. apply (Hs x Hx), elem_of_app. right. by apply list_elem_of_singleton.
  - intros y [->|Hy]%elem_of_cons; [rewrite <- existsb_units; by rewrite E|].
    intros Hin. apply (Hs y Hy), elem_of_app. by left.
Qed.

Lemma nodes_nodup opt : NoDup (nodes_of opt).
Proof. apply dedup_spec. Qed.

Lemma elem_others x n l : x ∈ others n l <-> x ∈ l /\ x <> n.
Proof.
  unfold others. rewrite list_elem_of_In, List.filter_In, <- list_elem_of_In, negb_true_iff.
  split; intros [H1 H2]; (split; [done|]).
  - intros ->. assert (units_eqb n n = true) by by apply units_eqb_true. congruence.
  - destruct (units_eqb x n) eqn:E; [|done]. by apply units_eqb_true in E.
Qed.

(** The agreeing nodes: the primary and the others that said the block. *)
Lemma agreeing_nodes opt primary more h height x :
  primary ∈ nodes_of opt -> more `sublist_of` others primary (nodes_of opt) ->
  Forall (fun n => n ∈ more \/ says h n height x) (others primary (nodes_of opt)) ->
  NoDup (primary :: more) /\ (forall n, n ∈ primary :: more -> n ∈ nodes_of opt)
  /\ (forall n, n ∈ nodes_of opt -> n ∈ primary :: more \/ says h n height x).
Proof.
  intros Hp Hsub Hall. assert (forall n, n ∈ more -> n ∈ others primary (nodes_of opt)) as Hin.
  { intros n Hn. by eapply elem_of_submseteq, sublist_submseteq. }
  rewrite Forall_elem in Hall. split; [|split].
  - apply NoDup_cons. split; [by intros [_ []]%Hin%elem_others|].
    eapply sublist_NoDup; [|exact Hsub]. apply nodup_filter, nodes_nodup.
  - intros n [->|Hn%Hin%elem_others]%elem_of_cons; naive_solver.
  - intros n Hn. destruct (decide (n = primary)) as [->|Hne]; [left; left|].
    destruct (Hall n) as [?|?]; [by apply elem_others|left; by right|by right].
Qed.

Lemma block_from_ext h h' chainId node height blk :
  block_from h chainId node height blk -> ext h h' -> block_from h' chainId node height blk.
Proof. intros (r & f & m & Hg & ?) He. exists r, f, m. split; [by eapply got_ext|done]. Qed.

Lemma says_ext h h' n height x : says h n height x -> ext h h' -> says h' n height x.
Proof. intros (r & Hg & ?) He. exists r. split; [by eapply got_ext|done]. Qed.

Lemma majority_lt (n k : Z) : n / 2 + 1 <= k -> n < 2 * k.
Proof. intros H. pose proof (Z.div_mod n 2 ltac:(lia)). pose proof (Z.mod_pos_bound n 2 ltac:(lia)). lia. Qed.

(** The evidence, assembled at the end of the run and kept by what is fetched after it. *)
Lemma evidence_intro opt h primary height blk idx v p vc src outcome more :
  primary ∈ nodes_of opt -> block_from h (o_chainId opt) primary height blk ->
  vb_txHashes blk !! idx = Some (map lower_unit (o_txHash opt)) ->
  (forall w, o_trusted opt = Some w -> v = w) ->
  cr_verified (verifyFinalityCertificate p (cert_context opt blk v)) = Some vc ->
  certified p (cert_context opt blk v) vc ->
  more `sublist_of` others primary (nodes_of opt) ->
  Forall (fun n => says h n (vb_height blk) (Some (Ok (vb_blockHash blk)))) more ->
  Forall (fun n => n ∈ more \/ says h n (vb_height blk) None) (others primary (nodes_of opt)) ->
  Z.of_nat (length (nodes_of opt)) < 2 * Z.of_nat (length (primary :: more)) ->
  forall h' cs, ext h h' ->
    (num_ltb (num_of_Z 1) (o_minConfirmations opt) = true ->
      exists a, got h' (primary ++ u "/stats") a
        /\ num_leb (o_minConfirmations opt) (confirmations a (vb_height blk)) = true) ->
    evidence opt {| f_status := Finalized; f_height := Some (vb_height blk);
      f_blockHash := Some (vb_blockHash blk); f_txIndex := Some idx;
      f_trust := match o_trusted opt with Some _ => PinnedSet | None => NodeReportedSet end;
      f_certSource := src; f_certificate := cr_verified (verifyFinalityCertificate p (cert_context opt blk v));
      f_agreeing := [primary] ++ more; f_outcome := outcome; f_checks := cs |} h' primary blk v.
Proof.
  intros Hp Hfrom Hidx Hset Hvc Hcert Hsub Hsays Hall Hm h' cs He' Hconf.
  destruct (agreeing_nodes _ _ _ _ _ _ Hp Hsub Hall) as (Hnd & Hin & Hany). split; cbn; try done.
  - exists height. exact (block_from_ext _ _ _ _ _ _ Hfrom He').
  - by exists idx.
  - intros w Hw. rewrite Hw. split; [by apply Hset|done].
  - exists p, vc. by split.
  - exists more. split; [done|]. split; [done|]. split; [done|]. split.
    + eapply Forall_impl; [exact Hsays|]. intros n Hn. exact (says_ext _ _ _ _ _ Hn He').
    + intros n Hn. destruct (Hany n Hn) as [?|Hs]; [by left|right]. exact (says_ext _ _ _ _ _ Hs He').
Qed.

(** The postcondition of the whole function. *)
Definition explained (opt : FinalityOptions) (o : res FinalityResult) (h : history FinI) : Prop :=
  forall r, o = Ok r -> f_status r = Finalized -> exists primary blk v, evidence opt r h primary blk v.

Ltac not_final := apply wp_ret; intros ? [= <-]; intros [= ].

Lemma verifyTxFinalized_wp opt s h :
  fwp (verifyTxFinalized opt) s h (fun o _ h' => explained opt o h').
Proof.
  unfold verifyTxFinalized. cbv zeta. destruct (negb (ck_ok _)); [not_final|].
  apply wp_bind. wp_apply lookup_hint_spec. intros [[[[height hint] outcome]|]|e] s1 h1 [_ Hhint];
    [|not_final|done]. specialize (Hhint _ eq_refl). cbn [fst snd] in Hhint.
  apply wp_bind. wp_apply fetch_block_spec. intros [[fb cs]|e] s2 h2 [_ Hfb]; [|done].
  destruct fb as [[r primary]|]; [|not_final]. destruct (Hfb _ _ _ eq_refl) as [Hprim Hblk].
  destruct (fb_block r) as [block|]; [|not_final]. destruct (fb_ok r); cbn [negb]; [|not_final].
  destruct (Hblk eq_refl) as (blk & [= <-] & Hfrom). clear Hblk Hfb.
  assert (primary ∈ nodes_of opt) as Hp by
    (apply elem_of_cons in Hprim as [->|?%elem_others]; [done|naive_solver]).
  destruct (list_find _ (vb_txHashes block)) as [[idx x]|] eqn:Ef; cbn [fmap option_fmap option_map fst];
    [|not_final]. apply list_find_Some in Ef as (Hidx & -> & _).
  apply wp_bind. wp_apply obtain_set_spec. intros [vset|e] s3 h3 [He3 Hset]; [|done].
  apply wp_bind. eapply wp_mono with (Q := fun _ _ h' => ext h3 h').
  2:{ destruct (parent_commit (fb_next r)); [apply wp_ret; reflexivity|]. apply wp_bind.
      wp_apply certificate_api_spec. by intros [a|e] ? ?. }
  intros [[[p|] src]|e] s4 h4 He4; [|not_final|done]. destruct vset as [v|]; [|not_final].
  destruct (cr_ok (verifyFinalityCertificate _ _)) eqn:Ec; cbn [negb]; [|not_final].
  apply certificate_inv in Ec as (vc & Hvc & Hcert).
  apply wp_bind. wp_apply cross_check_spec. intros [[[ag conflict] cs']|e] s5 h5 [He5 Hx]; [|done].
  destruct conflict; [not_final|]. destruct (Hx _ _ eq_refl) as (_ & more & -> & Hsub & Hsays & Hall).
  cbn [ck_ok ck]. destruct (_ <=? _) eqn:Em; cbn [negb]; [|not_final]. apply Z.leb_le, majority_lt in Em.
  pose proof (evidence_intro opt h5 primary height block idx v p vc src outcome more Hp
    (block_from_ext _ _ _ _ _ _ Hfrom ltac:(by etrans; [exact He3|etrans; [exact He4|]])) Hidx
    (fun w Hw => Hset v w eq_refl Hw) Hvc Hcert Hsub Hsays Hall Em) as Hev.
  destruct (num_ltb _ _) eqn:Ecf.
  - apply wp_bind. wp_apply getJson_spec. intros o s6 h6 (sr & -> & He6 & Hg6). cbv zeta.
    destruct (num_leb _ _) eqn:El; cbn [negb]; [|not_final].
    apply wp_ret. intros res [= <-] _. exists primary, block, v. apply Hev; [done|].
    intros _. by exists sr.
  - apply wp_ret. intros res [= <-] _. exists primary, block, v. by apply Hev.
Qed.

(** C33 The answer [finalized] is backed by evidence in what the nodes served, whatever they
    answer: one of the given nodes served a block that passes every check of [verifyBlock] for
    this chain and holds the transaction at the reported index; a certificate for exactly that
    height and recomputed block hash was verified against the validator set, the pinned one
    when the caller gave one; more than half of the given (distinct) nodes agree, each other
    node having served a header whose recomputed hash is the same, and no node served a
    different block at that height; and the requested confirmations were reported. *)
Theorem verifyTxFinalized_sound (e : env FinI) opt s r :
  outcome e (verifyTxFinalized opt) s = Ok r -> f_status r = Finalized ->
  exists primary blk v, evidence opt r (trace e (verifyTxFinalized opt) s) primary blk v.
Proof.
  intros Ho Hs. pose proof (wp_post top e _ s _ (verifyTxFinalized_wp opt s [])) as H.
  exact (H r Ho Hs).
Qed.
End Run.

(** ** The text of a vote *)

(** The text a validator signs determines the vote: for fields without a bar (chain names,
    vote types, decimal heights and rounds have none) two equal vote messages are votes for the
    same chain, type, height, round and block, so a signature cannot be replayed for another. *)
Theorem voteSigningMessage_injective chainId voteType height round block chainId' voteType' height' round' block' :
  Forall (fun t => 124 ∉ t) [chainId; voteType; height; round; chainId'; voteType'; height'; round'] ->
  voteSigningMessage chainId voteType height round block
  = voteSigningMessage chainId' voteType' height' round' block' ->
  chainId = chainId' /\ voteType = voteType' /\ height = height' /\ round = round' /\ block = block'.
Proof.
  intros H. rewrite !Forall_cons in H. destruct H as (H1 & H2 & H3 & H4 & H5 & H6 & H7 & H8 & _).
  unfold voteSigningMessage. intros E. apply app_inv_head in E.
  assert (forall (k : string) a b x y, 124 ∉ a -> 124 ∉ b -> u k ++ a ++ 124 :: x = u k ++ b ++ 124 :: y -> a = b /\ x = y)
    as Hs by (intros k a b x y Ha Hb Hk%app_inv_head; by apply (split_sep 124)).
  apply Hs in E as [-> E]; [|done|done]. apply (Hs "type=") in E as [-> E]; [|done|done].
  apply (Hs "height=") in E as [-> E]; [|done|done]. apply (Hs "round=") in E as [-> E]; [|done|done].
  apply (app_inv_head (u "block=")) in E. done.
Qed.
