(* ===== verification/FinalityDemo.v ===== *)
(** * The finality verifier on concrete data

    A toy hash and signature scheme, one signed block with a certificate of two voters, and two
    nodes that serve it: the theorems on finality at inputs where their hypotheses hold. *)
From S2P Require Import Prelude JsText JsNum JsUtf16 JsFloat Interact LosslessJson Finality FinalityClaims FinalityRun.
Local Open Scope Z_scope.

Module FinDemo.

Definition digest (l : list Z) : Z := foldl (fun a b => (31 * a + b) mod 251) 7 l.
Definition tag (pk msg : list Z) : Z := (digest msg + digest pk) mod 251.

#[export] Instance ToyCrypto : Crypto := {|
  sha256 := fun l => repeat (digest l) 32;
  ml_dsa65_verify := fun sg msg pk => Ok (bool_decide (head sg = Some (tag pk msg)));
|}.

Definition key (n : Z) : list Z := repeat n 1952.
Definition sign (n : Z) (msg : list Z) : units := toHex (tag (key n) msg :: repeat 0 3308).
Definition hexkey (n : Z) : units := toHex (key n).

Definition num (s : string) : LosslessJson := LNum (u s).
Definition txt (s : string) : LosslessJson := LStr (u s).
Definition unwrap (r : res units) : units := match r with Ok t => t | Err _ => [] end.

Definition tx : LosslessJson :=
  LObj [(u "version", num "1"); (u "tx_type", txt "transfer"); (u "from_pub_key", txt "ab");
        (u "nonce", num "4"); (u "payload", LObj [(u "amount", num "250")]); (u "fee", num "0.1");
        (u "sig", txt "cd")].

Definition header : LosslessJson :=
  LObj [(u "version", num "1"); (u "chain_id", txt "rouge"); (u "height", num "7"); (u "time", num "1700000000");
        (u "prev_hash", txt "00"); (u "tx_hash", LStr (unwrap (computeTxListHash [tx])));
        (u "proposer_pub_key", LStr (hexkey 1))].

Definition proposer_sig : units := sign 1 (utf8 (unwrap (encodeHeaderV1 header))).
Definition block_hash : units := unwrap (computeBlockHash header proposer_sig).
Definition block : LosslessJson :=
  LObj [(u "version", num "1"); (u "header", header); (u "txs", LArr [tx]);
        (u "proposer_sig", LStr proposer_sig); (u "hash", LStr block_hash)].

Definition set : TrustedValidatorSet :=
  {| validators := [(hexkey 1, 40); (hexkey 2, 60); (hexkey 3, 10)]; vs_height := Some (num_of_Z 7) |}.
Definition cx : CertContext :=
  {| cx_chainId := u "rouge"; cx_height := num_of_Z 7; cx_blockHash := block_hash; cx_set := set |}.

Definition vote (n : Z) : LosslessJson :=
  LObj [(u "vote_type", txt "precommit"); (u "height", num "7"); (u "round", num "0");
        (u "block_hash", LStr block_hash); (u "voter_pub_key", LStr (hexkey n));
        (u "signature", LStr (sign n (vote_message cx)))].
Definition cert : LosslessJson :=
  LObj [(u "height", num "7"); (u "block_hash", LStr block_hash); (u "total_stake", num "110");
        (u "voting_stake", num "100"); (u "quorum_threshold", num "74");
        (u "precommit_votes", LArr [vote 1; vote 2]); (u "created_at", num "1")].

Definition tx_hash : units := unwrap (computeSingleTxHash tx).

(** Two nodes; the second knows only the block. *)
Definition answers : list (units * LosslessJson) :=
  [(u "http://a/api/tx/" ++ tx_hash, LObj [(u "success", LBool true); (u "blockHeight", num "7")]);
   (u "http://a/api/blocks?from_height=7&limit=2", LObj [(u "blocks", LArr [block])]);
   (u "http://a/api/finality/7", LObj [(u "success", LBool true); (u "proof", cert)]);
   (u "http://b/api/blocks?from_height=7&limit=1", LObj [(u "blocks", LArr [block])])].

Definition network : env FinI := fun _ c =>
  match c with
  | Fetch url => match oget url answers with
                 | Some v => Ok (true, 200, stringifyLossless v)
                 | None => Ok (false, 404, [])
                 end
  end.

Definition opt : FinalityOptions :=
  {| o_txHash := tx_hash; o_nodes := [u "http://a/"; u "http://b/api"]; o_chainId := u "rouge";
     o_trusted := Some set; o_minConfirmations := num_of_Z 1 |}.

Lemma cert_ok : cr_ok (verifyFinalityCertificate cert cx) = true.
Proof. vm_compute. reflexivity. Qed.

Lemma certificate_sound_witness :
  exists vc, cr_verified (verifyFinalityCertificate cert cx) = Some vc /\ certified cert cx vc
    /\ 2 * vc_totalStake vc < 3 * vc_votingStake vc /\ vc_votingStake vc <= vc_totalStake vc.
Proof. apply certificate_sound. exact cert_ok. Defined.

Lemma conflicting_certificates_witness :
  exists both, NoDup both
    /\ Forall (fun pk => exists sig sig', mlDsaVerify pk (vote_message cx) sig = true
                                        /\ mlDsaVerify pk (vote_message cx) sig' = true) both
    /\ total (toStakeSet (validators set) (vs_height set))
       < 3 * stake_sum (stakes (toStakeSet (validators set) (vs_height set))) both.
Proof. apply (conflicting_certificates_share_signers cert cert cx cx); [reflexivity|exact cert_ok|exact cert_ok]. Defined.

Lemma block_ok : br_ok (verifyBlock block (u "rouge") (Some (num_of_Z 7))) = true.
Proof. vm_compute. reflexivity. Qed.


Definition status_of (o : res FinalityResult) : option FinalityStatus :=
  match o with Ok r => Some (f_status r) | Err _ => None end.

Lemma tx_finalized : status_of (outcome network (verifyTxFinalized opt) tt) = Some Finalized.
Proof. vm_compute. reflexivity. Qed.

Lemma verifyTxFinalized_sound_witness :
  match outcome network (verifyTxFinalized opt) tt with
  | Ok r => exists primary blk v, evidence opt r (trace network (verifyTxFinalized opt) tt) primary blk v
  | Err _ => False
  end.
Proof.
  pose proof (verifyTxFinalized_sound network opt tt) as H. pose proof tx_finalized as Hs. revert H Hs.
  destruct (outcome network (verifyTxFinalized opt) tt) as [r|m]; intros H Hs; [|discriminate Hs].
  apply (H r); [reflexivity|]. by injection Hs.
Defined.

Lemma voteSigningMessage_witness :
  u "rouge" = u "rouge" /\ u "precommit" = u "precommit" /\ u "7" = u "7" /\ u "0" = u "0" /\ block_hash = block_hash.
Proof.
  apply voteSigningMessage_injective; [|reflexivity].
  apply (bool_decide_unpack _). vm_compute. exact Logic.I.
Defined.
End FinDemo.
