(* ===== verification/Address.v ===== *)
(** * Bech32m addresses ([src/packages/core/src/address.ts])

    Bit operations of JavaScript work on 32-bit signed integers: a left shift wraps.  The
    accumulator of [convertBits] does wrap on the 32-byte hashes it is used for; the theorems
    show that the round trip holds all the same, and what the checksum detects. *)
From S2P Require Import Prelude JsText JsUtf16.
Local Open Scope Z_scope.

(** ** 32-bit integers *)

(** ToInt32. *)
Definition int32 (z : Z) : Z := (z + 2 ^ 31) mod 2 ^ 32 - 2 ^ 31.
(** [a << n] for 0 <= n < 32; [>>], [&], [|] and [^] of 32-bit integers are those of [Z]. *)
Definition shl (a n : Z) : Z := int32 (Z.shiftl a n).

(** ** Checksum *)

Definition CHARSET : units := u "qpzry9x8gf2tvdw0s3jn54khce6mua7l".
Definition BECH32M_CONST : Z := 0x2bc830a3.
Definition HRP : units := u "rouge".

Definition hrpExpand (hrp : units) : list Z :=
  map (fun c => Z.shiftr c 5) hrp ++ 0 :: map (fun c => Z.land c 31) hrp.

Definition GEN : list Z := [0x3b6a57b2; 0x26508e6d; 0x1ea119fa; 0x3d4233dd; 0x2a1462b3].

(** The inner loop over [i]: [if ((b >> i) & 1) chk ^= GEN[i]]. *)
Fixpoint mix (b chk i : Z) (gens : list Z) : Z :=
  match gens with
  | [] => chk
  | g :: r => mix b (if Z.land (Z.shiftr b i) 1 =? 0 then chk else Z.lxor chk g) (i + 1) r
  end.

Definition polymod_step (chk v : Z) : Z :=
  mix (Z.shiftr chk 25) (Z.lxor (shl (Z.land chk 0x1ffffff) 5) v) 0 GEN.

Definition polymod (values : list Z) : Z := foldl polymod_step 1 values.

Definition createChecksum (hrp : units) (data : list Z) : list Z :=
  let pm := Z.lxor (polymod (hrpExpand hrp ++ data ++ [0; 0; 0; 0; 0; 0])) BECH32M_CONST in
  map (fun i => Z.land (Z.shiftr pm (5 * (5 - i))) 31) [0; 1; 2; 3; 4; 5].

Definition verifyChecksum (hrp : units) (data : list Z) : bool :=
  polymod (hrpExpand hrp ++ data) =? BECH32M_CONST.

(** ** Regrouping of bits *)

(** [while (bits >= toBits) { bits -= toBits; ret.push((acc >> bits) & maxv) }]; one unit of fuel
    per iteration. *)
Fixpoint drain (fuel : nat) (acc bits toBits : Z) : list Z * Z :=
  match fuel with
  | O => ([], bits)
  | S f =>
      if toBits <=? bits then
        let '(r, b) := drain f acc (bits - toBits) toBits in
        (Z.land (Z.shiftr acc (bits - toBits)) (shl 1 toBits - 1) :: r, b)
      else ([], bits)
  end.

(** The loop over the values, common to both conversions: output, accumulator, pending bits. *)
Fixpoint regroup (data : list Z) (fromBits toBits acc bits : Z) : list Z * Z * Z :=
  match data with
  | [] => ([], acc, bits)
  | value :: rest =>
      let acc' := Z.lor (shl acc fromBits) value in
      let '(out, bits') := drain (Z.to_nat (bits + fromBits)) acc' (bits + fromBits) toBits in
      let '(more, a, b) := regroup rest fromBits toBits acc' bits' in
      (out ++ more, a, b)
  end.

Definition convertBits (data : list Z) (fromBits toBits : Z) (pad : bool) : res (list Z) :=
  let '(ret, acc, bits) := regroup data fromBits toBits 0 0 in
  let last := Z.land (shl acc (toBits - bits)) (shl 1 toBits - 1) in
  if pad then Ok (if 0 <? bits then ret ++ [last] else ret)
  else if (fromBits <=? bits) || negb (last =? 0) then Err "Invalid bit conversion"
  else Ok ret.

(** The bytes of [new Uint8Array(ret)]. *)
Definition convertBitsBack (data : list Z) (fromBits toBits : Z) : list Z :=
  map (fun z => z mod 256) (regroup data fromBits toBits 0 0).1.1.

(** ** Encoding and decoding *)

(** [CHARSET.indexOf(c)]. *)
Fixpoint index_of (c : Z) (l : units) (i : Z) : option Z :=
  match l with [] => None | x :: r => if x =? c then Some i else index_of c r (i + 1) end.

(** [CHARSET[d]]; an index outside the table concatenates [undefined]. *)
Definition charset_at (d : Z) : units :=
  match CHARSET !! Z.to_nat d with
  | Some c => if 0 <=? d then [c] else u "undefined"
  | None => u "undefined"
  end.

Definition bech32mEncode (hrp : units) (data : list Z) : res units :=
  res_bind (convertBits data 8 5 true) (fun data5bit =>
  Ok (hrp ++ 49 :: flat_map charset_at (data5bit ++ createChecksum hrp data5bit))).

(** The text before and after the last ['1'] of [l]. *)
Fixpoint split_last (l : units) : option (units * units) :=
  match l with
  | [] => None
  | c :: r =>
      match split_last r with
      | Some (a, b) => Some (c :: a, b)
      | None => if c =? 49 then Some ([], r) else None
      end
  end.

Fixpoint charset_indices (l : units) : option (list Z) :=
  match l with
  | [] => Some []
  | c :: r => match index_of c CHARSET 0 with
              | Some d => cons d <$> charset_indices r
              | None => None
              end
  end.

Section Text.
Context `{U : Unicode}.

Definition bech32mDecode (str : units) : res (units * list Z) :=
  match split_last (toLower str) with
  | None => Err "Invalid bech32m string"
  | Some (hrp, rest) =>
      if bool_decide (hrp = []) || (length rest <? 6)%nat then Err "Invalid bech32m string" else
      match charset_indices rest with
      | None => Err "Invalid character"
      | Some data5bit =>
          if negb (verifyChecksum hrp data5bit) then Err "Invalid bech32m checksum"
          else Ok (hrp, convertBitsBack (take (length data5bit - 6) data5bit) 5 8)
      end
  end.

(** ** Hexadecimal *)

(** [parseInt(s, 16)] stored into a byte: not a number becomes 0, negatives wrap. *)
Definition parse_hex (s : units) : Z :=
  let s := skip_space s in
  let '(neg, s) := match s with
                   | 45 :: r => (true, r)
                   | 43 :: r => (false, r)
                   | _ => (false, s)
                   end in
  let s := match s with 48 :: 120 :: r | 48 :: 88 :: r => r | _ => s end in
  let v := (fix go (s : units) (a : Z) : Z :=
              match s with c :: r => match hexv c with Some d => go r (16 * a + d) | None => a end | [] => a end) s 0 in
  (if neg then - v else v) mod 256.

(** A trailing single digit falls outside the [Uint8Array] of length [hex.length / 2]. *)
Fixpoint hexToBytes (hex : units) : list Z :=
  match hex with
  | a :: b :: r => parse_hex [a; b] :: hexToBytes r
  | _ => []
  end.

Definition bytesToHex (bytes : list Z) : units := flat_map (fun x => [hexd (x / 16); hexd (x mod 16)]) bytes.

(** ** Public functions *)

(** [pubkeyToAddress] with the digest function of Web Crypto as an argument. *)
Definition pubkeyToAddress (digest : list Z -> list Z) (publicKeyHex : units) : res units :=
  bech32mEncode HRP (digest (hexToBytes publicKeyHex)).

Definition hashToAddress (hashHex : units) : res units := bech32mEncode HRP (hexToBytes hashHex).

Definition addressToHash (address : units) : res units :=
  res_bind (bech32mDecode address) (fun d => Ok (bytesToHex (snd d))).

Fixpoint starts_with (p l : units) : bool :=
  match p, l with
  | [], _ => true
  | x :: p', y :: l' => (x =? y) && starts_with p' l'
  | _ :: _, [] => false
  end.

Definition isRougeAddress (input : units) : bool :=
  if negb (starts_with (u "rouge1") (toLower input)) || (length input <? 10)%nat then false
  else is_ok (bech32mDecode input).

(** [${s.slice(0, prefixLen)}...${s.slice(-suffixLen)}]; [slice(-0)] is the whole text. *)
Definition abbreviate (s : units) (prefixLen suffixLen : nat) : units :=
  if (length s <=? prefixLen + suffixLen + 3)%nat then s
  else take prefixLen s ++ u "..." ++ (if (suffixLen =? 0)%nat then s else drop (length s - suffixLen) s).

Definition formatAddress (address : units) (prefixLen suffixLen : nat) : units := abbreviate address prefixLen suffixLen.
Definition formatPubkey (pubkey : units) (prefixLen suffixLen : nat) : units := abbreviate pubkey prefixLen suffixLen.
Definition formatIdentity (input : units) : units :=
  if isRougeAddress input then formatAddress input 12 4 else formatPubkey input 8 4.
End Text.

(** ** 32-bit operations bit by bit *)

Lemma int32_mod z : int32 z mod 2 ^ 32 = z mod 2 ^ 32.
Proof. unfold int32. rewrite Zminus_mod_idemp_l. f_equal. lia. Qed.

Lemma int32_testbit z j : 0 <= j < 32 -> Z.testbit (int32 z) j = Z.testbit z j.
Proof.
  intros Hj. rewrite <- (Z.mod_pow2_bits_low (int32 z) 32 j), int32_mod by lia.
  apply Z.mod_pow2_bits_low. lia.
Qed.

Lemma int32_small z : 0 <= z < 2 ^ 31 -> int32 z = z.
Proof. intros Hz. unfold int32. rewrite Z.mod_small; lia. Qed.

Lemma shl_testbit a n j : 0 <= n -> 0 <= j < 32 -> Z.testbit (shl a n) j = Z.testbit a (j - n).
Proof. intros Hn Hj. unfold shl. rewrite int32_testbit by done. apply Z.shiftl_spec. lia. Qed.

Lemma shl_one n : 0 <= n < 31 -> shl 1 n - 1 = Z.ones n.
Proof.
  intros Hn. unfold shl. rewrite Z.shiftl_1_l, int32_small; [rewrite Z.ones_equiv; lia|].
  split; [lia|]. apply Z.pow_lt_mono_r; lia.
Qed.

(** The [n] low bits of [z], highest first. *)
Fixpoint bits_of (n : nat) (z : Z) : list bool :=
  match n with O => [] | S k => Z.testbit z (Z.of_nat k) :: bits_of k z end.

Lemma bits_length n z : length (bits_of n z) = n.
Proof. induction n; simpl; congruence. Qed.

Lemma bits_ext n a b : (forall i, 0 <= i < Z.of_nat n -> Z.testbit a i = Z.testbit b i) -> bits_of n a = bits_of n b.
Proof. induction n as [|n IH]; intros H; simpl; [done|]. rewrite (H (Z.of_nat n)) by lia. f_equal. apply IH. intros; apply H; lia. Qed.

Lemma bits_app n m z : bits_of (n + m) z = bits_of n (Z.shiftr z (Z.of_nat m)) ++ bits_of m z.
Proof.
  induction n as [|n IH]; simpl; [done|]. rewrite IH. f_equal. rewrite Z.shiftr_spec by lia. f_equal. lia.
Qed.

Lemma bits_land_ones n z : bits_of n (Z.land z (Z.ones (Z.of_nat n))) = bits_of n z.
Proof. apply bits_ext. intros i Hi. rewrite Z.land_spec, Z.ones_spec_low by lia. apply andb_true_r. Qed.

Lemma bits_inj n a b : 0 <= a < 2 ^ Z.of_nat n -> 0 <= b < 2 ^ Z.of_nat n -> bits_of n a = bits_of n b -> a = b.
Proof.
  intros Ha Hb H. rewrite <- (Z.mod_small a (2 ^ Z.of_nat n)), <- (Z.mod_small b (2 ^ Z.of_nat n)) by done.
  apply Z.bits_inj'. intros i Hi. destruct (Z.lt_ge_cases i (Z.of_nat n)) as [Hlt|Hge].
  2:{ rewrite !Z.mod_pow2_bits_high by lia. done. }
  rewrite !Z.mod_pow2_bits_low by lia. clear Ha Hb. induction n as [|n IH]; [lia|]. simpl in H. injection H as H1 H2.
  destruct (Z.eq_dec i (Z.of_nat n)) as [->|]; [done|]. apply IH; [done|lia].
Qed.

(** ** The regrouping keeps the bits *)

Definition group (n : nat) (l : list Z) : list bool := flat_map (bits_of n) l.

Lemma group_length n l : length (group n l) = (n * length l)%nat.
Proof. induction l as [|x l IH]; simpl; [lia|]. rewrite length_app, bits_length, IH. lia. Qed.

Lemma group_app n l k : group n (l ++ k) = group n l ++ group n k.
Proof. unfold group. apply flat_map_app. Qed.

Definition fits (n : nat) (l : list Z) : Prop := Forall (fun z => 0 <= z < 2 ^ Z.of_nat n) l.

Lemma land_ones_fits n z : 0 <= Z.land z (Z.ones (Z.of_nat n)) < 2 ^ Z.of_nat n.
Proof. rewrite Z.land_ones by lia. apply Z.mod_pos_bound. lia. Qed.

Lemma drain_spec t fuel acc b :
  (0 < t < 31)%nat -> (b <= fuel)%nat ->
  exists out b', drain fuel acc (Z.of_nat b) (Z.of_nat t) = (out, Z.of_nat b') /\ (b' < t)%nat
    /\ bits_of b acc = group t out ++ bits_of b' acc /\ fits t out.
Proof.
  intros Ht. revert b. induction fuel as [|fuel IH]; intros b Hb; simpl.
  { exists [], b. assert (b = 0)%nat as -> by lia. repeat split; [lia|constructor]. }
  destruct (Z.of_nat t <=? Z.of_nat b) eqn:E; breflect.
  2:{ exists [], b. repeat split; [lia|constructor]. }
  rewrite <- Nat2Z.inj_sub by lia. destruct (IH (b - t)%nat ltac:(lia)) as (out & b' & -> & Hlt & Hbits & Hf).
  rewrite shl_one by lia. eexists _, b'. split; [done|]. split; [done|]. split; [|constructor; [apply land_ones_fits|done]].
  simpl. rewrite bits_land_ones, <- app_assoc, <- Hbits, <- bits_app. f_equal. lia.
Qed.

Lemma push_bits f acc v b :
  (b + f <= 32)%nat -> 0 <= v < 2 ^ Z.of_nat f ->
  bits_of (b + f) (Z.lor (shl acc (Z.of_nat f)) v) = bits_of b acc ++ bits_of f v.
Proof.
  intros Hb Hv. rewrite bits_app. f_equal; apply bits_ext; intros i Hi; [rewrite Z.shiftr_spec by lia|];
    rewrite Z.lor_spec, shl_testbit by lia.
  - rewrite <- (Z.mod_small v (2 ^ Z.of_nat f)), Z.mod_pow2_bits_high, orb_false_r by lia. f_equal. lia.
  - by rewrite Z.testbit_neg_r by lia.
Qed.

(** [regroup] from [f]-bit to [t]-bit groups: nothing is lost, fewer than [t] bits are pending. *)
Lemma regroup_spec f t data acc b :
  (0 < t < 31)%nat -> (t + f <= 33)%nat -> (b < t)%nat -> fits f data ->
  exists out acc' b', regroup data (Z.of_nat f) (Z.of_nat t) acc (Z.of_nat b) = (out, acc', Z.of_nat b')
    /\ (b' < t)%nat /\ bits_of b acc ++ group f data = group t out ++ bits_of b' acc' /\ fits t out.
Proof.
  intros Ht Hf. revert acc b. induction data as [|v data IH]; intros acc b Hb Hd; simpl.
  { exists [], acc, b. rewrite app_nil_r. repeat split; [lia|constructor]. }
  apply Forall_cons in Hd as [Hv Hd]. rewrite <- Nat2Z.inj_add, Nat2Z.id. set (acc1 := Z.lor _ v).
  destruct (drain_spec t (b + f) acc1 (b + f) Ht ltac:(lia)) as (o1 & b1 & -> & Hb1 & E1 & F1).
  destruct (IH acc1 b1 Hb1 Hd) as (o2 & acc2 & b2 & -> & Hb2 & E2 & F2).
  exists (o1 ++ o2), acc2, b2. split; [done|]. split; [done|]. split; [|by apply Forall_app].
  rewrite group_app, app_assoc, <- push_bits by (done || lia). fold acc1. rewrite E1, <- app_assoc, E2.
  by rewrite app_assoc.
Qed.

(** Groups are determined by their bits. *)
Lemma group_inj n a b r s :
  (0 < n)%nat -> fits n a -> fits n b -> group n a ++ r = group n b ++ s ->
  (length r < n)%nat -> (length s < n)%nat -> a = b /\ r = s.
Proof.
  intros Hn. revert b. induction a as [|x a IH]; intros [|y b] Ha Hb E Hr Hs; simpl in E.
  - done.
  - subst r. rewrite <- app_assoc, length_app, bits_length in Hr. lia.
  - subst s. rewrite <- app_assoc, length_app, bits_length in Hs. lia.
  - rewrite <- !app_assoc in E. apply app_inj_1 in E as [E1 E2]; [|by rewrite !bits_length].
    apply Forall_cons in Ha as [Hx Ha], Hb as [Hy Hb]. apply bits_inj in E1 as ->; [|done|done].
    destruct (IH b Ha Hb E2 Hr Hs) as [-> ->]. done.
Qed.

Lemma last_bits acc b :
  (0 < b < 5)%nat ->
  bits_of 5 (Z.land (shl acc (5 - Z.of_nat b)) (shl 1 5 - 1)) = bits_of b acc ++ repeat false (5 - b).
Proof.
  intros Hb. rewrite shl_one by lia. change 5 with (Z.of_nat 5) at 2. rewrite bits_land_ones.
  replace 5%nat with (b + (5 - b))%nat at 1 by lia. rewrite bits_app. f_equal.
  - apply bits_ext. intros i Hi. rewrite Z.shiftr_spec, shl_testbit by lia. f_equal. lia.
  - assert (forall k, (k <= 5 - b)%nat -> bits_of k (shl acc (5 - Z.of_nat b)) = repeat false k) as H; [|by apply H].
    induction k as [|k IH]; intros Hk; simpl; [done|]. rewrite IH by lia. f_equal.
    rewrite shl_testbit by lia. apply Z.testbit_neg_r. lia.
Qed.

Lemma bytes_mod l : fits 8 l -> map (fun z => z mod 256) l = l.
Proof.
  intros H. rewrite <- (map_id l) at 2. apply map_ext_in. intros z Hz%list_elem_of_In.
  unfold fits in H. rewrite Forall_elem in H. apply Z.mod_small, (H z Hz).
Qed.

(** Bytes to 5-bit groups and back, through the wrapping accumulators. *)
Lemma convert_roundtrip data :
  fits 8 data -> exists d5, convertBits data 8 5 true = Ok d5 /\ fits 5 d5 /\ convertBitsBack d5 5 8 = data.
Proof.
  intros Hd. destruct (regroup_spec 8 5 data 0 0 ltac:(lia) ltac:(lia) ltac:(lia) Hd) as (out & acc & b & E & Hb & Eb & Fo).
  unfold convertBits. change 8 with (Z.of_nat 8). change 5 with (Z.of_nat 5). change 0 with (Z.of_nat 0) at 2.
  rewrite E. simpl in Eb. set (d5 := if 0 <? Z.of_nat b then _ else _).
  assert (fits 5 d5 /\ exists pad, (length pad < 8)%nat /\ group 5 d5 = group 8 data ++ pad) as [F5 (pad & Hp & Eg)].
  { unfold d5. destruct (0 <? Z.of_nat b) eqn:E0; breflect.
    - split.
      + apply Forall_app. split; [done|]. apply Forall_singleton. rewrite shl_one by lia. apply land_ones_fits.
      + exists (repeat false (5 - b)). split; [rewrite repeat_length; lia|].
        rewrite group_app, Eb, <- app_assoc. f_equal. cbn [group flat_map]. rewrite app_nil_r.
        apply last_bits. lia.
    - split; [done|]. exists []. assert (b = 0)%nat as -> by lia. simpl in Eb. split; [simpl; lia|].
      by rewrite Eb, !app_nil_r. }
  exists d5. split; [done|]. split; [done|].
  destruct (regroup_spec 5 8 d5 0 0 ltac:(lia) ltac:(lia) ltac:(lia) F5) as (o2 & acc2 & b2 & E2 & Hb2 & Eb2 & Fo2).
  unfold convertBitsBack. change 8 with (Z.of_nat 8). change 5 with (Z.of_nat 5). change 0 with (Z.of_nat 0) at 2.
  rewrite E2. cbn [fst]. simpl in Eb2. rewrite Eg in Eb2. symmetry in Eb2.
  apply group_inj in Eb2 as [-> _]; [by apply bytes_mod|lia|done|done|by rewrite bits_length|done].
Qed.

(** ** The checksum is linear *)

Definition gmix (b : Z) : Z := mix b 0 0 GEN.

Lemma bit_set b i : 0 <= i -> (Z.land (Z.shiftr b i) 1 =? 0) = negb (Z.testbit b i).
Proof.
  intros Hi. change 1 with (Z.ones 1). rewrite Z.land_ones, <- Z.bit0_mod, Z.shiftr_spec, Z.add_0_l by lia.
  by destruct (Z.testbit b i).
Qed.

Lemma mix_lxor b c i gens : mix b c i gens = Z.lxor c (mix b 0 i gens).
Proof.
  revert c i. induction gens as [|g r IH]; intros c i; simpl; [by rewrite Z.lxor_0_r|].
  destruct (_ =? 0); [apply IH|]. rewrite IH, (IH (Z.lxor 0 g)), Z.lxor_0_l. apply Z.lxor_assoc.
Qed.

Lemma mix_linear a b i gens : 0 <= i -> mix (Z.lxor a b) 0 i gens = Z.lxor (mix a 0 i gens) (mix b 0 i gens).
Proof.
  revert i. induction gens as [|g r IH]; intros i Hi; simpl; [done|].
  rewrite !bit_set, Z.lxor_spec by done. rewrite (mix_lxor (Z.lxor a b)), (mix_lxor a), (mix_lxor b), IH by lia.
  set (x := mix a 0 (i + 1) r). set (y := mix b 0 (i + 1) r).
  destruct (Z.testbit a i), (Z.testbit b i); simpl; rewrite ?Z.lxor_0_l; apply Z.bits_inj'; intros k Hk;
    rewrite ?Z.lxor_spec, ?Z.bits_0; by destruct (Z.testbit g k), (Z.testbit x k), (Z.testbit y k).
Qed.

Definition in30 (c : Z) : Prop := 0 <= c < 2 ^ 30.

Lemma low_shift c : shl (Z.land c 0x1ffffff) 5 = Z.shiftl (Z.land c (Z.ones 25)) 5.
Proof.
  change 0x1ffffff with (Z.ones 25). unfold shl. apply int32_small. rewrite Z.shiftl_mul_pow2, Z.land_ones by lia.
  pose proof (Z.mod_pos_bound c (2 ^ 25) ltac:(lia)). lia.
Qed.

Lemma step_eq c v : polymod_step c v = Z.lxor (Z.lxor (Z.shiftl (Z.land c (Z.ones 25)) 5) v) (gmix (Z.shiftr c 25)).
Proof. unfold polymod_step. by rewrite low_shift, mix_lxor. Qed.

Lemma step_linear c d v w :
  polymod_step (Z.lxor c d) (Z.lxor v w) = Z.lxor (polymod_step c v) (polymod_step d w).
Proof.
  rewrite !step_eq, Z.shiftr_lxor. unfold gmix. rewrite mix_linear by lia.
  set (x := mix (Z.shiftr c 25) 0 0 GEN). set (y := mix (Z.shiftr d 25) 0 0 GEN). apply Z.bits_inj'. intros k Hk.
  rewrite !Z.lxor_spec, !Z.shiftl_spec, !Z.land_spec, !Z.lxor_spec by done.
  by destruct (Z.testbit c (k - 5)), (Z.testbit d (k - 5)), (Z.testbit (Z.ones 25) (k - 5)), (Z.testbit v k),
    (Z.testbit w k), (Z.testbit x k), (Z.testbit y k).
Qed.

Lemma lxor_bound n a b : 0 <= n -> 0 <= a < 2 ^ n -> 0 <= b < 2 ^ n -> 0 <= Z.lxor a b < 2 ^ n.
Proof.
  intros Hn Ha Hb. assert (Z.lxor a b = Z.lxor a b mod 2 ^ n) as ->; [|apply Z.mod_pos_bound; lia].
  apply Z.bits_inj'. intros k Hk. destruct (Z.lt_ge_cases k n) as [H|H].
  - by rewrite Z.mod_pow2_bits_low by lia.
  - rewrite Z.mod_pow2_bits_high, Z.lxor_spec by lia.
    rewrite <- (Z.mod_small a (2 ^ n)), <- (Z.mod_small b (2 ^ n)), !Z.mod_pow2_bits_high by lia. done.
Qed.

Lemma mix_in30 b c i gens : in30 c -> Forall in30 gens -> in30 (mix b c i gens).
Proof.
  revert c i. induction gens as [|g r IH]; intros c i Hc Hg; simpl; [done|].
  apply Forall_cons in Hg as [Hg Hr]. apply IH; [|done]. destruct (_ =? 0); [done|by apply lxor_bound].
Qed.

Lemma GEN_in30 : Forall in30 GEN.
Proof. unfold GEN, in30. repeat constructor; lia. Qed.

Lemma step_in30 c v : in30 v -> in30 (polymod_step c v).
Proof.
  intros Hv. unfold polymod_step. apply mix_in30; [|apply GEN_in30]. apply lxor_bound; [lia| |done].
  rewrite low_shift, Z.shiftl_mul_pow2, Z.land_ones by lia. pose proof (Z.mod_pos_bound c (2 ^ 25) ltac:(lia)). lia.
Qed.

Abbreviation poly := (foldl polymod_step).

Lemma poly_in30 c vs : in30 c -> Forall in30 vs -> in30 (poly c vs).
Proof. revert c. induction vs as [|v vs IH]; intros c Hc H; simpl; [done|]. apply Forall_cons in H as [Hv H]. apply IH; [by apply step_in30|done]. Qed.

Definition xors : list Z -> list Z -> list Z := zip_with Z.lxor.

Lemma poly_linear c d vs ws :
  length vs = length ws -> poly (Z.lxor c d) (xors vs ws) = Z.lxor (poly c vs) (poly d ws).
Proof.
  revert c d ws. induction vs as [|v vs IH]; intros c d [|w ws] H; simpl in *; try done.
  rewrite step_linear. apply IH. lia.
Qed.

(** Base-32 value of a group of symbols. *)
Definition value32 (l : list Z) : Z := foldl (fun a v => 32 * a + v) 0 l.

Lemma value32_snoc l v : value32 (l ++ [v]) = 32 * value32 l + v.
Proof. unfold value32. by rewrite foldl_app. Qed.

Lemma value32_bound l : fits 5 l -> 0 <= value32 l < 32 ^ Z.of_nat (length l).
Proof.
  induction l as [|v l IH] using rev_ind; intros H; [simpl; unfold value32; simpl; lia|].
  apply Forall_app in H as [H [Hv _]%Forall_cons]. specialize (IH H).
  rewrite value32_snoc, length_app, Nat2Z.inj_add, Z.pow_add_r by lia. change (32 ^ Z.of_nat (length [v])) with 32.
  cbv beta in Hv. change (2 ^ Z.of_nat 5) with 32 in Hv. lia.
Qed.

Lemma lxor_shift5 x v : 0 <= v < 32 -> Z.lxor (Z.shiftl x 5) v = 32 * x + v.
Proof.
  intros Hv. rewrite <- Z.add_nocarry_lxor; [rewrite Z.shiftl_mul_pow2; lia|].
  apply Z.bits_inj'. intros k Hk. rewrite Z.land_spec, Z.shiftl_spec, Z.bits_0 by done.
  destruct (Z.lt_ge_cases k 5); [by rewrite Z.testbit_neg_r by lia|].
  rewrite <- (Z.mod_small v (2 ^ 5)), Z.mod_pow2_bits_high by lia. apply andb_false_r.
Qed.

(** From the zero state, up to six symbols are only shifted in. *)
Lemma poly_short l : fits 5 l -> (length l <= 6)%nat -> poly 0 l = value32 l.
Proof.
  induction l as [|v l IH] using rev_ind; intros H Hl; [done|].
  rewrite length_app in Hl. simpl in Hl. apply Forall_app in H as [H [Hv _]%Forall_cons].
  rewrite foldl_app, value32_snoc. cbn [foldl]. rewrite IH, step_eq by (done || lia).
  pose proof (value32_bound l H) as Hb.
  assert (0 <= value32 l < 2 ^ 25) as Hs.
  { change (2 ^ 25) with (32 ^ 5). split; [lia|]. eapply Z.lt_le_trans; [apply Hb|]. apply Z.pow_le_mono_r; lia. }
  rewrite Z.land_ones, Z.mod_small, Z.shiftr_div_pow2, Z.div_small by lia.
  change (gmix 0) with 0. rewrite Z.lxor_0_r. by apply lxor_shift5.
Qed.

Lemma value32_digits p :
  in30 p -> value32 (map (fun i => Z.land (Z.shiftr p (5 * (5 - i))) 31) [0; 1; 2; 3; 4; 5]) = p.
Proof.
  unfold in30. intros Hp. cbn [map]. change 31 with (Z.ones 5). rewrite !Z.land_ones by lia.
  change (5 * (5 - 0)) with 25. change (5 * (5 - 1)) with 20. change (5 * (5 - 2)) with 15.
  change (5 * (5 - 3)) with 10. change (5 * (5 - 4)) with 5. change (5 * (5 - 5)) with 0.
  rewrite !Z.shiftr_div_pow2, Z.div_1_r by lia. unfold value32. cbn [foldl].
  assert (forall k, 0 <= k -> p / 2 ^ (k + 5) = p / 2 ^ k / 32) as Hd.
  { intros k Hk. rewrite Z.pow_add_r, Z.div_div by lia. done. }
  change (p / 2 ^ 25) with (p / 2 ^ (20 + 5)). rewrite (Hd 20) by lia.
  change (p / 2 ^ 20) with (p / 2 ^ (15 + 5)). rewrite (Hd 15) by lia.
  change (p / 2 ^ 15) with (p / 2 ^ (10 + 5)). rewrite (Hd 10) by lia.
  change (p / 2 ^ 10) with (p / 2 ^ (5 + 5)). rewrite (Hd 5) by lia. change (2 ^ 5) with 32 in *.
  assert (0 <= p / 32 / 32 / 32 / 32 / 32 < 32) as He.
  { rewrite !Z.div_div by lia. split; [apply Z.div_pos; lia|apply Z.div_lt_upper_bound; lia]. }
  rewrite (Z.mod_small (p / 32 / 32 / 32 / 32 / 32)) by done.
  pose proof (Z.div_mod p 32 ltac:(lia)). set (a := p / 32) in *.
  pose proof (Z.div_mod a 32 ltac:(lia)). set (b := a / 32) in *.
  pose proof (Z.div_mod b 32 ltac:(lia)). set (c := b / 32) in *.
  pose proof (Z.div_mod c 32 ltac:(lia)). set (d := c / 32) in *.
  pose proof (Z.div_mod d 32 ltac:(lia)). set (e := d / 32) in *. lia.
Qed.

Lemma hrp_in30 hrp : Forall is_unit hrp -> Forall in30 (hrpExpand hrp).
Proof.
  intros H. unfold hrpExpand. apply Forall_app. split; [|constructor; [unfold in30; lia|]]; apply Forall_map;
    (eapply Forall_impl; [exact H|]); intros c [H0 H1]; unfold in30; simpl.
  - rewrite Z.shiftr_div_pow2 by lia. split; [by apply Z.div_pos|]. apply Z.div_lt_upper_bound; lia.
  - change 31 with (Z.ones 5). rewrite Z.land_ones by lia. pose proof (Z.mod_pos_bound c (2 ^ 5) ltac:(lia)). lia.
Qed.

Lemma fits_in30 l : fits 5 l -> Forall in30 l.
Proof. intros H. eapply Forall_impl; [exact H|]. unfold in30. simpl. intros. lia. Qed.

Lemma xors_zeros l z : z = repeat 0 (length l) -> xors z l = l.
Proof.
  intros ->. unfold xors. induction l as [|x l IH]; simpl; [done|]. by rewrite Z.lxor_0_l, IH.
Qed.

(** The appended checksum verifies. *)
Lemma checksum_verifies hrp data :
  Forall is_unit hrp -> fits 5 data ->
  fits 5 (createChecksum hrp data) /\ verifyChecksum hrp (data ++ createChecksum hrp data) = true.
Proof.
  intros Hh Hd. set (c := poly 1 (hrpExpand hrp ++ data)).
  assert (in30 c) as Hc by (apply poly_in30; [unfold in30; lia|apply Forall_app; split; [by apply hrp_in30|by apply fits_in30]]).
  set (z6 := [0; 0; 0; 0; 0; 0]). set (p := Z.lxor (poly c z6) BECH32M_CONST).
  assert (in30 p) as Hp.
  { apply lxor_bound; [lia| |unfold BECH32M_CONST; lia]. apply poly_in30; [done|]. unfold z6, in30. repeat constructor; lia. }
  assert (createChecksum hrp data = map (fun i => Z.land (Z.shiftr p (5 * (5 - i))) 31) [0; 1; 2; 3; 4; 5]) as ->.
  { unfold createChecksum, polymod. by rewrite app_assoc, foldl_app. }
  pose proof (value32_digits p Hp) as Hv. set (cs := map _ _) in *.
  assert (fits 5 cs) as Hf by (apply Forall_map, Forall_elem; intros i _; apply (land_ones_fits 5)).
  split; [done|]. unfold verifyChecksum, polymod. rewrite app_assoc, foldl_app. fold c. apply Z.eqb_eq.
  pose proof (poly_linear c 0 z6 cs eq_refl) as L. rewrite Z.lxor_0_r in L.
  rewrite (xors_zeros cs z6 eq_refl) in L.
  rewrite L, poly_short, Hv by (done || (unfold cs; simpl; lia)). unfold p.
  by rewrite <- Z.lxor_assoc, Z.lxor_nilpotent, Z.lxor_0_l.
Qed.

Lemma gmix_low b : 0 <= b < 32 -> gmix b mod 32 = 0 -> b = 0.
Proof.
  assert (forallb (fun b => negb (gmix (Z.of_nat b) mod 32 =? 0) || (b =? 0)%nat) (seq 0 32) = true) as H by reflexivity.
  intros Hb E. rewrite forallb_forall in H. specialize (H (Z.to_nat b) ltac:(apply in_seq; lia)).
  rewrite Z2Nat.id in H by lia. rewrite E in H. simpl in H. apply Nat.eqb_eq in H. lia.
Qed.

(** A state that a zero symbol maps to zero is zero. *)
Lemma step_kernel c : in30 c -> polymod_step c 0 = 0 -> c = 0.
Proof.
  intros Hc. rewrite step_eq, Z.lxor_0_r. intros E.
  assert (gmix (Z.shiftr c 25) = Z.shiftl (Z.land c (Z.ones 25)) 5) as Eg.
  { apply (f_equal (Z.lxor (Z.shiftl (Z.land c (Z.ones 25)) 5))) in E.
    by rewrite <- Z.lxor_assoc, Z.lxor_nilpotent, Z.lxor_0_l, Z.lxor_0_r in E. }
  rewrite Z.shiftr_div_pow2, Z.shiftl_mul_pow2, Z.land_ones in Eg by lia. unfold in30 in Hc.
  assert (c / 2 ^ 25 = 0) as H0.
  { apply gmix_low; [split; [apply Z.div_pos; lia|apply Z.div_lt_upper_bound; lia]|].
    rewrite Eg. change (2 ^ 5) with 32. by apply Z.mod_mul. }
  rewrite H0 in Eg. change (gmix 0) with 0 in Eg. pose proof (Z.div_mod c (2 ^ 25) ltac:(lia)). lia.
Qed.

Lemma poly_kernel c n : in30 c -> poly c (repeat 0 n) = 0 -> c = 0.
Proof.
  revert c. induction n as [|n IH]; intros c Hc E; simpl in E; [done|].
  apply step_kernel, IH; [done| |done]. apply step_in30. unfold in30. lia.
Qed.

Lemma xors_fits a b : fits 5 a -> fits 5 b -> fits 5 (xors a b).
Proof.
  intros Ha. revert b. induction Ha as [|x a Hx Ha IH]; intros [|y b] Hb; try constructor;
    apply Forall_cons in Hb as [Hy Hb]; [by apply lxor_bound|by apply IH].
Qed.

Lemma value32_cons x l : value32 (x :: l) = x * 32 ^ Z.of_nat (length l) + value32 l.
Proof.
  induction l as [|v l IH] using rev_ind; [unfold value32; simpl; lia|].
  rewrite app_comm_cons, !value32_snoc, IH, length_app, Nat2Z.inj_add, Z.pow_add_r by lia. simpl length. lia.
Qed.

(** Symbols whose difference has value zero are the same. *)
Lemma xors_zero_eq a b :
  fits 5 a -> fits 5 b -> length a = length b -> value32 (xors a b) = 0 -> a = b.
Proof.
  intros Ha. revert b. induction Ha as [|x a Hx Ha IH]; intros [|y b] Hb Hlen E; try done.
  apply Forall_cons in Hb as [Hy Hb]. unfold xors in E. cbn [zip_with] in E. fold (xors a b) in E.
  rewrite value32_cons in E. pose proof (value32_bound (xors a b) (xors_fits a b Ha Hb)) as B.
  assert (0 <= Z.lxor x y) by (apply (lxor_bound 5); (lia || done)).
  assert (Z.lxor x y = 0) as Hxy by nia. apply Z.lxor_eq in Hxy as ->. f_equal.
  apply IH; [done|simpl in Hlen; lia|]. rewrite Z.lxor_nilpotent in E. lia.
Qed.

(** ** Symbols *)

Record symbol_of (d c : Z) : Prop := {
  so_at : charset_at d = [c];
  so_index : index_of c CHARSET 0 = Some d;
  so_sep : c <> 49;
  so_ascii : is_ascii c;
  so_lower : lower_unit c = c;
}.

Lemma symbol_exists d : 0 <= d < 32 -> exists c, symbol_of d c.
Proof.
  set (ok := fun n => match charset_at (Z.of_nat n) with
    | [c] => bool_decide (index_of c CHARSET 0 = Some (Z.of_nat n)) && negb (c =? 49) && (0 <=? c) && (c <? 128)
             && (lower_unit c =? c)
    | _ => false end).
  assert (forallb ok (seq 0 32) = true) as H by reflexivity.
  intros Hd. rewrite forallb_forall in H. specialize (H (Z.to_nat d) ltac:(apply in_seq; lia)).
  unfold ok in H. rewrite Z2Nat.id in H by lia. destruct (charset_at d) as [|c [|]] eqn:E; try done.
  breflect. destruct H as [[[[Hi%bool_decide_eq_true Hs] H0] H1] Hl]. exists c. by split.
Qed.

Lemma symbols_spec l :
  fits 5 l -> let t := flat_map charset_at l in
  charset_indices t = Some l /\ 49 ∉ t /\ Forall is_ascii t /\ map lower_unit t = t /\ length t = length l.
Proof.
  induction l as [|d l IH]; intros H; simpl.
  { repeat split; [apply not_elem_of_nil|constructor]. }
  apply Forall_cons in H as [Hd H]. destruct (symbol_exists d Hd) as [c [Ea Ei Hs Hc Hl]].
  destruct (IH H) as (I1 & I2 & I3 & I4 & I5). rewrite Ea. cbn [app charset_indices map length].
  rewrite Ei, I1, Hl, I4, I5. repeat split; [|by constructor]. apply not_elem_of_cons. split; [congruence|done].
Qed.

Lemma split_last_spec a b : 49 ∉ b -> split_last (a ++ 49 :: b) = Some (a, b).
Proof.
  intros Hb. assert (split_last b = None) as Hn.
  { induction b as [|c b IH]; simpl; [done|]. apply not_elem_of_cons in Hb as [Hc Hb].
    rewrite IH by done. by rewrite (proj2 (Z.eqb_neq c 49)). }
  induction a as [|c a IH]; simpl; [by rewrite Hn|]. by rewrite IH.
Qed.

(** A human-readable part as [bech32mDecode] returns it: not empty, lower-case ASCII. *)
Definition good_hrp (hrp : units) : Prop := hrp <> [] /\ Forall is_ascii hrp /\ map lower_unit hrp = hrp.

Section TextClaims.
Context `{U : Unicode}.

Lemma decode_encode hrp data :
  good_hrp hrp -> fits 8 data ->
  exists s, bech32mEncode hrp data = Ok s /\ bech32mDecode s = Ok (hrp, data)
    /\ Forall is_ascii s /\ (length hrp + 7 <= length s)%nat /\ exists t, s = hrp ++ 49 :: t.
Proof.
  intros (Hne & Ha & Hl) Hd. destruct (convert_roundtrip data Hd) as (d5 & Ec & F5 & Eb).
  unfold bech32mEncode. rewrite Ec. cbn [res_bind]. eexists. split; [done|].
  assert (Forall is_unit hrp) as Hu by (eapply Forall_impl; [exact Ha|]; unfold is_ascii, is_unit; intros; lia).
  destruct (checksum_verifies hrp d5 Hu F5) as [Fc Hv]. set (cs := createChecksum hrp d5) in *.
  assert (length cs = 6%nat) as Hcs by done. assert (fits 5 (d5 ++ cs)) as Fa by by apply Forall_app.
  destruct (symbols_spec (d5 ++ cs) Fa) as (I1 & I2 & I3 & I4 & I5). set (t := flat_map charset_at (d5 ++ cs)) in *.
  assert (Forall is_ascii (hrp ++ 49 :: t)) as Hall by
    (apply Forall_app; split; [done|constructor; [unfold is_ascii; lia|done]]).
  rewrite length_app, Hcs in I5. split; [|split; [done|split; [rewrite length_app; simpl; lia|by eexists]]].
  unfold bech32mDecode. rewrite toLower_ascii by done. rewrite map_app. cbn [map]. rewrite Hl, I4.
  change (lower_unit 49) with 49. rewrite split_last_spec by done. rewrite bool_decide_eq_false_2 by done.
  destruct (Nat.ltb_spec (length t) 6); [lia|]. cbn [orb]. rewrite I1, Hv. cbn [negb].
  rewrite length_app, Hcs. replace (length d5 + 6 - 6)%nat with (length d5) by lia. by rewrite take_app_length, Eb.
Qed.

Lemma hexToBytes_hex data : fits 8 data -> hexToBytes (bytesToHex data) = data.
Proof.
  assert (forallb (fun n => parse_hex [hexd (Z.of_nat n / 16); hexd (Z.of_nat n mod 16)] =? Z.of_nat n) (seq 0 256) = true)
    as H by reflexivity.
  induction 1 as [|x l Hx _ IH]; [done|]. cbn [bytesToHex flat_map app hexToBytes]. unfold bytesToHex in IH. rewrite IH. f_equal.
  rewrite forallb_forall in H. specialize (H (Z.to_nat x) ltac:(apply in_seq; simpl in Hx; lia)).
  rewrite Z2Nat.id in H by (simpl in Hx; lia). by apply Z.eqb_eq.
Qed.

(** Address round trip: for every hash (the 32-bit accumulator of the bit conversion wraps
    around on 32 bytes) [hashToAddress] produces a text that is recognised as an address of the
    chain, decodes to the chain's prefix and the same bytes, and gives back the same hash. *)
Theorem address_roundtrip data :
  fits 8 data ->
  exists s, hashToAddress (bytesToHex data) = Ok s /\ bech32mDecode s = Ok (HRP, data)
    /\ isRougeAddress s = true /\ addressToHash s = Ok (bytesToHex data).
Proof.
  intros Hd. assert (good_hrp HRP) as Hg.
  { split; [done|]. split; [|reflexivity]. unfold HRP, is_ascii. vm_compute. repeat constructor; congruence. }
  destruct (decode_encode HRP data Hg Hd) as (s & Es & Ds & Ha & Hlen & t & ->).
  unfold hashToAddress. rewrite hexToBytes_hex by done. eexists. split; [exact Es|].
  split; [done|]. unfold isRougeAddress, addressToHash. rewrite Ds. split; [|done].
  rewrite toLower_ascii, map_app by done. simpl in Hlen.
  destruct (Nat.ltb_spec (length (HRP ++ 49 :: t)) 10); [simpl in *; lia|]. reflexivity.
Qed.
End TextClaims.

(** Error detection: two data parts that verify under the same prefix and differ only inside
    a window of up to six consecutive symbols are equal.  So every substitution of one symbol,
    every transposition of neighbours and every burst of up to six symbols is refused. *)
Theorem checksum_detects_bursts hrp pre a b post :
  fits 5 a -> fits 5 b ->
  length a = length b -> (length a <= 6)%nat ->
  verifyChecksum hrp (pre ++ a ++ post) = true -> verifyChecksum hrp (pre ++ b ++ post) = true -> a = b.
Proof.
  intros Ha Hb Hlen H6. unfold verifyChecksum, polymod. rewrite !app_assoc, <- !(app_assoc _ _ post).
  rewrite (foldl_app _ _ (a ++ post)), (foldl_app _ _ (b ++ post)). set (c := poly 1 _).
  intros E1%Z.eqb_eq E2%Z.eqb_eq.
  pose proof (poly_linear c c (a ++ post) (b ++ post) ltac:(rewrite !length_app; lia)) as L.
  rewrite E1, E2, !Z.lxor_nilpotent in L. unfold xors in L. rewrite zip_with_app in L by done.
  rewrite foldl_app in L. fold (xors a b) in L.
  assert (zip_with Z.lxor post post = repeat 0 (length post)) as Hz.
  { clear. induction post as [|x l IH]; simpl; [done|]. by rewrite Z.lxor_nilpotent, IH. }
  rewrite Hz in L. assert (fits 5 (xors a b)) as Fx by by apply xors_fits.
  assert (length (xors a b) = length a) as Lx by (unfold xors; rewrite length_zip_with; lia).
  apply poly_kernel in L; [|apply poly_in30; [unfold in30; lia|by apply fits_in30]].
  rewrite poly_short in L by (done || lia). by apply xors_zero_eq.
Qed.

(** ** Concrete addresses *)

Module AddressDemo.

#[export] Instance AsciiCase : Unicode := {| toLower := map lower_unit; toLower_ascii := fun s _ => eq_refl;
  toUpper := map upper_unit; toUpper_ascii := fun s _ => eq_refl |}.

(** A test vector of BIP-350. *)
Example bip350_empty : bech32mEncode (u "a") [] = Ok (u "a1lqfn3a") /\ bech32mDecode (u "A1LQFN3A") = Ok (u "a", []).
Proof. vm_compute. by split. Qed.

Definition hash : list Z := map (fun i => Z.of_nat i * 37 mod 256) (seq 0 32).

Lemma hash_fits : fits 8 hash.
Proof. apply (bool_decide_unpack _). vm_compute. exact Logic.I. Qed.

Lemma address_roundtrip_witness :
  exists s, hashToAddress (bytesToHex hash) = Ok s /\ bech32mDecode s = Ok (HRP, hash)
    /\ isRougeAddress s = true /\ addressToHash s = Ok (bytesToHex hash).
Proof. apply (address_roundtrip hash). exact hash_fits. Defined.

(** The checksum of the test vector: its first two symbols cannot be replaced by others. *)
Lemma checksum_detects_bursts_witness : [31; 0] = [31; 0].
Proof.
  apply (checksum_detects_bursts (u "a") [] [31; 0] [31; 0] [9; 19; 17; 29]); [| |reflexivity|simpl; lia| |];
    vm_compute; try reflexivity; repeat constructor; congruence.
Defined.
End AddressDemo.
