(* ===== verification/MessageSigning.v ===== *)
(** * Message signing and Sign-In with RougeChain ([src/packages/core/src/message-signing.ts])

    The signed bytes, the sign-in text and its parser, the server-side verification of a
    sign-in, and what a wallet checks and shows before it signs.  Callers are typed: a field that
    TypeScript types as a string is a string here. *)
From S2P Require Import Prelude JsText JsNum JsUtf16 JsFloat LosslessJson Finality Address.
Local Open Scope Z_scope.

(** What the platform provides: [Date.parse] (NaN when it cannot read the text),
    [new URL(origin).host] (an exception for an invalid URL), and ML-DSA-65 signing. *)
Class Platform := {
  date_parse : units -> number;
  url_host : units -> res units;
  ml_dsa65_sign : list Z -> list Z -> res (list Z);
}.

(** ** Signed bytes *)

Definition SIGNED_MESSAGE_PREFIX : units := 25 :: u "RougeChain Signed Message:" ++ [10].
Definition MAX_SIGN_MESSAGE_BYTES : Z := 4096.
Definition ML_DSA_65_PUBLIC_KEY_BYTES : nat := 1952%nat.
Definition ML_DSA_65_SIGNATURE_BYTES : nat := 3309%nat.

Definition strictHexToBytes (hex : units) (expectedBytes : option nat) : option (list Z) :=
  match fromHex hex with
  | None => None
  | Some b =>
      match expectedBytes with
      | Some n => if (length hex =? n * 2)%nat then Some b else None
      | None => Some b
      end
  end.

(** No lone surrogate. *)
Fixpoint isWellFormedString (s : units) : bool :=
  match s with
  | [] => true
  | c :: r =>
      if is_lead c then
        match r with t :: r' => is_trail t && isWellFormedString r' | [] => false end
      else negb (is_trail c) && isWellFormedString r
  end.

Inductive Message := MText (s : units) | MBytes (b : list Z).

Definition messageToBytes (message : Message) : res (list Z) :=
  match message with
  | MText s => if isWellFormedString s then Ok (utf8 s) else Err "message is not well-formed Unicode (lone surrogate)"
  | MBytes b => Ok b
  end.

Definition signing_head (len : nat) : list Z := utf8 (SIGNED_MESSAGE_PREFIX ++ udec (Z.of_nat len) ++ [10]).

Definition messageSigningBytes (message : Message) : res (list Z) :=
  res_bind (messageToBytes message) (fun body => Ok (signing_head (length body) ++ body)).

Section Signing.
Context `{C : Crypto} `{P : Platform} `{U : Unicode}.

Definition signMessage (privateKeyHex : units) (message : Message) : res units :=
  match strictHexToBytes privateKeyHex None with
  | None | Some [] => Err "privateKeyHex must be a hex string"
  | Some sk =>
      res_bind (messageSigningBytes message) (fun m =>
      res_bind (ml_dsa65_sign m sk) (fun s => Ok (toHex s)))
  end.

Definition verifyMessage (publicKeyHex : units) (message : Message) (signatureHex : units) : bool :=
  match strictHexToBytes publicKeyHex (Some ML_DSA_65_PUBLIC_KEY_BYTES),
        strictHexToBytes signatureHex (Some ML_DSA_65_SIGNATURE_BYTES) with
  | Some pk, Some sig =>
      match messageSigningBytes message with
      | Ok m => match ml_dsa65_verify sig m pk with Ok true => true | _ => false end
      | Err _ => false
      end
  | _, _ => false
  end.

(** ** Sign-in fields *)

Record SignInFields := {
  domain : units; address : units; uri : units; statement : option units; sf_nonce : units;
  issuedAt : units; expirationTime : option units; chainId : units; resources : option (list units);
}.

Definition SIGN_IN_HEADER_SUFFIX : units := u " wants you to sign in with your RougeChain account:".
Definition SIGN_IN_VERSION : units := u "1".

Definition is_alnum (c : Z) : bool :=
  is_dec c || ((65 <=? c) && (c <=? 90)) || ((97 <=? c) && (c <=? 122)).

Definition len_in (lo hi : nat) (l : units) : bool := (lo <=? length l)%nat && (length l <=? hi)%nat.

(** The text before the first colon, and the text after it. *)
Fixpoint split_colon (l : units) : units * option units :=
  match l with
  | [] => ([], None)
  | c :: r => if c =? 58 then ([], Some r) else let '(a, b) := split_colon r in (c :: a, b)
  end.

Definition DOMAIN_RE (s : units) : bool :=
  let '(host, port) := split_colon s in
  len_in 1 253 host && forallb (fun c => is_alnum c || (c =? 46) || (c =? 45)) host
  && match head host, last host with Some a, Some b => is_alnum a && is_alnum b | _, _ => false end
  && match port with Some p => len_in 1 5 p && forallb is_dec p | None => true end.

Definition NONCE_RE (s : units) : bool := len_in 16 128 s && forallb (fun c => is_alnum c || (c =? 95) || (c =? 45)) s.
Definition CHAIN_ID_RE (s : units) : bool :=
  len_in 1 64 s && forallb (fun c => is_alnum c || (c =? 46) || (c =? 95) || (c =? 45)) s.
Definition URI_RE (s : units) : bool := len_in 1 2048 s && forallb (fun c => (0x21 <=? c) && (c <=? 0x7e)) s.
Definition STATEMENT_RE (s : units) : bool :=
  len_in 1 1024 s && forallb (fun c => negb ((c <=? 0x1f) || ((0x7f <=? c) && (c <=? 0x9f)) || (c =? 0x2028) || (c =? 0x2029)
    || ((0x202a <=? c) && (c <=? 0x202e)) || ((0x2066 <=? c) && (c <=? 0x2069)))) s.

(** A template in which [d] stands for a digit. *)
Fixpoint template (t : string) (s : units) : option units :=
  match t, s with
  | EmptyString, _ => Some s
  | String k t', c :: s' =>
      if (if (k =? "d")%char then is_dec c else c =? code k) then template t' s' else None
  | String _ _, [] => None
  end.

(** [Z] or an offset. *)
Definition iso_zone (r : units) : bool :=
  units_eqb r [90]
  || match r with
     | c :: r' => ((c =? 43) || (c =? 45)) && bool_decide (template "dd:dd" r' = Some [])
     | [] => false
     end.

Definition ISO_TIME_RE (s : units) : bool :=
  match template "dddd-dd-ddTdd:dd:dd" s with
  | None | Some [] => false
  | Some (c :: r) =>
      if c =? 46 then let '(d, k) := take_digits r in len_in 1 9 d && iso_zone k
      else iso_zone (c :: r)
  end.

Definition num_nan : number := SpecFloat.S754_nan.
Definition isNaN (x : number) : bool := match x with SpecFloat.S754_nan => true | _ => false end.

Definition isoToMs (s : units) : number := if ISO_TIME_RE s then date_parse s else num_nan.

Definition opt_test {A} (p : A -> bool) (x : option A) : bool := match x with Some a => p a | None => true end.

Definition signInFieldError (f : SignInFields) : option string :=
  if negb (DOMAIN_RE (domain f)) then Some "domain"
  else if negb (units_eqb (address f) (toLower (address f))) || negb (isRougeAddress (address f)) then Some "address"
  else if negb (URI_RE (uri f)) then Some "uri"
  else if negb (opt_test (fun s => STATEMENT_RE s && units_eqb s (utrim s)) (statement f)) then Some "statement"
  else if negb (NONCE_RE (sf_nonce f)) then Some "nonce"
  else if isNaN (isoToMs (issuedAt f)) then Some "issuedAt"
  else if negb (opt_test (fun t => negb (isNaN (isoToMs t))) (expirationTime f)) then Some "expirationTime"
  else if negb (CHAIN_ID_RE (chainId f)) then Some "chainId"
  else if negb (opt_test (fun rs => (length rs <=? 32)%nat && forallb URI_RE rs) (resources f)) then Some "resources"
  else None.

(** ** The sign-in text *)

(** [lines.join("\n")]. *)
Definition join_lines (l : list units) : units := join 10 l.

Definition sign_in_lines (f : SignInFields) : list units :=
  [domain f ++ SIGN_IN_HEADER_SUFFIX; address f; []]
  ++ match statement f with Some s => [s] | None => [] end
  ++ [[]; u "URI: " ++ uri f; u "Version: " ++ SIGN_IN_VERSION; u "Chain ID: " ++ chainId f;
      u "Nonce: " ++ sf_nonce f; u "Issued At: " ++ issuedAt f]
  ++ match expirationTime f with Some t => [u "Expiration Time: " ++ t] | None => [] end
  ++ match resources f with Some rs => u "Resources:" :: map (fun r => u "- " ++ r) rs | None => [] end.

Definition createSignInMessage (f : SignInFields) : res units :=
  match signInFieldError f with
  | Some err => Err ("createSignInMessage: " +:+ err)
  | None => Ok (join_lines (sign_in_lines f))
  end.

(** [text.split("\n")]. *)
Fixpoint split_lines (l : units) : list units :=
  match l with
  | [] => [[]]
  | c :: r => match split_lines r with
              | x :: k => if c =? 10 then [] :: x :: k else (c :: x) :: k
              | [] => [[]]
              end
  end.

(** [s.endsWith(p)]: the text before [p]. *)
Definition strip_end (p s : units) : option units := option_map (@rev Z) (strip (rev p) (rev s)).

(** [take(label)] on the remaining lines. *)
Definition take_field (label : string) (lines : list units) : option (units * list units) :=
  match lines with
  | line :: rest => (fun v => (v, rest)) <$> strip (u label ++ u ": ") line
  | [] => None
  end.

Fixpoint take_resources (lines : list units) : list units * list units :=
  match lines with
  | line :: rest =>
      match strip (u "- ") line with
      | Some r => let '(rs, k) := take_resources rest in (r :: rs, k)
      | None => ([], lines)
      end
  | [] => ([], [])
  end.

(** The lines from [URI:] on. *)
Definition parse_tail (dom addr : units) (stmt : option units) (lines : list units) : option (SignInFields * list units) :=
  '(uri, l1) ← take_field "URI" lines;
  '(version, l2) ← take_field "Version" l1;
  '(chain, l3) ← take_field "Chain ID" l2;
  '(nonce, l4) ← take_field "Nonce" l3;
  '(issued, l5) ← take_field "Issued At" l4;
  if negb (units_eqb version SIGN_IN_VERSION) then None else
  let '(exp, l6) := match take_field "Expiration Time" l5 with
                    | Some (t, k) => (Some t, k)
                    | None => (None, l5)
                    end in
  let '(res, l7) := match l6 with
                    | line :: k => if units_eqb line (u "Resources:")
                                   then let '(rs, k') := take_resources k in (Some rs, k') else (None, l6)
                    | [] => (None, l6)
                    end in
  Some ({| domain := dom; address := addr; uri := uri; statement := stmt; sf_nonce := nonce; issuedAt := issued;
           expirationTime := exp; chainId := chain; resources := res |}, l7).

Definition parse_fields (text : units) : option SignInFields :=
  let lines := split_lines text in
  if (length lines <? 9)%nat then None else
  match lines with
  | l0 :: l1 :: l2 :: l3 :: rest =>
      dom ← strip_end SIGN_IN_HEADER_SUFFIX l0;
      if negb (units_eqb l2 []) then None else
      let '(stmt, from) := if units_eqb l3 [] then (None, l3 :: rest) else (Some l3, rest) in
      match from with
      | e :: body =>
          if negb (units_eqb e []) then None else
          match parse_tail dom l1 stmt body with
          | Some (f, []) => Some f
          | _ => None
          end
      | [] => None
      end
  | _ => None
  end.

Definition parseSignInMessage (text : units) : option SignInFields :=
  if (16384 <? Z.of_nat (length text)) then None else
  match parse_fields text with
  | None => None
  | Some f =>
      match signInFieldError f, createSignInMessage f with
      | None, Ok t => if units_eqb t text then Some f else None
      | _, _ => None
      end
  end.

(** The first line, without a carriage return at its end. *)
Definition claimedSignInDomain (text : units) : option units :=
  let first := default [] (head (split_lines text)) in
  let first := match rev first with 13 :: r => rev r | _ => first end in
  strip_end SIGN_IN_HEADER_SUFFIX first.

(** ** Verification of a sign-in *)

Inductive SignInFailure :=
| malformed_message | invalid_signature | address_mismatch | domain_mismatch | nonce_mismatch
| chain_id_mismatch | issued_in_future | expired | too_old.

Record VerifySignInParams := {
  p_message : units; p_signature : units; p_publicKey : units; expectedDomain : units;
  expectedNonce : units; expectedChainId : units; p_now : number; maxClockSkewMs : option number;
  maxAgeMs : option number;
}.

Inductive VerifySignInResult :=
| Valid (address publicKey : units) (fields : SignInFields)
| Refused (error : SignInFailure).

(** [p_now] is the caller's time or the system clock. *)
Definition verifySignIn (params : VerifySignInParams) : VerifySignInResult :=
  match parseSignInMessage (p_message params) with
  | None => Refused malformed_message
  | Some fields =>
  if negb (verifyMessage (p_publicKey params) (MText (p_message params)) (p_signature params)) then Refused invalid_signature else
  match pubkeyToAddress sha256 (toLower (p_publicKey params)) with
  | Err _ => Refused malformed_message
  | Ok addr =>
  if negb (units_eqb addr (address fields)) then Refused address_mismatch
  else if units_eqb (expectedDomain params) []
       || negb (units_eqb (toLower (domain fields)) (toLower (expectedDomain params))) then Refused domain_mismatch
  else if negb (units_eqb (sf_nonce fields) (expectedNonce params)) then Refused nonce_mismatch
  else if negb (units_eqb (chainId fields) (expectedChainId params)) then Refused chain_id_mismatch
  else if negb (isFinite (p_now params)) then Refused malformed_message
  else
    let now := p_now params in
    let skew := default (num_of_Z 60000) (maxClockSkewMs params) in
    let issued := isoToMs (issuedAt fields) in
    if num_ltb (num_add now skew) issued then Refused issued_in_future
    else if match expirationTime fields with Some t => num_leb (isoToMs t) now | None => false end then Refused expired
    else if match maxAgeMs params with Some m => num_ltb m (num_sub now issued) | None => false end then Refused too_old
    else Valid addr (toLower (p_publicKey params)) fields
  end
  end.
End Signing.

(** ** Wallet side *)

(** [JSON.parse] as far as the wallet looks at its result: the rest of the text, and the keys when
    the value is an object.  One unit of fuel per value or iteration; [parse_fuel] of the parser of
    the finality verifier bounds them in the same way. *)
Fixpoint json_val (fuel : nat) (text : units) : option (option (list units) * units) :=
  match fuel with
  | O => None
  | S fuel =>
      let t := ws text in
      match expect 123 t with
      | Some r =>
          match expect 125 (ws r) with
          | Some r' => Some (Some [], r')
          | None => json_members fuel [] r
          end
      | None =>
          match expect 91 t with
          | Some r =>
              match expect 93 (ws r) with
              | Some r' => Some (None, r')
              | None => json_elements fuel r
              end
          | None => match scalar t with Ok (_, r) => Some (None, r) | Err _ => None end
          end
      end
  end
with json_members (fuel : nat) (keys : list units) (text : units) : option (option (list units) * units) :=
  match fuel with
  | O => None
  | S fuel =>
      t ← expect 34 (ws text);
      match str t with
      | Err _ => None
      | Ok (k, r) =>
          r1 ← expect 58 (ws r);
          '(_, r2) ← json_val fuel r1;
          match expect 44 (ws r2) with
          | Some r3 => json_members fuel (keys ++ [k]) r3
          | None => r3 ← expect 125 (ws r2); Some (Some (keys ++ [k]), r3)
          end
      end
  end
with json_elements (fuel : nat) (text : units) : option (option (list units) * units) :=
  match fuel with
  | O => None
  | S fuel =>
      '(_, r2) ← json_val fuel text;
      match expect 44 (ws r2) with
      | Some r3 => json_elements fuel r3
      | None => r3 ← expect 93 (ws r2); Some (None, r3)
      end
  end.

(** The own keys of [JSON.parse(text)] when it is an object. *)
Definition json_object_keys (text : units) : option (list units) :=
  match json_val (parse_fuel text) text with
  | Some (Some keys, rest) => if bool_decide (ws rest = []) then Some keys else None
  | _ => None
  end.

Definition looksLikeTransactionPayload (message : units) : bool :=
  let trimmed := utrim message in
  if negb (starts_with (u "{") trimmed) then false else
  match json_object_keys trimmed with
  | None => false
  | Some keys =>
      let has k := existsb (units_eqb (u k)) keys in
      has "type" || has "tx_type" || (has "from" && has "timestamp")
  end.

(** Upper-case hexadecimal; the fuel is enough for a code point. *)
Fixpoint hex_upper (fuel : nat) (z : Z) : units :=
  let d := z mod 16 in
  let digit := if d <? 10 then 48 + d else 55 + d in
  match fuel with
  | O => [digit]
  | S f => if z <? 16 then [digit] else hex_upper f (z / 16) ++ [digit]
  end.
Definition pad4 (l : units) : units := repeat 48 (4 - length l) ++ l.

(** The characters that can hide or reorder text (besides C0 controls and DEL). *)
Definition hidden_point (c : Z) : bool :=
  ((0x80 <=? c) && (c <=? 0x9f)) || (c =? 0xad) || (c =? 0x061c) || (c =? 0x180e)
  || ((0x200b <=? c) && (c <=? 0x200f)) || ((0x2028 <=? c) && (c <=? 0x202e))
  || ((0x2060 <=? c) && (c <=? 0x206f)) || (c =? 0xfeff) || ((0xfff9 <=? c) && (c <=? 0xfffb))
  || ((0xe0000 <=? c) && (c <=? 0xe007f)).

(** The code units of a code point. *)
Definition point_units (p : Z) : units :=
  if p <? 0x10000 then [p] else [0xd800 + (p - 0x10000) / 1024; 0xdc00 + (p - 0x10000) mod 1024].

Definition visible_point (c : Z) : units :=
  if c =? 0x0a then [10]
  else if c <? 0x20 then [0x2400 + c]
  else if c =? 0x7f then [0x2421]
  else if hidden_point c then 0x27e8 :: u "U+" ++ pad4 (hex_upper 5 c) ++ [0x27e9]
  else point_units c.

Definition visibleMessageText (message : units) : units := flat_map visible_point (code_points message).

Record SignMessageReview := {
  r_message : units; r_display : units; r_byteLength : Z; r_lineCount : Z; r_originHost : units;
  r_signIn : option SignInFields; r_signInMalformed : bool; r_domainMismatch : bool;
  r_claimedDomain : option units; r_addressMismatch : bool; r_expired : bool;
}.

Section Wallet.
Context `{C : Crypto} `{P : Platform} `{U : Unicode}.

(** A refusal, or what the approval screen shows. *)
Definition reviewSignMessageRequest (message origin : units) (walletAddress : option units) (now : number)
  : res SignMessageReview :=
  if bool_decide (message = []) then Err "signMessage requires a non-empty message"
  else if negb (isWellFormedString message) then Err "message is not well-formed Unicode"
  else if MAX_SIGN_MESSAGE_BYTES <? Z.of_nat (length (utf8 message)) then Err "message is too long"
  else if looksLikeTransactionPayload message then
    Err "signMessage refuses a message that looks like a transaction payload. Use signTransaction to sign a transaction."
  else
    let originHost := match url_host origin with Ok h => toLower h | Err _ => [] end in
    let signIn := parseSignInMessage message in
    let claimed := match signIn with Some f => Some (domain f) | None => claimedSignInDomain message end in
    let expiry := match signIn with Some f => match expirationTime f with Some t => isoToMs t | None => num_nan end
                               | None => num_nan end in
    Ok {| r_message := message; r_display := visibleMessageText message;
          r_byteLength := Z.of_nat (length (utf8 message)); r_lineCount := Z.of_nat (length (split_lines message));
          r_originHost := originHost; r_signIn := signIn;
          r_signInMalformed := match signIn, claimed with None, Some _ => true | _, _ => false end;
          r_domainMismatch := match claimed with
                              | Some d => units_eqb originHost [] || negb (units_eqb (toLower d) originHost)
                              | None => false
                              end;
          r_claimedDomain := claimed;
          r_addressMismatch := match signIn, walletAddress with
                               | Some f, Some a => negb (units_eqb (address f) a)
                               | _, _ => false
                               end;
          r_expired := negb (isNaN expiry) && num_leb expiry now |}.
End Wallet.
