(* ===== verification/MessageClaims.v ===== *)
(** * Claims on message signing

    The sign-in text and its parser are inverse, what a valid sign-in establishes, that signed
    bytes determine the message and are no transaction, and that the text a wallet shows hides
    nothing.
    A sign-in with the toy signature scheme of the finality demonstration shows them at work. *)
From S2P Require Import Prelude JsText JsNum JsUtf16 JsFloat LosslessJson Finality FinalityDemo Address MessageSigning.
Local Open Scope Z_scope.

(** ** Lines *)

Lemma join_lines_cons x y l : join_lines (x :: y :: l) = x ++ 10 :: join_lines (y :: l).
Proof. reflexivity. Qed.

Lemma split_lines_ne l : split_lines l <> [].
Proof. induction l as [|c l IH]; simpl; [done|]. destruct (split_lines l); [done|]. by destruct (c =? 10). Qed.

Lemma split_lines_none l : 10 ∉ l -> split_lines l = [l].
Proof.
  induction l as [|c l IH]; intros H; simpl; [done|]. apply not_elem_of_cons in H as [Hc H].
  rewrite IH by done. by rewrite (proj2 (Z.eqb_neq c 10)).
Qed.

Lemma split_lines_app a b : 10 ∉ a -> split_lines (a ++ 10 :: b) = a :: split_lines b.
Proof.
  induction a as [|c a IH]; intros H; simpl.
  - destruct (split_lines b) eqn:E; [by apply split_lines_ne in E|done].
  - apply not_elem_of_cons in H as [Hc H]. rewrite IH by done. by rewrite (proj2 (Z.eqb_neq c 10)).
Qed.

Lemma split_join l : l <> [] -> Forall (fun x => 10 ∉ x) l -> split_lines (join_lines l) = l.
Proof.
  induction l as [|x [|y l] IH]; intros Hn H; [done| |]; apply Forall_cons in H as [Hx H].
  - unfold join_lines, join. simpl. rewrite app_nil_r. by apply split_lines_none.
  - rewrite join_lines_cons, split_lines_app by done. by rewrite IH.
Qed.

Lemma split_lines_clean l : Forall (fun x => 10 ∉ x) (split_lines l).
Proof.
  induction l as [|c l IH]; simpl; [constructor; [apply not_elem_of_nil|constructor]|].
  destruct (split_lines l) as [|x k]; [constructor; [apply not_elem_of_nil|constructor]|].
  apply Forall_cons in IH as [Hx Hk]. destruct (Z.eqb_spec c 10) as [->|Hc].
  - constructor; [apply not_elem_of_nil|by constructor].
  - constructor; [|done]. apply not_elem_of_cons. by split; [congruence|].
Qed.

Lemma strip_app p x : strip p (p ++ x) = Some x.
Proof. induction p as [|c p IH]; simpl; [done|]. by rewrite Z.eqb_refl. Qed.

Lemma strip_end_app p x : strip_end p (x ++ p) = Some x.
Proof. unfold strip_end. rewrite rev_app_distr, strip_app. simpl. by rewrite rev_involutive. Qed.

(** ** No field holds a line break *)

Lemma clean_forallb (p : Z -> bool) l : p 10 = false -> forallb p l = true -> 10 ∉ l.
Proof. intros Hp H Hin. rewrite forallb_forall in H. apply list_elem_of_In, H in Hin. congruence. Qed.

Lemma clean_app a b : 10 ∉ a -> 10 ∉ b -> 10 ∉ a ++ b.
Proof. intros Ha Hb [?|?]%elem_of_app; by auto. Qed.

Lemma clean_u (s : string) : existsb (Z.eqb 10) (u s) = false -> 10 ∉ u s.
Proof.
  intros H Hin. apply list_elem_of_In in Hin. rewrite <- not_true_iff_false in H. apply H, existsb_exists.
  by exists 10.
Qed.

Lemma split_colon_eq s h p : split_colon s = (h, p) -> s = h ++ match p with Some q => 58 :: q | None => [] end.
Proof.
  revert h p. induction s as [|c s IH]; simpl; intros h p; [by intros [= <- <-]|].
  destruct (Z.eqb_spec c 58) as [->|]; [by intros [= <- <-]|]. destruct (split_colon s) as [a b].
  intros [= <- <-]. by rewrite (IH a b eq_refl) at 1.
Qed.

Lemma clean_domain s : DOMAIN_RE s = true -> 10 ∉ s.
Proof.
  unfold DOMAIN_RE. destruct (split_colon s) as [h p] eqn:E. apply split_colon_eq in E as ->. intros H.
  apply andb_true_iff in H as [[[_ H1]%andb_true_iff _]%andb_true_iff H2].
  apply clean_app; [by apply clean_forallb in H1|]. destruct p as [q|]; [|apply not_elem_of_nil].
  apply andb_true_iff in H2 as [_ H2]. apply not_elem_of_cons. split; [done|]. by apply clean_forallb in H2.
Qed.

Lemma clean_template t s r : template t s = Some r -> existsb (Z.eqb 10) (u t) = false -> 10 ∉ r -> 10 ∉ s.
Proof.
  revert s. induction t as [|k t IH]; intros s H Ht Hr; simpl in H; [by injection H as ->|].
  destruct s as [|c s]; [done|]. unfold u in Ht. cbn [chars list_ascii_of_string map existsb] in Ht.
  apply orb_false_iff in Ht as [Hk Ht]. destruct (if (k =? "d")%char then _ else _) eqn:Ec; [|done].
  apply not_elem_of_cons. split; [|by eapply IH]. intros <-.
  destruct (k =? "d")%char; [done|]. by rewrite Hk in Ec.
Qed.

Lemma clean_zone r : iso_zone r = true -> 10 ∉ r.
Proof.
  unfold iso_zone. intros [H|H]%orb_true_iff.
  - apply units_eqb_true in H as ->. apply not_elem_of_cons. split; [done|apply not_elem_of_nil].
  - destruct r as [|c r]; [done|]. apply andb_true_iff in H as [Hc Ht%bool_decide_eq_true].
    apply not_elem_of_cons. split; [breflect; lia|]. eapply clean_template; [exact Ht|reflexivity|apply not_elem_of_nil].
Qed.

Lemma take_digits_dec l d k : take_digits l = (d, k) -> forallb is_dec d = true.
Proof.
  revert d k. induction l as [|c l IH]; simpl; intros d k; [by intros [= <- <-]|].
  destruct (is_dec c) eqn:E; [|by intros [= <- <-]]. destruct (take_digits l) as [d' k'].
  intros [= <- <-]. simpl. by rewrite E, (IH d' k').
Qed.

Lemma clean_iso s : ISO_TIME_RE s = true -> 10 ∉ s.
Proof.
  unfold ISO_TIME_RE. destruct (template _ s) as [[|c r]|] eqn:Et; [done| |done]. intros H.
  eapply clean_template; [exact Et|reflexivity|]. destruct (Z.eqb_spec c 46) as [->|]; [|by apply clean_zone].
  destruct (take_digits r) as [d k] eqn:Ed. apply andb_true_iff in H as [_ Hz].
  rewrite (take_digits_app _ _ _ Ed). apply not_elem_of_cons. split; [done|].
  apply clean_app; [by eapply clean_forallb, take_digits_dec|by apply clean_zone].
Qed.

(** ** The sign-in text *)

Section SignIn.
Context `{C : Crypto} `{P : Platform} `{U : Unicode}.

Lemma field_error_none f :
  signInFieldError f = None ->
  DOMAIN_RE (domain f) = true /\ URI_RE (uri f) = true /\ opt_test STATEMENT_RE (statement f) = true
  /\ NONCE_RE (sf_nonce f) = true /\ ISO_TIME_RE (issuedAt f) = true /\ opt_test ISO_TIME_RE (expirationTime f) = true
  /\ CHAIN_ID_RE (chainId f) = true /\ opt_test (forallb URI_RE) (resources f) = true.
Proof.
  unfold signInFieldError. intros H.
  assert (forall t, isNaN (isoToMs t) = false -> ISO_TIME_RE t = true) as Ht.
  { intros t. unfold isoToMs. by destruct (ISO_TIME_RE t). }
  destruct (DOMAIN_RE _); [|done]. destruct (negb (units_eqb _ _) || _); [done|]. destruct (URI_RE (uri f)); [|done].
  destruct (opt_test _ (statement f)) eqn:Es; [|done]. destruct (NONCE_RE _); [|done].
  destruct (isNaN (isoToMs (issuedAt f))) eqn:Ei; [done|]. destruct (opt_test _ (expirationTime f)) eqn:Ee; [|done].
  destruct (CHAIN_ID_RE _); [|done]. destruct (opt_test _ (resources f)) eqn:Er; [|done]. repeat split; auto.
  - destruct (statement f); simpl in *; [by apply andb_true_iff in Es as [? _]|done].
  - destruct (expirationTime f); simpl in *; [|done]. by apply Ht, negb_true_iff.
  - destruct (resources f); simpl in *; [by apply andb_true_iff in Er as [_ ?]|done].
Qed.

Lemma clean_len (p : Z -> bool) lo hi l : p 10 = false -> len_in lo hi l && forallb p l = true -> 10 ∉ l.
Proof. intros Hp [_ H]%andb_true_iff. by eapply clean_forallb. Qed.

Lemma sign_in_lines_clean f :
  signInFieldError f = None -> 10 ∉ address f -> Forall (fun x => 10 ∉ x) (sign_in_lines f).
Proof.
  intros (Hd & Hu & Hs & Hn & Hi & He & Hc & Hr)%field_error_none Ha. unfold sign_in_lines.
  assert (forall (k : string) x, existsb (Z.eqb 10) (u k) = false -> 10 ∉ x -> 10 ∉ u k ++ x) as Hk.
  { intros k x Hk Hx. apply clean_app; [by apply clean_u|done]. }
  repeat (apply Forall_app; split).
  - constructor; [apply clean_app; [by apply clean_domain|by apply clean_u]|]. constructor; [done|].
    constructor; [apply not_elem_of_nil|constructor].
  - destruct (statement f); constructor; [by eapply clean_len in Hs|constructor].
  - constructor; [apply not_elem_of_nil|]. constructor; [apply Hk; [done|by eapply clean_len in Hu]|].
    constructor; [by apply Hk, clean_u|]. constructor; [apply Hk; [done|by eapply clean_len in Hc]|].
    constructor; [apply Hk; [done|by eapply clean_len in Hn]|]. constructor; [apply Hk; [done|by apply clean_iso]|constructor].
  - destruct (expirationTime f); constructor; [apply Hk; [done|by apply clean_iso]|constructor].
  - destruct (resources f) as [rs|]; constructor; [by apply clean_u|]. apply Forall_map, Forall_elem.
    intros r Hr'. apply Hk; [done|]. simpl in Hr. rewrite forallb_forall in Hr.
    apply list_elem_of_In, Hr in Hr'. by eapply clean_len in Hr'.
Qed.

Lemma take_field_app (k : string) x rest : take_field k ((u k ++ u ": " ++ x) :: rest) = Some (x, rest).
Proof. unfold take_field. rewrite app_assoc, strip_app. done. Qed.

Lemma take_resources_map rs : take_resources (map (fun r => u "- " ++ r) rs) = (rs, []).
Proof. induction rs as [|r rs IH]; [done|]. cbn [map take_resources]. by rewrite strip_app, IH. Qed.

(** The lines after the blank one. *)
Lemma parse_tail_lines f :
  parse_tail (domain f) (address f) (statement f)
    ([u "URI: " ++ uri f; u "Version: " ++ SIGN_IN_VERSION; u "Chain ID: " ++ chainId f;
      u "Nonce: " ++ sf_nonce f; u "Issued At: " ++ issuedAt f]
     ++ match expirationTime f with Some t => [u "Expiration Time: " ++ t] | None => [] end
     ++ match resources f with Some rs => u "Resources:" :: map (fun r => u "- " ++ r) rs | None => [] end)
  = Some (f, []).
Proof.
  destruct f as [dm ad ur st nc ia ex ch rs]; cbn [domain address uri statement sf_nonce issuedAt expirationTime chainId resources].
  unfold parse_tail. cbn [app].
  change (u "URI: ") with (u "URI" ++ u ": "). change (u "Version: ") with (u "Version" ++ u ": ").
  change (u "Chain ID: ") with (u "Chain ID" ++ u ": "). change (u "Nonce: ") with (u "Nonce" ++ u ": ").
  change (u "Issued At: ") with (u "Issued At" ++ u ": ").
  change (u "Expiration Time: ") with (u "Expiration Time" ++ u ": "). rewrite <- !app_assoc.
  do 5 (rewrite take_field_app; cbn [mbind option_bind]). rewrite (proj2 (units_eqb_true _ _) eq_refl). cbn [negb].
  destruct ex as [t|]; cbn [app]; [rewrite <- app_assoc, take_field_app|]; destruct rs as [rs|]; try reflexivity.
  - rewrite (proj2 (units_eqb_true _ _) eq_refl), take_resources_map. done.
  - change (take_field "Expiration Time" (u "Resources:" :: map (fun r => u "- " ++ r) rs)) with
      (@None (units * list units)). cbv iota beta zeta.
    rewrite (proj2 (units_eqb_true _ _) eq_refl), take_resources_map. done.
Qed.

Lemma parse_fields_lines f :
  signInFieldError f = None -> 10 ∉ address f -> parse_fields (join_lines (sign_in_lines f)) = Some f.
Proof.
  intros He Ha. unfold parse_fields. rewrite split_join; [|done|by apply sign_in_lines_clean].
  pose proof (parse_tail_lines f) as Ht. pose proof (field_error_none f He) as (_ & _ & Hs & _).
  unfold sign_in_lines. destruct (Nat.ltb_spec (length (sign_in_lines f)) 9) as [Hl|_].
  { exfalso. unfold sign_in_lines in Hl. rewrite !length_app in Hl. cbn [length] in Hl. lia. }
  destruct (statement f) as [t|] eqn:Es; cbn [app] in *; rewrite strip_end_app; cbn [mbind option_bind];
    change (units_eqb [] []) with true; cbn [negb].
  - assert (t <> []) as Hne by (by intros ->). destruct (units_eqb t []) eqn:Et; [by apply units_eqb_true in Et|].
    change (units_eqb [] []) with true. cbn [negb]. by rewrite Ht.
  - change (units_eqb [] []) with true. cbn [negb]. by rewrite Ht.
Qed.

Lemma parse_fields_address text f : parse_fields text = Some f -> 10 ∉ address f.
Proof.
  unfold parse_fields. pose proof (split_lines_clean text) as Hc.
  destruct (split_lines text) as [|l0 [|l1 [|l2 [|l3 rest]]]]; cbv zeta; try (by destruct (_ <? 9)%nat).
  apply Forall_cons in Hc as [_ [H1 _]%Forall_cons].
  destruct (_ <? 9)%nat; [done|]. destruct (strip_end _ l0) as [dom|]; cbn [mbind option_bind]; [|done].
  destruct (negb _); [done|]. destruct (if units_eqb l3 [] then _ else _) as [stmt [|e body]]; [done|].
  destruct (negb _); [done|]. destruct (parse_tail dom l1 stmt body) as [[g [|]]|] eqn:Ep; try done.
  intros [= <-]. unfold parse_tail in Ep. repeat case_match; simplify_eq; simpl; try done.
  all: repeat (match type of Ep with mbind _ ?x = _ => destruct x as [[? ?]|]; cbn [mbind option_bind] in Ep; [|done] end).
  all: repeat case_match; by simplify_eq.
Qed.

Lemma parse_sign_in_iff text f :
  parseSignInMessage text = Some f <->
  createSignInMessage f = Ok text /\ Z.of_nat (length text) <= 16384 /\ 10 ∉ address f.
Proof.
  unfold parseSignInMessage. split.
  - destruct (16384 <? _) eqn:El; [done|]. breflect. destruct (parse_fields text) as [g|] eqn:Ep; [|done].
    destruct (signInFieldError g); [done|]. destruct (createSignInMessage g) as [t|] eqn:Ec; [|done].
    destruct (units_eqb t text) eqn:Et; [|done]. apply units_eqb_true in Et as ->. intros [= <-].
    split; [done|]. split; [lia|by eapply parse_fields_address].
  - intros (Hc & Hl & Ha). destruct (Z.ltb_spec 16384 (Z.of_nat (length text))); [lia|].
    pose proof Hc as Hc'. unfold createSignInMessage in Hc'. destruct (signInFieldError f) eqn:He; [done|].
    assert (text = join_lines (sign_in_lines f)) as -> by congruence. rewrite parse_fields_lines, He, Hc by done. by rewrite (proj2 (units_eqb_true _ _) eq_refl).
Qed.


(** A sign-in is valid exactly when every rule holds: the text is the canonical text of the
    fields, the signature over its prefixed bytes verifies under the public key, the address in
    it is the address of that key, its domain (up to case), nonce and chain id are the expected
    ones, the time given is finite, and the message is neither from the future (beyond the skew)
    nor expired nor older than the limit. *)
Theorem verifySignIn_exact params addr pk f :
  verifySignIn params = Valid addr pk f <->
  let now := p_now params in
  let issued := isoToMs (issuedAt f) in
  addr = address f /\ pk = toLower (p_publicKey params)
  /\ createSignInMessage f = Ok (p_message params)
  /\ Z.of_nat (length (p_message params)) <= 16384 /\ 10 ∉ address f
  /\ verifyMessage (p_publicKey params) (MText (p_message params)) (p_signature params) = true
  /\ pubkeyToAddress sha256 (toLower (p_publicKey params)) = Ok (address f)
  /\ expectedDomain params <> [] /\ toLower (domain f) = toLower (expectedDomain params)
  /\ sf_nonce f = expectedNonce params /\ chainId f = expectedChainId params
  /\ isFinite now = true
  /\ num_ltb (num_add now (default (num_of_Z 60000) (maxClockSkewMs params))) issued = false
  /\ (forall t, expirationTime f = Some t -> num_leb (isoToMs t) now = false)
  /\ (forall m, maxAgeMs params = Some m -> num_ltb m (num_sub now issued) = false).
Proof.
  cbv zeta. unfold verifySignIn. split.
  - destruct (parseSignInMessage _) as [g|] eqn:Ep; [|done]. apply parse_sign_in_iff in Ep as (Hc & Hl & Ha).
    destruct (verifyMessage _ _ _); cbn [negb]; [|done]. destruct (pubkeyToAddress _ _) as [a|]; [|done].
    destruct (units_eqb a _) eqn:E1; cbn [negb]; [|done]. destruct (units_eqb (expectedDomain params) []) eqn:E2; [done|].
    cbn [orb]. destruct (units_eqb (toLower _) _) eqn:E3; cbn [negb]; [|done].
    destruct (units_eqb (sf_nonce g) _) eqn:E4; cbn [negb]; [|done].
    destruct (units_eqb (chainId g) _) eqn:E5; cbn [negb]; [|done].
    destruct (isFinite _) eqn:E6; cbn [negb]; [|done]. cbv zeta. destruct (num_ltb _ (isoToMs (issuedAt g))) eqn:E7; [done|].
    destruct (match expirationTime g with Some _ => _ | None => _ end) eqn:E8; [done|].
    destruct (match maxAgeMs params with Some _ => _ | None => _ end) eqn:E9; [done|].
    intros [= <- <- <-]. apply units_eqb_true in E1, E3, E4, E5. subst a. repeat split; try done.
    + intros E. rewrite E in E2. by rewrite (proj2 (units_eqb_true _ _) eq_refl) in E2.
    + intros t Ht. by rewrite Ht in E8.
    + intros m Hm. by rewrite Hm in E9.
  - intros (-> & -> & Hc & Hl & Ha & Hv & Hp & Hd & Hd' & Hn & Hch & Hf & H1 & H2 & H3).
    rewrite (proj2 (parse_sign_in_iff (p_message params) f)) by done. rewrite Hv, Hp, Hd', Hn, Hch, Hf. cbn [negb].
    rewrite !(proj2 (units_eqb_true _ _) eq_refl). cbn [negb].
    destruct (units_eqb (expectedDomain params) []) eqn:E; [by apply units_eqb_true in E|]. cbn [orb]. cbv zeta. rewrite H1.
    assert (match expirationTime f with Some t => num_leb (isoToMs t) (p_now params) | None => false end = false) as ->
      by (destruct (expirationTime f); auto).
    by assert (match maxAgeMs params with Some m => num_ltb m (num_sub (p_now params) (isoToMs (issuedAt f))) | None => false end
      = false) as -> by (destruct (maxAgeMs params); auto).
Qed.
End SignIn.

(** ** Code points *)

Definition scalar_point (p : Z) : Prop := 0 <= p < 0xd800 \/ 0xe000 <= p < 0x110000.

Lemma lead_trail_range c : (is_lead c = true <-> 0xd800 <= c <= 0xdbff) /\ (is_trail c = true <-> 0xdc00 <= c <= 0xdfff).
Proof. unfold is_lead, is_trail. rewrite !andb_true_iff, !Z.leb_le. done. Qed.

Lemma scalar_no_surrogate p : scalar_point p -> is_lead p = false /\ is_trail p = false.
Proof. unfold scalar_point, is_lead, is_trail. intros. split; lia. Qed.

Lemma code_points_cons2 c t r :
  code_points (c :: t :: r) =
    if is_lead c then if is_trail t then (c - 0xd800) * 1024 + (t - 0xdc00) + 0x10000 :: code_points r
                      else c :: code_points (t :: r)
    else c :: code_points (t :: r).
Proof. reflexivity. Qed.

(** A well-formed text is made of the units of its code points, which are scalar values. *)
Lemma code_points_wf s :
  Forall is_unit s -> isWellFormedString s = true ->
  Forall scalar_point (code_points s) /\ flat_map point_units (code_points s) = s.
Proof.
  induction s as [|c|c t r IH1 IH2] using units_ind2; intros Hu Hw; [done| |].
  - apply Forall_cons in Hu as [Hc _]. simpl in Hw |- *. destruct (is_lead c) eqn:El; [done|].
    destruct (is_trail c) eqn:Et; [done|]. unfold is_lead, is_trail, is_unit in *. simpl. unfold point_units.
    destruct (Z.ltb_spec c 0x10000); [|lia]. split; [|done]. constructor; [unfold scalar_point; lia|constructor].
  - apply Forall_cons in Hu as [Hc Hu]. rewrite code_points_cons2. cbn [isWellFormedString] in Hw. destruct (is_lead c) eqn:El.
    + apply andb_true_iff in Hw as [Ht Hw]. rewrite Ht. apply Forall_cons in Hu as [Hut Hu].
      destruct (IH2 Hu Hw) as [Hs He]. apply lead_trail_range in El, Ht. split.
      * constructor; [unfold scalar_point; lia|done].
      * cbn [flat_map]. rewrite He. unfold point_units. destruct (Z.ltb_spec ((c - 0xd800) * 1024 + (t - 0xdc00) + 0x10000) 0x10000); [lia|].
        replace ((c - 0xd800) * 1024 + (t - 0xdc00) + 0x10000 - 0x10000) with ((t - 0xdc00) + (c - 0xd800) * 1024) by lia.
        rewrite Z.div_add, Z.mod_add, Z.div_small, Z.mod_small by lia. cbn [app]. f_equal; [lia|]. f_equal. lia.
    + apply andb_true_iff in Hw as [Ht%negb_true_iff Hw]. destruct (IH1 Hu Hw) as [Hs He].
      unfold is_lead, is_trail, is_unit in El, Ht, Hc. split.
      * constructor; [unfold scalar_point; lia|done].
      * cbn [flat_map]. rewrite He. unfold point_units.
        destruct (Z.ltb_spec c 0x10000); [done|lia].
Qed.

Lemma code_points_point p rest : scalar_point p -> code_points (point_units p ++ rest) = p :: code_points rest.
Proof.
  intros Hp. unfold point_units. destruct (Z.ltb_spec p 0x10000) as [Hlt|Hge].
  - cbn [app code_points]. by rewrite (proj1 (scalar_no_surrogate p Hp)).
  - unfold scalar_point in Hp. cbn [app code_points].
    pose proof (Z.div_mod (p - 0x10000) 1024 ltac:(lia)). pose proof (Z.mod_pos_bound (p - 0x10000) 1024 ltac:(lia)).
    rewrite (proj2 (proj1 (lead_trail_range _))), (proj2 (proj2 (lead_trail_range _))) by lia. f_equal. lia.
Qed.

Lemma code_points_flat ps : Forall scalar_point ps -> code_points (flat_map point_units ps) = ps.
Proof. induction 1 as [|p ps Hp _ IH]; [done|]. cbn [flat_map]. by rewrite code_points_point, IH. Qed.

(** UTF-8 of a code point is a prefix code. *)
Lemma utf8_point_inj p q x y :
  0 <= p < 0x110000 -> 0 <= q < 0x110000 -> utf8_point p ++ x = utf8_point q ++ y -> p = q /\ x = y.
Proof.
  intros Hp Hq. unfold utf8_point.
  destruct (Z.ltb_spec p 0x80), (Z.ltb_spec p 0x800), (Z.ltb_spec p 0x10000); try lia;
  destruct (Z.ltb_spec q 0x80), (Z.ltb_spec q 0x800), (Z.ltb_spec q 0x10000); try lia;
  cbn [app]; intros E; injection E; intros; subst; split; (done || (Z.to_euclidean_division_equations; lia)).
Qed.

Lemma utf8_scalars s :
  Forall is_unit s -> isWellFormedString s = true -> utf8 s = flat_map utf8_point (code_points s).
Proof.
  intros Hu Hw. destruct (code_points_wf s Hu Hw) as [Hs _]. unfold utf8. clear Hu Hw.
  induction Hs as [|p ps Hp _ IH]; [done|]. cbn [flat_map]. rewrite IH.
  destruct (scalar_no_surrogate p Hp) as [-> ->]. done.
Qed.

(** UTF-8 determines a well-formed text. *)
Lemma utf8_inj s t :
  Forall is_unit s -> Forall is_unit t -> isWellFormedString s = true -> isWellFormedString t = true ->
  utf8 s = utf8 t -> s = t.
Proof.
  intros Hs Ht Ws Wt. rewrite !utf8_scalars by done.
  destruct (code_points_wf s Hs Ws) as [Ps Es], (code_points_wf t Ht Wt) as [Pt Et].
  rewrite <- Es, <- Et, !code_points_flat by done. generalize dependent (code_points t).
  generalize dependent (code_points s). clear. intros ps Hps _ qs Hqs _ E. f_equal. revert qs Hqs E.
  assert (forall p x, utf8_point p ++ x <> []) as Hne.
  { intros p x. unfold utf8_point. by repeat case_match. }
  assert (forall p, scalar_point p -> 0 <= p < 0x110000) as Hr by (unfold scalar_point; lia).
  induction Hps as [|p ps Hp _ IH]; intros [|q qs] Hqs E; cbn [flat_map] in E; try done.
  - symmetry in E. by apply Hne in E.
  - by apply Hne in E.
  - apply Forall_cons in Hqs as [Hq Hqs]. apply utf8_point_inj in E as [-> E]; [|by apply Hr..].
    f_equal. by apply IH.
Qed.

(** ** Signed bytes *)

Lemma signing_bytes_eq b : signing_head (length b) ++ b = 25 :: u "RougeChain Signed Message:" ++ 10 :: udec (Z.of_nat (length b)) ++ 10 :: b.
Proof.
  unfold signing_head. rewrite utf8_ascii.
  - unfold SIGNED_MESSAGE_PREFIX. by rewrite <- !app_comm_cons, <- !app_assoc.
  - repeat (apply Forall_app; split).
    + unfold SIGNED_MESSAGE_PREFIX, is_ascii. vm_compute. repeat constructor; congruence.
    + eapply Forall_impl; [apply udec_digits; lia|]. intros c Hc. unfold is_dec in Hc. unfold is_ascii. lia.
    + apply Forall_singleton. unfold is_ascii. lia.
Qed.

(** The signed bytes determine the message and are never a transaction: they start with the
    byte 0x19, which starts no JSON document, no network-bound transaction and no finality vote;
    two messages with the same signed bytes have the same bytes, and two texts are equal. *)
Theorem signing_bytes_sound m m' x :
  messageSigningBytes m = Ok x -> messageSigningBytes m' = Ok x ->
  head x = Some 0x19 /\ messageToBytes m = messageToBytes m'
  /\ (forall s s', m = MText s -> m' = MText s' -> Forall is_unit s -> Forall is_unit s' -> s = s').
Proof.
  unfold messageSigningBytes. destruct (messageToBytes m) as [b|] eqn:Eb; [|done].
  destruct (messageToBytes m') as [b'|] eqn:Eb'; [|done]. cbn [res_bind]. rewrite !signing_bytes_eq.
  intros [= <-] [= E]. split; [done|].
  assert (forall n, 10 ∉ udec (Z.of_nat n)) as Hd.
  { intros n Hin. pose proof (udec_digits (Z.of_nat n) ltac:(lia)) as H. rewrite Forall_elem in H. by apply H in Hin. }
  apply split_sep in E as [_ ->]; [|by apply Hd..].
  split; [done|]. intros s s' -> -> Hs Hs'. simpl in Eb, Eb'.
  destruct (isWellFormedString s) eqn:W; [|done]. destruct (isWellFormedString s') eqn:W'; [|done].
  apply utf8_inj; try done. congruence.
Qed.

(** ** What the wallet shows *)

(** A code point that neither hides nor reorders text; the line break stays. *)
Definition visible (p : Z) : Prop := p = 10 \/ 0x20 <= p /\ p <> 0x7f /\ hidden_point p = false.

Lemma hex_upper_range fuel z : 0 <= z -> Forall (fun d => 48 <= d <= 57 \/ 65 <= d <= 70) (hex_upper fuel z).
Proof.
  revert z. induction fuel as [|f IH]; intros z Hz; cbn [hex_upper]; cbv zeta;
    pose proof (Z.mod_pos_bound z 16 ltac:(lia)) as Hm.
  - constructor; [|constructor]. destruct (Z.ltb_spec (z mod 16) 10); lia.
  - destruct (z <? 16); [|apply Forall_app; split; [apply IH, Z.div_pos; lia|]];
      (constructor; [destruct (Z.ltb_spec (z mod 16) 10); lia|constructor]).
Qed.

(** What replaces a code point is made of visible code points. *)
Lemma visible_point_spec p :
  scalar_point p ->
  exists ps, visible_point p = flat_map point_units ps /\ Forall (fun q => scalar_point q /\ visible q) ps.
Proof.
  intros Hp. assert (forall l, Forall (fun q => 0x20 <= q < 0x7f \/ 0x2400 <= q <= 0x2421 \/ 0x27e8 <= q <= 0x27e9) l ->
    exists ps, l = flat_map point_units ps /\ Forall (fun q => scalar_point q /\ visible q) ps) as Hplain.
  { intros l Hl. exists l. split.
    - induction Hl as [|q l Hq _ IH]; [done|]. cbn [flat_map]. rewrite <- IH. unfold point_units.
      destruct (Z.ltb_spec q 0x10000); [done|lia].
    - eapply Forall_impl; [exact Hl|]. intros q Hq. cbv beta in Hq. unfold scalar_point, visible, hidden_point. lia. }
  unfold visible_point. destruct (Z.eqb_spec p 10) as [->|H10].
  { exists [10]. split; [done|]. apply Forall_singleton. unfold scalar_point, visible. lia. }
  destruct (Z.ltb_spec p 0x20); [apply Hplain; apply Forall_singleton; unfold scalar_point in Hp; lia|].
  destruct (Z.eqb_spec p 0x7f); [apply Hplain, Forall_singleton; lia|]. destruct (hidden_point p) eqn:Eh.
  - apply Hplain. constructor; [lia|]. repeat (apply Forall_app; split).
    + change (u "U+") with [85; 43]. constructor; [lia|]. apply Forall_singleton. lia.
    + apply Forall_elem. intros q Hq%list_elem_of_In%repeat_spec. lia.
    + eapply Forall_impl; [apply hex_upper_range; unfold scalar_point in Hp; lia|]. intros q Hq. cbv beta in Hq. lia.
    + apply Forall_singleton. lia.
  - exists [p]. split; [by rewrite <- (app_nil_r (point_units p))|]. apply Forall_singleton. unfold visible. by auto.
Qed.

(** What the approval screen shows hides nothing: in the displayed form of a (well-formed)
    message every code point is visible - no control character but the line break, no zero-width,
    bidirectional, separator or tag character is left - and a message made of visible characters
    is shown unchanged. *)
Theorem display_hides_nothing s :
  Forall is_unit s -> isWellFormedString s = true ->
  Forall visible (code_points (visibleMessageText s))
  /\ (Forall visible (code_points s) -> visibleMessageText s = s).
Proof.
  intros Hu Hw. destruct (code_points_wf s Hu Hw) as [Hs He]. unfold visibleMessageText. split.
  - clear Hu Hw He. assert (exists ps, flat_map visible_point (code_points s) = flat_map point_units ps
      /\ Forall (fun q => scalar_point q /\ visible q) ps) as (ps & -> & Hps).
    { induction Hs as [|p l Hp _ (ps & E & H)]; [by exists []|].
      destruct (visible_point_spec p Hp) as (qs & E' & H'). exists (qs ++ ps). cbn [flat_map].
      rewrite flat_map_app, E, E'. split; [done|]. by apply Forall_app. }
    rewrite code_points_flat; (eapply Forall_impl; [exact Hps|]); by intros q [? ?].
  - intros Hv. rewrite <- He at 2. clear Hu Hw He Hs. induction Hv as [|p l Hp _ IH]; [done|].
    cbn [flat_map]. rewrite IH. f_equal. unfold visible_point. destruct Hp as [->|(H1 & H2 & H3)]; [done|].
    destruct (Z.eqb_spec p 10) as [->|]; [done|]. destruct (Z.ltb_spec p 0x20); [lia|].
    destruct (Z.eqb_spec p 0x7f); [done|]. by rewrite H3.
Qed.

(** ** Sign-in on concrete inputs *)

Module SignInDemo.
Import FinDemo AddressDemo.

#[export] Instance ToyPlatform : Platform := {|
  date_parse := fun s => num_of_Z (digits_val (take 4 s));
  url_host := fun s => Ok s;
  ml_dsa65_sign := fun m sk => Ok (tag sk m :: repeat 0 3308);
|}.

Definition my_address : units := unwrap (pubkeyToAddress sha256 (hexkey 1)).

Definition fields : SignInFields := {|
  domain := u "tickets.example.com"; address := my_address; uri := u "https://tickets.example.com/login";
  statement := Some (u "Sign in to see your tickets."); sf_nonce := u "4f9c2d1e8a7b6c5d";
  issuedAt := u "2026-10-06T12:00:00.000Z"; expirationTime := Some (u "2027-10-06T12:10:00.000Z");
  chainId := u "rougechain-mainnet-1"; resources := Some [u "https://tickets.example.com/events/42"] |}.

Definition text : units := unwrap (createSignInMessage fields).
Definition signature : units := unwrap (signMessage (hexkey 1) (MText text)).

Definition params : VerifySignInParams := {|
  p_message := text; p_signature := signature; p_publicKey := hexkey 1; expectedDomain := u "Tickets.Example.com";
  expectedNonce := u "4f9c2d1e8a7b6c5d"; expectedChainId := u "rougechain-mainnet-1"; p_now := num_of_Z 2026;
  maxClockSkewMs := None; maxAgeMs := Some (num_of_Z 10) |}.

Example sign_in_accepted : verifySignIn params = Valid my_address (hexkey 1) fields.
Proof. vm_compute. reflexivity. Qed.

(** The same message replayed after its expiration time is refused. *)
Example sign_in_expired :
  verifySignIn {| p_message := text; p_signature := signature; p_publicKey := hexkey 1;
    expectedDomain := u "tickets.example.com"; expectedNonce := u "4f9c2d1e8a7b6c5d";
    expectedChainId := u "rougechain-mainnet-1"; p_now := num_of_Z 2027; maxClockSkewMs := None; maxAgeMs := None |}
  = Refused expired.
Proof. vm_compute. reflexivity. Qed.

(** [isRougeAddress] accepts a text whose human-readable part is not the chain's, here one with a
    line break, because [bech32mDecode] takes the last separator and checks no prefix. *)
Example other_prefix_accepted :
  let s := unwrap (bech32mEncode (u "rouge1" ++ [10]) []) in
  isRougeAddress s = true /\ bech32mDecode s = Ok (u "rouge1" ++ [10], []).
Proof. vm_compute. by split. Qed.

Lemma signing_bytes_sound_witness :
  head (match messageSigningBytes (MText (u "hi")) with Ok x => x | Err _ => [] end) = Some 0x19
  /\ messageToBytes (MText (u "hi")) = messageToBytes (MBytes [104; 105])
  /\ (forall s s', MText (u "hi") = MText s -> MBytes [104; 105] = MText s' -> Forall is_unit s -> Forall is_unit s' -> s = s').
Proof. apply signing_bytes_sound; vm_compute; reflexivity. Defined.

Lemma display_hides_nothing_witness :
  let s := u "pay" ++ [0x202e] ++ u "evil" in
  Forall visible (code_points (visibleMessageText s)) /\ (Forall visible (code_points s) -> visibleMessageText s = s).
Proof.
  apply display_hides_nothing; [|reflexivity]. apply (bool_decide_unpack (Forall (fun c => 0 <= c < 65536) _)).
  vm_compute. exact Logic.I.
Defined.
End SignInDemo.
