(* ===== verification/CanonicalJson.v ===== *)
(** * Canonical serialisation of payloads

    The signed bytes of a payload determine, and are determined by, its members: neither the order
    in which members were written nor anything outside JSON matters, and nothing else is lost. *)
From S2P Require Import Prelude JsText JsNum JsUtf16 JsFloat LosslessJson JsValue Finality Address MessageSigning MessageClaims.
From stdpp Require Import sorting.
Local Open Scope Z_scope.

(** ** Sorting members *)

Definition member_le {A} (x y : units * A) : Prop := units_leb (fst x) (fst y) = true.

Lemma units_leb_total a b : units_leb a b = true \/ units_leb b a = true.
Proof.
  revert b. induction a as [|x a IH]; intros [|y b]; simpl; auto.
  destruct (Z.lt_trichotomy x y) as [H|[->|H]].
  - left. by rewrite (proj2 (Z.ltb_lt x y)).
  - rewrite Z.ltb_irrefl, Z.eqb_refl. simpl. apply IH.
  - right. by rewrite (proj2 (Z.ltb_lt y x)).
Qed.

Lemma units_leb_trans a b c : units_leb a b = true -> units_leb b c = true -> units_leb a c = true.
Proof.
  revert b c. induction a as [|x a IH]; intros [|y b] [|z c]; simpl; try done.
  rewrite !orb_true_iff, !andb_true_iff, !Z.ltb_lt, !Z.eqb_eq.
  intros [H|[-> H]] [H'|[-> H']]; [left; lia|left; lia|left; lia|right; split; [done|by eapply IH]].
Qed.

Lemma units_leb_antisym a b : units_leb a b = true -> units_leb b a = true -> a = b.
Proof.
  revert b. induction a as [|x a IH]; intros [|y b]; simpl; try done.
  rewrite !orb_true_iff, !andb_true_iff, !Z.ltb_lt, !Z.eqb_eq.
  intros [H|[-> H]] [H'|[E H']]; try lia. f_equal. by apply IH.
Qed.

Lemma insert_member_perm {A} (x : units * A) l : insert_member x l ≡ₚ x :: l.
Proof. induction l as [|y r IH]; simpl; [done|]. destruct (units_leb _ _); [done|]. rewrite IH. constructor. Qed.

Lemma sort_members_perm {A} (l : list (units * A)) : sort_members l ≡ₚ l.
Proof. unfold sort_members. induction l as [|x l IH]; simpl; [done|]. by rewrite insert_member_perm, IH. Qed.

Lemma insert_member_sorted {A} (x : units * A) l :
  StronglySorted member_le l -> StronglySorted member_le (insert_member x l).
Proof.
  induction 1 as [|y l Hl IH Hy]; simpl; [by repeat constructor|]. destruct (units_leb (fst x) (fst y)) eqn:E.
  - constructor; [by constructor|]. constructor; [done|]. eapply Forall_impl; [exact Hy|].
    intros z Hz. by eapply units_leb_trans.
  - constructor; [done|]. rewrite insert_member_perm. constructor; [|done].
    destruct (units_leb_total (fst x) (fst y)) as [H|H]; [congruence|exact H].
Qed.

Lemma sort_members_sorted {A} (l : list (units * A)) : StronglySorted member_le (sort_members l).
Proof. unfold sort_members. induction l; simpl; [constructor|by apply insert_member_sorted]. Qed.

Lemma nodup_keys_elem {A} (k : units) (v w : A) (l : list (units * A)) : NoDup (map fst l) -> (k, v) ∈ l -> (k, w) ∈ l -> v = w.
Proof.
  induction l as [|[x y] l IH]; simpl; intros Hn Hv Hw; [by apply elem_of_nil in Hv|].
  apply NoDup_cons in Hn as [Hx Hn].
  assert (forall z, (k, z) ∈ l -> k ∈ map fst l) as Hin by (intros z Hz; apply list_elem_of_fmap; by exists (k, z)).
  apply elem_of_cons in Hv as [Ev|Hv]; apply elem_of_cons in Hw as [Ew|Hw].
  - congruence.
  - injection Ev as -> ->. by destruct Hx; eapply Hin.
  - injection Ew as -> ->. by destruct Hx; eapply Hin.
  - by apply IH.
Qed.

(** With distinct keys there is one sorted order. *)
Lemma sorted_members_unique {A} (l l' : list (units * A)) :
  NoDup (map fst l) -> l ≡ₚ l' -> StronglySorted member_le l -> StronglySorted member_le l' -> l = l'.
Proof.
  intros Hn Hp. intros Hl Hl'. eapply (StronglySorted_unique_strong member_le); [|done..].
  intros [k v] [k' v'] Hx Hy H1 H2. rewrite <- Hp in Hy. unfold member_le in *. simpl in *.
  assert (k = k') as -> by (by apply units_leb_antisym). f_equal. by eapply nodup_keys_elem.
Qed.

Lemma sort_members_eq {A} (l l' : list (units * A)) :
  NoDup (map fst l) -> l ≡ₚ l' -> sort_members l = sort_members l'.
Proof.
  intros Hn Hp. apply sorted_members_unique; [by rewrite sort_members_perm| |apply sort_members_sorted..].
  by rewrite !sort_members_perm.
Qed.

Lemma insert_member_map {A B} (f : A -> B) x l :
  insert_member (on_snd f x) (map (on_snd f) l) = map (on_snd f) (insert_member x l).
Proof. induction l as [|y r IH]; simpl; [done|]. destruct (units_leb _ _); simpl; [done|]. by rewrite IH. Qed.

Lemma sort_members_map {A B} (f : A -> B) l : sort_members (map (on_snd f) l) = map (on_snd f) (sort_members l).
Proof. unfold sort_members. induction l as [|x l IH]; simpl; [done|]. by rewrite IH, insert_member_map. Qed.

(** ** Lookup *)

Lemma oget_notin {A} k (o : list (units * A)) : k ∉ map fst o -> oget k o = None.
Proof.
  induction o as [|[x w] o IH]; simpl; [done|]. intros [Hne Hn]%not_elem_of_cons. unfold units_eqb.
  rewrite bool_decide_false by done. by apply IH.
Qed.

Lemma oget_in {A} k (v : A) o : NoDup (map fst o) -> oget k o = Some v <-> (k, v) ∈ o.
Proof.
  intros Hn. split.
  - clear Hn. induction o as [|[x w] o IH]; simpl; [done|]. unfold units_eqb. case_bool_decide as E.
    + subst. intros [= ->]. left.
    + intros H. right. by apply IH.
  - induction o as [|[x w] o IH]; simpl; [by intros ?%elem_of_nil|]. apply NoDup_cons in Hn as [Hx Hn].
    intros [[= -> ->]|Hin]%elem_of_cons; unfold units_eqb; [by rewrite bool_decide_true|].
    rewrite bool_decide_false; [by apply IH|]. intros ->. apply Hx, list_elem_of_fmap. by exists (x, v).
Qed.

Lemma oget_perm {A} k (o o' : list (units * A)) : NoDup (map fst o) -> o ≡ₚ o' -> oget k o = oget k o'.
Proof.
  intros Hn Hp. apply option_eq. intros v. rewrite !oget_in; [by rewrite Hp|by rewrite <- Hp|done].
Qed.

Lemma oget_map {A B} (f : A -> B) k o : oget k (map (on_snd f) o) = f <$> oget k o.
Proof. induction o as [|[x w] o IH]; simpl; [done|]. by destruct (units_eqb k x). Qed.

(** Lists of members with distinct keys that agree on every lookup have the same members. *)
Lemma members_same {A} (o o' : list (units * A)) :
  NoDup (map fst o) -> NoDup (map fst o') -> (forall k, oget k o = oget k o') -> o ≡ₚ o'.
Proof.
  intros Hn Hn' Hg. apply NoDup_Permutation.
  - by eapply NoDup_fmap_1.
  - by eapply NoDup_fmap_1.
  - intros [k v]. by rewrite <- !oget_in, Hg.
Qed.

(** ** Equality of JSON values: the same members, in any order *)

Inductive json_eq : LosslessJson -> LosslessJson -> Prop :=
| eq_null : json_eq LNull LNull
| eq_bool b : json_eq (LBool b) (LBool b)
| eq_str s : json_eq (LStr s) (LStr s)
| eq_num raw : json_eq (LNum raw) (LNum raw)
| eq_arr l l' : Forall2 json_eq l l' -> json_eq (LArr l) (LArr l')
| eq_obj o o' : (forall k, option_Forall2 json_eq (oget k o) (oget k o')) -> json_eq (LObj o) (LObj o').

(** Values with distinct keys, strings of code units and number texts, in any member order. *)
Fixpoint wfb (v : LosslessJson) : Prop :=
  match v with
  | LNull | LBool _ => True
  | LStr s => Forall is_unit s
  | LNum raw => num_text raw = true
  | LArr l => (fix all l := match l with [] => True | x :: r => wfb x /\ all r end) l
  | LObj o =>
      NoDup (map fst o) /\
      (fix all o := match o with
                    | [] => True
                    | (k, x) :: r => Forall is_unit k /\ wfb x /\ all r
                    end) o
  end.

Lemma wfb_arr l : wfb (LArr l) <-> Forall wfb l.
Proof.
  simpl. split.
  - induction l as [|x r IH]; [done|]. intros [? ?]. constructor; auto.
  - induction 1; done.
Qed.

Lemma wfb_obj o : wfb (LObj o) <->
  NoDup (map fst o) /\ Forall (fun kv => Forall is_unit (fst kv) /\ wfb (snd kv)) o.
Proof.
  simpl. split; intros (Hn & Ha); (split; [done|]); clear Hn.
  - induction o as [|[k x] r IH]; [done|]. destruct Ha as (? & ? & ?). constructor; [done|auto].
  - induction Ha as [|[k x] r [? ?] _ IH]; [done|]. done.
Qed.

(** Reordering the members of every object. *)
Fixpoint deep (perm : list (units * LosslessJson) -> list (units * LosslessJson)) (v : LosslessJson) : LosslessJson :=
  match v with
  | LArr l => LArr (map (deep perm) l)
  | LObj o => LObj (perm (map (fun kv => (fst kv, deep perm (snd kv))) o))
  | _ => v
  end.

Lemma keys_on_snd {A B} (f : A -> B) (o : list (units * A)) : map fst (map (on_snd f) o) = map fst o.
Proof. by rewrite map_map. Qed.

Section Deep.
Variable perm : list (units * LosslessJson) -> list (units * LosslessJson).
Hypothesis perm_perm : forall o, perm o ≡ₚ o.

Lemma deep_wfb v : wfb v -> wfb (deep perm v).
Proof.
  induction v as [|b|s|raw|l IH|o IH] using lossless_ind; try done; cbn [deep].
  - rewrite !wfb_arr. intros Hw. apply Forall_map. rewrite Forall_elem in IH, Hw |- *. auto.
  - rewrite !wfb_obj. intros [Hn Hw]. change (fun kv => (fst kv, deep perm (snd kv))) with (on_snd (deep perm)).
    rewrite !perm_perm. split; [by rewrite keys_on_snd|]. apply Forall_map.
    rewrite Forall_elem in IH, Hw |- *. intros kv Hkv. destruct (Hw _ Hkv). split; [done|]. by apply IH.
Qed.

Lemma oget_deep k o : NoDup (map fst o) -> oget k (perm (map (on_snd (deep perm)) o)) = deep perm <$> oget k o.
Proof.
  intros Hn. rewrite <- oget_map. apply oget_perm; [by rewrite perm_perm, keys_on_snd|apply perm_perm].
Qed.

(** Values with the same normal form are equal. *)
Lemma deep_inj x y : wfb x -> wfb y -> deep perm x = deep perm y -> json_eq x y.
Proof.
  revert y. induction x as [|b|s|raw|l IH|o IH] using lossless_ind; intros [|b'|s'|raw'|l'|o'] Hx Hy E;
    cbn [deep] in E; try done; try (by constructor); try (by injection E as ->; constructor).
  - injection E as E. constructor. rewrite wfb_arr in Hx, Hy. revert l' Hy E.
    induction l as [|a l IHl]; intros [|a' l'] Hy E; try done. cbn [map] in E. injection E as Ea E.
    apply Forall_cons in IH as [IHa IH], Hx as [Ha Hx], Hy as [Ha' Hy]. constructor; auto.
  - injection E as E. constructor. apply wfb_obj in Hx as [Hn Hx], Hy as [Hn' Hy]. intros k.
    change (fun kv => (fst kv, deep perm (snd kv))) with (on_snd (deep perm)) in E.
    pose proof (oget_deep k o Hn) as G. rewrite E, (oget_deep k o' Hn') in G.
    destruct (oget k o) as [a|] eqn:Ga, (oget k o') as [a'|] eqn:Ga'; try done; constructor.
    injection G as G. apply oget_in in Ga, Ga'; [|done..]. rewrite Forall_elem in IH, Hx, Hy.
    apply (IH _ Ga); [by apply (Hx _ Ga)|by apply (Hy _ Ga')|done].
Qed.
End Deep.

(** Equal values have the same sorted form. *)
Lemma deep_sort_eq x y : wfb x -> wfb y -> json_eq x y -> deep sort_members x = deep sort_members y.
Proof.
  revert y. induction x as [|b|s|raw|l IH|o IH] using lossless_ind; intros y Hx Hy E; inversion E; subst; try done; cbn [deep]; f_equal.
  - rewrite wfb_arr in Hx, Hy. clear E. revert IH Hx Hy. match goal with H : Forall2 _ _ _ |- _ => induction H as [|a b l k Hab _ IHl] end;
      [done|]. intros IH Hx Hy. cbn [map].
    apply Forall_cons in IH as [IHa IH], Hx as [Ha Hx], Hy as [Hb Hy]. f_equal; auto.
  - apply wfb_obj in Hx as [Hn Hx], Hy as [Hn' Hy]. change (fun kv => (fst kv, deep sort_members (snd kv))) with (on_snd (deep sort_members)).
    apply sort_members_eq; [by rewrite keys_on_snd|]. apply members_same; [by rewrite keys_on_snd..|].
    intros k. rewrite !oget_map. match goal with H : forall k, option_Forall2 _ _ _ |- _ => specialize (H k) as Hk end.
    rewrite Forall_elem in IH, Hx, Hy.
    destruct (oget k o) as [a|] eqn:Ga, (oget k o') as [a'|] eqn:Ga'; inversion Hk; subst; [|done].
    cbn. f_equal. apply oget_in in Ga, Ga'; [|done..].
    apply (IH _ Ga); [by apply (Hx _ Ga)|by apply (Hy _ Ga')|done].
Qed.

(** ** Property order *)

Definition index_le {A} (x y : units * A) : Prop := digits_val (fst x) <= digits_val (fst y).

Lemma insert_index_sorted {A} (x : units * A) l :
  StronglySorted index_le l -> StronglySorted index_le (insert_index x l).
Proof.
  induction 1 as [|y l Hl IH Hy]; simpl; [by repeat constructor|].
  destruct (Z.leb_spec (digits_val (fst x)) (digits_val (fst y))) as [E|E].
  - constructor; [by constructor|]. constructor; [done|]. eapply Forall_impl; [exact Hy|]. unfold index_le. intros z Hz; lia.
  - constructor; [done|]. rewrite insert_index_perm. constructor; [unfold index_le; lia|done].
Qed.

Lemma insert_index_head {A} (l : list (units * A)) : StronglySorted index_le l -> foldr insert_index [] l = l.
Proof.
  induction 1 as [|y l Hl IH Hy]; simpl; [done|]. rewrite IH. destruct l as [|z l]; [done|]. simpl.
  apply Forall_cons in Hy as [Hz _]. unfold index_le in Hz. by rewrite (proj2 (Z.leb_le _ _)).
Qed.

Lemma own_members_idem {A} (o : list (units * A)) : own_members (own_members o) = own_members o.
Proof.
  unfold own_members at 1. set (I := foldr insert_index [] (List.filter (fun kv => is_index (fst kv)) o)).
  set (N := List.filter (fun kv => negb (is_index (fst kv))) o). change (own_members o) with (I ++ N).
  assert (forall kv, kv ∈ I -> is_index (fst kv) = true) as HI.
  { intros kv Hkv. assert (I ≡ₚ List.filter (fun kv => is_index (fst kv)) o) as Hp.
    { unfold I. generalize (List.filter (fun kv : units * A => is_index (fst kv)) o). intros l. induction l as [|x l IH]; simpl; [done|].
      by rewrite insert_index_perm, IH. }
    rewrite Hp, list_elem_of_In, List.filter_In in Hkv. by destruct Hkv. }
  assert (forall kv, kv ∈ N -> is_index (fst kv) = false) as HN.
  { intros kv Hkv. unfold N in Hkv. rewrite list_elem_of_In, List.filter_In, negb_true_iff in Hkv. by destruct Hkv. }
  rewrite !List.filter_app.
  assert (forall (p : units * A -> bool) l, (forall kv, kv ∈ l -> p kv = true) -> List.filter p l = l) as Fall.
  { intros p l. induction l as [|x l IH]; intros H; simpl; [done|]. rewrite H by left. f_equal. apply IH. intros; apply H; by right. }
  assert (forall (p : units * A -> bool) l, (forall kv, kv ∈ l -> p kv = false) -> List.filter p l = []) as Fnone.
  { intros p l. induction l as [|x l IH]; intros H; simpl; [done|]. rewrite H by left. apply IH. intros; apply H; by right. }
  rewrite (Fall _ I), (Fnone _ N), (Fnone (fun kv => negb _) I), (Fall (fun kv => negb _) N), app_nil_r; simpl; try done.
  - f_equal. apply insert_index_head. unfold I. generalize (List.filter (fun kv : units * A => is_index (fst kv)) o).
    intros l. induction l; simpl; [constructor|by apply insert_index_sorted].
  - intros kv Hkv. by rewrite HN.
  - intros kv Hkv. by rewrite HI.
Qed.

Definition ordered : LosslessJson -> LosslessJson := deep own_members.

Lemma stringify_ordered v : stringifyLossless (ordered v) = stringifyLossless v.
Proof.
  unfold ordered. induction v as [|b|s|raw|l IH|o IH] using lossless_ind; cbn [deep]; try done.
  - cbn [stringifyLossless]. do 3 f_equal. rewrite map_map. apply map_ext_in. intros x Hx%list_elem_of_In.
    rewrite Forall_elem in IH. by apply IH.
  - rewrite !stringify_members, own_members_idem. do 3 f_equal.
    change (fun kv => (fst kv, deep own_members (snd kv))) with (on_snd (deep own_members)).
    rewrite own_members_map, map_map. apply map_ext_in. intros [k x] Hx%list_elem_of_In. rewrite own_members_perm in Hx.
    rewrite Forall_elem in IH. unfold member_text. cbn [fst snd on_snd]. pose proof (IH _ Hx) as E. cbn [snd] in E. by rewrite E.
Qed.

Lemma ordered_wfj v : wfb v -> wfj (ordered v).
Proof.
  unfold ordered. induction v as [|b|s|raw|l IH|o IH] using lossless_ind; cbn [deep]; try done.
  - rewrite wfb_arr, wfj_arr. intros Hw. apply Forall_map. rewrite Forall_elem in IH, Hw |- *. auto.
  - rewrite wfb_obj. intros [Hn Hw]. apply wfj_obj.
    change (fun kv => (fst kv, deep own_members (snd kv))) with (on_snd (deep own_members)).
    split; [by rewrite own_members_perm, keys_on_snd|]. split; [unfold object_keys; by rewrite own_members_idem|].
    rewrite own_members_perm. apply Forall_map. rewrite Forall_elem in IH, Hw |- *. intros kv Hkv.
    destruct (Hw _ Hkv). split; [done|]. by apply IH.
Qed.

Lemma nesting_bound_obj o m : 0 <= m -> (forall kv, kv ∈ o -> nesting (snd kv) <= m) -> nesting (LObj o) <= 1 + m.
Proof.
  intros Hm H. cbn [nesting]. induction o as [|[k x] r IH]; [lia|].
  pose proof (H (k, x) ltac:(left)). specialize (IH ltac:(intros; apply H; by right)). simpl in *. lia.
Qed.
Lemma nesting_bound_arr l m : 0 <= m -> (forall x, x ∈ l -> nesting x <= m) -> nesting (LArr l) <= 1 + m.
Proof.
  intros Hm H. cbn [nesting]. induction l as [|x r IH]; [lia|].
  pose proof (H x ltac:(left)). specialize (IH ltac:(intros; apply H; by right)). simpl in *. lia.
Qed.

Lemma deep_nesting perm v : (forall o, perm o ≡ₚ o) -> nesting (deep perm v) <= nesting v.
Proof.
  intros Hp. induction v as [|b|s|raw|l IH|o IH] using lossless_ind; cbn [deep]; try done.
  - rewrite Forall_elem in IH. replace (nesting (LArr l)) with (1 + (nesting (LArr l) - 1)) by lia.
    apply nesting_bound_arr.
    { destruct l as [|x l]; [done|]. pose proof (nesting_nonneg x). pose proof (nesting_arr (x :: l) x ltac:(left)). lia. }
    intros x (y & -> & Hy)%list_elem_of_fmap. pose proof (nesting_arr l y Hy). specialize (IH y Hy). lia.
  - rewrite Forall_elem in IH. replace (nesting (LObj o)) with (1 + (nesting (LObj o) - 1)) by lia.
    apply nesting_bound_obj.
    { destruct o as [|[k x] o]; [done|]. pose proof (nesting_nonneg x). pose proof (nesting_obj ((k, x) :: o) k x ltac:(left)). lia. }
    intros kv Hkv. rewrite Hp in Hkv. apply list_elem_of_fmap in Hkv as ([k x] & -> & Hx). cbn [fst snd].
    pose proof (nesting_obj o k x Hx). specialize (IH _ Hx). cbn [fst snd] in IH. lia.
Qed.

(** A printed value parses back to the value with its members in property order. *)
Lemma parse_stringify v : wfb v -> nesting v <= 256 -> parseJsonLossless (stringifyLossless v) = Ok (ordered v).
Proof.
  intros Hw Hn. rewrite <- stringify_ordered. unfold parseJsonLossless.
  pose proof (deep_nesting own_members v own_members_perm) as Hd. fold ordered in Hd.
  pose proof (roundtrip_val (ordered v) (ordered_wfj v Hw) (parse_fuel (stringifyLossless (ordered v))) 0 [] Logic.I
    ltac:(lia) ltac:(lia)) as H.
  rewrite app_nil_r in H. rewrite H; [done|]. unfold parse_fuel. lia.
Qed.

(** ** Payloads *)

(** The members JSON shows of a value whose [__proto__] members are not assigned. *)
Definition pick {A B} (f : units * A -> option B) (o : list (units * A)) : list (units * B) :=
  flat_map (fun kv => match f kv with Some x => [(fst kv, x)] | None => [] end) o.

Fixpoint jsonView (v : js) : option LosslessJson :=
  match v with
  | JArr l => Some (LArr (map (fun x => default LNull (jsonView x)) l))
  | JObj o => Some (LObj (flat_map (fun kv => match (if assignable kv then jsonView (snd kv) else None) with
                                              | Some x => [(fst kv, x)] | None => [] end) o))
  | _ => toJson v
  end.

(** What JavaScript guarantees of a value: distinct keys, strings of code units; and the texts of
    its finite numbers are JSON numbers. *)
Fixpoint wf_js (v : js) : Prop :=
  match v with
  | JUndef | JNull | JBool _ => True
  | JNum n => isFinite n = true -> num_text (number_text n) = true
  | JStr s => Forall is_unit s
  | JArr l => (fix all l := match l with [] => True | x :: r => wf_js x /\ all r end) l
  | JObj o =>
      NoDup (map fst o) /\
      (fix all o := match o with
                    | [] => True
                    | (k, x) :: r => Forall is_unit k /\ wf_js x /\ all r
                    end) o
  end.

Lemma wf_js_arr l : wf_js (JArr l) <-> Forall wf_js l.
Proof. simpl. split; [|by induction 1]. induction l as [|x r IH]; [done|]. intros [? ?]. constructor; auto. Qed.

Lemma wf_js_obj o : wf_js (JObj o) <->
  NoDup (map fst o) /\ Forall (fun kv => Forall is_unit (fst kv) /\ wf_js (snd kv)) o.
Proof.
  simpl. split; intros (Hn & Ha); (split; [done|]); clear Hn.
  - induction o as [|[k x] r IH]; [done|]. destruct Ha as (? & ? & ?). constructor; [done|auto].
  - induction Ha as [|[k x] r [? ?] _ IH]; [done|]. done.
Qed.

Section Pick.
Context {A B : Type} (f : units * A -> option B).

Lemma pick_elem o k y : (k, y) ∈ pick f o <-> exists x, (k, x) ∈ o /\ f (k, x) = Some y.
Proof.
  unfold pick. rewrite list_elem_of_In, in_flat_map. split.
  - intros ([k' x] & Hin%list_elem_of_In & Hk). destruct (f (k', x)) as [z|] eqn:E; [|done].
    destruct Hk as [[= -> ->]|[]]. by exists x.
  - intros (x & Hin & E). exists (k, x). split; [by apply list_elem_of_In|]. rewrite E. by left.
Qed.

Lemma pick_keys o k : k ∈ map fst (pick f o) -> k ∈ map fst o.
Proof.
  intros ([k' y] & -> & H)%list_elem_of_fmap. apply pick_elem in H as (x & Hx & _). apply list_elem_of_fmap. by exists (k', x).
Qed.

Lemma pick_cons kv o : pick f (kv :: o) = match f kv with Some x => (fst kv, x) :: pick f o | None => pick f o end.
Proof. unfold pick. simpl. by destruct (f kv). Qed.

Lemma pick_nodup o : NoDup (map fst o) -> NoDup (map fst (pick f o)).
Proof.
  induction o as [|kv o IH]; [done|]. intros [Hk Hn]%NoDup_cons. rewrite pick_cons. destruct (f kv); [|by apply IH].
  constructor; [|by apply IH]. by intros H%pick_keys.
Qed.

#[global] Instance pick_perm : Proper ((≡ₚ) ==> (≡ₚ)) (pick f).
Proof. intros o o'. apply Permutation.Permutation_flat_map. Qed.

Lemma pick_sorted o : StronglySorted member_le o -> StronglySorted member_le (pick f o).
Proof.
  induction 1 as [|kv o Ho IH Hkv]; [constructor|]. rewrite pick_cons. destruct (f kv); [|done]. constructor; [done|].
  apply Forall_elem. intros [k y] (x & Hx & _)%pick_elem. rewrite Forall_elem in Hkv. apply (Hkv _ Hx).
Qed.
End Pick.

Lemma pick_ext {A B} (f g : units * A -> option B) o : (forall kv, kv ∈ o -> f kv = g kv) -> pick f o = pick g o.
Proof.
  intros H. induction o as [|kv o IH]; [done|]. rewrite !pick_cons, H by left. rewrite IH; [done|]. intros; apply H; by right.
Qed.

Lemma pick_map {A B C} (f : units * B -> option C) (g : A -> B) o : pick f (map (on_snd g) o) = pick (fun kv => f (on_snd g kv)) o.
Proof. induction o as [|kv o IH]; [done|]. cbn [map]. rewrite !pick_cons, IH. by destruct (f _). Qed.

Lemma map_pick {A B C} (f : units * A -> option B) (g : B -> C) o : map (on_snd g) (pick f o) = pick (fun kv => g <$> f kv) o.
Proof. induction o as [|kv o IH]; [done|]. rewrite !pick_cons. destruct (f kv); cbn [map]; by rewrite IH. Qed.

Lemma pick_filter {A B} (f : units * A -> option B) p o :
  pick f (List.filter p o) = pick (fun kv => if p kv then f kv else None) o.
Proof. induction o as [|kv o IH]; [done|]. cbn [List.filter]. rewrite pick_cons, <- IH. destruct (p kv); [|done]. by rewrite pick_cons. Qed.

(** Sorting a payload and printing it is sorting what JSON shows of it. *)
Lemma toJson_sort v : wf_js v -> toJson (sortKeysDeep v) = deep sort_members <$> jsonView v.
Proof.
  induction v as [| |b|n|s|l IH|o IH] using js_nested_ind; try done.
  - intros _. cbn. by destruct (isFinite n).
  - rewrite wf_js_arr. intros Hw. cbn [sortKeysDeep toJson jsonView deep fmap option_fmap option_map]. do 2 f_equal.
    rewrite !map_map. apply map_ext_in. intros x Hx%list_elem_of_In. rewrite Forall_elem in IH, Hw.
    rewrite IH; [|done|by apply Hw]. by destruct (jsonView x).
  - rewrite wf_js_obj. intros [Hn Hw]. cbn [sortKeysDeep toJson jsonView fmap option_fmap option_map]. do 2 f_equal.
    change (LObj ?a = deep sort_members (LObj ?b)) with (LObj a = LObj (sort_members (map (on_snd (deep sort_members)) b))). f_equal.
    change (fun kv => (fst kv, sortKeysDeep (snd kv))) with (on_snd sortKeysDeep).
    set (h := fun kv : units * js => if assignable kv then jsonView (snd kv) else None).
    change (pick (fun kv => toJson (snd kv)) (List.filter assignable (sort_members (map (on_snd sortKeysDeep) o)))
            = sort_members (map (on_snd (deep sort_members)) (pick h o))).
    assert (pick (fun kv => if assignable kv then toJson (snd kv) else None) (map (on_snd sortKeysDeep) o)
            = map (on_snd (deep sort_members)) (pick h o)) as E.
    { rewrite pick_map, map_pick. apply pick_ext. intros [k x] Hx. unfold h. change (assignable (on_snd sortKeysDeep (k, x))) with (assignable (k, x)).
      destruct (assignable (k, x)); [|done]. rewrite Forall_elem in IH, Hw. apply (IH _ Hx). by apply (Hw _ Hx). }
    rewrite pick_filter, <- E. apply sorted_members_unique.
    + apply pick_nodup. by rewrite sort_members_perm, keys_on_snd.
    + by rewrite !sort_members_perm.
    + apply pick_sorted, sort_members_sorted.
    + apply sort_members_sorted.
Qed.

Lemma jsonView_wfb v x : wf_js v -> jsonView v = Some x -> wfb x.
Proof.
  revert x. induction v as [| |b|n|s|l IH|o IH] using js_nested_ind; intros x Hw; cbn [jsonView toJson]; intros [= <-]; try done.
  - simpl in Hw. destruct (isFinite n); [|done]. by apply Hw.
  - apply wfb_arr, Forall_map. rewrite wf_js_arr, Forall_elem in Hw. rewrite Forall_elem in IH |- *. intros y Hy.
    destruct (jsonView y) eqn:E; simpl; [|done]. by eapply IH; [|apply Hw|].
  - apply wf_js_obj in Hw as [Hn Hw]. apply wfb_obj.
    match goal with |- context [flat_map ?g o] => change (flat_map g o) with (pick (fun kv => if assignable kv then jsonView (snd kv) else None) o) end.
    split; [by apply pick_nodup|]. apply Forall_elem. intros [k y] (z & Hz & E)%pick_elem. rewrite Forall_elem in IH, Hw.
    destruct (Hw _ Hz) as [Hk Hz']. split; [done|]. cbn [fst snd] in *. destruct (assignable (k, z)); [|done].
    by apply (IH _ Hz).
Qed.

(** ** The text of a payload survives UTF-8 *)

Ltac list_all := repeat (first [apply List.Forall_nil | apply List.Forall_cons; [try assumption|]]).

(** Code units without lone surrogates. *)
Definition clean_text (t : units) : Prop := Forall is_unit t /\ isWellFormedString t = true.

Lemma wf_string_app a b : isWellFormedString a = true -> isWellFormedString b = true -> isWellFormedString (a ++ b) = true.
Proof.
  intros Ha Hb. induction a as [|c|c t r IH1 IH2] using units_ind2; [done| |].
  - cbn [isWellFormedString app] in *. destruct (is_lead c); [done|]. apply andb_true_iff in Ha as [-> _]. done.
  - cbn [isWellFormedString] in Ha. cbn [app isWellFormedString]. destruct (is_lead c).
    + apply andb_true_iff in Ha as [-> Ha]. by apply IH2.
    + apply andb_true_iff in Ha as [-> Ha]. by apply IH1.
Qed.

Lemma clean_nil : clean_text [].
Proof. done. Qed.
Lemma clean_text_app a b : clean_text a -> clean_text b -> clean_text (a ++ b).
Proof. intros [? ?] [? ?]. split; [by apply Forall_app|by apply wf_string_app]. Qed.

Lemma clean_unit c : is_unit c -> is_lead c = false -> is_trail c = false -> clean_text [c].
Proof. intros Hc El Et. split; [by list_all|]. cbn. by rewrite El, Et. Qed.

Lemma clean_cons c t : is_ascii c -> clean_text t -> clean_text (c :: t).
Proof.
  intros Hc Ht. unfold is_ascii in Hc. apply (clean_text_app [c] t); [|done].
  apply clean_unit; unfold is_unit, is_lead, is_trail; lia.
Qed.

Lemma clean_ascii t : Forall is_ascii t -> clean_text t.
Proof. induction 1; [apply clean_nil|by apply clean_cons]. Qed.

Lemma esc4_ascii c : is_unit c -> Forall is_ascii (esc4 c).
Proof.
  intros Hc. unfold is_unit in Hc.
  assert (forall n, 0 <= n < 16 -> is_ascii (hexd n)) as Hh by (intros n Hn; unfold hexd, is_ascii; destruct (n <? 10) eqn:E; lia).
  unfold esc4. list_all; first [unfold is_ascii; lia | apply Hh; Z.to_euclidean_division_equations; lia].
Qed.

Lemma clean_quote1 c : is_unit c -> is_lead c = false -> is_trail c = false -> clean_text (quote1 c).
Proof.
  intros Hc El Et. unfold quote1.
  repeat (match goal with |- context [if ?b then _ else _] => destruct b eqn:? end;
    [first [by apply clean_ascii, esc4_ascii | apply clean_ascii; list_all; unfold is_ascii; lia]|]).
  by apply clean_unit.
Qed.

Lemma clean_pair c t : is_unit c -> is_unit t -> is_lead c = true -> is_trail t = true -> clean_text [c; t].
Proof. intros Hc Ht El Et. split; [by list_all|]. cbn. by rewrite El, Et. Qed.

Lemma clean_quote_body s : Forall is_unit s -> clean_text (quote_body s).
Proof.
  induction s as [|c|c t r IH1 IH2] using units_ind2; intros Hs; [apply clean_nil| |].
  - apply Forall_cons in Hs as [Hc _]. cbn [quote_body]. destruct (is_lead c) eqn:El; [by apply clean_ascii, esc4_ascii|].
    destruct (is_trail c) eqn:Et; rewrite app_nil_r; [by apply clean_ascii, esc4_ascii|by apply clean_quote1].
  - apply Forall_cons in Hs as [Hc Hs]. rewrite quote_body_cons2. pose proof Hs as [Ht Hr]%Forall_cons.
    destruct (is_lead c) eqn:El; [destruct (is_trail t) eqn:Et|destruct (is_trail c) eqn:Ec].
    + apply (clean_text_app [c; t]); [by apply clean_pair|by apply IH2].
    + apply clean_text_app; [by apply clean_ascii, esc4_ascii|by apply IH1].
    + apply clean_text_app; [by apply clean_ascii, esc4_ascii|by apply IH1].
    + apply clean_text_app; [by apply clean_quote1|by apply IH1].
Qed.

Lemma clean_json_quote s : Forall is_unit s -> clean_text (json_quote s).
Proof.
  intros Hs. unfold json_quote. apply clean_cons; [unfold is_ascii; lia|]. apply clean_text_app; [by apply clean_quote_body|].
  apply clean_cons; [unfold is_ascii; lia|apply clean_nil].
Qed.

Lemma take_digits_ascii l d k : take_digits l = (d, k) -> Forall is_ascii d.
Proof.
  revert d k. induction l as [|c l IH]; intros d k; cbn [take_digits]; [by intros [= <- <-]|].
  destruct (is_dec c) eqn:E; [|by intros [= <- <-]]. destruct (take_digits l) as [d' k']. intros [= <- <-].
  constructor; [unfold is_dec in E; unfold is_ascii; lia|by eapply IH].
Qed.

Lemma num_text_ascii raw : num_text raw = true -> Forall is_ascii raw.
Proof.
  unfold num_text. destruct (lex_num raw) as [[r [|]]|] eqn:E; try done. intros _.
  pose proof (lex_num_app _ _ _ E) as [-> _]. rewrite app_nil_r in *. unfold lex_num in E.
  destruct (match r with c :: r0 => if c =? 45 then ([c], r0) else ([], r) | [] => ([], []) end) as [sg l0] eqn:Es.
  assert (Forall is_ascii sg) as Hsg.
  { destruct r as [|c r]; [by injection Es as <- _|]. destruct (c =? 45) eqn:Ec; injection Es as <- _; [|done].
    apply Z.eqb_eq in Ec as ->. list_all; unfold is_ascii; lia. }
  destruct (lex_int l0) as [[i l1]|] eqn:Ei; [|done]. destruct (lex_frac l1) as [f l2] eqn:Ef.
  destruct (lex_exp l2) as [x l3] eqn:Ex. injection E as <- _. repeat (apply Forall_app; split); [done|..].
  - unfold lex_int in Ei. destruct l0 as [|c l0]; [done|]. destruct (c =? 48) eqn:Ec.
    + injection Ei as <- _. list_all; unfold is_ascii; lia.
    + destruct (is_dec c) eqn:Ed; [|done]. destruct (take_digits l0) as [d k] eqn:Et. injection Ei as <- _.
      constructor; [unfold is_dec in Ed; unfold is_ascii; lia|by eapply take_digits_ascii].
  - unfold lex_frac in Ef. destruct l1 as [|c l1]; [by injection Ef as <- _|]. destruct (c =? 46) eqn:Ec; [|by injection Ef as <- _].
    destruct (take_digits l1) as [[|d0 d] k] eqn:Et; injection Ef as <- _; [done|].
    constructor; [unfold is_ascii; lia|by eapply take_digits_ascii].
  - unfold lex_exp in Ex. destruct l2 as [|c l2]; [by injection Ex as <- _|].
    destruct ((c =? 101) || (c =? 69)) eqn:Ec; [|by injection Ex as <- _].
    destruct (match l2 with y :: r' => if (y =? 43) || (y =? 45) then ([y], r') else ([], l2) | [] => ([], []) end) as [s2 r1] eqn:E2.
    destruct (take_digits r1) as [[|d0 d] k] eqn:Et; injection Ex as <- _; [done|].
    constructor; [unfold is_ascii; lia|]. apply Forall_app. split; [|by eapply take_digits_ascii].
    destruct l2 as [|y r']; [by injection E2 as <- _|]. destruct ((y =? 43) || (y =? 45)) eqn:Ey; injection E2 as <- _; [|done].
    list_all; unfold is_ascii; lia.
Qed.

Lemma clean_join sep l : is_ascii sep -> Forall clean_text l -> clean_text (LosslessJson.join sep l).
Proof.
  intros Hs Hl. unfold LosslessJson.join. destruct Hl as [|x l Hx Hl]; [apply clean_nil|]. apply clean_text_app; [done|].
  induction Hl as [|y l Hy _ IH]; cbn [flat_map]; [apply clean_nil|]. apply (clean_cons sep); [done|]. by apply clean_text_app.
Qed.

Lemma clean_stringify v : wfb v -> clean_text (stringifyLossless v).
Proof.
  induction v as [|b|s|raw|l IH|o IH] using lossless_ind; intros Hw.
  - apply clean_ascii, (bool_decide_unpack (Forall (fun c => 0 <= c < 128) _)). by vm_compute.
  - destruct b; apply clean_ascii, (bool_decide_unpack (Forall (fun c => 0 <= c < 128) _)); by vm_compute.
  - by apply clean_json_quote.
  - by apply clean_ascii, num_text_ascii.
  - apply wfb_arr in Hw. cbn [stringifyLossless]. apply clean_cons; [unfold is_ascii; lia|].
    apply clean_text_app; [|apply clean_ascii; list_all; unfold is_ascii; lia]. apply clean_join; [unfold is_ascii; lia|].
    apply Forall_map. rewrite Forall_elem in IH, Hw |- *. auto.
  - apply wfb_obj in Hw as [_ Hw]. rewrite stringify_members. apply clean_cons; [unfold is_ascii; lia|].
    apply clean_text_app; [|apply clean_ascii; list_all; unfold is_ascii; lia]. apply clean_join; [unfold is_ascii; lia|].
    apply Forall_map. rewrite own_members_perm. rewrite Forall_elem in IH, Hw |- *. intros kv Hkv. destruct (Hw _ Hkv).
    apply clean_text_app; [by apply clean_json_quote|]. apply clean_cons; [unfold is_ascii; lia|]. by apply IH.
Qed.

(** ** The signed bytes are exactly the members *)

Lemma deep_compose v :
  deep own_members (deep sort_members v) = deep (fun o => own_members (sort_members o)) v.
Proof.
  induction v as [|b|s|raw|l IH|o IH] using lossless_ind; cbn [deep]; try done.
  - f_equal. rewrite map_map. apply map_ext_in. intros x Hx%list_elem_of_In. rewrite Forall_elem in IH. by apply IH.
  - f_equal. change (fun kv => (fst kv, deep ?p (snd kv))) with (on_snd (deep p)).
    rewrite <- sort_members_map, map_map. do 2 f_equal. apply map_ext_in. intros [k x] Hx%list_elem_of_In.
    rewrite Forall_elem in IH. pose proof (IH _ Hx) as E. cbn [snd] in E. unfold on_snd. cbn [fst snd]. by rewrite E.
Qed.

Lemma own_sort_perm {A} (o : list (units * A)) : own_members (sort_members o) ≡ₚ o.
Proof. by rewrite own_members_perm, sort_members_perm. Qed.

(** Sorted values print alike exactly when they are equal. *)
Lemma sorted_text_exact x y : wfb x -> wfb y -> nesting x <= 256 -> nesting y <= 256 ->
  stringifyLossless (deep sort_members x) = stringifyLossless (deep sort_members y) <-> json_eq x y.
Proof.
  intros Hx Hy Nx Ny. split; [|by intros E; rewrite (deep_sort_eq x y Hx Hy E)]. intros E.
  assert (forall v, wfb v -> nesting v <= 256 -> parseJsonLossless (stringifyLossless (deep sort_members v))
    = Ok (deep (fun o => own_members (sort_members o)) v)) as P.
  { intros v Hv Nv. rewrite parse_stringify; [unfold ordered; by rewrite deep_compose|apply deep_wfb; [apply sort_members_perm|done]|].
    etrans; [apply deep_nesting, sort_members_perm|done]. }
  apply (deep_inj _ own_sort_perm); [done..|]. pose proof (P x Hx Nx) as Px. rewrite E, (P y Hy Ny) in Px. by injection Px.
Qed.

(** What JSON shows of a payload. *)
Definition view (p : object) : LosslessJson := default LNull (jsonView (JObj p)).

Lemma payload_text_view p : wf_js (JObj p) -> payload_text p = stringifyLossless (deep sort_members (view p)).
Proof. intros Hw. unfold payload_text, JSON_stringify. by rewrite toJson_sort. Qed.

Lemma view_wfb p : wf_js (JObj p) -> wfb (view p).
Proof. intros Hw. by eapply jsonView_wfb. Qed.

(** Bytes determine the text. *)
Lemma serialize_text p q : wf_js (JObj p) -> wf_js (JObj q) -> serializePayload p = serializePayload q <-> payload_text p = payload_text q.
Proof.
  intros Hp Hq. unfold serializePayload. split; [|by intros ->].
  assert (forall p, wf_js (JObj p) -> clean_text (payload_text p)) as C.
  { intros r Hr. rewrite payload_text_view by done. apply clean_stringify, deep_wfb; [apply sort_members_perm|by apply view_wfb]. }
  destruct (C p Hp), (C q Hq). by apply utf8_inj.
Qed.

Lemma same_bytes_view p q :
  wf_js (JObj p) -> wf_js (JObj q) -> nesting (view p) <= 256 -> nesting (view q) <= 256 ->
  serializePayload p = serializePayload q -> json_eq (view p) (view q).
Proof.
  intros Hp Hq Np Nq. rewrite serialize_text, !payload_text_view by done.
  apply sorted_text_exact; (done || by apply view_wfb).
Qed.


Lemma oget_pick {A B} (f : units * A -> option B) k o : NoDup (map fst o) ->
  oget k (pick f o) = match oget k o with Some v => f (k, v) | None => None end.
Proof.
  intros Hn. apply option_eq. intros y. rewrite oget_in by (by apply pick_nodup). rewrite pick_elem. split.
  - intros (x & Hx & E). apply oget_in in Hx; [|done]. by rewrite Hx.
  - destruct (oget k o) as [v|] eqn:E; [|done]. intros Ev. exists v. split; [by apply oget_in|done].
Qed.

(** What JSON shows of a member. *)
Lemma view_member p k : NoDup (map fst p) -> u k <> u "__proto__" ->
  exists o, view p = LObj o /\ oget (u k) o = jsonView (prop k p).
Proof.
  intros Hn Hk. eexists. split; [reflexivity|].
  match goal with |- context [flat_map ?g p] => change (flat_map g p) with (pick (fun kv => if assignable kv then jsonView (snd kv) else None) p) end.
  rewrite oget_pick by done. unfold prop. destruct (oget (u k) p) as [v|]; [|done]. cbn [fst snd default].
  unfold assignable, units_eqb. cbn [fst]. by rewrite bool_decide_false.
Qed.

(** Equal bytes give equal members. *)
Lemma signed_member p q k :
  wf_js (JObj p) -> wf_js (JObj q) -> nesting (view p) <= 256 -> nesting (view q) <= 256 -> u k <> u "__proto__" ->
  json_eq (view p) (view q) -> option_Forall2 json_eq (jsonView (prop k p)) (jsonView (prop k q)).
Proof.
  intros Hp Hq Np Nq Hk E. apply wf_js_obj in Hp as [Hp _], Hq as [Hq _].
  destruct (view_member p k Hp Hk) as (o & Eo & <-), (view_member q k Hq Hk) as (o' & Eo' & <-).
  rewrite Eo, Eo' in E. by inversion E.
Qed.
