(* ===== verification/JsJson.v ===== *)
(** * [JSON.parse]

    The parser of the language: the grammar of [LosslessJson] without its limit on nesting and with
    the last of two equal keys winning; numbers become binary64.  It answers on every text, agrees with
    [parseJsonLossless] wherever that accepts, and so reads back what [JSON.stringify] wrote. *)
From S2P Require Import Prelude JsText JsNum JsUtf16 JsFloat LosslessJson JsValue Finality Address MessageSigning MessageClaims CanonicalJson.
Local Open Scope Z_scope.

(** ** The parser *)

(** One unit of fuel per call or iteration; the text that is left replaces the position. *)
Fixpoint jval (fuel : nat) (text : units) : res (LosslessJson * units) :=
  match fuel with
  | O => Err "out of fuel"
  | S fuel =>
      let t := ws text in
      match expect 123 t with
      | Some r => match expect 125 (ws r) with Some r' => Ok (LObj [], r') | None => jmembers fuel [] r end
      | None =>
          match expect 91 t with
          | Some r => match expect 93 (ws r) with Some r' => Ok (LArr [], r') | None => jelements fuel [] r end
          | None => scalar t
          end
      end
  end
with jmembers (fuel : nat) (o : list (units * LosslessJson)) (text : units) : res (LosslessJson * units) :=
  match fuel with
  | O => Err "out of fuel"
  | S fuel =>
      match expect 34 (ws text) with
      | None => Err "SyntaxError"
      | Some t =>
          match str t with
          | Err m => Err m
          | Ok (k, r) =>
              match expect 58 (ws r) with
              | None => Err "SyntaxError"
              | Some r1 =>
                  match jval fuel r1 with
                  | Err m => Err m
                  | Ok (v, r2) =>
                      match expect 44 (ws r2) with
                      | Some r3 => jmembers fuel (oset k v o) r3
                      | None => match expect 125 (ws r2) with Some r3 => Ok (LObj (oset k v o), r3) | None => Err "SyntaxError" end
                      end
                  end
              end
          end
      end
  end
with jelements (fuel : nat) (a : list LosslessJson) (text : units) : res (LosslessJson * units) :=
  match fuel with
  | O => Err "out of fuel"
  | S fuel =>
      match jval fuel text with
      | Err m => Err m
      | Ok (v, r) =>
          match expect 44 (ws r) with
          | Some r1 => jelements fuel (a ++ [v]) r1
          | None => match expect 93 (ws r) with Some r1 => Ok (LArr (a ++ [v]), r1) | None => Err "SyntaxError" end
          end
      end
  end.

(** The value of a tree. *)
Fixpoint of_json (v : LosslessJson) : js :=
  match v with
  | LNull => JNull
  | LBool b => JBool b
  | LStr s => JStr s
  | LNum raw => JNum (Number_of_text raw)
  | LArr l => JArr (map of_json l)
  | LObj o => JObj (map (fun kv => (fst kv, of_json (snd kv))) o)
  end.

Definition JSON_parse (text : units) : res js :=
  match jval (parse_fuel text) text with
  | Err m => Err m
  | Ok (v, r) => match ws r with [] => Ok (of_json v) | _ => Err "SyntaxError" end
  end.

(** ** It always answers *)

Lemma jparse_consumes fuel :
  (forall text, (2 * length text + 1 <= fuel)%nat -> consumes (length text) (jval fuel text)) /\
  (forall o text, (2 * length text + 2 <= fuel)%nat -> consumes (length text) (jmembers fuel o text)) /\
  (forall a text, (2 * length text + 2 <= fuel)%nat -> consumes (length text) (jelements fuel a text)).
Proof.
  induction fuel as [|fuel (IHv & IHm & IHe)]; [split; [|split]; intros; lia|].
  split; [|split].
  - intros text Hf. cbn [jval]. cbv zeta.
    destruct (expect 123 (ws text)) as [r|] eqn:E1; [apply expect_ws_len in E1; destruct (expect 125 (ws r)) as [r'|] eqn:E2|].
    { apply expect_ws_len in E2. simpl. lia. }
    { eapply consumes_mono; [apply IHm; lia|lia]. }
    destruct (expect 91 (ws text)) as [r|] eqn:E2; [apply expect_ws_len in E2; destruct (expect 93 (ws r)) as [r'|] eqn:E3|].
    { apply expect_ws_len in E3. simpl. lia. }
    { eapply consumes_mono; [apply IHe; lia|lia]. }
    eapply consumes_mono; [apply scalar_consumes|apply ws_len].
  - intros o text Hf. cbn [jmembers]. destruct (expect 34 (ws text)) as [t|] eqn:E1; [|done].
    apply expect_ws_len in E1. destruct (str t) as [[k r]|m] eqn:Es; [|by eapply str_err].
    apply str_len in Es. destruct (expect 58 (ws r)) as [r1|] eqn:E2; [|done].
    apply expect_ws_len in E2. specialize (IHv r1 ltac:(lia)). destruct (jval fuel r1) as [[v r2]|m]; simpl in IHv; [|done].
    destruct (expect 44 (ws r2)) as [r3|] eqn:E3; [apply expect_ws_len in E3; eapply consumes_mono; [apply IHm; lia|lia]|].
    destruct (expect 125 (ws r2)) as [r3|] eqn:E4; [|done]. apply expect_ws_len in E4. simpl. lia.
  - intros a text Hf. cbn [jelements]. specialize (IHv text ltac:(lia)). destruct (jval fuel text) as [[v r]|m]; simpl in IHv; [|done].
    destruct (expect 44 (ws r)) as [r1|] eqn:E3; [apply expect_ws_len in E3; eapply consumes_mono; [apply IHe; lia|lia]|].
    destruct (expect 93 (ws r)) as [r1|] eqn:E4; [|done]. apply expect_ws_len in E4. simpl. lia.
Qed.

Lemma JSON_parse_total text : JSON_parse text <> Err "out of fuel".
Proof.
  unfold JSON_parse, parse_fuel. pose proof (proj1 (jparse_consumes (2 * length text + 2)) text ltac:(lia)) as H.
  destruct (jval _ text) as [[v r]|m]; simpl in H; [by destruct (ws r)|congruence].
Qed.

(** ** It reads what the lossless parser reads *)

Lemma oset_new {A} k (v : A) o : ohas k o = false -> oset k v o = o ++ [(k, v)].
Proof.
  unfold ohas. induction o as [|[x w] o IH]; simpl; [done|]. destruct (units_eqb k x); [done|]. intros H. by rewrite IH.
Qed.

Lemma lossless_agrees fuel :
  (forall d t v r, val fuel d t = Ok (v, r) -> jval fuel t = Ok (v, r)) /\
  (forall d o t v r, members fuel d o t = Ok (v, r) -> jmembers fuel o t = Ok (v, r)) /\
  (forall d a t v r, elements fuel d a t = Ok (v, r) -> jelements fuel a t = Ok (v, r)).
Proof.
  induction fuel as [|fuel (IHv & IHm & IHe)]; [done|]. split; [|split].
  - intros d t v r. cbn [val jval]. destruct (256 <? d); [done|]. cbv zeta. destruct (expect 123 (ws t)) as [r1|].
    { destruct (expect 125 (ws r1)); [done|apply IHm]. }
    destruct (expect 91 (ws t)) as [r1|]; [|done]. destruct (expect 93 (ws r1)); [done|apply IHe].
  - intros d o t v r. cbn [members jmembers]. destruct (expect 34 (ws t)) as [t1|]; [|done]. destruct (str t1) as [[k r1]|m]; [|done].
    destruct (ohas k o) eqn:Eo; [done|]. destruct (expect 58 (ws r1)) as [r2|]; [|done].
    destruct (val fuel (d + 1) r2) as [[x r3]|m] eqn:Ex; [|done]. rewrite (IHv _ _ _ _ Ex), (oset_new _ _ _ Eo).
    destruct (expect 44 (ws r3)); [apply IHm|]. by destruct (expect 125 (ws r3)).
  - intros d a t v r. cbn [elements jelements]. destruct (val fuel (d + 1) t) as [[x r1]|m] eqn:Ex; [|done]. rewrite (IHv _ _ _ _ Ex).
    destruct (expect 44 (ws r1)); [apply IHe|]. by destruct (expect 93 (ws r1)).
Qed.

Lemma JSON_parse_lossless text v : parseJsonLossless text = Ok v -> JSON_parse text = Ok (of_json v).
Proof.
  unfold parseJsonLossless, JSON_parse. destruct (val _ 0 text) as [[x r]|] eqn:E; [|done].
  rewrite (proj1 (lossless_agrees _) _ _ _ _ E). destruct (ws r); [by intros [= <-]|done].
Qed.

Lemma JSON_parse_stringify v : wfb v -> nesting v <= 256 -> JSON_parse (stringifyLossless v) = Ok (of_json (ordered v)).
Proof. intros Hw Hn. by apply JSON_parse_lossless, parse_stringify. Qed.

(** ** Objects written and read back *)

Definition jfield (k : string) (v : js) : units * js := (u k, v).

Definition stringify_object (o : object) : units := default [] (JSON_stringify (JObj o)).
Definition json_tree (v : js) : LosslessJson := default LNull (toJson v).

(** What comes back of a value: [undefined] members are gone, numbers are read from their text. *)
Definition read_back (v : js) : js := match toJson v with Some x => of_json (ordered x) | None => JUndef end.

Lemma toJson_wfb v x : wf_js v -> toJson v = Some x -> wfb x.
Proof.
  revert x. induction v as [| |b|n|s|l IH|o IH] using js_nested_ind; intros x Hw; cbn [toJson]; intros [= <-]; try done.
  - simpl in Hw. destruct (isFinite n); [|done]. by apply Hw.
  - apply wfb_arr, Forall_map. rewrite wf_js_arr, Forall_elem in Hw. rewrite Forall_elem in IH |- *. intros y Hy.
    destruct (toJson y) eqn:E; simpl; [|done]. by eapply IH; [|apply Hw|].
  - apply wf_js_obj in Hw as [Hn Hw]. apply wfb_obj.
    match goal with |- context [flat_map ?g o] => change (flat_map g o) with (pick (fun kv => toJson (snd kv)) o) end.
    split; [by apply pick_nodup|]. apply Forall_elem. intros [k y] (z & Hz & E)%pick_elem. rewrite Forall_elem in IH, Hw.
    destruct (Hw _ Hz) as [Hk Hz']. split; [done|]. by apply (IH _ Hz).
Qed.

Lemma oget_toJson k o : NoDup (map fst o) -> oget k (pick (fun kv : units * js => toJson (snd kv)) o) = x ← oget k o; toJson x.
Proof.
  intros Hn. apply option_eq. intros y. rewrite oget_in by (by apply pick_nodup). rewrite pick_elem. split.
  - intros (x & Hx & E). apply oget_in in Hx; [|done]. by rewrite Hx.
  - destruct (oget k o) as [x|] eqn:E; [|done]. intros Hy. exists x. split; [by apply oget_in|done].
Qed.

(** What comes back of an object, member by member. *)
Lemma read_back_object o : wf_js (JObj o) ->
  exists q, read_back (JObj o) = JObj q /\ forall k, default JUndef (oget k q) = read_back (default JUndef (oget k o)).
Proof.
  intros Hw. unfold read_back. cbn [toJson]. unfold ordered. cbn [deep of_json]. eexists. split; [reflexivity|]. intros k.
  apply wf_js_obj in Hw as [Hd _].
  match goal with |- context [flat_map ?g o] => change (flat_map g o) with (pick (fun kv => toJson (snd kv)) o) end.
  change (fun kv => (fst kv, deep own_members (snd kv))) with (on_snd (deep own_members)).
  change (fun kv => (fst kv, of_json (snd kv))) with (on_snd of_json).
  rewrite oget_map, (oget_deep own_members own_members_perm), oget_toJson by (done || by apply pick_nodup).
  destruct (oget k o) as [x|]; cbn; [|done]. by destruct (toJson x).
Qed.

Lemma read_back_obj o : wf_js (JObj o) -> exists q, read_back (JObj o) = JObj q /\ forall k, prop k q = read_back (prop k o).
Proof. intros Hw. destruct (read_back_object o Hw) as (q & E & H). exists q. split; [done|]. intros k. apply H. Qed.

(** Every member comes back. *)
Lemma parse_object o : wf_js (JObj o) -> nesting (json_tree (JObj o)) <= 256 -> JSON_parse (stringify_object o) = Ok (read_back (JObj o)).
Proof.
  intros Hw Hn. pose proof (toJson_wfb (JObj o) _ Hw eq_refl) as Hb. unfold stringify_object, JSON_stringify, read_back.
  cbn [fmap option_fmap option_map default toJson id]. unfold json_tree in Hn. cbn [toJson default id] in Hn. by rewrite JSON_parse_stringify.
Qed.

Lemma parse_object_prop o : wf_js (JObj o) -> nesting (json_tree (JObj o)) <= 256 ->
  exists q, JSON_parse (stringify_object o) = Ok (JObj q) /\ forall k, prop k q = read_back (prop k o).
Proof. intros Hw Hn. rewrite parse_object by done. destruct (read_back_obj o Hw) as (q & -> & H). by exists q. Qed.

(** ** Numbers that survive their text *)

Fixpoint exact_tree (v : LosslessJson) : Prop :=
  match v with
  | LNum raw => isFinite (Number_of_text raw) = true /\ number_text (Number_of_text raw) = raw
  | LArr l => (fix all l := match l with [] => True | x :: r => exact_tree x /\ all r end) l
  | LObj o => (fix all o := match o with [] => True | (_, x) :: r => exact_tree x /\ all r end) o
  | _ => True
  end.

Lemma exact_arr l : exact_tree (LArr l) <-> Forall exact_tree l.
Proof. simpl. split; [|by induction 1]. induction l as [|x r IH]; [done|]. intros [? ?]. constructor; auto. Qed.
Lemma exact_obj o : exact_tree (LObj o) <-> Forall (fun kv => exact_tree (snd kv)) o.
Proof.
  simpl. split; [|by induction 1 as [|[k x] r]]. induction o as [|[k x] r IH]; [done|]. intros [? ?]. constructor; [done|auto].
Qed.

Lemma toJson_of_json v : exact_tree v -> toJson (of_json v) = Some v.
Proof.
  induction v as [|b|s|raw|l IH|o IH] using lossless_ind; try done; cbn [of_json toJson].
  - intros [Hf He]. by rewrite Hf, He.
  - rewrite exact_arr. intros He. do 2 f_equal. rewrite map_map. etrans; [|apply map_id]. apply map_ext_in. intros x Hx%list_elem_of_In.
    rewrite Forall_elem in IH, He. rewrite IH; [done|done|by apply He].
  - rewrite exact_obj. intros He. do 2 f_equal. induction o as [|[k x] r IHr]; [done|]. cbn [map flat_map fst snd].
    apply Forall_cons in IH as [IHx IH]. apply Forall_cons in He as [Hx He]. cbn [snd] in *. rewrite IHx by done. cbn [app]. f_equal. by apply IHr.
Qed.

Lemma exact_ordered v : exact_tree v -> exact_tree (ordered v).
Proof.
  unfold ordered. induction v as [|b|s|raw|l IH|o IH] using lossless_ind; try done; cbn [deep].
  - rewrite !exact_arr. intros He. apply Forall_map. rewrite Forall_elem in IH, He |- *. auto.
  - rewrite !exact_obj. intros He. rewrite own_members_perm. apply Forall_map. rewrite Forall_elem in IH, He |- *. intros kv Hkv. cbn. auto.
Qed.

(** With such numbers the value that comes back has the same text. *)
Lemma read_back_text o q : exact_tree (json_tree (JObj o)) -> read_back (JObj o) = JObj q -> stringify_object q = stringify_object o.
Proof.
  unfold read_back, json_tree, stringify_object, JSON_stringify. destruct (toJson (JObj o)) as [x|] eqn:E; [|done].
  cbn [default id]. intros He Hq. rewrite <- Hq, toJson_of_json by (by apply exact_ordered). cbn. apply stringify_ordered.
Qed.

(** ** Written objects are well formed *)

Lemma u_units s : Forall is_unit (u s).
Proof. induction s as [|c s IH]; [constructor|]. constructor; [|done]. unfold is_unit, code. pose proof (Ascii.nat_ascii_bounded c). lia. Qed.

(** An object of members in distinct fields. *)
Lemma wf_fields o : NoDup (map fst o) -> Forall (fun kv => Forall is_unit (fst kv) /\ wf_js (snd kv)) o -> wf_js (JObj o).
Proof. intros. by apply wf_js_obj. Qed.

(** Members with texts of the program as keys. *)
Ltac fields_wf := repeat (apply List.Forall_cons; [split; [apply u_units|cbn [snd jfield]; try (cbn [wf_js]; apply u_units)]|]); try apply List.Forall_nil.

(** The keys of a written object are distinct by computation. *)
Ltac distinct_keys := refine (bool_decide_eq_true_1 _ _); vm_compute; reflexivity.

Lemma tree_bound o m : 0 <= m -> Forall (fun kv => nesting (json_tree (snd kv)) <= m) o -> nesting (json_tree (JObj o)) <= 1 + m.
Proof.
  intros Hm H. unfold json_tree. cbn [toJson default id].
  match goal with |- context [flat_map ?g o] => change (flat_map g o) with (pick (fun kv => toJson (snd kv)) o) end.
  apply nesting_bound_obj; [done|]. intros [k x] (v & Hv & E)%pick_elem. cbn [snd] in *. rewrite Forall_elem in H. specialize (H _ Hv). unfold json_tree in H. cbn [snd] in H. by rewrite E in H.
Qed.
