(* ===== verification/BridgeInput.v ===== *)
(** * Bridge amounts and addresses typed by the user ([src/apps/site-next/src/bridge/validate.ts])

    The exact parsing of decimal amounts ([toBaseUnits] of [src/packages/core/src/base-wallet.ts]),
    the units of a deposit and of a withdrawal, and the checks of Bitcoin addresses.  An error is
    the key of its translated message. *)
From Stdlib Require Import DecimalN DecimalFacts.
From S2P Require Import Prelude JsText JsNum JsUtf16 LosslessJson Address.
Local Open Scope Z_scope.

Inductive BridgeAsset := AETH | AUSDC | AXRGE | ABTC.
#[export] Instance BridgeAsset_eq_dec : EqDecision BridgeAsset.
Proof. solve_decision. Defined.

Record AssetDef := { ad_id : BridgeAsset; ad_label : units; ad_l1Label : units; ad_decimals : nat }.

Definition ASSETS : list AssetDef :=
  [{| ad_id := AETH; ad_label := u "ETH"; ad_l1Label := u "qETH"; ad_decimals := 6 |};
   {| ad_id := AUSDC; ad_label := u "USDC"; ad_l1Label := u "qUSDC"; ad_decimals := 6 |};
   {| ad_id := AXRGE; ad_label := u "XRGE"; ad_l1Label := u "XRGE"; ad_decimals := 0 |};
   {| ad_id := ABTC; ad_label := u "BTC"; ad_l1Label := u "qBTC"; ad_decimals := 8 |}].

(** [ASSETS.find((a) => a.id === id)!]: every asset has an entry. *)
Definition assetDef (id : BridgeAsset) : AssetDef :=
  default {| ad_id := id; ad_label := []; ad_l1Label := []; ad_decimals := 0 |}
    (find (fun a => bool_decide (ad_id a = id)) ASSETS).

Definition WEI_PER_QETH_UNIT : Z := 10 ^ 12.
Definition WEI_PER_XRGE : Z := 10 ^ 18.

(** ** Decimal texts *)

(** [/^\d*\.?\d*$/] on a text other than the empty one and the point: whole and fraction digits. *)
Definition decimal_parts (s : units) : option (units * units) :=
  let '(whole, r) := take_digits s in
  match r with
  | [] => if bool_decide (whole = []) then None else Some (whole, [])
  | c :: frac =>
      if (c =? 46) && forallb is_dec frac && negb (bool_decide (whole = [] /\ frac = [])) then Some (whole, frac)
      else None
  end.

(** [s.replace(",", ".")]: the first comma. *)
Fixpoint comma_to_point (s : units) : units :=
  match s with [] => [] | c :: r => if c =? 44 then 46 :: r else c :: comma_to_point r end.

(** [s.replace(/0+$/, "")]. *)
Fixpoint drop_zeros (s : units) : units :=
  match s with c :: r => if c =? 48 then drop_zeros r else s | [] => [] end.
Definition trim_zeros (s : units) : units := rev (drop_zeros (rev s)).

(** [toBaseUnits(amount, decimals)] of core/base-wallet. *)
Definition toBaseUnits (amount : units) (decimals : nat) : res Z :=
  match decimal_parts (utrim amount) with
  | None => Err "Invalid amount"
  | Some (whole, frac) =>
      if (decimals <? length frac)%nat then Err "Too many decimals"
      else Ok (digits_val whole * 10 ^ Z.of_nat decimals
               + digits_val (frac ++ repeat 48 (decimals - length frac)))
  end.

(** [s.slice(0, n).replace(/\.$/, "")]. *)
Definition drop_point (s : units) : units :=
  match rev s with 46 :: r => rev r | _ => s end.

Definition parse_units (input : units) (decimals : nat) : res Z :=
  let s := comma_to_point (utrim input) in
  match decimal_parts s with
  | None => Err "invalidAmount"
  | Some (_, frac) =>
      if (decimals <? length (trim_zeros frac))%nat then
        Err (if (decimals =? 0)%nat then "wholeXrge" else "tooManyDecimals")
      else
        let trimmed := if (decimals <? length frac)%nat
                       then drop_point (take (length s - (length frac - decimals)) s) else s in
        match toBaseUnits trimmed decimals with
        | Err _ => Err "invalidAmount"
        | Ok v => if v <=? 0 then Err "invalidAmount" else Ok v
        end
  end.

Record DepositAmount := { baseUnits : Z; l1Units : Z }.

Definition parseDepositAmount (asset : BridgeAsset) (input : units) : res DepositAmount :=
  match asset with
  | ABTC => Err "invalidAmount"
  | _ =>
      res_bind (parse_units input (ad_decimals (assetDef asset))) (fun v =>
      Ok match asset with
         | AETH => {| baseUnits := v * WEI_PER_QETH_UNIT; l1Units := v |}
         | AXRGE => {| baseUnits := v * WEI_PER_XRGE; l1Units := v |}
         | _ => {| baseUnits := v; l1Units := v |}
         end)
  end.

Definition parseWithdrawAmount (asset : BridgeAsset) (input : units) : res number :=
  res_bind (parse_units input (ad_decimals (assetDef asset))) (fun v =>
  let n := num_of_Z v in
  if negb (isSafeInteger n) then Err "invalidAmount" else Ok n).

(** [formatUnits(raw, decimals)] on a bigint. *)
Definition formatUnits (v : Z) (decimals : nat) : units :=
  if (decimals =? 0)%nat then udec v else
  let a := Z.abs v in
  let base := 10 ^ Z.of_nat decimals in
  let digits := udec (a mod base) in
  let frac := trim_zeros (repeat 48 (decimals - length digits) ++ digits) in
  (if v <? 0 then [45] else []) ++ udec (a / base) ++ (if bool_decide (frac = []) then [] else 46 :: frac).

(** ** Bitcoin addresses *)

Definition bech32Polymod (values : list Z) : Z := polymod values.

Section Addresses.
Context `{U : Unicode}.
(** [toUpperCase] of the platform. *)
Variable toUpper : units -> units.

Definition isValidSegwit (addr hrp : units) : bool :=
  if negb (units_eqb addr (toLower addr)) && negb (units_eqb addr (toUpper addr)) then false else
  let a := toLower addr in
  if negb (starts_with (hrp ++ [49]) a) || (90 <? length a)%nat then false else
  match charset_indices (drop (length hrp + 1) a) with
  | None => false
  | Some data =>
      if (length data <? 7)%nat then false else
      let pm := bech32Polymod (hrpExpand hrp ++ data) in
      let version := default 0 (head data) in
      if 16 <? version then false
      else if negb (pm =? (if version =? 0 then 1 else BECH32M_CONST)) then false
      else
        let progBytes := Z.of_nat (length data - 7) * 5 / 8 in
        if (progBytes <? 2) || (40 <? progBytes) then false
        else negb ((version =? 0) && negb (progBytes =? 20) && negb (progBytes =? 32))
  end.

Inductive BtcNetwork := BtcMainnet | BtcTestnet.

(** [1-9A-HJ-NP-Za-km-z]. *)
Definition is_base58 (c : Z) : bool :=
  ((49 <=? c) && (c <=? 57)) || ((65 <=? c) && (c <=? 90) && negb (c =? 73) && negb (c =? 79))
  || ((97 <=? c) && (c <=? 122) && negb (c =? 108)).

Definition legacy (network : BtcNetwork) (s : units) : bool :=
  match s with
  | c :: r => existsb (Z.eqb c) (match network with BtcMainnet => u "13" | BtcTestnet => u "mn2" end)
              && (25 <=? length r)%nat && (length r <=? 34)%nat && forallb is_base58 r
  | [] => false
  end.

Definition parseBtcAddress (input : units) (network : BtcNetwork) : res units :=
  let s := utrim input in
  let hrp := match network with BtcMainnet => u "bc" | BtcTestnet => u "tb" end in
  if (length s <? 14)%nat then Err "invalidBtcAddress"
  else if starts_with (hrp ++ [49]) (toLower s) then if isValidSegwit s hrp then Ok s else Err "invalidBtcAddress"
  else if legacy network s then Ok s else Err "invalidBtcAddress".
End Addresses.

Definition is_hex_unit (c : Z) : bool := match hexv c with Some _ => true | None => false end.

(** 0x and 64 hexadecimal digits. *)
Definition isBaseTxHash (s : units) : bool :=
  match strip (u "0x") (utrim s) with Some r => (length r =? 64)%nat && forallb is_hex_unit r | None => false end.

Definition normalizeBtcTxid (s : units) : option units :=
  let t := utrim s in
  let t := match strip (u "0x") t with Some r => r | None => t end in
  if (length t =? 64)%nat && forallb is_hex_unit t then Some t else None.

(** ** Lemmas on decimal texts *)

Definition all_dec (l : units) : Prop := forallb is_dec l = true.

Lemma take_digits_all l : all_dec l -> take_digits l = (l, []).
Proof. induction l as [|c l IH]; simpl; [done|]. intros [Hc H]%andb_true_iff. by rewrite Hc, IH. Qed.

Lemma take_digits_stop l c r : all_dec l -> is_dec c = false -> take_digits (l ++ c :: r) = (l, c :: r).
Proof. induction l as [|x l IH]; simpl; [by intros _ ->|]. intros [Hx H]%andb_true_iff Hc. by rewrite Hx, IH. Qed.

Lemma take_digits_all_dec l d k : take_digits l = (d, k) -> all_dec d.
Proof.
  revert d k. induction l as [|c l IH]; simpl; intros d k; [by intros [= <- <-]|].
  destruct (is_dec c) eqn:E; [|by intros [= <- <-]]. destruct (take_digits l) as [d' k'].
  intros [= <- <-]. unfold all_dec. simpl. by rewrite E, (IH d' k').
Qed.

(** A decimal text with its parts. *)
Inductive parts_of : units -> units -> units -> Prop :=
| parts_whole w : w <> [] -> all_dec w -> parts_of w w []
| parts_point w f : ~ (w = [] /\ f = []) -> all_dec w -> all_dec f -> parts_of (w ++ 46 :: f) w f.

Lemma decimal_parts_iff s w f : decimal_parts s = Some (w, f) <-> parts_of s w f.
Proof.
  unfold decimal_parts. split.
  - destruct (take_digits s) as [w' r] eqn:E. pose proof (take_digits_app _ _ _ E) as ->.
    pose proof (take_digits_all_dec _ _ _ E) as Hw. destruct r as [|c r].
    + case_bool_decide as Hn; [done|]. intros [= <- <-]. rewrite app_nil_r. by constructor.
    + destruct (_ && _) eqn:Eb; [|done]. intros [= <- <-].
      apply andb_true_iff in Eb as [[->%Z.eqb_eq Hf]%andb_true_iff Hb%negb_true_iff%bool_decide_eq_false]. by constructor.
  - destruct 1 as [w Hn Hw|w f Hn Hw Hf].
    + rewrite take_digits_all by done. by rewrite bool_decide_eq_false_2.
    + rewrite take_digits_stop by done. rewrite Hf. cbn [Z.eqb Pos.eqb andb]. by rewrite bool_decide_eq_false_2.
Qed.

Lemma parts_chars s w f : parts_of s w f -> Forall (fun c => is_dec c = true \/ c = 46) s.
Proof.
  assert (forall l, all_dec l -> Forall (fun c => is_dec c = true \/ c = 46) l) as H.
  { intros l Hl. apply Forall_elem. intros c Hc%list_elem_of_In. unfold all_dec in Hl. rewrite forallb_forall in Hl. auto. }
  destruct 1; [by apply H|]. apply Forall_app. split; [by apply H|]. constructor; [by right|by apply H].
Qed.

Lemma skip_space_id l : Forall (fun c => is_space c = false) l -> skip_space l = l.
Proof. destruct 1 as [|c l Hc _]; simpl; [done|]. by rewrite Hc. Qed.

Lemma utrim_id l : Forall (fun c => is_space c = false) l -> utrim l = l.
Proof.
  intros H. unfold utrim. rewrite (skip_space_id l H), skip_space_id; [apply rev_involutive|].
  apply Forall_elem. intros c Hc%list_elem_of_In%in_rev%list_elem_of_In. rewrite Forall_elem in H. by apply H.
Qed.

Lemma parts_trim s w f : parts_of s w f -> utrim s = s.
Proof.
  intros H%parts_chars. apply utrim_id. eapply Forall_impl; [exact H|]. intros c Hc. cbv beta in Hc.
  unfold is_dec in Hc. unfold is_space. lia.
Qed.

Lemma drop_zeros_eq s : exists k, s = repeat 48 k ++ drop_zeros s.
Proof.
  induction s as [|c s [k IH]]; [by exists 0%nat|]. simpl. destruct (Z.eqb_spec c 48) as [->|]; [|by exists 0%nat].
  exists (S k). simpl. by rewrite <- IH.
Qed.

Lemma trim_zeros_eq s : exists k, s = trim_zeros s ++ repeat 48 k.
Proof.
  destruct (drop_zeros_eq (rev s)) as [k H]. exists k. unfold trim_zeros.
  rewrite <- (rev_involutive s), H at 1. rewrite rev_app_distr. f_equal. apply rev_repeat.
Qed.

(** ** Exactness *)

Abbreviation pow10 n := (10 ^ Z.of_nat n).

Lemma pow10_add a b : pow10 (a + b) = pow10 a * pow10 b.
Proof. rewrite Nat2Z.inj_add. apply Z.pow_add_r; lia. Qed.

Lemma digits_val_pad f n : digits_val (f ++ repeat 48 n) = digits_val f * pow10 n.
Proof. rewrite digits_val_app, digits_val_repeat, repeat_length. lia. Qed.

Lemma toBaseUnits_parts s w f d v :
  parts_of s w f -> toBaseUnits s d = Ok v ->
  (length f <= d)%nat /\ v * pow10 (length f) = digits_val (w ++ f) * pow10 d.
Proof.
  intros Hp. unfold toBaseUnits. rewrite (parts_trim s w f Hp), (proj2 (decimal_parts_iff s w f) Hp).
  destruct (Nat.ltb_spec d (length f)); [done|]. intros [= <-]. split; [done|].
  rewrite digits_val_pad, digits_val_app. set (k := (d - length f)%nat).
  replace d with (length f + k)%nat by lia. rewrite pow10_add. lia.
Qed.

Lemma drop_repeat {A} (x : A) n m : drop n (repeat x m) = repeat x (m - n).
Proof. revert n. induction m as [|m IH]; intros [|n]; simpl; [done..|]. apply IH. Qed.

(** Cutting a fraction whose cut digits are zeros. *)
Lemma cut_fraction f d :
  (d < length f)%nat -> (length (trim_zeros f) <= d)%nat -> f = take d f ++ repeat 48 (length f - d).
Proof.
  intros Hd Ht. destruct (trim_zeros_eq f) as [k Hk].
  assert (length f = length (trim_zeros f) + k)%nat as Hl.
  { rewrite Hk at 1. by rewrite length_app, repeat_length. }
  rewrite <- (take_drop d f) at 1. f_equal. rewrite Hk at 1. rewrite drop_app_ge, drop_repeat by done. f_equal. lia.
Qed.

Lemma drop_point_snoc s : drop_point (s ++ [46]) = s.
Proof. unfold drop_point. rewrite rev_app_distr. simpl. apply rev_involutive. Qed.

Lemma drop_point_other s c : c <> 46 -> drop_point (s ++ [c]) = s ++ [c].
Proof.
  intros Hc. unfold drop_point. rewrite rev_app_distr. simpl. repeat case_match; by simplify_eq.
Qed.

(** The text cut to [d] fraction digits. *)
Lemma cut_text w f d :
  all_dec f -> (d < length f)%nat ->
  drop_point (take (length (w ++ 46 :: f) - (length f - d)) (w ++ 46 :: f))
  = if (d =? 0)%nat then w else w ++ 46 :: take d f.
Proof.
  intros Hf Hd. rewrite length_app. simpl length.
  replace (length w + S (length f) - (length f - d))%nat with (length w + S d)%nat by lia.
  rewrite take_app_add. cbn [take]. destruct (Nat.eqb_spec d 0) as [->|Hne]; [apply drop_point_snoc|].
  destruct (exists_last (l := take d f)) as (k & c & Ek).
  { intros E. apply (f_equal length) in E. rewrite length_take in E. simpl in E. lia. }
  rewrite Ek. replace (w ++ 46 :: k ++ [c]) with ((w ++ 46 :: k) ++ [c]) by (by rewrite <- app_assoc).
  apply drop_point_other. intros ->. unfold all_dec in Hf. rewrite forallb_forall in Hf.
  assert (46 ∈ f) as Hin by (rewrite <- (take_drop d f), Ek, !elem_of_app; left; right; by left).
  by apply list_elem_of_In, Hf in Hin.
Qed.

Lemma all_dec_take n f : all_dec f -> all_dec (take n f).
Proof.
  unfold all_dec. rewrite !forallb_forall. intros H c Hc%list_elem_of_In. apply H, list_elem_of_In.
  rewrite <- (take_drop n f), elem_of_app. by left.
Qed.

(** What an accepted amount is worth. *)
Lemma parse_units_value input d v :
  parse_units input d = Ok v ->
  0 < v /\ exists w f, decimal_parts (comma_to_point (utrim input)) = Some (w, f)
    /\ v * pow10 (length f) = digits_val (w ++ f) * pow10 d.
Proof.
  unfold parse_units. set (s := comma_to_point (utrim input)).
  destruct (decimal_parts s) as [[w f]|] eqn:Ep; [|done]. destruct (Nat.ltb_spec d (length (trim_zeros f))) as [|Ht]; [done|].
  cbv zeta. destruct (toBaseUnits _ d) as [x|] eqn:Eb; [|done]. destruct (x <=? 0) eqn:Ex; [done|]. breflect.
  intros [= <-]. split; [done|]. exists w, f. split; [done|]. apply decimal_parts_iff in Ep.
  destruct (Nat.ltb_spec d (length f)) as [Hd|Hd]; [|by apply toBaseUnits_parts with (w := w) (f := f) in Eb as [_ ?]].
  destruct Ep as [w Hw|w f Hn Hw Hf]; [simpl in Hd; lia|]. rewrite cut_text in Eb by done.
  pose proof (cut_fraction f d Hd Ht) as Hcut. assert (length (take d f) = d) as Hlt by (rewrite length_take; lia).
  assert (x = digits_val (w ++ take d f)) as ->.
  { destruct (Nat.eqb_spec d 0) as [->|Hne].
    - destruct (decide (w = [])) as [->|Hwn]; [done|].
      apply (toBaseUnits_parts w w []) in Eb as [_ E]; [|by constructor].
      rewrite take_0, app_nil_r. rewrite app_nil_r in E. cbn [length] in E. lia.
    - apply (toBaseUnits_parts _ w (take d f)) in Eb as [_ E].
      + rewrite Hlt in E. pose proof (Z.pow_pos_nonneg 10 (Z.of_nat d) ltac:(lia) ltac:(lia)). nia.
      + constructor; [|done|by apply all_dec_take]. intros [_ E]. by rewrite E in Hlt. }
  assert (digits_val (w ++ f) = digits_val (w ++ take d f) * pow10 (length f - d)) as ->.
  { rewrite Hcut at 1. by rewrite app_assoc, digits_val_pad. }
  replace (length f) with (length f - d + d)%nat at 1 by lia. rewrite pow10_add. lia.
Qed.

(** ** Printing *)

(** The digits of a positive number start with a non-zero digit. *)
Lemma to_uint_nonzero p d : Pos.to_uint p <> Decimal.D0 d.
Proof.
  intros E. change (Pos.to_uint p) with (N.to_uint (Npos p)) in E.
  pose proof (DecimalN.Unsigned.to_of (N.to_uint (Npos p))) as Hn. rewrite DecimalN.Unsigned.of_to, E in Hn.
  pose proof (DecimalFacts.nzhead_nonzero (Decimal.D0 d) d) as Hz. unfold Decimal.unorm in Hn.
  pose proof (DecimalN.Unsigned.of_to (Npos p)) as Hp. rewrite E in Hp.
  destruct (Decimal.nzhead (Decimal.D0 d)); try done; injection Hn as ->; done.
Qed.

Lemma udec_head z : 0 < z -> exists c r, udec z = c :: r /\ 49 <= c <= 57.
Proof.
  intros Hz. destruct z as [|p|p]; [lia| |lia]. unfold udec. pose proof (dec_cases (Zpos p)) as [-> _].
  pose proof (to_uint_nonzero p) as H0.
  assert (Pos.to_uint p <> Decimal.Nil) as Hnil.
  { intros E. pose proof (DecimalN.Unsigned.of_to (Npos p)) as H. change (N.to_uint (Npos p)) with (Pos.to_uint p) in H.
    by rewrite E in H. }
  destruct (Pos.to_uint p); [done|by destruct (H0 u)|..]; (eexists _, _; split; [reflexivity|vm_compute; split; congruence]).
Qed.

Lemma udec_length z d : 0 <= z < pow10 d -> (0 < d)%nat -> (length (udec z) <= d)%nat.
Proof.
  intros Hz Hd. destruct (Z.eq_dec z 0) as [->|Hne]; [simpl; lia|].
  destruct (udec_head z ltac:(lia)) as (c & r & E & Hc). pose proof (digits_val_udec z ltac:(lia)) as Hv.
  pose proof (udec_digits z ltac:(lia)) as Hdig. rewrite E in *. change (c :: r) with ([c] ++ r) in Hv.
  rewrite digits_val_app in Hv. change (digits_val [c]) with (10 * 0 + (c - 48)) in Hv.
  assert (0 <= digits_val r) as Hr.
  { clear - Hdig. apply Forall_cons in Hdig as [_ H]. induction r as [|x r IH] using rev_ind; [done|].
    apply Forall_app in H as [H [Hx _]%Forall_cons]. specialize (IH H). unfold digits_val in *.
    rewrite foldl_app. cbn [foldl]. unfold is_dec in Hx. lia. }
  simpl length. destruct (Nat.le_gt_cases d (length r)) as [Hle|]; [|lia]. exfalso.
  pose proof (Z.pow_le_mono_r 10 (Z.of_nat d) (Z.of_nat (length r)) ltac:(lia) ltac:(lia)). nia.
Qed.

Lemma all_dec_udec z : 0 <= z -> all_dec (udec z).
Proof. intros Hz. unfold all_dec. apply forallb_forall. pose proof (udec_digits z Hz) as H. rewrite Forall_elem in H. intros c Hc%list_elem_of_In. auto. Qed.

Lemma all_dec_app a b : all_dec (a ++ b) <-> all_dec a /\ all_dec b.
Proof. unfold all_dec. by rewrite forallb_app, andb_true_iff. Qed.

Lemma all_dec_repeat n : all_dec (repeat 48 n).
Proof. unfold all_dec. induction n; [done|]. done. Qed.

(** The printed text and its value. *)
Lemma formatUnits_parts v d :
  0 < v ->
  exists w f, parts_of (formatUnits v d) w f /\ (length f <= d)%nat
    /\ digits_val w * pow10 d + digits_val (f ++ repeat 48 (d - length f)) = v
    /\ formatUnits v d = w ++ (if bool_decide (f = []) then [] else 46 :: f) /\ w <> [].
Proof.
  intros Hv. unfold formatUnits. destruct (Nat.eqb_spec d 0) as [->|Hd].
  { assert (udec v <> []) as Hne by (destruct (udec_head v Hv) as (c & r & -> & _); done).
    exists (udec v), []. split; [constructor; [done|apply all_dec_udec; lia]|].
    rewrite digits_val_udec by lia. split; [simpl; lia|]. split; [change (v * 1 + 0 = v); lia|].
    split; [by rewrite app_nil_r|done]. }
  rewrite Z.abs_eq by lia. cbv zeta. destruct (Z.ltb_spec v 0); [lia|]. cbn [app].
  pose proof (Z.pow_pos_nonneg 10 (Z.of_nat d) ltac:(lia) ltac:(lia)) as Hp.
  pose proof (Z.mod_pos_bound v (pow10 d) Hp) as Hm. pose proof (Z.div_pos v (pow10 d) ltac:(lia) Hp) as Hq.
  set (digits := udec (v mod pow10 d)). set (full := repeat 48 (d - length digits) ++ digits).
  assert (length full = d) as Hl.
  { unfold full. rewrite length_app, repeat_length. pose proof (udec_length (v mod pow10 d) d Hm ltac:(lia)) as Hlen.
    fold digits in Hlen. lia. }
  assert (digits_val full = v mod pow10 d) as Hdv.
  { unfold full. rewrite digits_val_app, digits_val_repeat, Z.mul_0_l, Z.add_0_l. apply digits_val_udec, Hm. }
  assert (all_dec full) as Hfd by (apply all_dec_app; split; [apply all_dec_repeat|apply all_dec_udec; lia]).
  destruct (trim_zeros_eq full) as [k Hk]. set (f := trim_zeros full) in *.
  assert (length f + k = d)%nat as Hlk by (rewrite <- Hl, Hk, length_app, repeat_length; done).
  assert (all_dec f) as Hf by (rewrite Hk in Hfd; by apply all_dec_app in Hfd as [? _]).
  assert (udec (v / pow10 d) <> []) as Hne.
  { destruct (Z.eq_dec (v / pow10 d) 0) as [->|]; [done|].
    destruct (udec_head (v / pow10 d) ltac:(lia)) as (c & r & -> & _). done. }
  exists (udec (v / pow10 d)), f. split; [|split; [lia|split; [|done]]].
  - case_bool_decide as Ef; [rewrite Ef, app_nil_r|]; constructor; try done; try (apply all_dec_udec; lia). by intros [? _].
  - replace (d - length f)%nat with k by lia. rewrite <- Hk, Hdv, digits_val_udec by done.
    pose proof (Z.div_mod v (pow10 d) ltac:(lia)). lia.
Qed.

Lemma comma_id s : 44 ∉ s -> comma_to_point s = s.
Proof.
  induction s as [|c s IH]; intros H; simpl; [done|]. apply not_elem_of_cons in H as [Hc H].
  rewrite IH by done. by rewrite (proj2 (Z.eqb_neq c 44)).
Qed.

Lemma parts_text s w f : parts_of s w f -> comma_to_point (utrim s) = s.
Proof.
  intros H. rewrite (parts_trim s w f H). apply comma_id. intros Hin. apply parts_chars in H.
  rewrite Forall_elem in H. by destruct (H 44 Hin).
Qed.

(** ** Claims *)

(** The decimals of an asset on Base. *)
Definition base_decimals (asset : BridgeAsset) : nat :=
  match asset with AETH | AXRGE => 18 | AUSDC => 6 | ABTC => 8 end.

(** A deposit moves exactly the amount that was typed: for an accepted text [w.f] (a comma
    counts as the point) both the amount moved on Base, in its smallest unit, and the amount
    credited on RougeChain, in raw units, equal the decimal value of the text; nothing is
    rounded.  A text with more precision than the bridge carries is refused. *)
Theorem deposit_amount_exact asset input r :
  parseDepositAmount asset input = Ok r ->
  0 < l1Units r /\
  exists w f, decimal_parts (comma_to_point (utrim input)) = Some (w, f)
    /\ l1Units r * pow10 (length f) = digits_val (w ++ f) * pow10 (ad_decimals (assetDef asset))
    /\ baseUnits r * pow10 (length f) = digits_val (w ++ f) * pow10 (base_decimals asset).
Proof.
  unfold parseDepositAmount. intros H.
  assert (exists v, parse_units input (ad_decimals (assetDef asset)) = Ok v /\ asset <> ABTC
    /\ l1Units r = v /\ baseUnits r * pow10 (ad_decimals (assetDef asset)) = v * pow10 (base_decimals asset))
    as (v & Hp & Hb & Hl & Hbase).
  { destruct asset; [..|done];
      (destruct (parse_units input _) as [v|] eqn:E; [|done]); injection H as <-; exists v; split; try done;
      split; try done; split; try done; cbn [baseUnits];
      change (ad_decimals _) with 6%nat || change (ad_decimals _) with 0%nat; cbn [base_decimals];
      unfold WEI_PER_QETH_UNIT, WEI_PER_XRGE; lia. }
  apply parse_units_value in Hp as (Hv & w & f & Hd & He). rewrite Hl. split; [done|]. exists w, f. split; [done|].
  split; [done|]. pose proof (Z.pow_pos_nonneg 10 (Z.of_nat (ad_decimals (assetDef asset))) ltac:(lia) ltac:(lia)).
  nia.
Qed.

(** Amount round trip: the text printed for a positive raw amount parses back to that amount,
    for every number of decimals. *)
Theorem amount_roundtrip v d : 0 < v -> parse_units (formatUnits v d) d = Ok v.
Proof.
  intros Hv. destruct (formatUnits_parts v d Hv) as (w & f & Hp & Hl & He & _). set (s := formatUnits v d) in *.
  unfold parse_units. rewrite (parts_text s w f Hp), (proj2 (decimal_parts_iff s w f) Hp).
  destruct (trim_zeros_eq f) as [k Hk]. apply (f_equal length) in Hk. rewrite length_app in Hk.
  destruct (Nat.ltb_spec d (length (trim_zeros f))); [lia|]. cbv zeta. destruct (Nat.ltb_spec d (length f)); [lia|].
  unfold toBaseUnits. rewrite (parts_trim s w f Hp), (proj2 (decimal_parts_iff s w f) Hp).
  destruct (Nat.ltb_spec d (length f)); [lia|]. rewrite He. destruct (Z.leb_spec v 0); [lia|done].
Qed.

Lemma amount_roundtrip_witness :
  formatUnits 1250000 6 = u "1.25" /\ parse_units (formatUnits 1250000 6) 6 = Ok 1250000.
Proof. split; [reflexivity|]. apply (amount_roundtrip 1250000 6). lia. Defined.

Lemma deposit_amount_exact_witness :
  exists w f, decimal_parts (comma_to_point (utrim (u " 0,25 "))) = Some (w, f)
    /\ 250000 * pow10 (length f) = digits_val (w ++ f) * pow10 6
    /\ 250000000000000000 * pow10 (length f) = digits_val (w ++ f) * pow10 18.
Proof.
  destruct (deposit_amount_exact AETH (u " 0,25 ") {| baseUnits := 250000000000000000; l1Units := 250000 |})
    as (_ & w & f & H); [vm_compute; reflexivity|]. exists w, f. exact H.
Defined.

(** Over-precise and empty inputs are refused. *)
Example refused_inputs :
  parseDepositAmount AXRGE (u "1.5") = Err "wholeXrge" /\ parseDepositAmount AXRGE (u "2.0") <> Err "wholeXrge"
  /\ parseDepositAmount AETH (u "0.0000001") = Err "tooManyDecimals" /\ parseDepositAmount AUSDC (u ".") = Err "invalidAmount".
Proof. repeat split; vm_compute; congruence. Qed.
