(* ===== verification/EvmCalldata.v ===== *)
(** * Calldata of the bridge deposits ([src/apps/site-next/src/bridge/evm.ts])

    The hand-written ABI encodings the bridge page sends to the wallet, and their correctness
    against a decoder that follows the ABI specification: a selector, 32-byte head words, and a
    dynamic string found through its offset, as a length word and right-padded bytes. *)
From S2P Require Import Prelude JsText JsUtf16 BridgeInput.
Local Open Scope Z_scope.

(** ** Hexadecimal texts *)

(** The last [k] hexadecimal digits of [n]. *)
Fixpoint hex_digits (k : nat) (n : Z) : units :=
  match k with O => [] | S k => hex_digits k (n / 16) ++ [hexd (n mod 16)] end.

(** [n.toString(16)] of a non-negative integer. *)
Definition hex_of (n : Z) : units :=
  if n =? 0 then [48] else hex_digits (Z.to_nat (Z.log2 n / 4 + 1)) n.

(** [s.padStart(k, "0")] and [s.padEnd(k, "0")]. *)
Definition padStart (k : nat) (s : units) : units := repeat 48 (k - length s) ++ s.
Definition padEnd (k : nat) (s : units) : units := s ++ repeat 48 (k - length s).

Definition toHex (n : Z) : units := u "0x" ++ hex_of n.

(** [s.slice(2)]. *)
Definition slice2 (s : units) : units := drop 2 s.

Definition word (n : Z) : units := padStart 64 (hex_of n).

(** The bytes of a text as two digits each. *)
Definition hex_bytes (l : list Z) : units := concat (map (fun b => padStart 2 (hex_of b)) l).

(** [hex.padEnd(Math.ceil(hex.length / 64) * 64, "0")]. *)
Definition pad_words (s : units) : units := padEnd ((length s + 63) / 64 * 64) s.

(** ** The encodings *)

Definition approveCalldata (spender : units) (amount : Z) : units :=
  u "0x095ea7b3" ++ padStart 64 (slice2 spender) ++ word amount.

Definition transferCalldata (to : units) (amount : Z) : units :=
  u "0xa9059cbb" ++ padStart 64 (slice2 to) ++ word amount.

Definition vaultDepositCalldata (amountWei : Z) (pubkey : units) : units :=
  u "0xf1215d25" ++ word amountWei ++ word 64 ++ word (Z.of_nat (length pubkey)) ++ pad_words (hex_bytes (utf8 pubkey)).

Definition abiStringTail (s : units) : units :=
  word (Z.of_nat (length (utf8 s))) ++ pad_words (hex_bytes (utf8 s)).

Definition bridgeDepositEthCalldata (pubkey : units) : units :=
  u "0x9b1c48e6" ++ word 32 ++ abiStringTail pubkey.

Section Lower.
Context `{Unicode}.

Definition bridgeDepositErc20Calldata (token : units) (amount : Z) (pubkey : units) : units :=
  u "0x5a67cb87" ++ padStart 64 (toLower (slice2 token)) ++ word amount ++ word 96 ++ abiStringTail pubkey.
End Lower.

Definition claimMessage (txHash recipientPubkey : units) : units :=
  u "RougeChain bridge claim" ++ [10] ++ u "Tx: " ++ txHash ++ [10] ++ u "Recipient: " ++ recipientPubkey.

Definition claimMessageHex (txHash recipientPubkey : units) : units :=
  u "0x" ++ hex_bytes (utf8 (claimMessage txHash recipientPubkey)).

Definition balanceOfCalldata (owner : units) : units := u "0x70a08231" ++ padStart 64 (slice2 owner).

Definition VAULT_DEPOSIT_GAS : units := u "0x7A120".
Definition BRIDGE_DEPOSIT_GAS : units := VAULT_DEPOSIT_GAS.

(** ** A decoder after the ABI specification *)

Definition hex_value (l : units) : option Z :=
  foldl (fun a c => match a, hexv c with Some x, Some d => Some (16 * x + d) | _, _ => None end) (Some 0) l.

(** The [i]-th 32-byte word of the arguments. *)
Definition word_at (data : units) (i : nat) : option Z :=
  let w := take 64 (drop (64 * i) data) in if (length w =? 64)%nat then hex_value w else None.

Fixpoint bytes_of (l : units) : option (list Z) :=
  match l with
  | [] => Some []
  | a :: b :: r =>
      match hex_value [a; b], bytes_of r with Some x, Some y => Some (x :: y) | _, _ => None end
  | _ => None
  end.

(** The dynamic bytes whose offset is the [i]-th word: they end the arguments, zero-padded to a
    whole number of words. *)
Definition bytes_at (data : units) (i : nat) : option (list Z) :=
  match word_at data i with
  | None => None
  | Some off =>
      if negb (off mod 32 =? 0) then None else
      let k := Z.to_nat (off / 32) in
      match word_at data k with
      | None => None
      | Some len =>
          let rest := drop (64 * S k) data in
          let n := (2 * Z.to_nat len)%nat in
          if (length rest =? (n + 63) / 64 * 64)%nat && forallb (Z.eqb 48) (drop n rest) then bytes_of (take n rest) else None
      end
  end.

(** The arguments of a call of [selector]. *)
Definition args_of (selector : units) (data : units) : option units :=
  if units_eqb (take 10 data) selector then Some (drop 10 data) else None.

(** ** The encodings decode to what was meant *)

Lemma hex_digits_length k n : length (hex_digits k n) = k.
Proof. revert n. induction k as [|k IH]; intros n; [done|]. cbn [hex_digits]. rewrite length_app, IH. simpl. lia. Qed.

Lemma hex_value_app a b x y :
  hex_value a = Some x -> hex_value b = Some y -> hex_value (a ++ b) = Some (x * 16 ^ Z.of_nat (length b) + y).
Proof.
  unfold hex_value. intros Ha. rewrite foldl_app, Ha. clear a Ha.
  assert (forall b x0 y x, foldl (fun a c => match a, hexv c with Some x, Some d => Some (16 * x + d) | _, _ => None end) (Some x0) b = Some y ->
    foldl (fun a c => match a, hexv c with Some x, Some d => Some (16 * x + d) | _, _ => None end) (Some (x + x0)) b
      = Some (x * 16 ^ Z.of_nat (length b) + y)) as G.
  { clear. induction b as [|c b IH]; intros x0 y x Hb; cbn [foldl length] in *.
    - injection Hb as <-. f_equal. simpl. lia.
    - destruct (hexv c) as [d|].
      + replace (16 * (x + x0) + d) with (16 * x + (16 * x0 + d)) by lia. rewrite (IH _ _ _ Hb). f_equal.
        rewrite Nat2Z.inj_succ, Z.pow_succ_r by lia. lia.
      + exfalso. clear -Hb. induction b as [|c b IH]; simpl in Hb; [done|]. auto. }
  intros Hb. rewrite <- (Z.add_0_r x) at 1. by apply G.
Qed.

Lemma hex_digits_value k n : 0 <= n < 16 ^ Z.of_nat k -> hex_value (hex_digits k n) = Some n.
Proof.
  revert n. induction k as [|k IH]; intros n Hn; cbn [hex_digits]; [change (16 ^ Z.of_nat 0) with 1 in Hn; cbn; f_equal; lia|].
  rewrite Nat2Z.inj_succ, Z.pow_succ_r in Hn by lia.
  assert (0 <= n / 16 < 16 ^ Z.of_nat k) by (split; [apply Z.div_pos; lia|apply Z.div_lt_upper_bound; lia]).
  pose proof (Z.mod_pos_bound n 16 ltac:(lia)).
  rewrite (hex_value_app _ _ (n / 16) (n mod 16)); [|by apply IH|].
  - f_equal. cbn [length]. change (16 ^ Z.of_nat 1) with 16. pose proof (Z.div_mod n 16 ltac:(lia)). lia.
  - unfold hex_value. cbn [foldl]. rewrite hexv_hexd by lia. f_equal.
Qed.

Lemma hex_digits_pad j k n : 0 <= n < 16 ^ Z.of_nat k -> hex_digits (j + k) n = repeat 48 j ++ hex_digits k n.
Proof.
  revert n. induction k as [|k IH]; intros n Hn.
  - assert (n = 0) as -> by (simpl in Hn; lia). rewrite Nat.add_0_r, app_nil_r. clear.
    induction j as [|j IH]; [done|]. cbn [hex_digits]. rewrite Z.div_0_l by lia. rewrite IH, Z.mod_0_l by lia.
    change [hexd 0] with [48]. change 48 with 48 at 2. rewrite <- repeat_cons. done.
  - rewrite Nat.add_succ_r. cbn [hex_digits]. rewrite IH, app_assoc; [done|].
    rewrite Nat2Z.inj_succ, Z.pow_succ_r in Hn by lia.
    split; [apply Z.div_pos; lia|apply Z.div_lt_upper_bound; lia].
Qed.

(** The digits of [toString(16)], as a fixed number of digits. *)
Lemma hex_of_digits n : 0 <= n -> exists k, hex_of n = hex_digits k n /\ 0 <= n < 16 ^ Z.of_nat k /\
  forall j, (0 < j)%nat -> n < 16 ^ Z.of_nat j -> (k <= j)%nat.
Proof.
  intros Hn. unfold hex_of. destruct (n =? 0) eqn:E; breflect.
  - subst n. exists 1%nat. split; [done|]. split; [done|]. intros; lia.
  - pose proof (Z.log2_nonneg n). pose proof (Z.log2_spec n ltac:(lia)) as [Hl Hu].
    pose proof (Z.div_pos (Z.log2 n) 4 ltac:(lia) ltac:(lia)).
    exists (Z.to_nat (Z.log2 n / 4 + 1)). split; [done|]. rewrite Z2Nat.id by lia.
    change 16 with (2 ^ 4). rewrite <- Z.pow_mul_r by lia. split.
    + split; [done|]. eapply Z.lt_le_trans; [exact Hu|]. apply Z.pow_le_mono_r; [lia|].
      pose proof (Z.div_mod (Z.log2 n) 4 ltac:(lia)). pose proof (Z.mod_pos_bound (Z.log2 n) 4 ltac:(lia)). lia.
    + intros j Hj Hb. rewrite <- Z.pow_mul_r in Hb by lia.
      assert (Z.log2 n < 4 * Z.of_nat j) by (apply Z.log2_lt_pow2; lia).
      assert (Z.log2 n / 4 < Z.of_nat j) by (apply Z.div_lt_upper_bound; lia). lia.
Qed.

Lemma padded_hex j n : (0 < j)%nat -> 0 <= n < 16 ^ Z.of_nat j -> padStart j (hex_of n) = hex_digits j n.
Proof.
  intros Hj Hn. destruct (hex_of_digits n) as (k & -> & Hk & Hmin); [lia|]. unfold padStart. rewrite hex_digits_length.
  specialize (Hmin j Hj ltac:(lia)). rewrite <- hex_digits_pad by done. f_equal. lia.
Qed.

Definition uint256 (n : Z) : Prop := 0 <= n < 2 ^ 256.

Lemma word_digits n : uint256 n -> word n = hex_digits 64 n.
Proof. intros Hn. apply padded_hex; [lia|exact Hn]. Qed.

Lemma word_length n : uint256 n -> length (word n) = 64%nat.
Proof. intros. by rewrite word_digits, hex_digits_length. Qed.
Lemma word_value n : uint256 n -> hex_value (word n) = Some n.
Proof. intros Hn. rewrite word_digits by done. apply hex_digits_value. exact Hn. Qed.

Lemma word_at_value pre w rest i v :
  length pre = (64 * i)%nat -> length w = 64%nat -> hex_value w = Some v -> word_at (pre ++ w ++ rest) i = Some v.
Proof. intros Hp Hw Hv. unfold word_at. rewrite drop_app_length', take_app_length' by done. by rewrite Hw. Qed.

Definition byte (b : Z) : Prop := 0 <= b < 256.

Lemma hex_bytes_cons b l : byte b -> hex_bytes (b :: l) = hex_digits 2 b ++ hex_bytes l.
Proof. intros Hb. unfold hex_bytes. cbn [map concat]. by rewrite padded_hex by (lia || exact Hb). Qed.

Lemma hex_bytes_length l : Forall byte l -> length (hex_bytes l) = (2 * length l)%nat.
Proof.
  induction 1 as [|b l Hb _ IH]; [done|]. rewrite hex_bytes_cons, length_app, hex_digits_length, IH by done.
  cbn [length]. lia.
Qed.

Lemma bytes_of_hex l : Forall byte l -> bytes_of (hex_bytes l) = Some l.
Proof.
  induction 1 as [|b l Hb _ IH]; [done|]. rewrite hex_bytes_cons by done.
  pose proof (hex_digits_value 2 b Hb) as Hv. pose proof (hex_digits_length 2 b) as Hl.
  destruct (hex_digits 2 b) as [|x [|y [|]]]; try done. cbn [app bytes_of]. by rewrite Hv, IH.
Qed.

Lemma utf8_point_bytes q : 0 <= q < 0x110000 -> Forall byte (utf8_point q).
Proof.
  intros Hq. unfold utf8_point. repeat case_match; breflect;
    repeat apply Forall_cons_2; try apply Forall_nil_2; unfold byte; Z.to_euclidean_division_equations; lia.
Qed.

Lemma code_points_range s : Forall is_unit s -> Forall (fun p => 0 <= p < 0x110000) (code_points s).
Proof.
  induction s as [|c|c t s IH IH'] using units_ind2; intros Hs; cbn [code_points]; [done| |].
  - apply Forall_cons in Hs as [Hc _]. unfold is_unit in Hc. destruct (is_lead c); (apply Forall_cons_2; [lia|done]).
  - apply Forall_cons in Hs as [Hc Hs]. pose proof Hs as [Ht Hr]%Forall_cons. unfold is_unit in *.
    destruct (is_lead c) eqn:El; [destruct (is_trail t) eqn:Et|]; (apply Forall_cons_2; [|auto]); try lia.
    unfold is_lead, is_trail in *. breflect. lia.
Qed.

Lemma utf8_bytes s : Forall is_unit s -> Forall byte (utf8 s).
Proof.
  intros Hs%code_points_range. unfold utf8. induction Hs as [|p l Hp _ IH]; cbn [flat_map]; [done|].
  apply Forall_app. split; [|done]. apply utf8_point_bytes. destruct (_ || _); lia.
Qed.

Lemma zeros_all n : forallb (Z.eqb 48) (repeat 48 n) = true.
Proof. by induction n. Qed.

(** A dynamic string at the end of the arguments. *)
Lemma bytes_at_tail head l i (k : nat) :
  Forall byte l -> uint256 (Z.of_nat (length l)) -> length head = (64 * k)%nat ->
  word_at (head ++ word (Z.of_nat (length l)) ++ pad_words (hex_bytes l)) i = Some (32 * Z.of_nat k) ->
  bytes_at (head ++ word (Z.of_nat (length l)) ++ pad_words (hex_bytes l)) i = Some l.
Proof.
  intros Hb Hl Hh Hw. unfold bytes_at. rewrite Hw.
  replace (32 * Z.of_nat k) with (Z.of_nat k * 32) by lia. rewrite Z.mod_mul, Z.div_mul, Nat2Z.id by lia. cbn [negb Z.eqb].
  rewrite (word_at_value head (word _) _ k (Z.of_nat (length l))) by (done || by apply word_length || by apply word_value).
  rewrite Nat2Z.id, app_assoc, drop_app_length' by (rewrite length_app, word_length by done; lia).
  unfold pad_words, padEnd. rewrite hex_bytes_length by done.
  set (n := (2 * length l)%nat). rewrite length_app, repeat_length, hex_bytes_length by done. fold n.
  assert (n <= (n + 63) / 64 * 64)%nat as Hn.
  { pose proof (Nat.div_mod_eq (n + 63) 64). pose proof (Nat.mod_upper_bound (n + 63) 64 ltac:(lia)). lia. }
  replace (n + ((n + 63) / 64 * 64 - n))%nat with ((n + 63) / 64 * 64)%nat by lia.
  rewrite Nat.eqb_refl, drop_app_length', zeros_all by (by rewrite hex_bytes_length). cbn [andb].
  rewrite take_app_length' by (by rewrite hex_bytes_length). by apply bytes_of_hex.
Qed.

Lemma args_of_selector sel rest : length sel = 10%nat -> args_of sel (sel ++ rest) = Some rest.
Proof.
  intros H. unfold args_of. rewrite take_app_length', drop_app_length' by done. by rewrite (proj2 (units_eqb_true _ _)).
Qed.

(** An address: [0x] and 40 hexadecimal digits, of value [a]. *)
Definition address_text (t : units) (a : Z) : Prop :=
  length t = 42%nat /\ take 2 t = u "0x" /\ hex_value (slice2 t) = Some a /\ Forall is_ascii (slice2 t).

Lemma hex_value_zeros n : hex_value (repeat 48 n) = Some 0.
Proof. induction n; [done|]. unfold hex_value in *. cbn. exact IHn. Qed.

Lemma address_word s a : length s = 40%nat -> hex_value s = Some a ->
  length (padStart 64 s) = 64%nat /\ hex_value (padStart 64 s) = Some a.
Proof.
  intros Hl Hv. unfold padStart. rewrite length_app, repeat_length, Hl. split; [done|].
  rewrite (hex_value_app _ _ 0 a); [f_equal; lia|apply hex_value_zeros|done].
Qed.

Lemma hexv_lower c : is_ascii c -> hexv (lower_unit c) = hexv c.
Proof.
  unfold is_ascii, lower_unit, hexv. intros Hc. destruct ((65 <=? c) && (c <=? 90)) eqn:E; [|done]. breflect.
  repeat case_match; breflect; try lia; f_equal; lia.
Qed.

Lemma hex_value_lower s : Forall is_ascii s -> hex_value (map lower_unit s) = hex_value s.
Proof.
  unfold hex_value. generalize (Some 0 : option Z). intros a H. revert a.
  induction H as [|c s Hc _ IH]; intros a; cbn [map foldl]; [done|]. by rewrite hexv_lower, IH.
Qed.

Section Decode.
Context `{Unicode}.

(** The deposit calls say what the page means.  For a recipient key [pubkey], a token or spender
    address and an amount in 256 bits, the calldata has the selector of the call, its head words
    are the address and the amount, and its dynamic argument, found through its offset, is the
    UTF-8 text of the recipient key, zero-padded to whole words.  The vault encoding declares the
    number of code units as the length, so it needs a key that UTF-8 does not lengthen. *)
Theorem deposit_calldata_decodes pubkey token a spender sp amount :
  Forall is_unit pubkey -> uint256 (Z.of_nat (length (utf8 pubkey))) -> uint256 amount ->
  address_text token a -> address_text spender sp ->
  (exists args, args_of (u "0x9b1c48e6") (bridgeDepositEthCalldata pubkey) = Some args /\
     bytes_at args 0 = Some (utf8 pubkey)) /\
  (exists args, args_of (u "0x5a67cb87") (bridgeDepositErc20Calldata token amount pubkey) = Some args /\
     word_at args 0 = Some a /\ word_at args 1 = Some amount /\ bytes_at args 2 = Some (utf8 pubkey)) /\
  (exists args, args_of (u "0x095ea7b3") (approveCalldata spender amount) = Some args /\
     word_at args 0 = Some sp /\ word_at args 1 = Some amount) /\
  (length pubkey = length (utf8 pubkey) ->
   exists args, args_of (u "0xf1215d25") (vaultDepositCalldata amount pubkey) = Some args /\
     word_at args 0 = Some amount /\ bytes_at args 1 = Some (utf8 pubkey)).
Proof.
  intros Hu Hn Ha (Ht & _ & Hta & Htc) (Hs & _ & Hsa & _). pose proof (utf8_bytes _ Hu) as Hb.
  assert (length (slice2 token) = 40%nat) as Hl1 by (unfold slice2; rewrite length_drop; lia).
  assert (length (slice2 spender) = 40%nat) as Hl2 by (unfold slice2; rewrite length_drop; lia).
  destruct (address_word (toLower (slice2 token)) a) as [Lt Vt].
  { rewrite toLower_ascii by done. by rewrite length_map. }
  { rewrite toLower_ascii, hex_value_lower by done. done. }
  destruct (address_word (slice2 spender) sp Hl2 Hsa) as [Ls Vs].
  pose proof (word_length amount Ha) as La. pose proof (word_value amount Ha) as Va.
  split; [|split; [|split]].
  - eexists. split; [by apply args_of_selector|]. unfold abiStringTail. apply (bytes_at_tail _ _ _ 1); try done.
  - eexists. split; [by apply args_of_selector|]. unfold abiStringTail.
    split; [by apply (word_at_value [])|]. split; [by apply (word_at_value (padStart _ _))|].
    rewrite !app_assoc. rewrite <- (app_assoc _ (word (Z.of_nat _))).
    apply (bytes_at_tail _ _ _ 3); try done; [by rewrite !length_app, Lt, La|].
    rewrite <- !app_assoc, (app_assoc (padStart _ _)). apply word_at_value; [by rewrite length_app, Lt, La|done..].
  - eexists. split; [by apply args_of_selector|]. rewrite <- (app_nil_r (word amount)).
    split; [by apply (word_at_value [])|by apply (word_at_value (padStart _ _))].
  - intros Hlen. eexists. split; [by apply args_of_selector|]. rewrite Hlen.
    split; [by apply (word_at_value [])|]. rewrite !app_assoc. rewrite <- (app_assoc _ (word (Z.of_nat _))).
    apply (bytes_at_tail _ _ _ 2); try done; [by rewrite !length_app, La|].
    rewrite <- !app_assoc. by apply (word_at_value (word amount)).
Qed.
End Decode.
