(* ===== verification/Inflight.v ===== *)
(** * In-flight deposits of the bridge page ([src/apps/site-next/src/bridge/inflight.ts])

    The deposits sent from Base and not credited yet: the list kept in the browser's storage (or
    in memory, when the storage fails), its operations, and the pairing of waiting deposits with
    credits of the wallet's history.  The commands are the storage accesses, which may throw, and
    the clock.  A stored document is an array of values, of which [None] is one that fails the
    validity check, or anything else; listeners are omitted. *)
From Stdlib Require Import Sorted.
From S2P Require Import Prelude JsText JsMap JsUtf16 Interact.
Local Open Scope Z_scope.
Local Open Scope prog_scope.

Inductive DepositAsset := DepETH | DepUSDC | DepXRGE.
#[export] Instance DepositAsset_eq_dec : EqDecision DepositAsset.
Proof. solve_decision. Defined.

Inductive InflightState := Sent | Credited.
#[export] Instance InflightState_eq_dec : EqDecision InflightState.
Proof. solve_decision. Defined.

Record InflightDeposit := {
  baseTxHash : units;
  i_asset : DepositAsset;
  l1Symbol : units;
  amountLabel : units;
  expectedL1Units : units;
  recipientPubkey : units;
  startedAt : Z;
  i_state : InflightState;
  finishedAt : option Z;
  creditTxId : option units;
  dismissed : bool;
}.
#[export] Instance InflightDeposit_eq_dec : EqDecision InflightDeposit.
Proof. solve_decision. Defined.

Record BridgeHistoryEntry := {
  h_id : units;
  h_deposit : bool;
  h_amount : units;
  h_symbol : units;
  h_timestamp : Z;
  h_completed : bool;
}.

Definition INFLIGHT_MAX : nat := 20.
Definition INFLIGHT_KEEP_MS : Z := 24 * 60 * 60 * 1000.
Definition INFLIGHT_SKEW_MS : Z := 2 * 60 * 1000.

(** A stable sort by a key, smallest first. *)
Section Sort.
Context {A : Type} (key : A -> Z).
Fixpoint insert_asc (x : A) (l : list A) : list A :=
  match l with
  | [] => [x]
  | y :: r => if key x <=? key y then x :: y :: r else y :: insert_asc x r
  end.
Definition sort_asc (l : list A) : list A := foldr insert_asc [] l.
End Sort.

(** ** The store *)

Inductive StoredDoc := DocArray (l : list (option InflightDeposit)) | DocOther.

Inductive store_cmd :=
| GetItem (network : string)
| SetItem (network : string) (l : list InflightDeposit)
| StoreNow.
Definition store_ans (c : store_cmd) : Type :=
  match c with GetItem _ => option StoredDoc | SetItem _ _ => unit | StoreNow => Z end.

Record StoreState := { memory : jmap (list InflightDeposit); version : Z }.
Definition StoreI : iface := {| st := StoreState; cmd := store_cmd; ans := store_ans |}.
Definition sask (c : store_cmd) : prog StoreI (store_ans c) := call (c : cmd StoreI).
Definition getM : prog StoreI StoreState := get.
Definition putM (s : StoreState) : prog StoreI unit := put (s : st StoreI).

Definition finished (r : InflightDeposit) : bool := bool_decide (i_state r = Credited) || dismissed r.

Definition read (network : string) : prog StoreI (list InflightDeposit) :=
  let! s := getM in
  match mget network (memory s) with
  | Some kept => Ret kept
  | None =>
      let! r := attempt (sask (GetItem network)) in
      Ret (match r with Ok (Some (DocArray l)) => omap id l | _ => [] end)
  end.

Definition write (network : string) (l : list InflightDeposit) : prog StoreI unit :=
  let! r := attempt (sask (SetItem network l)) in
  let! s := getM in
  putM {| memory := match r with Ok _ => mdel network (memory s) | Err _ => mset network l (memory s) end;
          version := version s + 1 |}.

Definition listInflight (network : string) (now : Z) : prog StoreI (list InflightDeposit) :=
  let! l := read network in
  Ret (sort_asc startedAt (List.filter (fun r =>
    negb (finished r) || (now - default (startedAt r) (finishedAt r) <? INFLIGHT_KEEP_MS)) l)).

(** [listInflight(network)] with the current time. *)
Definition listNow (network : string) : prog StoreI (list InflightDeposit) :=
  let! now := sask StoreNow in listInflight network now.

Fixpoint remove_first (p : InflightDeposit -> bool) (l : list InflightDeposit) : list InflightDeposit :=
  match l with [] => [] | x :: r => if p x then r else x :: remove_first p r end.

(** [list.find(finished) ?? list[0]], removed. *)
Definition drop_one (l : list InflightDeposit) : list InflightDeposit :=
  if existsb finished l then remove_first finished l else tail l.

(** [while (list.length > INFLIGHT_MAX)]; each iteration removes a record. *)
Fixpoint cap (fuel : nat) (l : list InflightDeposit) : list InflightDeposit :=
  match fuel with
  | O => l
  | S fuel => if (INFLIGHT_MAX <? length l)%nat then cap fuel (drop_one l) else l
  end.

Definition addInflight (network : string) (record : InflightDeposit) : prog StoreI unit :=
  let! l := listNow network in
  let l' := List.filter (fun r => negb (units_eqb (baseTxHash r) (baseTxHash record))) l ++ [record] in
  write network (cap (length l') l').

Definition updateInflight (network : string) (hash : units) (patch : InflightDeposit -> InflightDeposit)
  : prog StoreI unit :=
  let! l := listNow network in
  if negb (existsb (fun r => units_eqb (baseTxHash r) hash) l) then Ret tt else
  write network (map (fun r => if units_eqb (baseTxHash r) hash then patch r else r) l).

Definition credit_patch (now : Z) (credit : option units) (r : InflightDeposit) : InflightDeposit := {|
  baseTxHash := baseTxHash r; i_asset := i_asset r; l1Symbol := l1Symbol r; amountLabel := amountLabel r;
  expectedL1Units := expectedL1Units r; recipientPubkey := recipientPubkey r; startedAt := startedAt r;
  i_state := Credited; finishedAt := Some now;
  creditTxId := match credit with Some (c :: t) => Some (c :: t) | _ => creditTxId r end;
  dismissed := dismissed r |}.

Definition dismiss_patch (now : Z) (r : InflightDeposit) : InflightDeposit := {|
  baseTxHash := baseTxHash r; i_asset := i_asset r; l1Symbol := l1Symbol r; amountLabel := amountLabel r;
  expectedL1Units := expectedL1Units r; recipientPubkey := recipientPubkey r; startedAt := startedAt r;
  i_state := i_state r; finishedAt := Some now; creditTxId := creditTxId r; dismissed := true |}.

Definition markCredited (network : string) (hash : units) (credit : option units) : prog StoreI unit :=
  let! now := sask StoreNow in updateInflight network hash (credit_patch now credit).

Definition dismissInflight (network : string) (hash : units) : prog StoreI unit :=
  let! now := sask StoreNow in updateInflight network hash (dismiss_patch now).

Definition removeInflight (network : string) (hash : units) : prog StoreI unit :=
  let! l := listNow network in
  if existsb (fun r => units_eqb (baseTxHash r) hash) l
  then write network (List.filter (fun r => negb (units_eqb (baseTxHash r) hash)) l)
  else Ret tt.

(** ** Pairing deposits with credits *)

Section Match.
(** [formatTokenAmount(Number(expectedL1Units), l1Symbol)]: the display text of an amount. *)
Variable amount_text : InflightDeposit -> units.

Definition waits (r : InflightDeposit) : bool := bool_decide (i_state r = Sent) && negb (dismissed r).

Definition truthy_id (c : option units) : option units := match c with Some (x :: t) => Some (x :: t) | _ => None end.

(** The credit may pay the deposit. *)
Definition credit_fits (r : InflightDeposit) (e : BridgeHistoryEntry) : bool :=
  units_eqb (h_symbol e) (l1Symbol r) && units_eqb (h_amount e) (amount_text r)
  && (startedAt r - INFLIGHT_SKEW_MS <=? h_timestamp e).

Definition is_taken (taken : list units) (e : BridgeHistoryEntry) : bool := existsb (units_eqb (h_id e)) taken.

(** The [for] loop over the records, oldest first. *)
Fixpoint pair_up (credits : list BridgeHistoryEntry) (taken : list units) (rs : list InflightDeposit)
  : list (units * units) :=
  match rs with
  | [] => []
  | r :: rs =>
      if negb (waits r) then pair_up credits taken rs else
      match find (fun e => negb (is_taken taken e) && credit_fits r e) credits with
      | None => pair_up credits taken rs
      | Some hit => (baseTxHash r, h_id hit) :: pair_up credits (taken ++ [h_id hit]) rs
      end
  end.

Definition credits_of (history : list BridgeHistoryEntry) : list BridgeHistoryEntry :=
  sort_asc h_timestamp (List.filter (fun e => h_deposit e && h_completed e) history).

Definition matchCredits (records : list InflightDeposit) (history : list BridgeHistoryEntry) : list (units * units) :=
  pair_up (credits_of history) (omap (fun r => truthy_id (creditTxId r)) records) (sort_asc startedAt records).
End Match.

(** The page's effect: pair the wallet's records with its history and mark the hits. *)
Definition settleCredits (amount_text : InflightDeposit -> units) (network : string) (pubkey : units) (now : Z)
    (history : list BridgeHistoryEntry) : prog StoreI unit :=
  let! l := listInflight network now in
  let mine := List.filter (fun r => units_eqb (recipientPubkey r) pubkey) l in
  for_each (fun hit => markCredited network (fst hit) (Some (snd hit))) (matchCredits amount_text mine history).

(** ** What the pairing guarantees *)

Lemma insert_asc_perm {A} (key : A -> Z) x l : x :: l ≡ₚ insert_asc key x l.
Proof. induction l as [|y l IH]; simpl; [done|]. destruct (_ <=? _); [done|]. rewrite <- IH. constructor. Qed.

Lemma sort_asc_perm {A} (key : A -> Z) l : l ≡ₚ sort_asc key l.
Proof. induction l as [|x l IH]; simpl; [done|]. rewrite <- insert_asc_perm. by constructor. Qed.

Abbreviation ordered key := (StronglySorted (fun a b => key a <= key b)).

Lemma sort_asc_ordered {A} (key : A -> Z) l : ordered key (sort_asc key l).
Proof.
  induction l as [|x l IH]; simpl; [constructor|]. induction IH as [|y k Hs IH Hy]; simpl; [repeat constructor|].
  destruct (key x <=? key y) eqn:E; breflect.
  - constructor; [by constructor|]. constructor; [done|]. eapply Forall_impl; [exact Hy|]. simpl. lia.
  - constructor; [done|]. rewrite <- insert_asc_perm. constructor; [lia|done].
Qed.

Section Pairing.
Variable amount_text : InflightDeposit -> units.
Abbreviation pair_up := (pair_up amount_text).
Abbreviation credit_fits := (credit_fits amount_text).

Lemma is_taken_iff taken e : is_taken taken e = true <-> h_id e ∈ taken.
Proof.
  unfold is_taken. rewrite existsb_exists. setoid_rewrite units_eqb_true. setoid_rewrite list_elem_of_In. naive_solver.
Qed.

(** A credit the pairing picked for [r] while [taken] were taken. *)
Lemma pick_spec credits taken r hit :
  find (fun e => negb (is_taken taken e) && credit_fits r e) credits = Some hit ->
  hit ∈ credits /\ h_id hit ∉ taken /\ credit_fits r hit = true.
Proof.
  intros [Hin [Ht%negb_true_iff Hf]%andb_true_iff]%List.find_some. split; [by apply list_elem_of_In|].
  split; [|done]. intros H%is_taken_iff. congruence.
Qed.

Lemma pair_up_sound credits taken rs b c : (b, c) ∈ pair_up credits taken rs ->
  c ∉ taken /\ exists r e, r ∈ rs /\ waits r = true /\ baseTxHash r = b /\ e ∈ credits /\ h_id e = c /\ credit_fits r e = true.
Proof.
  revert taken. induction rs as [|r rs IH]; intros taken; cbn [Inflight.pair_up]; [by intros ?%elem_of_nil|].
  destruct (waits r) eqn:Ew; cbn [negb]; [destruct (find _ _) as [hit|] eqn:Ef|].
  - destruct (pick_spec _ _ _ _ Ef) as (Hin & Ht & Hf). intros [[= -> ->]|H]%elem_of_cons.
    + split; [done|]. exists r, hit. set_solver.
    + destruct (IH _ H) as (Hc & r' & e & ?). split; [set_solver|]. exists r', e. set_solver.
  - intros H. destruct (IH _ H) as (Hc & r' & e & ?). split; [done|]. exists r', e. set_solver.
  - intros H. destruct (IH _ H) as (Hc & r' & e & ?). split; [done|]. exists r', e. set_solver.
Qed.

Lemma pair_up_credits_nodup credits taken rs : NoDup (map snd (pair_up credits taken rs)).
Proof.
  revert taken. induction rs as [|r rs IH]; intros taken; cbn [Inflight.pair_up]; [constructor|].
  destruct (negb (waits r)); [done|]. destruct (find _ _) as [hit|]; [|done]. cbn [map snd]. constructor; [|done].
  rewrite list_elem_of_fmap. intros ([b c] & Hc & H). cbn in Hc. subst c.
  apply pair_up_sound in H as [H _]. set_solver.
Qed.

Lemma pair_up_deposits_nodup credits taken rs :
  NoDup (map baseTxHash rs) -> NoDup (map fst (pair_up credits taken rs)).
Proof.
  revert taken. induction rs as [|r rs IH]; intros taken; cbn [Inflight.pair_up map]; [constructor|].
  intros [Hr Hd]%NoDup_cons. destruct (negb (waits r)); [auto|]. destruct (find _ _) as [hit|]; [|auto].
  cbn [map fst]. constructor; [|auto]. rewrite list_elem_of_fmap. intros ([b c] & Hb & H). cbn in Hb. subst b.
  apply pair_up_sound in H as (_ & r' & e & Hin & _ & Hb & _). apply Hr. rewrite list_elem_of_fmap. by exists r'.
Qed.

Lemma pair_up_maximal credits taken rs r e :
  r ∈ rs -> waits r = true -> e ∈ credits -> credit_fits r e = true ->
  baseTxHash r ∉ map fst (pair_up credits taken rs) ->
  h_id e ∈ taken \/ h_id e ∈ map snd (pair_up credits taken rs).
Proof.
  intros Hr Hw He Hf. revert taken. induction rs as [|x rs IH]; intros taken; [by apply elem_of_nil in Hr|].
  cbn [Inflight.pair_up]. apply elem_of_cons in Hr as [<-|Hr].
  - rewrite Hw. cbn [negb]. destruct (find _ _) as [hit|] eqn:Ef; [set_solver|]. intros _. left.
    apply list_elem_of_In in He. pose proof (List.find_none _ _ Ef _ He) as H. cbn in H.
    rewrite Hf, andb_true_r in H. apply negb_false_iff in H. by apply is_taken_iff.
  - destruct (negb (waits x)); [by apply IH|]. destruct (find _ _) as [hit|]; [|by apply IH].
    cbn [map fst snd]. intros Hn. destruct (IH Hr (taken ++ [h_id hit])); [set_solver..].
Qed.

Lemma find_least {A} (key : A -> Z) p l (a b : A) :
  ordered key l -> find p l = Some a -> b ∈ l -> p b = true -> key a <= key b.
Proof.
  induction 1 as [|x l _ IH Hx]; intros Hf Hb Hp; [done|]. simpl in Hf. apply elem_of_cons in Hb as [->|Hb].
  - rewrite Hp in Hf. injection Hf as ->. lia.
  - destruct (p x); [injection Hf as ->|by apply IH]. rewrite Forall_elem in Hx. by apply Hx.
Qed.

Lemma nodup_key_inj {A B} (f : A -> B) l x y : NoDup (map f l) -> x ∈ l -> y ∈ l -> f x = f y -> x = y.
Proof.
  induction l as [|z l IH]; cbn [map]; [by intros _ ?%elem_of_nil|]. intros [Hz Hd]%NoDup_cons Hx Hy E.
  assert (forall w, w ∈ l -> f w <> f z) as Hne.
  { intros w Hw Ew. apply Hz. rewrite <- Ew. rewrite list_elem_of_fmap. by exists w. }
  apply elem_of_cons in Hx as [->|Hx], Hy as [->|Hy]; [done| |by destruct (Hne x Hx)|by apply IH].
  by destruct (Hne y Hy).
Qed.

Lemma fits_earlier r1 r2 e :
  l1Symbol r1 = l1Symbol r2 -> amount_text r1 = amount_text r2 -> startedAt r1 <= startedAt r2 ->
  credit_fits r2 e = true -> credit_fits r1 e = true.
Proof. unfold Inflight.credit_fits. intros -> -> Hs. rewrite !andb_true_iff. intros [H1 H2]. split; [done|]. breflect. lia. Qed.

(** Of two deposits that look alike, the older one is paired first, and with the older credit. *)
Lemma pair_up_fifo credits taken rs r1 r2 c2 :
  ordered h_timestamp credits -> ordered startedAt rs -> NoDup (map baseTxHash rs) ->
  r1 ∈ rs -> r2 ∈ rs -> startedAt r1 < startedAt r2 -> waits r1 = true ->
  l1Symbol r1 = l1Symbol r2 -> amount_text r1 = amount_text r2 ->
  (baseTxHash r2, c2) ∈ pair_up credits taken rs ->
  exists e1 e2, (baseTxHash r1, h_id e1) ∈ pair_up credits taken rs /\ e2 ∈ credits /\ h_id e2 = c2 /\
    h_timestamp e1 <= h_timestamp e2.
Proof.
  intros Hc Ho Hd H1 H2 Hs Hw Hsym Ham. revert taken. induction Ho as [|x rs Ho IH Hx]; intros taken; [by apply elem_of_nil in H1|].
  cbn [map] in Hd. apply NoDup_cons in Hd as [Hnew Hd]. rewrite Forall_elem in Hx.
  assert (forall r, r ∈ rs -> baseTxHash r <> baseTxHash x) as Hne.
  { intros r Hr E. apply Hnew. rewrite <- E. rewrite list_elem_of_fmap. by exists r. }
  apply elem_of_cons in H2 as [->|H2].
  { apply elem_of_cons in H1 as [->|H1]; [lia|]. specialize (Hx _ H1). simpl in Hx. lia. }
  cbn [Inflight.pair_up]. apply elem_of_cons in H1 as [->|H1].
  - rewrite Hw. cbn [negb]. destruct (find _ credits) as [e1|] eqn:Ef.
    + intros [E|H]%elem_of_cons; [injection E; intros; by destruct (Hne r2 H2)|].
      destruct (pair_up_sound _ _ _ _ _ H) as (Ht & r' & e2 & Hr' & _ & Hb & He2 & Hid & Hf).
      assert (r' = r2) as -> by (by eapply (nodup_key_inj baseTxHash rs)).
      exists e1, e2. split; [left|]. split; [done|]. split; [done|].
      eapply (find_least h_timestamp); [exact Hc|exact Ef|done|]. cbv beta. rewrite andb_true_iff. split.
      * apply negb_true_iff, not_true_iff_false. rewrite is_taken_iff. set_solver.
      * eapply fits_earlier; [done|done| |exact Hf]. lia.
    + intros H. destruct (pair_up_sound _ _ _ _ _ H) as (Ht & r' & e2 & Hr' & _ & Hb & He2 & Hid & Hf).
      assert (r' = r2) as -> by (by eapply (nodup_key_inj baseTxHash rs)).
      exfalso. apply list_elem_of_In in He2. pose proof (List.find_none _ _ Ef _ He2) as Hn. cbn in Hn.
      rewrite (fits_earlier x r2 e2), andb_true_r in Hn by (done || lia). apply negb_false_iff, is_taken_iff in Hn. set_solver.
  - destruct (negb (waits x)); [by apply IH|]. destruct (find _ _) as [hit|]; [|by apply IH].
    intros [E|H]%elem_of_cons; [injection E; intros; by destruct (Hne r2 H2)|].
    destruct (IH Hd H1 H2 _ H) as (e1 & e2 & ? & ?). exists e1, e2. split; [by right|done].
Qed.
End Pairing.

(** Ids of credits that records carry. *)
Definition taken_ids (records : list InflightDeposit) : list units := omap (fun r => truthy_id (creditTxId r)) records.

(** The credit [e] is a completed deposit of the history that credit_fits [r]. *)
Definition may_pay amount_text (history : list BridgeHistoryEntry) (r : InflightDeposit) (e : BridgeHistoryEntry) : Prop :=
  e ∈ history /\ h_deposit e = true /\ h_completed e = true /\ credit_fits amount_text r e = true.

Lemma credits_of_elem history e :
  e ∈ credits_of history <-> e ∈ history /\ h_deposit e = true /\ h_completed e = true.
Proof.
  unfold credits_of. rewrite <- sort_asc_perm, list_elem_of_In, List.filter_In, andb_true_iff, list_elem_of_In. tauto.
Qed.

(** One credit pays one deposit.  Each pair of [matchCredits] names a waiting, not dismissed
    record and a completed deposit credit of the history with the same symbol, the same displayed
    amount and a block time not before the sending (less the clock skew), whose id no record
    carries; no credit and (when the records have different transactions) no deposit occurs
    twice; a waiting record is left out only when every credit that could pay it is taken or
    used; and of two records that look alike the older one is paired, with a credit that is not
    newer, whenever the newer one is. *)
Theorem matchCredits_exact amount_text records history :
  let hits := matchCredits amount_text records history in
  (forall b c, (b, c) ∈ hits -> c ∉ taken_ids records /\
     exists r e, r ∈ records /\ waits r = true /\ baseTxHash r = b /\ h_id e = c /\ may_pay amount_text history r e) /\
  NoDup (map snd hits) /\
  (forall r e, r ∈ records -> waits r = true -> may_pay amount_text history r e -> baseTxHash r ∉ map fst hits ->
     h_id e ∈ taken_ids records \/ h_id e ∈ map snd hits) /\
  (NoDup (map baseTxHash records) -> NoDup (map fst hits) /\
   forall r1 r2 c2, r1 ∈ records -> r2 ∈ records -> startedAt r1 < startedAt r2 -> waits r1 = true ->
     l1Symbol r1 = l1Symbol r2 -> amount_text r1 = amount_text r2 -> (baseTxHash r2, c2) ∈ hits ->
     exists e1 e2, (baseTxHash r1, h_id e1) ∈ hits /\ e2 ∈ history /\ h_id e2 = c2 /\ h_timestamp e1 <= h_timestamp e2).
Proof.
  unfold matchCredits. fold (taken_ids records). pose proof (sort_asc_perm startedAt records) as Hp. cbv zeta.
  split; [|split; [apply pair_up_credits_nodup|split]].
  - intros b c H. apply pair_up_sound in H as (Ht & r & e & Hr & Hw & Hb & He%credits_of_elem & Hc & Hf).
    split; [done|]. exists r, e. rewrite Hp. unfold may_pay. tauto.
  - intros r e Hr Hw (He & Hd & Hc & Hf). rewrite Hp in Hr. apply (pair_up_maximal amount_text _ _ _ r); try done.
    by apply credits_of_elem.
  - intros Hd. rewrite Hp in Hd. split; [by apply pair_up_deposits_nodup|].
    intros r1 r2 c2 H1 H2 Hs Hw Hsym Ham Hh. rewrite Hp in H1, H2.
    destruct (pair_up_fifo amount_text _ _ _ r1 r2 c2 (sort_asc_ordered _ _) (sort_asc_ordered _ _) Hd H1 H2 Hs Hw Hsym Ham Hh)
      as (e1 & e2 & ? & He2%credits_of_elem & ?). exists e1, e2. tauto.
Qed.

(** ** A deposit stays tracked *)

Lemma remove_first_length p l : existsb p l = true -> S (length (remove_first p l)) = length l.
Proof. induction l as [|x l IH]; simpl; [done|]. destruct (p x); simpl; [done|]. intros H. by rewrite IH. Qed.

Lemma remove_first_sub p l x : x ∈ remove_first p l -> x ∈ l.
Proof. induction l as [|y l IH]; simpl; [done|]. destruct (p y); set_solver. Qed.

Lemma drop_one_length l : l <> [] -> S (length (drop_one l)) = length l.
Proof. intros H. unfold drop_one. destruct (existsb finished l) eqn:E; [by apply remove_first_length|]. by destruct l. Qed.

Lemma drop_one_last l r : finished r = false -> (1 < length (l ++ [r]))%nat ->
  exists l', drop_one (l ++ [r]) = l' ++ [r] /\ forall x, x ∈ l' -> x ∈ l.
Proof.
  intros Hr Hl. unfold drop_one. destruct (existsb finished (l ++ [r])) eqn:E.
  - exists (remove_first finished l). split; [|apply remove_first_sub]. clear Hl. induction l as [|x l IH]; simpl in *.
    + by rewrite Hr in E.
    + destruct (finished x); [done|]. simpl. by rewrite IH.
  - destruct l as [|x l]; simpl in Hl; [lia|]. exists l. set_solver.
Qed.

(** The cap keeps the new record and at most [INFLIGHT_MAX] records. *)
Lemma cap_spec fuel l r : finished r = false -> (length (l ++ [r]) <= fuel + INFLIGHT_MAX)%nat ->
  exists l', cap fuel (l ++ [r]) = l' ++ [r] /\ (length (l' ++ [r]) <= INFLIGHT_MAX)%nat /\ forall x, x ∈ l' -> x ∈ l.
Proof.
  intros Hr. revert l. induction fuel as [|fuel IH]; intros l Hl; cbn [cap].
  - exists l. split; [done|]. split; [lia|done].
  - destruct (INFLIGHT_MAX <? length (l ++ [r]))%nat eqn:E; [apply Nat.ltb_lt in E|apply Nat.ltb_ge in E; by exists l].
    destruct (drop_one_last l r Hr) as (l1 & Ed & Hs); [unfold INFLIGHT_MAX in E; lia|].
    assert (S (length (drop_one (l ++ [r]))) = length (l ++ [r])) by (apply drop_one_length; by destruct l).
    rewrite Ed in *. destruct (IH l1) as (l' & ? & ? & ?); [lia|]. exists l'. eauto.
Qed.

Fixpoint last_set (network : string) (h : history StoreI) : option (list InflightDeposit) :=
  match h with
  | [] => None
  | Ev c r :: h =>
      match c return res (store_ans c) -> _ with
      | SetItem n l => fun r => if (n =? network)%string && is_ok r then Some l else last_set network h
      | _ => fun _ => last_set network h
      end r
  end.

(** The storage returns what was stored last (or fails to store); the clock works. *)
Definition keeps_items (h : history StoreI) (c : store_cmd) : res (store_ans c) -> Prop :=
  match c with
  | GetItem n => fun r => forall l, last_set n h = Some l -> r = Ok (Some (DocArray (map Some l)))
  | SetItem _ _ => fun _ => True
  | StoreNow => fun r => is_ok r = true
  end.

Abbreviation K p s h Q := (wp (I := StoreI) (fun _ _ => True) keeps_items p s h Q).

(** The list a read of [network] returns. *)
Definition held (network : string) (l : list InflightDeposit) (s : StoreState) (h : history StoreI) : Prop :=
  mget network (memory s) = Some l \/ (mget network (memory s) = None /\ last_set network h = Some l).

Lemma write_held n l s h : NoDup (mkeys (memory s)) ->
  K (write n l) s h (fun o s' h' => o = Ok tt /\ held n l s' h').
Proof.
  intros Hd. unfold write. apply wp_bind, wp_attempt, (wp_call (I := StoreI)); [done|]. intros r _.
  apply wp_bind, (wp_get (I := StoreI)), (wp_put (I := StoreI)). split; [done|]. destruct r as [[]|m]; [right|left]; cbn.
  - by rewrite mget_mdel_eq, String.eqb_refl.
  - apply mget_mset_eq.
Qed.

Lemma omap_id_some {A} (l : list A) : omap id (map Some l) = l.
Proof. induction l as [|x l IH]; [done|]. cbn. f_equal. exact IH. Qed.

Lemma read_held n l s h : held n l s h -> K (read n) s h (fun o s' h' => o = Ok l).
Proof.
  intros Hh. unfold read. apply wp_bind, (wp_get (I := StoreI)). destruct Hh as [->|[-> Hl]]; [done|].
  apply wp_bind, wp_attempt, (wp_call (I := StoreI)); [done|]. intros r Hr. apply wp_ret.
  cbn in Hr. rewrite (Hr l Hl). by rewrite omap_id_some.
Qed.

Lemma read_any n s h : K (read n) s h (fun o s' _ => is_ok o = true /\ s' = s).
Proof.
  unfold read. apply wp_bind, (wp_get (I := StoreI)). destruct (mget _ _); [done|].
  apply wp_bind, wp_attempt, (wp_call (I := StoreI)); [done|]. by intros r _.
Qed.

(** What the page lists after [addInflight]. *)
Definition add_and_list (n : string) (r : InflightDeposit) (now : Z) : prog StoreI (list InflightDeposit) :=
  do! addInflight n r in listInflight n now.

(** A deposit that was sent stays on the page.  Whether the browser's storage accepts the write
    or not, after [addInflight] the list of the network holds the new record, exactly once for
    its transaction, and at most [INFLIGHT_MAX] records. *)
Theorem deposit_stays_tracked n r now (e : env StoreI) s :
  finished r = false -> NoDup (mkeys (memory s)) -> respects keeps_items e ->
  exists l, outcome e (add_and_list n r now) s = Ok l /\ r ∈ l /\ (length l <= INFLIGHT_MAX)%nat /\
    forall x, x ∈ l -> baseTxHash x = baseTxHash r -> x = r.
Proof.
  intros Hr Hd He. pose proof (wp_run (I := StoreI) (fun _ _ => True) _ e (add_and_list n r now) s []
    (fun o _ _ => exists l, o = Ok l /\ r ∈ l /\ (length l <= INFLIGHT_MAX)%nat /\
       forall x, x ∈ l -> baseTxHash x = baseTxHash r -> x = r) He Logic.I) as W.
  unfold outcome. destruct (run e (add_and_list n r now) s []) as [[o s'] h']. apply W. clear W o s' h'.
  unfold add_and_list, addInflight, listNow. apply wp_bind, wp_bind, wp_bind, (wp_call (I := StoreI)); [done|].
  intros [t|m] Ht; [|done]. unfold listInflight at 1. apply wp_bind. eapply wp_mono; [|apply read_any].
  intros [l0|m] s1 h1 [Ho ->]; [|done]. apply wp_ret. cbv zeta.
  set (l1 := List.filter _ (sort_asc _ _)).
  destruct (cap_spec (length (l1 ++ [r])) l1 r Hr) as (l2 & -> & Hlen & Hsub); [lia|].
  eapply wp_mono; [|by apply write_held]. intros o s2 h2 [-> Hh]. unfold listInflight. apply wp_bind.
  eapply wp_mono; [|by apply read_held]. intros o s3 h3 ->. apply wp_ret. eexists. split; [done|].
  assert (forall x (p : InflightDeposit -> bool), x ∈ sort_asc startedAt (List.filter p (l2 ++ [r])) <-> x ∈ l2 ++ [r] /\ p x = true) as Hel.
  { intros x p. rewrite <- sort_asc_perm, list_elem_of_In, List.filter_In, list_elem_of_In. done. }
  split; [|split].
  - apply Hel. rewrite Hr. set_solver.
  - rewrite <- sort_asc_perm. etrans; [apply List.filter_length_le|exact Hlen].
  - intros x [Hx _]%Hel Hb. apply elem_of_app in Hx as [Hx|Hx]; [|set_solver]. apply Hsub in Hx. unfold l1 in Hx.
    apply list_elem_of_In, List.filter_In in Hx as [_ Hx]. by rewrite (proj2 (units_eqb_true _ _) Hb) in Hx.
Qed.

(** ** Two deposits that look alike, and one credit *)
Module InflightDemo.

Definition deposit (hash : string) (at_ : Z) : InflightDeposit := {|
  baseTxHash := u hash; i_asset := DepETH; l1Symbol := u "qETH"; amountLabel := u "0.5"; expectedL1Units := u "500000";
  recipientPubkey := u "k"; startedAt := at_; i_state := Sent; finishedAt := None; creditTxId := None; dismissed := false |}.
Definition credit : BridgeHistoryEntry := {|
  h_id := u "tx7"; h_deposit := true; h_amount := u "0.5"; h_symbol := u "qETH"; h_timestamp := 9000; h_completed := true |}.
Definition records : list InflightDeposit := [deposit "0xb" 5000; deposit "0xa" 4000].

(** The older deposit, listed second, takes the credit. *)
Lemma matchCredits_exact_witness :
  matchCredits amountLabel records [credit] = [(u "0xa", u "tx7")]
  /\ NoDup (map fst (matchCredits amountLabel records [credit])).
Proof.
  split; [reflexivity|]. pose proof (matchCredits_exact amountLabel records [credit]) as [_ [_ [_ T]]].
  apply T. apply (bool_decide_unpack _). vm_compute. exact Logic.I.
Defined.
End InflightDemo.
