(* ===== verification/BridgeFlows.v ===== *)
(** * Bridge flows of the site ([src/apps/site-next/src/bridge/flows.ts], with the chain guard of
    [evm.ts])

    Deposits from Base, the claim of an earlier deposit, the claim of a Bitcoin deposit, and
    withdrawals, over the wallet provider (EIP-1193), the node and the callbacks of the page, all
    of which may answer anything or throw.  The callbacks of [FlowCtx] are present, as the page
    passes them.  Step texts and success messages are omitted; a thrown error carries the key of
    its text, or ["node"] when its text is the node's own.  Signing with the local key and through
    the extension are commands. *)
From Stdlib Require Import SpecFloat.
From S2P Require Import Prelude JsText JsNum JsUtf16 Interact BridgeInput EvmCalldata Inflight.
Local Open Scope Z_scope.
Local Open Scope prog_scope.

(** ** The wallet's chain *)

(** What [eth_chainId] answers. *)
Inductive ChainIdAnswer := AnsText (s : units) | AnsNumber (n : number) | AnsOther.

(** The number of an answer, NaN when there is none. *)
Definition chain_number (a : ChainIdAnswer) : number :=
  match a with
  | AnsText s => match parseInt_radix (if starts_0x s then 16 else 10) s with Some z => num_of_Z z | None => S754_nan end
  | AnsNumber n => n
  | AnsOther => S754_nan
  end.

Definition num_eqb (x y : number) : bool := SFeqb x y.

(** ** Interface *)

Record TxRequest := {
  t_from : units; t_to : units; t_value : option units; t_data : units; t_gas : option units;
}.
(** A receipt with its [status]. *)
Record WalletReceipt := { wr_status : option units }.
Record ClaimResult := { cl_success : bool; cl_error : option units; cl_txId : option units }.

Inductive L1Token := qETH | qUSDC | XRGE | qBTC.
#[export] Instance L1Token_eq_dec : EqDecision L1Token.
Proof. solve_decision. Defined.

Definition L1_SYMBOL (a : BridgeAsset) : L1Token :=
  match a with AETH => qETH | AUSDC => qUSDC | AXRGE => XRGE | ABTC => qBTC end.
Definition symbol_text (t : L1Token) : units :=
  match t with qETH => u "qETH" | qUSDC => u "qUSDC" | XRGE => u "XRGE" | qBTC => u "qBTC" end.

(** The payload of a withdrawal signed through the extension. *)
Record WithdrawPayload := {
  wp_from : units; wp_amount : number; wp_fee : number; wp_token : L1Token; wp_evmAddress : units;
  wp_timestamp : Z; wp_nonce : units;
}.
Record SignedTransaction := { s_signature : units; s_payload : units }.

Inductive flow_cmd :=
| EthChainId
| SwitchChain (chainId : number)
| SendTransaction (t : TxRequest)
| TransactionReceipt (hash : units)
| PersonalSign (message address : units)
| FlowSleep (ms : Z)
| FlowNow
| OnSent (r : InflightDeposit)
| OnReverted (hash : units)
| ClaimEvm (txHash evmAddress signature recipient : units) (token : DepositAsset)
| ClaimXrge (txHash evmAddress : units) (amount : Z) (recipient : units)
| ClaimBtc (txid : units) (recipient : option units)
| VerifyNodeChainId
| SignLocal (pub priv : units) (amount : number) (dest : units) (token : L1Token) (fee : number) (hexPrefix : bool)
| SignExtension (p : WithdrawPayload) (pub : units)
| GenerateNonce
| PostWithdrawXrge (from : units) (amount : number) (dest : units) (s : SignedTransaction)
| PostWithdraw (from : units) (amount : number) (dest : units) (token : L1Token) (s : SignedTransaction).

Definition flow_ans (c : flow_cmd) : Type :=
  match c with
  | EthChainId => ChainIdAnswer
  | SendTransaction _ | PersonalSign _ _ | GenerateNonce => units
  | TransactionReceipt _ => option WalletReceipt
  | SwitchChain _ | FlowSleep _ | OnSent _ | OnReverted _ | VerifyNodeChainId => unit
  | FlowNow => Z
  | ClaimEvm _ _ _ _ _ | ClaimXrge _ _ _ _ | ClaimBtc _ _ | PostWithdrawXrge _ _ _ _ | PostWithdraw _ _ _ _ _ => ClaimResult
  | SignLocal _ _ _ _ _ _ _ | SignExtension _ _ => SignedTransaction
  end.

Definition FlowI : iface := {| st := unit; cmd := flow_cmd; ans := flow_ans |}.
Definition fask (c : flow_cmd) : prog FlowI (flow_ans c) := call (c : cmd FlowI).

(** [message] omitted. *)
Inductive FlowOutcome :=
| FlowSuccess (txHash txId : option units)
| FlowPending (txHash : option units).

Definition CLAIM_ATTEMPTS : nat := 30.
Definition CLAIM_INTERVAL_MS : Z := 6000.

(** [null] is [None]. *)
Definition readChainId : prog FlowI (option number) :=
  let! r := attempt (fask EthChainId) in
  Ret (match r with
       | Ok a => let n := chain_number a in if isFinite n then Some n else None
       | Err _ => None
       end).

Definition assertChain (expected : number) : prog FlowI unit :=
  let! actual := readChainId in
  if match actual with Some n => num_eqb n expected | None => false end then Ret tt else Throw "WrongChainError".

Definition ensureChain (expected : number) : prog FlowI unit :=
  let! n := readChainId in
  if match n with Some n => num_eqb n expected | None => false end then Ret tt else
  do! attempt (fask (SwitchChain expected)) in
  assertChain expected.

(** Up to 30 reads, each after a pause of two seconds. *)
Fixpoint wait_receipt (n : nat) (hash : units) : prog FlowI (option WalletReceipt) :=
  match n with
  | O => Ret None
  | S n =>
      do! fask (FlowSleep 2000) in
      let! receipt := fask (TransactionReceipt hash) in
      match receipt with Some r => Ret (Some r) | None => wait_receipt n hash end
  end.
Definition waitReceipt (hash : units) : prog FlowI (option WalletReceipt) := wait_receipt 30 hash.

Definition succeeded (r : WalletReceipt) : bool :=
  match wr_status r with Some s => units_eqb s (u "0x1") | None => false end.

Record EvmDepositParams := {
  dp_asset : DepositAsset; dp_evmAddress : units; dp_chainId : number; dp_recipient : units;
  dp_amount : DepositAmount; dp_custody : option units; dp_usdc : units;
  dp_vault : option units; dp_token : option units;
}.

Definition formatSix (x : Z) : units :=
  let w := Z.quot x 1000000 in
  let f := trim_zeros (padStart 6 (udec (Z.rem x 1000000))) in
  if bool_decide (f = []) then udec w else udec w ++ [46] ++ f.

Definition deposit_symbol (a : DepositAsset) : L1Token :=
  match a with DepETH => qETH | DepUSDC => qUSDC | DepXRGE => XRGE end.

Definition sentRecord (p : EvmDepositParams) (now : Z) (hash : units) : InflightDeposit := {|
  baseTxHash := hash; i_asset := dp_asset p; l1Symbol := symbol_text (deposit_symbol (dp_asset p));
  amountLabel := match dp_asset p with DepXRGE => udec (l1Units (dp_amount p)) | _ => formatSix (l1Units (dp_amount p)) end;
  expectedL1Units := udec (l1Units (dp_amount p)); recipientPubkey := dp_recipient p; startedAt := now;
  i_state := Sent; finishedAt := None; creditTxId := None; dismissed := false |}.

(** A present, non-empty text. *)
Definition nonempty (x : option units) : option units := match x with Some (c :: t) => Some (c :: t) | _ => None end.

Definition sleep (ms : Z) : prog FlowI unit := fask (FlowSleep ms).

(** [ctx.onSent?.(sentRecord(p, hash))]. *)
Definition announce (p : EvmDepositParams) (hash : units) : prog FlowI unit :=
  let! now := fask FlowNow in fask (OnSent (sentRecord p now hash)).

(** ** Deposits *)

(** The claim loop of an XRGE deposit. *)
Fixpoint claim_xrge (n : nat) (txHash evmAddress : units) (amount : Z) (recipient : units) : prog FlowI FlowOutcome :=
  match n with
  | O => Ret (FlowPending (Some txHash))
  | S n =>
      let! claim := fask (ClaimXrge txHash evmAddress amount recipient) in
      if cl_success claim then Ret (FlowSuccess (Some txHash) (cl_txId claim)) else
      do! sleep CLAIM_INTERVAL_MS in
      claim_xrge n txHash evmAddress amount recipient
  end.

Definition approval_ok (r : option WalletReceipt) : bool := match r with Some r => succeeded r | None => false end.

Definition depositXrge (p : EvmDepositParams) : prog FlowI FlowOutcome :=
  match nonempty (dp_vault p), nonempty (dp_token p) with
  | Some vault, Some token =>
      let amountWei := baseUnits (dp_amount p) in
      let! approveTxHash := fask (SendTransaction {|
        t_from := dp_evmAddress p; t_to := token; t_value := None; t_data := approveCalldata vault amountWei; t_gas := None |}) in
      let! approveReceipt := waitReceipt approveTxHash in
      if negb (approval_ok approveReceipt) then Throw "approvalFailed" else
      do! assertChain (dp_chainId p) in
      let! depositTx := fask (SendTransaction {|
        t_from := dp_evmAddress p; t_to := vault; t_value := None;
        t_data := vaultDepositCalldata amountWei (dp_recipient p); t_gas := Some VAULT_DEPOSIT_GAS |}) in
      do! announce p depositTx in
      let! receipt := waitReceipt depositTx in
      do! match receipt with
          | Some r => if succeeded r then Ret tt else fask (OnReverted depositTx)
          | None => Ret tt
          end in
      if negb (approval_ok receipt) then Throw "depositTxFailed" else
      claim_xrge CLAIM_ATTEMPTS depositTx (dp_evmAddress p) amountWei (dp_recipient p)
  | _, _ => Throw "xrgeNotConfigured"
  end.

Section Flows.
Context `{Unicode}.

Definition depositEvm (p : EvmDepositParams) : prog FlowI FlowOutcome :=
  match nonempty (dp_custody p) with
  | None => Throw "notConfigured"
  | Some custody =>
      let amount := baseUnits (dp_amount p) in
      do! match dp_asset p with
          | DepUSDC =>
              let! approveTxHash := fask (SendTransaction {|
                t_from := dp_evmAddress p; t_to := dp_usdc p; t_value := None; t_data := approveCalldata custody amount; t_gas := None |}) in
              let! approveReceipt := waitReceipt approveTxHash in
              if negb (approval_ok approveReceipt) then Throw "approvalFailedToken" else assertChain (dp_chainId p)
          | _ => Ret tt
          end in
      let! txHash := fask (SendTransaction
        match dp_asset p with
        | DepETH => {| t_from := dp_evmAddress p; t_to := custody; t_value := Some (toHex amount);
                       t_data := bridgeDepositEthCalldata (dp_recipient p); t_gas := Some BRIDGE_DEPOSIT_GAS |}
        | _ => {| t_from := dp_evmAddress p; t_to := custody; t_value := None;
                  t_data := bridgeDepositErc20Calldata (dp_usdc p) amount (dp_recipient p); t_gas := Some BRIDGE_DEPOSIT_GAS |}
        end) in
      do! announce p txHash in
      let! receipt := waitReceipt txHash in
      match receipt with
      | Some r => if succeeded r then Ret (FlowPending (Some txHash)) else
                  do! fask (OnReverted txHash) in Throw "depositReverted"
      | None => Ret (FlowPending (Some txHash))
      end
  end.

(** [enabled] is [evmDepositsEnabled()], fixed by the build. *)
Definition depositFromBase (enabled : bool) (p : EvmDepositParams) : prog FlowI FlowOutcome :=
  if bool_decide (dp_asset p <> DepXRGE) && negb enabled then Throw "evmDepositsPaused" else
  do! assertChain (dp_chainId p) in
  if bool_decide (dp_asset p = DepXRGE) then depositXrge p else depositEvm p.
End Flows.

(** ** Claims *)

(** [None] when claimed, otherwise the key of the error. *)
Fixpoint poll_claim (n : nat) (last : units) (txHash evmAddress sig recipient : units) (token : DepositAsset)
    : prog FlowI (option string) :=
  match n with
  | O => Ret (Some (if bool_decide (last = []) then "baseTimeout"%string else "node"%string))
  | S n =>
      let! claim := fask (ClaimEvm txHash evmAddress sig recipient token) in
      if cl_success claim then Ret None else
      do! sleep CLAIM_INTERVAL_MS in
      poll_claim n (default [] (cl_error claim)) txHash evmAddress sig recipient token
  end.
Definition pollEvmClaim := poll_claim CLAIM_ATTEMPTS [].

Definition claimExistingDeposit (enabled : bool) (evmAddress txHash recipient : units) (token : DepositAsset) (chainId : number)
    : prog FlowI FlowOutcome :=
  if negb enabled then Throw "evmDepositsPaused" else
  do! assertChain chainId in
  let! sig := attempt (fask (PersonalSign (claimMessageHex txHash recipient) evmAddress)) in
  match sig with
  | Err _ => Throw "signatureRejected"
  | Ok sig =>
      let! claim := pollEvmClaim txHash evmAddress sig recipient token in
      match claim with None => Ret (FlowSuccess (Some txHash) None) | Some e => Throw e end
  end.

Fixpoint claim_btc (n : nat) (txid : units) (recipient : option units) : prog FlowI FlowOutcome :=
  match n with
  | O => Ret (FlowPending None)
  | S n =>
      let! claim := fask (ClaimBtc txid recipient) in
      if cl_success claim then Ret (FlowSuccess None None) else
      do! sleep CLAIM_INTERVAL_MS in
      claim_btc n txid recipient
  end.
Definition claimBtcDeposit (txid rougeAddress : units) : prog FlowI FlowOutcome :=
  claim_btc CLAIM_ATTEMPTS txid (nonempty (Some rougeAddress)).

(** ** Withdrawals *)

Record WithdrawWallet := { publicKey : units; privateKey : option units }.

(** [0.1]. *)
Definition BRIDGE_FEE_XRGE : number := num_div (num_of_Z 1) (num_of_Z 10).

Definition signBridgeWithdraw (wallet : WithdrawWallet) (amountUnits : number) (destination : units) (token : L1Token)
    : prog FlowI SignedTransaction :=
  let isBtc := bool_decide (token = qBTC) in
  match nonempty (privateKey wallet) with
  | Some key =>
      do! fask VerifyNodeChainId in
      fask (SignLocal (publicKey wallet) key amountUnits destination token BRIDGE_FEE_XRGE (negb isBtc))
  | None =>
      let! now := fask FlowNow in
      let! nonce := fask GenerateNonce in
      fask (SignExtension {|
        wp_from := publicKey wallet; wp_amount := amountUnits; wp_fee := BRIDGE_FEE_XRGE; wp_token := token;
        wp_evmAddress := if isBtc || starts_0x destination then destination else u "0x" ++ destination;
        wp_timestamp := now; wp_nonce := nonce |} (publicKey wallet))
  end.

Definition withdrawFromRougeChain (asset : BridgeAsset) (amountUnits : number) (destination : units) (wallet : WithdrawWallet)
    : prog FlowI FlowOutcome :=
  let token := L1_SYMBOL asset in
  let! signed := signBridgeWithdraw wallet amountUnits destination token in
  let! result :=
    (if bool_decide (asset = AXRGE)
     then fask (PostWithdrawXrge (publicKey wallet) amountUnits destination signed)
     else fask (PostWithdraw (publicKey wallet) amountUnits destination token signed)) in
  if negb (cl_success result)
  then Throw (match nonempty (cl_error result) with Some _ => "node" | None => "withdrawFailed" end)
  else Ret (FlowSuccess None (cl_txId result)).
