(* ===== verification/FlowClaims.v ===== *)
(** * What a deposit of the bridge page may do

    A guard on every wallet request, callback and claim of [depositFromBase], and the meaning of
    its outcome, for any wallet and any node. *)
From S2P Require Import Prelude JsText JsNum JsUtf16 Interact Address BridgeInput EvmCalldata Inflight BridgeFlows.
Local Open Scope Z_scope.

Section Deposit.
Context `{Unicode}.
Variable p : EvmDepositParams.

(** The transactions a deposit consists of, in order: an approval of exactly the amount for
    tokens, then the deposit naming the recipient. *)
Definition planned : list TxRequest :=
  let amount := baseUnits (dp_amount p) in
  let tx to value data gas := {| t_from := dp_evmAddress p; t_to := to; t_value := value; t_data := data; t_gas := gas |} in
  match dp_asset p, dp_custody p, dp_vault p, dp_token p with
  | DepETH, Some c, _, _ => [tx c (Some (toHex amount)) (bridgeDepositEthCalldata (dp_recipient p)) (Some BRIDGE_DEPOSIT_GAS)]
  | DepUSDC, Some c, _, _ =>
      [tx (dp_usdc p) None (approveCalldata c amount) None;
       tx c None (bridgeDepositErc20Calldata (dp_usdc p) amount (dp_recipient p)) (Some BRIDGE_DEPOSIT_GAS)]
  | DepXRGE, _, Some v, Some t =>
      [tx t None (approveCalldata v amount) None;
       tx v None (vaultDepositCalldata amount (dp_recipient p)) (Some VAULT_DEPOSIT_GAS)]
  | _, _, _, _ => []
  end.

Definition is_deposit (t : TxRequest) : Prop := last planned = Some t.

(** The transactions handed to the wallet, oldest first. *)
Fixpoint sent_txs (h : history FlowI) : list TxRequest :=
  match h with
  | [] => []
  | Ev c _ :: h' => sent_txs h' ++ match c with SendTransaction t => [t] | _ => [] end
  end.

(** The last thing the wallet did was to name the bridge's chain. *)
Definition on_chain (h : history FlowI) : Prop :=
  exists a h', h = Ev (I := FlowI) EthChainId (Ok a) :: h' /\ isFinite (chain_number a) = true
    /\ num_eqb (chain_number a) (dp_chainId p) = true.

Definition mined (h : history FlowI) (hash : units) (b : bool) : Prop :=
  exists r, Ev (I := FlowI) (TransactionReceipt hash) (Ok (Some r)) ∈ h /\ succeeded r = b.

(** Every transaction sent so far was mined with success. *)
Definition confirmed (h : history FlowI) : Prop :=
  forall t r, Ev (I := FlowI) (SendTransaction t) r ∈ h -> exists hash, r = Ok hash /\ mined h hash true.

Definition deposited (h : history FlowI) (hash : units) : Prop :=
  exists t, is_deposit t /\ Ev (I := FlowI) (SendTransaction t) (Ok hash) ∈ h.

Definition deposit_ok (h : history FlowI) (c : flow_cmd) : Prop :=
  match c with
  | EthChainId | TransactionReceipt _ | FlowSleep _ | FlowNow => True
  | SendTransaction t => on_chain h /\ confirmed h /\ exists rest, planned = sent_txs h ++ t :: rest
  | OnSent r => exists t hash now h', is_deposit t /\ r = sentRecord p now hash
      /\ h = Ev (I := FlowI) FlowNow (Ok now) :: Ev (I := FlowI) (SendTransaction t) (Ok hash) :: h'
  | OnReverted hash => deposited h hash /\ mined h hash false
  | ClaimXrge hash addr amount recipient =>
      dp_asset p = DepXRGE /\ addr = dp_evmAddress p /\ amount = baseUnits (dp_amount p) /\ recipient = dp_recipient p
      /\ deposited h hash /\ mined h hash true
  | _ => False
  end.

(** A deposit the wallet sent was reported to the page, unless the clock threw. *)
Definition tracked (h : history FlowI) : Prop :=
  forall hash, deposited h hash ->
    (exists m, Ev (I := FlowI) FlowNow (Err m) ∈ h) \/
    exists now r, Ev (I := FlowI) (OnSent (sentRecord p now hash)) r ∈ h.

Definition no_revert (h : history FlowI) : Prop := forall hash r, Ev (I := FlowI) (OnReverted hash) r ∉ h.

Definition deposit_post (o : res FlowOutcome) (h : history FlowI) : Prop :=
  tracked h /\
  match o with
  | Ok (FlowSuccess x id) => no_revert h /\ exists hash cl, x = Some hash /\ deposited h hash /\ mined h hash true
      /\ Ev (I := FlowI) (ClaimXrge hash (dp_evmAddress p) (baseUnits (dp_amount p)) (dp_recipient p)) (Ok cl) ∈ h
      /\ cl_success cl = true /\ id = cl_txId cl
  | Ok (FlowPending x) => no_revert h /\ exists hash, x = Some hash /\ deposited h hash
  | Err _ => True
  end.

Abbreviation wpd := (wp (I := FlowI) deposit_ok anything).

(** ** Building blocks *)

(** Reads, pauses and claims: neither transactions nor callbacks. *)
Definition reading (c : flow_cmd) : Prop :=
  match c with EthChainId | TransactionReceipt _ | FlowSleep _ | ClaimXrge _ _ _ _ => True | _ => False end.
Definition reads (x : history FlowI) : Prop := forall c r, Ev (I := FlowI) c r ∈ x -> reading c.

Lemma reads_sent x h : reads x -> sent_txs (x ++ h) = sent_txs h.
Proof.
  induction x as [|[c r] x IH]; intros Hx; [done|]. cbn [app sent_txs]. rewrite IH.
  - pose proof (Hx c r ltac:(left)) as Hc. destruct c; try done; apply app_nil_r.
  - intros c' r' Hin. apply (Hx c' r'). by right.
Qed.

Lemma elem_app_old {c r} (x h : history FlowI) :
  reads x -> ~ reading c -> Ev (I := FlowI) c r ∈ x ++ h -> Ev (I := FlowI) c r ∈ h.
Proof. intros Hx Hc [Hi|Hi]%elem_of_app; [|done]. by apply Hx in Hi. Qed.

Lemma mined_app x h hash b : mined h hash b -> mined (x ++ h) hash b.
Proof. intros (r & Hr & ?). exists r. split; [|done]. apply elem_of_app. by right. Qed.
Lemma deposited_app x h hash : deposited h hash -> deposited (x ++ h) hash.
Proof. intros (t & Ht & Hr). exists t. split; [done|]. apply elem_of_app. by right. Qed.
Lemma deposited_reads x h hash : reads x -> deposited (x ++ h) hash -> deposited h hash.
Proof. intros Hx (t & Ht & Hr). exists t. split; [done|]. apply (elem_app_old _ _ Hx (c := SendTransaction t)); [by intros []|done]. Qed.

Lemma tracked_none h : (forall hash, ~ deposited h hash) -> tracked h.
Proof. intros Hn hash Hd. by destruct (Hn hash). Qed.

(** Adding an event that is not a deposit the wallet accepted. *)
Lemma deposited_cons c r h hash :
  (forall t x, c = SendTransaction t -> is_deposit t -> Ev (I := FlowI) c r <> Ev (I := FlowI) (SendTransaction t) (Ok x)) ->
  deposited (Ev (I := FlowI) c r :: h) hash -> deposited h hash.
Proof.
  intros Hc (t & Ht & [Hin|Hin]%elem_of_cons); [|by exists t].
  assert (c = SendTransaction t) as Ec by (by injection Hin). by destruct (Hc t hash Ec Ht).
Qed.

Lemma no_revert_cons c r h : (forall x, c <> OnReverted x) -> no_revert h -> no_revert (Ev (I := FlowI) c r :: h).
Proof. intros Hc Hn hash x [Hin|Hin]%elem_of_cons; [|by eapply Hn]. injection Hin as Hi _. by destruct (Hc hash). Qed.

Lemma no_revert_app x h : reads x -> no_revert h -> no_revert (x ++ h).
Proof. intros Hx Hn hash r Hin. apply (Hn hash r). by apply (elem_app_old _ _ Hx (c := OnReverted hash)) in Hin; [|intros []]. Qed.

(** The approvals are done and [t] is all that is left to send. *)
Record approved (t : TxRequest) (h : history FlowI) : Prop := {
  ap_confirmed : confirmed h;
  ap_fresh : forall hash, ~ deposited h hash;
  ap_revert : no_revert h;
  ap_left : planned = sent_txs h ++ [t];
}.

Lemma approved_deposit t h : approved t h -> is_deposit t.
Proof. intros A. unfold is_deposit. rewrite (ap_left _ _ A). apply last_snoc. Qed.

Lemma confirmed_app x h : reads x -> confirmed h -> confirmed (x ++ h).
Proof.
  intros Hx Hc t r Hin. apply (elem_app_old _ _ Hx (c := SendTransaction t)) in Hin; [|by intros []].
  destruct (Hc t r Hin) as (hash & -> & Hm). exists hash. split; [done|]. by apply mined_app.
Qed.

Lemma approved_app t x h : reads x -> approved t h -> approved t (x ++ h).
Proof.
  intros Hx [? Hf ? ?]. split; [by apply confirmed_app|intros hash Hd%deposited_reads; [by destruct (Hf hash)|done]
    |by apply no_revert_app|by rewrite reads_sent].
Qed.

(** The deposit [t] was sent as [hash] and reported. *)
Record in_progress (hash : units) (h : history FlowI) : Prop := {
  ip_sent : deposited h hash;
  ip_only : forall hash', deposited h hash' -> hash' = hash;
  ip_reported : exists now r, Ev (I := FlowI) (OnSent (sentRecord p now hash)) r ∈ h;
}.

Lemma in_progress_app hash x h : reads x -> in_progress hash h -> in_progress hash (x ++ h).
Proof.
  intros Hx [Hs Ho (now & r & Hr)]. split; [by apply deposited_app|intros hash' Hd; by apply Ho, (deposited_reads x)|].
  exists now, r. apply elem_of_app. by right.
Qed.

Lemma in_progress_tracked hash h : in_progress hash h -> tracked h.
Proof. intros [_ Ho Hr] hash' Hd. apply Ho in Hd as ->. by right. Qed.

Lemma reads_one c r : reading c -> reads [Ev (I := FlowI) c r].
Proof. intros Hc c' r' Hin%list_elem_of_singleton. assert (c' = c) as -> by (by injection Hin). done. Qed.

Lemma assertChain_spec s h :
  wpd (assertChain (dp_chainId p)) s h (fun o _ h' =>
    exists r, h' = Ev (I := FlowI) EthChainId r :: h /\ (forall u, o = Ok u -> on_chain h')).
Proof.
  unfold assertChain, readChainId. apply wp_bind, wp_bind, wp_attempt. apply (wp_call (I := FlowI)); [done|].
  intros [a|m] _; cbn -[num_eqb chain_number isFinite]; [|by eexists].
  destruct (isFinite (chain_number a)) eqn:Ef; [|by eexists].
  destruct (num_eqb _ _) eqn:E; [|by eexists]. exists (Ok a). split; [done|]. intros _ _. by exists a, h.
Qed.

Lemma waitReceipt_spec hash s h :
  wpd (waitReceipt hash) s h (fun o _ h' => exists x, h' = x ++ h /\ reads x /\
    match o with Ok (Some r) => Ev (I := FlowI) (TransactionReceipt hash) (Ok (Some r)) ∈ x | _ => True end).
Proof.
  unfold waitReceipt. generalize 30%nat. intros n. revert h. induction n as [|n IH]; intros h; cbn [wait_receipt].
  { apply wp_ret. exists []. split; [done|]. split; [|done]. by intros c r ?%elem_of_nil. }
  assert (forall c r x, reading c -> reads x -> reads (x ++ [Ev (I := FlowI) c r])) as Hsnoc.
  { intros c r x Hc Hx c' r' [Hin|Hin]%elem_of_app; [by eapply Hx|]. apply list_elem_of_singleton in Hin.
    assert (c' = c) as -> by (by injection Hin). done. }
  assert (reads []) as Hnil by (by intros c r ?%elem_of_nil).
  apply wp_bind, (wp_call (I := FlowI)); [done|]. intros [[]|m] _.
  2:{ exists [Ev (I := FlowI) (FlowSleep 2000) (Err m)]. split; [done|]. split; [|done]. by apply (Hsnoc _ _ []). }
  apply wp_bind, (wp_call (I := FlowI)); [done|]. intros r _.
  set (x := [Ev (I := FlowI) (TransactionReceipt hash) r] ++ [Ev (I := FlowI) (FlowSleep 2000) (Ok tt)]).
  assert (reads x) as Hx by (apply Hsnoc; [done|]; by apply (Hsnoc _ _ [])).
  destruct r as [[r|]|m].
  - apply wp_ret. exists x. split; [done|]. split; [done|]. by left.
  - eapply wp_mono; [|apply IH]. intros o s' h' (y & -> & Hy & Ho). exists (y ++ x).
    split; [by rewrite <- app_assoc|]. split.
    + intros c r [Hin|Hin]%elem_of_app; [by eapply Hy|by eapply Hx].
    + destruct o as [[r|]|]; [|done..]. apply elem_of_app. by left.
  - exists x. by split.
Qed.
(** Sending the deposit, and reporting it. *)
Lemma announce_spec {B} t (K : units -> prog FlowI B) s h Q :
  approved t h -> on_chain h ->
  (forall m h', tracked h' -> Q (Err m) tt h') ->
  (forall hash h', in_progress hash h' -> no_revert h' -> wpd (K hash) tt h' Q) ->
  wpd (bind (fask (SendTransaction t)) (fun hash => bind (announce p hash) (fun _ => K hash))) s h Q.
Proof.
  intros A Hc HE HK. destruct s. pose proof (approved_deposit t h A) as Ht. destruct A as [Hf Hn Hr Hl].
  apply wp_bind, (wp_call (I := FlowI)). { split; [done|]. split; [done|]. by exists []. }
  intros [hash|m] _.
  2:{ apply HE, tracked_none. intros hash Hd%deposited_cons; [by destruct (Hn hash)|].
      intros t' x [= <-] _ E. by apply (f_equal (fun e : event FlowI => match e with Ev (SendTransaction _) (Ok _) => true | _ => false end)) in E. }
  set (h1 := Ev (I := FlowI) (SendTransaction t) (Ok hash) :: h).
  assert (deposited h1 hash) as Hd by (exists t; split; [done|by left]).
  assert (forall hash', deposited h1 hash' -> hash' = hash) as Ho.
  { intros hash' (t' & Ht' & [Hin|Hin]%elem_of_cons); [|by destruct (Hn hash'); exists t'].
    apply (f_equal (fun e : event FlowI => match e with Ev (SendTransaction _) (Ok x) => x | _ => [] end)) in Hin. done. }
  assert (no_revert h1) as Hr1 by (by apply no_revert_cons).
  unfold announce. apply wp_bind, wp_bind, (wp_call (I := FlowI)); [done|]. intros [now|m] _.
  2:{ apply HE. intros hash' _. left. exists m. by left. }
  assert (forall r, in_progress hash (Ev (I := FlowI) (OnSent (sentRecord p now hash)) r :: Ev (I := FlowI) FlowNow (Ok now) :: h1)) as Hp.
  { intros r. split.
    - by apply (deposited_app [_; _]).
    - intros hash' Hd'. apply Ho. by do 2 (apply deposited_cons in Hd'; [|done]).
    - exists now, r. by left. }
  apply (wp_call (I := FlowI)). { by exists t, hash, now, h. }
  intros [[]|m] _; [|by eapply HE, in_progress_tracked].
  apply HK; [done|]. by do 2 (apply no_revert_cons; [done|]).
Qed.

(** An approval, its receipt, and what follows a successful one. *)
Lemma approve_spec {B} t d m (K : prog FlowI B) s h Q :
  planned = [t; d] -> t <> d -> on_chain h -> sent_txs h = [] -> (forall t r, Ev (I := FlowI) (SendTransaction t) r ∉ h) -> no_revert h ->
  (forall m h', tracked h' -> Q (Err m) tt h') ->
  (forall h', approved d h' -> wpd K tt h' Q) ->
  wpd (bind (fask (SendTransaction t)) (fun hash => bind (waitReceipt hash) (fun r =>
        if negb (approval_ok r) then Throw m else K))) s h Q.
Proof.
  intros Hpl Hne Hc Hs Hno Hr HE HK. destruct s.
  assert (forall r hash, ~ deposited (Ev (I := FlowI) (SendTransaction t) r :: h) hash) as Hn.
  { intros r hash (t' & Ht' & [Hin|Hin]%elem_of_cons); [|by apply Hno in Hin].
    assert (t' = t) as -> by (by injection Hin). unfold is_deposit in Ht'. rewrite Hpl in Ht'. by injection Ht'. }
  apply wp_bind, (wp_call (I := FlowI)).
  { split; [done|]. split; [by intros t' r ?%Hno|]. exists [d]. by rewrite Hs. }
  intros [hash|e] _; [|by apply HE, tracked_none]. set (h1 := Ev _ _ :: h). apply wp_bind.
  eapply wp_mono; [|apply waitReceipt_spec]. intros o [] h' (x & -> & Hx & Ho).
  assert (tracked (x ++ h1)) as Ht. { apply tracked_none. intros hash' Hd%deposited_reads; [|done]. by eapply Hn. }
  destruct o as [[r|]|e]; [|by apply HE..]. cbn [approval_ok]. destruct (succeeded r) eqn:E; [|by apply HE].
  cbn [negb]. apply HK. split.
  - intros t' r' Hin%(elem_app_old _ _ Hx); [|by intros []]. apply elem_of_cons in Hin as [Hin|Hin]; [|by apply Hno in Hin].
    exists hash. split; [|exists r; split; [apply elem_of_app; by left|done]].
    destruct r' as [y|y]; apply (f_equal (fun e : event FlowI => match e with Ev (SendTransaction _) (Ok x) => Some x | _ => None end)) in Hin; congruence.
  - intros hash' Hd%deposited_reads; [|done]. by eapply Hn.
  - apply no_revert_app; [done|]. by apply no_revert_cons.
  - rewrite reads_sent by done. unfold h1. cbn [sent_txs]. by rewrite Hs.
Qed.

(** The chain check in front of a transaction. *)
Lemma assertChain_approved t s h :
  approved t h ->
  wpd (assertChain (dp_chainId p)) s h (fun o _ h' => tracked h' /\ (forall u, o = Ok u -> approved t h' /\ on_chain h')).
Proof.
  intros A. eapply wp_mono; [|apply assertChain_spec]. intros o s' h' (r & -> & Ho).
  assert (approved t (Ev (I := FlowI) EthChainId r :: h)) as A' by (by apply (approved_app t [_]); [apply reads_one|]).
  split; [apply tracked_none, A'|]. eauto.
Qed.
(** ** The flows *)

Definition flow_post (o : res FlowOutcome) (_ : unit) (h : history FlowI) : Prop := deposit_post o h.

Lemma post_error m h' : tracked h' -> flow_post (Err m) tt h'.
Proof. by split. Qed.

Lemma claim_spec n hash h :
  dp_asset p = DepXRGE -> in_progress hash h -> no_revert h -> mined h hash true ->
  wpd (claim_xrge n hash (dp_evmAddress p) (baseUnits (dp_amount p)) (dp_recipient p)) tt h flow_post.
Proof.
  intros Ha. revert h. induction n as [|n IH]; intros h Hp Hr Hm; cbn [claim_xrge].
  { apply wp_ret. split; [by eapply in_progress_tracked|]. split; [done|]. exists hash. by destruct Hp. }
  apply wp_bind, (wp_call (I := FlowI)). { by destruct Hp. }
  intros r _. set (c := ClaimXrge _ _ _ _). pose proof (reads_one c r Logic.I) as Hx.
  apply (in_progress_app hash _ h Hx) in Hp. apply (no_revert_app _ h Hx) in Hr. apply (mined_app [Ev (I := FlowI) c r]) in Hm.
  destruct r as [cl|m]; [|by eapply post_error, in_progress_tracked].
  destruct (cl_success cl) eqn:Es.
  { apply wp_ret. split; [by eapply in_progress_tracked|]. split; [done|]. exists hash, cl. destruct Hp.
    split; [done|]. split; [done|]. split; [done|]. split; [by left|done]. }
  apply wp_bind, (wp_call (I := FlowI)); [done|]. intros r _.
  pose proof (reads_one (FlowSleep CLAIM_INTERVAL_MS) r Logic.I) as Hy.
  apply (in_progress_app hash _ _ Hy) in Hp. apply (no_revert_app _ _ Hy) in Hr.
  destruct r as [[]|m]; [|by eapply post_error, in_progress_tracked].
  apply IH; [done..|]. by apply (mined_app [_]).
Qed.

Lemma nonempty_some x y : nonempty x = Some y -> x = Some y.
Proof. destruct x as [[|]|]; cbn; congruence. Qed.

(** The callback of a reverted deposit. *)
Lemma reverted_spec hash h (Q : res unit -> unit -> history FlowI -> Prop) :
  in_progress hash h -> mined h hash false ->
  (forall r, tracked (Ev (I := FlowI) (OnReverted hash) r :: h) -> Q r tt (Ev (I := FlowI) (OnReverted hash) r :: h)) ->
  wpd (fask (OnReverted hash)) tt h Q.
Proof.
  intros Hp Hm HQ. apply (wp_call (I := FlowI)). { by destruct Hp. }
  intros r _. apply HQ. destruct Hp as [Hs Ho (now & x & Hx)]. intros hash' Hd%deposited_cons; [|done].
  apply Ho in Hd as ->. right. exists now, x. by right.
Qed.

(** Nothing has happened but the chain check. *)
Definition started (h : history FlowI) : Prop := exists r, h = [Ev (I := FlowI) EthChainId r].

Lemma started_fresh h : started h ->
  sent_txs h = [] /\ (forall t r, Ev (I := FlowI) (SendTransaction t) r ∉ h) /\ no_revert h /\ (forall hash, ~ deposited h hash).
Proof.
  intros [r ->]. split; [done|]. split; [by intros t x ?%list_elem_of_singleton|].
  split; [by intros t x ?%list_elem_of_singleton|]. by intros hash (t & _ & ?%list_elem_of_singleton).
Qed.

Lemma depositXrge_spec h :
  dp_asset p = DepXRGE -> started h -> on_chain h -> wpd (depositXrge p) tt h flow_post.
Proof.
  intros Ha Hs Hc. destruct (started_fresh h Hs) as (Hs0 & Hno & Hr & Hn). unfold depositXrge.
  destruct (nonempty (dp_vault p)) as [v|] eqn:Hv; [|by apply post_error, tracked_none].
  destruct (nonempty (dp_token p)) as [t|] eqn:Htk; [|by apply post_error, tracked_none].
  apply nonempty_some in Hv, Htk. eapply approve_spec; [| |done..|apply post_error|].
  { unfold planned. rewrite Ha, Hv, Htk. by destruct (dp_custody p). }
  { done. }
  intros h1 A. apply wp_bind. eapply wp_mono; [|by apply assertChain_approved].
  intros [[]|m] [] h2 [Ht Ho]; [|by apply post_error]. destruct (Ho tt eq_refl) as [A2 Hc2].
  eapply announce_spec; [done..|apply post_error|]. intros hash h3 Hp Hr3. apply wp_bind.
  eapply wp_mono; [|apply waitReceipt_spec]. intros o [] h4 (x & -> & Hx & Hrc).
  apply (in_progress_app _ x h3 Hx) in Hp. apply (no_revert_app x h3 Hx) in Hr3.
  destruct o as [[r|]|m]; [| |by eapply post_error, in_progress_tracked].
  - destruct (succeeded r) eqn:Es; cbn [approval_ok]; rewrite ?Es; apply wp_bind.
    + apply wp_ret. apply claim_spec; [done..|]. exists r. split; [apply elem_of_app; by left|done].
    + apply (reverted_spec hash); [done| |]. { exists r. split; [apply elem_of_app; by left|done]. }
      intros [[]|m] Ht3; by apply post_error.
  - apply wp_bind, wp_ret. by eapply post_error, in_progress_tracked.
Qed.

Lemma depositEvm_spec h :
  dp_asset p <> DepXRGE -> started h -> on_chain h -> wpd (depositEvm p) tt h flow_post.
Proof.
  intros Ha Hs Hc. destruct (started_fresh h Hs) as (Hs0 & Hno & Hr & Hn). unfold depositEvm.
  destruct (nonempty (dp_custody p)) as [c|] eqn:Ec; [|by apply post_error, tracked_none].
  apply nonempty_some in Ec. apply wp_bind.
  set (t := match dp_asset p return TxRequest with DepETH => _ | _ => _ end).
  set (Q := fun o s h' => _).
  assert (forall h', approved t h' -> on_chain h' -> Q (Ok tt) tt h') as HQ.
  { intros h' A Hc'. unfold Q. eapply announce_spec; [done..|apply post_error|]. intros hash h3 Hp Hr3. apply wp_bind.
    eapply wp_mono; [|apply waitReceipt_spec]. intros o [] h4 (x & -> & Hx & Hrc).
    apply (in_progress_app _ x h3 Hx) in Hp. apply (no_revert_app x h3 Hx) in Hr3.
    assert (flow_post (Ok (FlowPending (Some hash))) tt (x ++ h3)) as Hok.
    { split; [by eapply in_progress_tracked|]. split; [done|]. exists hash. by destruct Hp. }
    destruct o as [[r|]|m]; [|done|by eapply post_error, in_progress_tracked].
    destruct (succeeded r) eqn:Es; [done|]. apply wp_bind, (reverted_spec hash); [done| |].
    { exists r. split; [apply elem_of_app; by left|done]. }
    intros [[]|m] Ht3; by apply post_error. }
  destruct (dp_asset p) eqn:Ea; [| |done].
  - apply HQ; [|done]. split; [by intros t' r ?%Hno|done..|]. rewrite Hs0. unfold planned. by rewrite Ea, Ec.
  - eapply (approve_spec _ t); [| |done..|intros m h' Ht; by apply post_error|].
    { unfold planned. by rewrite Ea, Ec. }
    { done. }
    intros h1 A. eapply wp_mono; [|by apply assertChain_approved]. intros [[]|m] [] h2 [Ht Ho]; [|by apply post_error].
    by destruct (Ho tt eq_refl); apply HQ.
Qed.

Lemma depositFromBase_spec enabled : wpd (depositFromBase enabled p) tt [] flow_post.
Proof.
  assert (forall h, started h -> tracked h) as Ht by (intros h Hs; by apply tracked_none, started_fresh).
  unfold depositFromBase. destruct (_ && _). { apply post_error, tracked_none. by intros hash (t & _ & ?%elem_of_nil). }
  apply wp_bind. eapply wp_mono; [|apply assertChain_spec]. intros o [] h (r & -> & Ho).
  assert (started [Ev (I := FlowI) EthChainId r]) as Hs by (by exists r).
  destruct o as [[]|m]; [|by apply post_error, Ht]. specialize (Ho tt eq_refl).
  case_bool_decide; [by apply depositXrge_spec|by apply depositEvm_spec].
Qed.

(** ** Guarded histories *)

Lemma guarded_sent h : guarded (I := FlowI) deposit_ok h -> sent_txs h `prefix_of` planned.
Proof.
  induction h as [|[c r] h IH]; cbn [guarded sent_txs]; [intros; apply prefix_nil|].
  intros [Hc Hh]. destruct c; try (rewrite app_nil_r; by apply IH).
  destruct Hc as (_ & _ & rest & ->). exists rest. by rewrite <- app_assoc.
Qed.
End Deposit.

(** ** Deposits from the bridge page *)

(** What the calldata of the deposit [t] says to a contract that decodes it. *)
Definition deposit_says (p : EvmDepositParams) (usdc : Z) (t : TxRequest) : Prop :=
  let amount := baseUnits (dp_amount p) in
  match dp_asset p with
  | DepETH => t_value t = Some (toHex amount) /\ exists args, args_of (u "0x9b1c48e6") (t_data t) = Some args
      /\ bytes_at args 0 = Some (utf8 (dp_recipient p))
  | DepUSDC => t_value t = None /\ exists args, args_of (u "0x5a67cb87") (t_data t) = Some args
      /\ word_at args 0 = Some usdc /\ word_at args 1 = Some amount /\ bytes_at args 2 = Some (utf8 (dp_recipient p))
  | DepXRGE => t_value t = None /\ exists args, args_of (u "0xf1215d25") (t_data t) = Some args
      /\ word_at args 0 = Some amount /\ bytes_at args 1 = Some (utf8 (dp_recipient p))
  end.

(** Parameters the page can have: a recipient key of ASCII characters, an amount in 256 bits, the
    address of the USDC contract. *)
Definition encodable (p : EvmDepositParams) (usdc : Z) : Prop :=
  Forall is_ascii (dp_recipient p) /\ uint256 (Z.of_nat (length (dp_recipient p)))
  /\ uint256 (baseUnits (dp_amount p)) /\ address_text (dp_usdc p) usdc.

Lemma planned_says `{Unicode} p usdc t : encodable p usdc -> is_deposit p t -> deposit_says p usdc t.
Proof.
  intros (Hk & Hl & Ha & Hu) Ht. assert (Forall is_unit (dp_recipient p)) as Hun.
  { eapply Forall_impl; [exact Hk|]. unfold is_ascii, is_unit. lia. }
  assert (utf8 (dp_recipient p) = dp_recipient p) as E8 by (by apply utf8_ascii).
  destruct (deposit_calldata_decodes (dp_recipient p) (dp_usdc p) usdc (dp_usdc p) usdc (baseUnits (dp_amount p)))
    as (He & Hc & _ & Hx); [done|by rewrite E8|done..|]. specialize (Hx ltac:(by rewrite E8)).
  unfold is_deposit, planned in Ht. unfold deposit_says.
  destruct (dp_asset p), (dp_custody p), (dp_vault p), (dp_token p); cbn [last] in Ht; try done; injection Ht as <-; done.
Qed.


(** ** A USDC deposit *)
Module FlowDemo.
#[local] Existing Instance AddressDemo.AsciiCase.

Definition wallet : units := u "0x1111111111111111111111111111111111111111".
Definition usdc : units := u "0x036CbD53842c5426634e7929541eC2318f3dCF7e".
Definition params : EvmDepositParams := {|
  dp_asset := DepUSDC; dp_evmAddress := wallet; dp_chainId := num_of_Z 84532; dp_recipient := u "a1b2c3";
  dp_amount := {| baseUnits := 1500000; l1Units := 1500000 |};
  dp_custody := Some (u "0x2222222222222222222222222222222222222222"); dp_usdc := usdc; dp_vault := None; dp_token := None |}.

(** A wallet on Base Sepolia whose transactions are mined. *)
Definition chain : env FlowI := fun _ c =>
  match c as c return res (flow_ans c) with
  | EthChainId => Ok (AnsText (u "0x14a34"))
  | SendTransaction t => Ok (t_to t)
  | TransactionReceipt _ => Ok (Some {| wr_status := Some (u "0x1") |})
  | FlowNow => Ok 1000
  | SwitchChain _ | FlowSleep _ | OnSent _ | OnReverted _ | VerifyNodeChainId => Ok tt
  | _ => Err "unused"
  end.

End FlowDemo.
