(* ===== verification/TokenAmounts.v ===== *)
(** * Token decimals and amounts typed by the user

    [src/packages/core/src/token-decimals.ts] (the decimals cache and its lookup),
    [src/apps/site-next/src/swap/amounts.ts] and [src/apps/web/src/lib/send-amount.ts] (parsing
    a typed amount into raw units and printing raw units exactly).  Texts are UTF-16 code units;
    an error is the key of its message.  Display formatting through [toLocaleString] is not
    modelled. *)
From Stdlib Require Import SpecFloat.
From S2P Require Import Prelude JsText JsNum JsExact JsUtf16 JsFloat LosslessJson BridgeInput.
Local Open Scope Z_scope.

(** ** The decimals cache *)

(** [tokenDecimalsCache: Record<string, number>]. *)
Abbreviation DecimalsCache := (list (units * number)).

Fixpoint cache_get (k : units) (m : DecimalsCache) : option number :=
  match m with
  | [] => None
  | (k', v) :: r => if units_eqb k k' then Some v else cache_get k r
  end.

Fixpoint cache_put (k : units) (v : number) (m : DecimalsCache) : DecimalsCache :=
  match m with
  | [] => [(k, v)]
  | (k', v') :: r => if units_eqb k k' then (k', v) :: r else (k', v') :: cache_put k v r
  end.

Inductive AmountError := invalidAmount | wholeUnits | tooManyDecimals | tooLarge.
#[export] Instance AmountError_eq_dec : EqDecision AmountError.
Proof. solve_decision. Defined.

(** [{ ok: true; raw } | { ok: false; error }]. *)
Inductive ParsedAmount := Parsed (raw : number) | Refused (e : AmountError).

(** [n > d] for a length [n]. *)
Definition length_above (n : nat) (d : number) : bool :=
  match d with
  | S754_finite s m e => floor_Z s m e <? Z.of_nat n
  | S754_zero _ => 0 <? Z.of_nat n
  | S754_infinity s => s
  | S754_nan => false
  end.

Definition is_zero (d : number) : bool := match d with S754_zero _ => true | _ => false end.

(** [/^(\d+)(?:\.(\d+))?$/]: the groups, an absent second group as the empty text. *)
Definition amount_match (s : units) : option (units * units) :=
  let '(whole, r) := take_digits s in
  if bool_decide (whole = []) then None else
  match r with
  | [] => Some (whole, [])
  | c :: frac => if (c =? 46) && negb (bool_decide (frac = [])) && forallb is_dec frac then Some (whole, frac) else None
  end.

(** [BigInt(d)] and [10n ** BigInt(d)] throw on a fraction and on a negative exponent. *)
Definition exponent (d : number) : res nat :=
  match BigInt_of_number d with
  | Some z => if z <? 0 then Err "RangeError" else Ok (Z.to_nat z)
  | None => Err "RangeError"
  end.

(** The integer arithmetic both parsers share. *)
Definition parse_scaled (text : units) (d : number) : res ParsedAmount :=
  match amount_match text with
  | None => Ok (Refused invalidAmount)
  | Some (whole, frac) =>
      if length_above (length (trim_zeros frac)) d
      then Ok (Refused (if is_zero d then wholeUnits else tooManyDecimals))
      else
      res_bind (exponent d) (fun k =>
      let raw := digits_val whole * 10 ^ Z.of_nat k + digits_val (take k (frac ++ repeat 48 k)) in
      Ok (if raw <=? 0 then Refused invalidAmount
          else if MAX_SAFE_INTEGER <? raw then Refused tooLarge
          else Parsed (num_of_Z raw)))
  end.

(** [BigInt(Math.max(0, Math.floor(raw)))]. *)
Definition clamp_floor (raw : number) : res Z :=
  match Math_floor raw with
  | S754_nan => Err "RangeError"
  | x => if num_ltb x (num_of_Z 0) then Ok 0
         else match BigInt_of_number x with Some z => Ok z | None => Err "RangeError" end
  end.

(** [`${n / base}.${frac}`] with the fraction padded and its trailing zeros trimmed. *)
Definition scaled_text (n : Z) (d : number) : res units :=
  res_bind (exponent d) (fun k =>
  let base := 10 ^ Z.of_nat k in
  let digits := udec (n mod base) in
  let frac := trim_zeros (repeat 48 (k - length digits) ++ digits) in
  Ok (udec (n / base) ++ (if bool_decide (frac = []) then [] else 46 :: frac))).

Section Amounts.
(** [toUpperCase] of the platform. *)
Variable toUpper : units -> units.

Definition setTokenDecimalsCache (entries : list (units * option number)) (m : DecimalsCache) : DecimalsCache :=
  foldl (fun m e =>
    match snd e with
    | Some dec =>
        if isFinite dec && num_leb (num_of_Z 0) dec && num_leb dec (num_of_Z 18)
        then cache_put (toUpper (fst e)) dec m else m
    | None => m
    end) m entries.

Definition l1TokenDecimals (m : DecimalsCache) (symbol : option units) : number :=
  let key := toUpper (default [] symbol) in
  match cache_get key m with
  | Some d => d
  | None =>
      if units_eqb key (u "QBTC") then num_of_Z 8
      else if units_eqb key (u "QUSDC") || units_eqb key (u "QETH") then num_of_Z 6
      else num_of_Z 0
  end.

Definition isXrge (symbol : units) : bool := units_eqb (toUpper symbol) (u "XRGE").

Definition tokenDecimals (m : DecimalsCache) (symbol : units) : number :=
  if isXrge symbol then num_of_Z 0 else l1TokenDecimals m (Some symbol).

(** Swap and liquidity fields of the site. *)
Definition parseTokenAmount (m : DecimalsCache) (input symbol : units) : res ParsedAmount :=
  parse_scaled (comma_to_point (utrim input)) (tokenDecimals m symbol).

(** The send dialog of the web application: XRGE amounts are plain numbers. *)
Definition parseSendAmount (m : DecimalsCache) (input symbol : units) : res ParsedAmount :=
  let text := utrim input in
  if isXrge symbol then
    let n := Number_of_text text in
    Ok (if isFinite n && num_ltb (num_of_Z 0) n then Parsed n else Refused invalidAmount)
  else parse_scaled text (tokenDecimals m symbol).

(** Whole LP tokens; a text with a decimal mark gets its own message. *)
Definition parseLpAmount (input : units) : ParsedAmount :=
  let text := utrim input in
  if bool_decide (text = []) || negb (forallb is_dec text) then
    let '(_, r) := take_digits text in
    match r with
    | c :: frac => if ((c =? 46) || (c =? 44)) && negb (bool_decide (frac = [])) && forallb is_dec frac
                   then Refused wholeUnits else Refused invalidAmount
    | [] => Refused invalidAmount
    end
  else
    let raw := digits_val text in
    if raw <=? 0 then Refused invalidAmount
    else if MAX_SAFE_INTEGER <? raw then Refused tooLarge
    else Parsed (num_of_Z raw).

Definition rawToInput (m : DecimalsCache) (raw : number) (symbol : units) : res units :=
  let d := tokenDecimals m symbol in
  res_bind (clamp_floor raw) (fun n =>
  if is_zero d then Ok (udec n) else scaled_text n d).

Definition rawToDisplay (m : DecimalsCache) (raw : number) (symbol : units) : res units :=
  let d := tokenDecimals m symbol in
  if isXrge symbol || is_zero d then Ok (number_text raw)
  else res_bind (clamp_floor raw) (fun n => scaled_text n d).
End Amounts.

(** ** Lemmas *)

Lemma exponent_int d k : exponent d = Ok k -> num_int d = Some (Z.of_nat k).
Proof.
  unfold exponent, BigInt_of_number. destruct (num_int d) as [z|]; [|done].
  destruct (Z.ltb_spec z 0); [done|]. intros [= <-]. f_equal. lia.
Qed.

Lemma length_above_int n d k : num_int d = Some (Z.of_nat k) -> length_above n d = (k <? n)%nat.
Proof.
  intros H. destruct d as [s|s| |s m e]; try done; unfold length_above.
  - simpl in H. injection H as H. destruct (Nat.ltb_spec k n), (Z.ltb_spec 0 (Z.of_nat n)); lia.
  - rewrite (floor_Z_int _ _ _ _ H). destruct (Nat.ltb_spec k n), (Z.ltb_spec (Z.of_nat k) (Z.of_nat n)); lia.
Qed.

Lemma amount_match_parts s w f : amount_match s = Some (w, f) -> parts_of s w f /\ w <> [].
Proof.
  unfold amount_match. destruct (take_digits s) as [w' r] eqn:E. pose proof (take_digits_app _ _ _ E) as ->.
  pose proof (take_digits_all_dec _ _ _ E) as Hw. case_bool_decide as Hn; [done|]. destruct r as [|c r].
  - intros [= <- <-]. rewrite app_nil_r. by split; [constructor|].
  - destruct (_ && _) eqn:Eb; [|done]. intros [= <- <-].
    apply andb_true_iff in Eb as [[->%Z.eqb_eq Hb%negb_true_iff%bool_decide_eq_false]%andb_true_iff Hf].
    split; [|done]. constructor; [by intros []|done..].
Qed.

Lemma amount_match_text w f :
  w <> [] -> all_dec w -> all_dec f -> amount_match (w ++ (if bool_decide (f = []) then [] else 46 :: f)) = Some (w, f).
Proof.
  intros Hn Hw Hf. unfold amount_match. case_bool_decide as E.
  - subst f. rewrite app_nil_r, take_digits_all by done. by rewrite bool_decide_eq_false_2.
  - rewrite take_digits_stop by done. rewrite !bool_decide_eq_false_2 by done. by rewrite Hf.
Qed.

Lemma take_repeat_le {A} (x : A) n q : (n <= q)%nat -> take n (repeat x q) = repeat x n.
Proof. revert q. induction n as [|n IH]; intros [|q] H; simpl; [done..|lia|]. f_equal. apply IH. lia. Qed.

(** Cutting a fraction after [k] digits loses only zeros. *)
Lemma take_scaled f k :
  (length (trim_zeros f) <= k)%nat -> digits_val (take k (f ++ repeat 48 k)) * pow10 (length f) = digits_val f * pow10 k.
Proof.
  intros Hk. destruct (trim_zeros_eq f) as [j Hj]. set (t := trim_zeros f) in *.
  assert (take k (f ++ repeat 48 k) = t ++ repeat 48 (k - length t)) as ->.
  { rewrite Hj, <- app_assoc, <- repeat_app. rewrite take_app_ge, take_repeat_le by lia. done. }
  assert (length f = length t + j)%nat as -> by (rewrite Hj at 1; by rewrite length_app, repeat_length).
  rewrite Hj at 1. rewrite !digits_val_pad. rewrite pow10_add. replace k with (length t + (k - length t))%nat at 2 by lia.
  rewrite pow10_add. lia.
Qed.

(** What an accepted text is worth. *)
Lemma parse_scaled_value text d n :
  parse_scaled text d = Ok (Parsed n) ->
  exists k w f v, exponent d = Ok k /\ amount_match text = Some (w, f) /\ num_int n = Some v /\ 0 < v <= MAX_SAFE_INTEGER
    /\ v * pow10 (length f) = digits_val (w ++ f) * pow10 k.
Proof.
  unfold parse_scaled. destruct (amount_match text) as [[w f]|] eqn:Em; [|done].
  destruct (length_above _ d) eqn:El; [done|]. destruct (exponent d) as [k|] eqn:Ek; [|done]. cbn [res_bind].
  set (v := digits_val w * pow10 k + _). destruct (Z.leb_spec v 0) as [|Hp]; [done|].
  destruct (Z.ltb_spec MAX_SAFE_INTEGER v) as [|Hm]; [done|]. intros [= <-]. exists k, w, f, v.
  split; [done|]. split; [done|]. split; [apply num_int_of_Z; unfold MAX_SAFE_INTEGER in Hm; lia|]. split; [lia|].
  rewrite (length_above_int _ _ k) in El by by apply exponent_int. apply Nat.ltb_ge in El.
  pose proof (take_scaled f k El) as Ht. unfold v. rewrite Z.mul_add_distr_r, Ht, digits_val_app. lia.
Qed.

Lemma parse_scaled_back v w f d k :
  exponent d = Ok k -> 0 < v <= MAX_SAFE_INTEGER -> w <> [] -> all_dec w -> all_dec f -> (length f <= k)%nat ->
  digits_val w * pow10 k + digits_val (f ++ repeat 48 (k - length f)) = v ->
  parse_scaled (w ++ (if bool_decide (f = []) then [] else 46 :: f)) d = Ok (Parsed (num_of_Z v)).
Proof.
  intros Hk Hv Hn Hw Hf Hl He. unfold parse_scaled. rewrite amount_match_text by done.
  rewrite (length_above_int _ _ k) by by apply exponent_int.
  assert (length (trim_zeros f) <= length f)%nat as Ht.
  { destruct (trim_zeros_eq f) as [j Hj]. apply (f_equal length) in Hj. rewrite length_app in Hj. lia. }
  rewrite (proj2 (Nat.ltb_ge _ _)) by lia. rewrite Hk. cbn [res_bind].
  rewrite take_app_ge, take_repeat_le, He by lia.
  rewrite (proj2 (Z.leb_gt v 0)), (proj2 (Z.ltb_ge _ _)) by lia. done.
Qed.

Lemma clamp_floor_int raw v : num_int raw = Some v -> 0 < v <= 2 ^ 53 -> clamp_floor raw = Ok v.
Proof.
  intros Hr Hv. unfold clamp_floor. destruct raw as [s|s| |s m e]; try done; [injection Hr as <-; lia|].
  cbn [Math_floor]. rewrite (floor_Z_int _ _ _ _ Hr). destruct v as [|p|p]; [lia| |lia].
  destruct (num_of_pos_finite p) as (m' & e' & E); [|].
  { assert (2 ^ 53 < 2 ^ 1000) by (by vm_compute). lia. }
  rewrite E. change (num_ltb _ (num_of_Z 0)) with false. cbv iota. rewrite <- E. unfold BigInt_of_number.
  by rewrite num_int_of_Z by lia.
Qed.

(** The printed text of [n] raw units is the one of [formatUnits]. *)
Lemma scaled_text_format n d k : 0 < n -> exponent d = Ok k -> k <> 0%nat -> scaled_text n d = Ok (formatUnits n k).
Proof.
  intros Hn Hk Hne. unfold scaled_text, formatUnits. rewrite Hk. cbn [res_bind].
  rewrite (proj2 (Nat.eqb_neq k 0)), Z.abs_eq by lia. cbv zeta. rewrite (proj2 (Z.ltb_ge n 0)) by lia. done.
Qed.

Lemma is_zero_exponent d k : exponent d = Ok k -> is_zero d = (k =? 0)%nat.
Proof.
  intros H%exponent_int. destruct d as [s|s| |s m e]; try done; cbn [is_zero].
  - injection H as H. symmetry. apply Nat.eqb_eq. lia.
  - symmetry. apply Nat.eqb_neq. intros ->. unfold num_int in H. destruct (Z.leb_spec 0 e) as [He|He]; simpl in H.
    + injection H as H. pose proof (Z.pow_pos_nonneg 2 e ltac:(lia) He). destruct s; lia.
    + destruct (Z.eqb_spec (Zpos m mod 2 ^ (- e)) 0) as [Hm|]; simpl in H; [|done]. injection H as H.
      pose proof (Z.pow_pos_nonneg 2 (- e) ltac:(lia) ltac:(lia)) as Hp.
      pose proof (Z.div_mod (Zpos m) (2 ^ (- e)) ltac:(lia)). destruct s; nia.
Qed.

(** amounts survive the form.  For a token with whole decimals and a positive safe amount of raw
    units, the text offered for it (the "Max" button) parses back to exactly that amount; and
    every text the form accepts stands for exactly the amount of its decimal value, a comma
    counting as the point, between one raw unit and the largest safe integer, nothing rounded. *)
Theorem token_amount_roundtrip toUpper m symbol raw v k
    (Hd : exponent (tokenDecimals toUpper m symbol) = Ok k)
    (Hraw : num_int raw = Some v) (Hv : 0 < v <= MAX_SAFE_INTEGER) :
  (exists text, rawToInput toUpper m raw symbol = Ok text /\
     parseTokenAmount toUpper m text symbol = Ok (Parsed (num_of_Z v)) /\ num_int (num_of_Z v) = Some v) /\
  (forall input n, parseTokenAmount toUpper m input symbol = Ok (Parsed n) ->
     exists w f x, amount_match (comma_to_point (utrim input)) = Some (w, f) /\ num_int n = Some x /\
       0 < x <= MAX_SAFE_INTEGER /\ x * pow10 (length f) = digits_val (w ++ f) * pow10 k).
Proof.
  split.
  - destruct (formatUnits_parts v k ltac:(lia)) as (w & f & Hp & Hl & He & Htext & Hn).
    exists (formatUnits v k). unfold MAX_SAFE_INTEGER in Hv. split; [|split; [|apply num_int_of_Z; lia]].
    + unfold rawToInput. rewrite (clamp_floor_int raw v) by (done || lia). cbn [res_bind].
      rewrite (is_zero_exponent _ _ Hd). destruct (Nat.eqb_spec k 0) as [->|Hne]; [done|]. apply scaled_text_format; [lia|done|done].
    + unfold parseTokenAmount. rewrite (parts_text _ w f Hp), Htext.
      assert (all_dec w /\ all_dec f) as [Hw Hf] by (by destruct Hp).
      by apply parse_scaled_back with (k := k).
  - intros input n H. apply parse_scaled_value in H as (k' & w & f & x & Hk' & Hm & Hx & Hb & He).
    assert (k' = k) as -> by congruence. eauto 10.
Qed.

Lemma token_amount_roundtrip_witness :
  let up := map (fun c => if (97 <=? c) && (c <=? 122) then c - 32 else c) in
  exists text, rawToInput up [] (num_of_Z 1250000) (u "qUSDC") = Ok text /\
    parseTokenAmount up [] text (u "qUSDC") = Ok (Parsed (num_of_Z 1250000)).
Proof.
  cbv zeta. set (up := map _).
  destruct (proj1 (token_amount_roundtrip up [] (u "qUSDC") (num_of_Z 1250000) 1250000 6
    ltac:(vm_compute; reflexivity) ltac:(vm_compute; reflexivity) ltac:(unfold MAX_SAFE_INTEGER; lia))) as (text & H1 & H2 & _).
  exists text. exact (conj H1 H2).
Defined.

Example token_amount_cases :
  let up := map (fun c => if (97 <=? c) && (c <=? 122) then c - 32 else c) in
  rawToInput up [] (num_of_Z 1250000) (u "qUSDC") = Ok (u "1.25") /\
  parseTokenAmount up [] (u " 0,25 ") (u "qBTC") = Ok (Parsed (num_of_Z 25000000)) /\
  parseTokenAmount up [] (u "1.5") (u "XRGE") = Ok (Refused wholeUnits) /\
  parseSendAmount up [] (u "1.5") (u "XRGE") = Ok (Parsed (Number_of_text (u "1.5"))) /\
  parseSendAmount up [] (u "0,25") (u "qBTC") = Ok (Refused invalidAmount) /\
  parseLpAmount (u "10.5") = Refused wholeUnits.
Proof. vm_compute. auto 10. Qed.
