(* ===== verification/Amm.v ===== *)
(** * Pool arithmetic of the swap pages ([src/apps/site-next/src/swap/amm.ts])

    The integer arithmetic that mirrors the daemon: [isqrt], [lpForDeposit], [removeEstimate],
    [makePoolId].  Amounts are JavaScript numbers, the arithmetic is on bigints.  [Math.sqrt] is
    implementation-approximated in ECMAScript: of its result only that it is a non-negative
    finite number is assumed, and [isqrt] is exact whatever it is.  Price and rate displays
    (floating-point quotients) are not modelled. *)
From Stdlib Require Import SpecFloat.
From S2P Require Import Prelude JsText JsNum JsExact JsUtf16.
Local Open Scope Z_scope.
Local Open Scope js_scope.

(** ** Loops with a doubling bound

    [loop k step x] runs [step] until it stops, at most 2^k times. *)
Fixpoint loop {A} (k : nat) (step : A -> A * bool) (x : A) : A * bool :=
  match k with
  | O => step x
  | S k => let '(y, stop) := loop k step x in if stop then (y, true) else loop k step y
  end.

Section Loop.
Context {A : Type} (step : A -> A * bool) (mu : A -> Z) (P : A -> Prop).
Hypothesis step_mu : forall x y, P x -> step x = (y, false) -> P y /\ 0 <= mu y <= mu x - 1.
Hypothesis step_stop : forall x y, P x -> step x = (y, true) -> y = x.

Lemma loop_progress k x : P x ->
  match loop k step x with
  | (y, true) => P y /\ step y = (y, true)
  | (y, false) => P y /\ 0 <= mu y <= mu x - 2 ^ Z.of_nat k
  end.
Proof.
  revert x. induction k as [|k IH]; intros x Hx; simpl loop.
  - destruct (step x) as [y []] eqn:E.
    + pose proof (step_stop x y Hx E) as ->. done.
    + destruct (step_mu x y Hx E) as [Hy Hm]. split; [done|]. simpl. lia.
  - pose proof (IH x Hx) as H1. destruct (loop k step x) as [y []]; [done|]. destruct H1 as [Hy Hm].
    pose proof (IH y Hy) as H2. destruct (loop k step y) as [z []]; [done|]. destruct H2 as [Hz Hm2]. split; [done|].
    rewrite Nat2Z.inj_succ, Z.pow_succ_r by lia. lia.
Qed.

(** Enough fuel: the loop stops in a state where [step] stops. *)
Lemma loop_stops k x : P x -> mu x < 2 ^ Z.of_nat k -> exists y, loop k step x = (y, true) /\ P y /\ step y = (y, true).
Proof.
  intros Hx Hk. pose proof (loop_progress k x Hx) as H. destruct (loop k step x) as [y []]; [by exists y|]. lia.
Qed.
End Loop.

(** Iterations enough for a measure up to [z]. *)
Definition enough (z : Z) : nat := Z.to_nat (Z.log2_up (z + 1) + 1).

Lemma enough_bound z : 0 <= z -> z < 2 ^ Z.of_nat (enough z).
Proof.
  intros Hz. unfold enough. pose proof (Z.log2_up_nonneg (z + 1)). rewrite Z2Nat.id by lia.
  destruct (Z.eq_dec z 0) as [->|Hne]; [done|]. pose proof (Z.log2_up_spec (z + 1) ltac:(lia)).
  rewrite Z.pow_add_r by lia. lia.
Qed.

(** ** Integer square root *)

Class MathSqrt := {
  Math_sqrt : number -> number;
  Math_sqrt_nonneg : forall m e,
    Math_sqrt (S754_finite false m e) = S754_zero false \/
    exists m' e', Math_sqrt (S754_finite false m e) = S754_finite false m' e';
}.

(** [while (x * x > n) x -= 1n] and [while ((x + 1n) * (x + 1n) <= n) x += 1n]. *)
Definition down (n x : Z) : Z * bool := if n <? x * x then (x - 1, false) else (x, true).
Definition up (n x : Z) : Z * bool := if (x + 1) * (x + 1) <=? n then (x + 1, false) else (x, true).

Section Amm.
Context `{MS : MathSqrt}.

Definition isqrt (n : Z) : res Z :=
  if n <? 2 then Ok n else
  match floor_int (Math_sqrt (num_of_Z n)) with
  | None => Err "RangeError"
  | Some x0 =>
      let x1 := (loop (enough x0) (down n) x0).1 in
      Ok (loop (enough n) (up n) x1).1
  end.

(** ** Liquidity *)

Record PoolReserves := {
  pool_id : units; token_a : units; token_b : units;
  reserve_a : number; reserve_b : number; total_lp_supply : number;
}.

Definition MINIMUM_LIQUIDITY : Z := 1000.

Definition is_pos (x : number) : bool := num_ltb (num_of_Z 0) x.

Definition floored (x : number) : res Z :=
  match floor_int x with Some z => Ok z | None => Err "RangeError" end.

(** Bigint division truncates and throws on zero. *)
Definition big_div (x y : Z) : res Z := if y =? 0 then Err "RangeError: Division by zero" else Ok (Z.quot x y).

Definition lpForDeposit (amountA amountB : number) (pool : option PoolReserves) : res number :=
  if negb (is_pos amountA) || negb (is_pos amountB) then Ok (num_of_Z 0) else
  let? a := floored amountA in
  let? b := floored amountB in
  match (match pool with Some p => if is_pos (total_lp_supply p) then Some p else None | None => None end) with
  | None =>
      let? r := isqrt (a * b) in
      let lp := r - MINIMUM_LIQUIDITY in
      Ok (if 0 <? lp then num_of_Z lp else num_of_Z 0)
  | Some p =>
      if negb (is_pos (reserve_a p)) || negb (is_pos (reserve_b p)) then Ok (num_of_Z 0) else
      let? t := floored (total_lp_supply p) in
      let? ra := floored (reserve_a p) in
      let? lpA := big_div (a * t) ra in
      let? rb := floored (reserve_b p) in
      let? lpB := big_div (b * t) rb in
      Ok (num_of_Z (if lpA <? lpB then lpA else lpB))
  end.

(** The pair [a], [b]. *)
Definition removeEstimate (lp : number) (pool : PoolReserves) : res (number * number) :=
  if negb (is_pos lp) || negb (is_pos (total_lp_supply pool)) then Ok (num_of_Z 0, num_of_Z 0) else
  let? l := floored lp in
  let? t := floored (total_lp_supply pool) in
  let? ra := floored (reserve_a pool) in
  let? a := big_div (l * ra) t in
  let? rb := floored (reserve_b pool) in
  let? b := big_div (l * rb) t in
  Ok (num_of_Z a, num_of_Z b).

(** ** Pool ids *)

(** [a < b] on strings: lexicographic by code unit. *)
Fixpoint units_ltb (a b : units) : bool :=
  match a, b with
  | [], [] => false
  | [], _ => true
  | _, [] => false
  | x :: a, y :: b => if x =? y then units_ltb a b else x <? y
  end.

Definition makePoolId (tokenA tokenB : units) : units :=
  if units_ltb tokenA tokenB then tokenA ++ [45] ++ tokenB else tokenB ++ [45] ++ tokenA.

(** ** Correctness *)

(** [isqrt] terminates and is the exact integer square root, whatever [Math.sqrt] answers. *)
Lemma isqrt_exact n : 0 <= n < 2 ^ 1000 -> isqrt n = Ok (Z.sqrt n).
Proof.
  intros Hn. unfold isqrt. destruct (Z.ltb_spec n 2) as [H2|H2].
  { assert (n = 0 \/ n = 1) as [-> | ->] by lia; done. }
  destruct n as [|p|p]; [lia| |lia]. destruct (num_of_pos_finite p ltac:(lia)) as (m & e & ->).
  assert (exists x0, floor_int (Math_sqrt (S754_finite false m e)) = Some x0 /\ 0 <= x0) as (x0 & -> & Hx0).
  { destruct (Math_sqrt_nonneg m e) as [->|(m' & e' & ->)]; [by exists 0|apply floor_int_nonneg]. }
  cbv zeta. set (n := Zpos p) in *.
  destruct (loop_stops (down n) (fun x => x) (fun x => 0 <= x)) with (k := enough x0) (x := x0) as (x1 & -> & Hx1 & Hd);
    [..|done|by apply enough_bound|].
  { intros x y Hx. unfold down. destruct (Z.ltb_spec n (x * x)); intros [= <-]. split; nia. }
  { intros x y Hx. unfold down. destruct (n <? x * x); by intros [= <-]. }
  unfold down in Hd. destruct (Z.ltb_spec n (x1 * x1)) as [|Hle]; [done|]. cbn [fst].
  destruct (loop_stops (up n) (fun x => n - x) (fun x => 0 <= x /\ x * x <= n)) with (k := enough n) (x := x1)
    as (x2 & -> & [Hx2 Hle2] & Hu); [..|split; done| |].
  { intros x y [Hx Hxx]. unfold up. destruct (Z.leb_spec ((x + 1) * (x + 1)) n); intros [= <-]. split; [lia|nia]. }
  { intros x y Hx. unfold up. destruct (_ <=? n); by intros [= <-]. }
  { pose proof (enough_bound n ltac:(lia)). lia. }
  unfold up in Hu. destruct (Z.leb_spec ((x2 + 1) * (x2 + 1)) n) as [|Hgt]; [done|]. cbn [fst].
  f_equal. symmetry. apply Z.sqrt_unique. lia.
Qed.

(** A safe positive integer. *)
Definition amount_is (x : number) (z : Z) : Prop := num_int x = Some z /\ 0 < z <= MAX_SAFE_INTEGER.

Lemma amount_pos x z : amount_is x z -> is_pos x = true /\ floored x = Ok z.
Proof.
  intros [Hx Hz]. split; [apply (positive_int x z); [done|lia]|]. unfold floored. by rewrite (floor_int_exact x z).
Qed.

Lemma deposit_existing x y p a b ra rb t :
  amount_is x a -> amount_is y b -> amount_is (reserve_a p) ra -> amount_is (reserve_b p) rb ->
  amount_is (total_lp_supply p) t ->
  lpForDeposit x y (Some p) = Ok (num_of_Z (Z.min (a * t / ra) (b * t / rb))).
Proof.
  intros Ha Hb Hra Hrb Ht. unfold lpForDeposit.
  destruct (amount_pos _ _ Ha) as [-> ->], (amount_pos _ _ Hb) as [-> ->], (amount_pos _ _ Ht) as [-> Ft].
  cbn [negb orb res_bind]. rewrite Ft.
  destruct (amount_pos _ _ Hra) as [-> ->], (amount_pos _ _ Hrb) as [-> ->].
  destruct Ha as [_ Ha], Hb as [_ Hb], Hra as [_ Hra], Hrb as [_ Hrb], Ht as [_ Ht]. cbn [negb orb res_bind].
  unfold big_div. rewrite (proj2 (Z.eqb_neq ra 0)), (proj2 (Z.eqb_neq rb 0)) by lia. cbn [res_bind].
  rewrite !Z.quot_div_nonneg by nia. do 2 f_equal. destruct (Z.ltb_spec (a * t / ra) (b * t / rb)); lia.
Qed.

Lemma deposit_first x y a b :
  amount_is x a -> amount_is y b ->
  lpForDeposit x y None = Ok (num_of_Z (Z.max 0 (Z.sqrt (a * b) - MINIMUM_LIQUIDITY))).
Proof.
  intros Ha Hb. unfold lpForDeposit. destruct (amount_pos _ _ Ha) as [-> ->], (amount_pos _ _ Hb) as [-> ->].
  destruct Ha as [_ Ha], Hb as [_ Hb]. cbn [negb orb res_bind].
  rewrite isqrt_exact.
  2:{ unfold MAX_SAFE_INTEGER in *. split; [nia|]. assert (2 ^ 53 * 2 ^ 53 < 2 ^ 1000) by (by vm_compute). nia. }
  cbn [res_bind]. destruct (Z.ltb_spec 0 (Z.sqrt (a * b) - MINIMUM_LIQUIDITY)); do 2 f_equal; lia.
Qed.

Lemma remove_value l p lp ra rb t :
  amount_is l lp -> amount_is (reserve_a p) ra -> amount_is (reserve_b p) rb -> amount_is (total_lp_supply p) t ->
  removeEstimate l p = Ok (num_of_Z (lp * ra / t), num_of_Z (lp * rb / t)).
Proof.
  intros Hl Hra Hrb Ht. unfold removeEstimate.
  destruct (amount_pos _ _ Hl) as [-> ->], (amount_pos _ _ Hra) as [_ ->], (amount_pos _ _ Hrb) as [_ ->],
    (amount_pos _ _ Ht) as [-> ->].
  destruct Hl as [_ Hl], Hra as [_ Hra], Hrb as [_ Hrb], Ht as [_ Ht]. cbn [negb orb res_bind].
  unfold big_div. rewrite (proj2 (Z.eqb_neq t 0)) by lia. cbn [res_bind]. rewrite !Z.quot_div_nonneg by nia. done.
Qed.

(** [l] shares of a pool that holds [r + d] for [t + l] shares are worth at most [d]. *)
Lemma share_bound l r d t : 0 <= l -> 0 < t -> 0 <= d -> l * r <= d * t -> l * (r + d) / (t + l) <= d.
Proof. intros. apply Z.div_le_upper_bound; [lia|]. nia. Qed.

Lemma units_ltb_asym a b : units_ltb a b = true -> units_ltb b a = false.
Proof.
  revert b. induction a as [|x a IH]; intros [|y b]; simpl; try done. rewrite (Z.eqb_sym y x).
  destruct (Z.eqb_spec x y); [apply IH|]. intros ?%Z.ltb_lt. apply Z.ltb_ge. lia.
Qed.

Lemma units_ltb_total a b : units_ltb a b = false -> units_ltb b a = false -> a = b.
Proof.
  revert b. induction a as [|x a IH]; intros [|y b]; simpl; try done. rewrite (Z.eqb_sym y x).
  destruct (Z.eqb_spec x y) as [->|]; [intros; f_equal; auto|]. intros ?%Z.ltb_ge ?%Z.ltb_ge. lia.
Qed.

(** The id of a pair does not depend on the order of its tokens. *)
Lemma makePoolId_comm a b : makePoolId a b = makePoolId b a.
Proof.
  unfold makePoolId. destruct (units_ltb a b) eqn:E1, (units_ltb b a) eqn:E2; try done.
  - by rewrite (units_ltb_asym a b E1) in E2.
  - by rewrite (units_ltb_total a b E1 E2).
Qed.

(** What removing [lp] shares pays out of [p], in raw units: at most [a] and [b]. *)
Definition pays_at_most (lp : Z) (p : PoolReserves) (a b : Z) : Prop :=
  exists x y va vb, removeEstimate (num_of_Z lp) p = Ok (x, y) /\
    num_int x = Some va /\ num_int y = Some vb /\ 0 <= va <= a /\ 0 <= vb <= b.

Lemma pays_bound lp p ra rb t a b :
  0 < lp <= MAX_SAFE_INTEGER -> amount_is (reserve_a p) ra -> amount_is (reserve_b p) rb -> amount_is (total_lp_supply p) t ->
  a <= MAX_SAFE_INTEGER -> b <= MAX_SAFE_INTEGER -> lp * ra / t <= a -> lp * rb / t <= b -> pays_at_most lp p a b.
Proof.
  intros Hlp Hra Hrb Ht Ha Hb Hpa Hpb. unfold MAX_SAFE_INTEGER in *.
  assert (amount_is (num_of_Z lp) lp) as Hl by (split; [apply num_int_of_Z; lia|unfold MAX_SAFE_INTEGER; lia]).
  pose proof (remove_value _ _ _ _ _ _ Hl Hra Hrb Ht) as Hv. destruct Hra as [_ Hra], Hrb as [_ Hrb], Ht as [_ Ht].
  pose proof (Z.div_pos (lp * ra) t ltac:(nia) ltac:(lia)). pose proof (Z.div_pos (lp * rb) t ltac:(nia) ltac:(lia)).
  eexists _, _, (lp * ra / t), (lp * rb / t). split; [exact Hv|]. split; [apply num_int_of_Z; lia|].
  split; [apply num_int_of_Z; lia|]. lia.
Qed.

End Amm.

(** ** A concrete pool *)

Module AmmDemo.
(** A crude square root: the identity. *)
#[export] Instance crude_sqrt : MathSqrt := {|
  Math_sqrt := fun x => x;
  Math_sqrt_nonneg := fun m e => or_intror (ex_intro _ m (ex_intro _ e eq_refl)) |}.

Definition pool (ra rb t : Z) : PoolReserves := {|
  pool_id := u "XRGE-qETH"; token_a := u "XRGE"; token_b := u "qETH";
  reserve_a := num_of_Z ra; reserve_b := num_of_Z rb; total_lp_supply := num_of_Z t |}.

Example isqrt_crude : isqrt 5000 = Ok 70.
Proof. vm_compute. reflexivity. Qed.

Example deposit_case : lpForDeposit (num_of_Z 100) (num_of_Z 250) (Some (pool 1000 2000 1414)) = Ok (num_of_Z 141).
Proof. vm_compute. reflexivity. Qed.

Lemma of_Z z : 0 < z <= MAX_SAFE_INTEGER -> amount_is (num_of_Z z) z.
Proof. intros Hz. split; [|done]. apply num_int_of_Z. unfold MAX_SAFE_INTEGER in Hz. lia. Qed.

End AmmDemo.
