(* ===== verification/ChainBinding.v ===== *)
(** * Network binding of signatures ([src/apps/extension/src/lib/chain-binding.ts])

    The review of a payload's chain id, the chain id put into what is signed, and the check of the
    selected network against what its node reports, with the session's memory of mismatches.
    Calls run one after the other: the promise of a check is its result.  Messages name the rule. *)
From S2P Require Import Prelude JsText JsUtf16 LosslessJson JsValue Interact.

Inductive NetworkType := Mainnet | Testnet.

Definition MAINNET_CHAIN_ID : units := u "rougechain-mainnet-1".
Definition TESTNET_CHAIN_ID : units := u "rougechain-devnet-1".

Definition chainIdForNetwork (network : NetworkType) : units :=
  match network with Testnet => TESTNET_CHAIN_ID | Mainnet => MAINNET_CHAIN_ID end.

Definition networkNameForChainId (chainId : option units) : units :=
  match chainId with
  | None | Some [] => u "No network specified"
  | Some c =>
      if units_eqb c MAINNET_CHAIN_ID then u "RougeChain Mainnet"
      else if units_eqb c TESTNET_CHAIN_ID then u "RougeChain Testnet"
      else u "Unknown network (" ++ c ++ u ")"
  end.

Record NetworkReview := {
  nr_chainId : option units; nr_name : units; nr_selectedChainId : units; nr_selectedName : units; nr_missing : bool;
}.

Definition reviewPayloadChainId (p : object) (selectedChainId : units) : res NetworkReview :=
  let selectedName := networkNameForChainId (Some selectedChainId) in
  match prop "chainId" p with
  | JUndef | JNull =>
      Ok {| nr_chainId := None; nr_name := networkNameForChainId None; nr_selectedChainId := selectedChainId;
            nr_selectedName := selectedName; nr_missing := true |}
  | JStr raw =>
      if bool_decide (raw = []) then Err "CHAIN_ID_MISMATCH: payload.chainId must be a chain id string"
      else if negb (units_eqb raw selectedChainId) then Err "CHAIN_ID_MISMATCH"
      else Ok {| nr_chainId := Some raw; nr_name := networkNameForChainId (Some raw);
                 nr_selectedChainId := selectedChainId; nr_selectedName := selectedName; nr_missing := false |}
  | _ => Err "CHAIN_ID_MISMATCH: payload.chainId must be a chain id string"
  end.

(** [existing === chainId]. *)
Definition is_text (v : js) (t : units) : bool := match v with JStr s => units_eqb s t | _ => false end.

(** [{ ...payload, chainId }]. *)
Definition withChainId (p : object) (chainId : units) : res object :=
  match prop "chainId" p with
  | JUndef | JNull => Ok (with_prop "chainId" (JStr chainId) p)
  | existing => if is_text existing chainId then Ok (with_prop "chainId" (JStr chainId) p) else Err "CHAIN_ID_MISMATCH"
  end.

(** ** The session *)

Record session := { mismatches : list (units * units); checks : list (units * units) }.

(** [fetch] of a health endpoint: whether the response is ok, and the string [chain_id] of its
    JSON body ([res.json()] may throw). *)
Inductive bind_cmd := FetchChainId (url : units).
Definition BindI : iface :=
  {| st := session; cmd := bind_cmd; ans := fun _ => (bool * res (option units))%type |}.

Definition bget : prog BindI session := get.
Definition bput (s : session) : prog BindI unit := @put BindI s.

Local Open Scope prog_scope.

(** One endpoint inside its [try]. *)
Definition ask_endpoint (baseUrl path : units) : prog BindI (option units) :=
  let! r := attempt (let! a := call (FetchChainId (baseUrl ++ path) : cmd BindI) in
                     if negb (fst a) then Ret None else of_res (snd a)) in
  Ret (match r with Ok (Some c) => if bool_decide (c = []) then None else Some c | _ => None end).

Definition fetchReportedChainId (baseUrl : units) : prog BindI (option units) :=
  first_some (ask_endpoint baseUrl) [u "/health"; u "/stats"].

Definition ChainIdMismatchError : string := "CHAIN_ID_MISMATCH".

Definition assertNoKnownMismatch (chainId : units) : prog BindI unit :=
  let! s := bget in
  match oget chainId (mismatches s) with
  | Some _ => Throw ChainIdMismatchError
  | None => Ret tt
  end.

Definition check_key (baseUrl expected : units) : units := baseUrl ++ 0%Z :: expected.

Definition checkNodeChainId (baseUrl expected : units) : prog BindI unit :=
  do! assertNoKnownMismatch expected in
  if bool_decide (baseUrl = []) then Ret tt else
  let! s := bget in
  let key := check_key baseUrl expected in
  let! reported :=
    match oget key (checks s) with
    | Some r => Ret (Some r)
    | None =>
        let! r := fetchReportedChainId baseUrl in
        (* a check that reached no node is forgotten *)
        let! s := bget in
        do! (match r with
             | Some c => bput {| mismatches := mismatches s; checks := oset key c (checks s) |}
             | None => Ret tt
             end) in
        Ret r
    end in
  match reported with
  | Some r =>
      if negb (units_eqb r expected) then
        let! s := bget in
        do! bput {| mismatches := oset expected r (mismatches s); checks := checks s |} in
        Throw ChainIdMismatchError
      else Ret tt
  | None => Ret tt
  end.

(** A wallet's calls in order, each with its outcome. *)
Inductive call_of := CheckNode (baseUrl expected : units) | Assert (chainId : units).
Definition run_call (c : call_of) : prog BindI unit :=
  match c with CheckNode b e => checkNodeChainId b e | Assert e => assertNoKnownMismatch e end.
Definition target (c : call_of) : units := match c with CheckNode _ e | Assert e => e end.

Fixpoint run_calls (cs : list call_of) : prog BindI (list (res unit)) :=
  match cs with
  | [] => Ret []
  | c :: r => let! o := attempt (run_call c) in let! os := run_calls r in Ret (o :: os)
  end.

(** ** Properties *)

(** A payload that is signed for a chain names that chain and keeps its other members. *)
Lemma withChainId_spec p c p' :
  withChainId p c = Ok p' ->
  prop "chainId" p' = JStr c
  /\ (forall k, k <> u "chainId" -> oget k p' = oget k p)
  /\ (prop "chainId" p = JUndef \/ prop "chainId" p = JNull \/ prop "chainId" p = JStr c).
Proof.
  unfold withChainId. intros H.
  assert (p' = with_prop "chainId" (JStr c) p /\ (prop "chainId" p = JUndef \/ prop "chainId" p = JNull
    \/ prop "chainId" p = JStr c)) as [-> Hm].
  { destruct (prop "chainId" p) as [| |b|n|s|l|o]; try done; try (injection H as <-; by auto).
    cbn [is_text] in H. destruct (units_eqb s c) eqn:E; [|done]. apply units_eqb_true in E as ->. injection H as <-. auto. }
  unfold prop at 1, with_prop. rewrite oget_oset. unfold units_eqb. rewrite bool_decide_true by done.
  split; [done|]. split; [|done]. intros k Hk. rewrite oget_oset. unfold units_eqb. by rewrite bool_decide_false.
Qed.

Notation bwp := (wp (fun _ _ => True) anything).

Definition known (s : session) (e : units) : Prop := exists r, oget e (mismatches s) = Some r.
Definition grows (s s' : session) : Prop := forall e, known s e -> known s' e.

Lemma fetchReportedChainId_state b s h :
  bwp (fetchReportedChainId b) s h (fun o s' _ => s' = s /\ exists r, o = Ok r).
Proof.
  unfold fetchReportedChainId. apply (wp_first_some _ _ _ _ (fun s' _ => s' = s)); [done| |naive_solver].
  intros x s1 h1 _ ->. unfold ask_endpoint. apply wp_bind, wp_attempt, wp_bind, wp_call; [done|].
  intros r _. destruct r as [[ok body]|m]; cbn [fst snd]; [|done].
  destruct (negb ok); [done|]. apply wp_of_res. destruct body as [[c|]|]; cbn; [|done|done].
  destruct (bool_decide (c = [])); split; by try eexists.
Qed.

Lemma mset_known e c r s : known s e -> known {| mismatches := oset c r (mismatches s); checks := checks s |} e.
Proof.
  intros [x Hx]. unfold known. cbn. rewrite oget_oset. destruct (units_eqb e c); by eexists.
Qed.

(** One call: what is known stays known, and it throws exactly when its chain id is known to
    mismatch afterwards. *)
Lemma run_call_spec c s h :
  bwp (run_call c) s h (fun o s' _ => grows s s' /\ (is_ok o = false <-> known s' (target c))).
Proof.
  assert (forall e Q, (known s e -> Q (Err ChainIdMismatchError) s h) -> (~ known s e -> Q (Ok tt) s h) ->
    bwp (assertNoKnownMismatch e) s h Q) as Hassert.
  { intros e Q H1 H2. unfold assertNoKnownMismatch. apply wp_bind, (@wp_get BindI).
    destruct (oget e (mismatches s)) eqn:E; [apply H1; by eexists|]. apply H2. intros [r Hr]. congruence. }
  destruct c as [b e|e]; cbn [run_call target].
  2:{ apply Hassert; intros H; (split; [by intros e' He'|]); done. }
  unfold checkNodeChainId. apply wp_bind, Hassert; intros Hk; [by split; [intros e' He'|]|].
  destruct (bool_decide (b = [])); [by split; [intros e' He'|]|]. apply wp_bind, (@wp_get BindI). cbv zeta. apply wp_bind.
  eapply wp_mono with (Q := fun o s' _ => (exists r, o = Ok r) /\ mismatches s' = mismatches s).
  2:{ destruct (oget _ (checks s)); [split; [by eexists|done]|]. apply wp_bind. wp_apply fetchReportedChainId_state.
      intros o s1 h1 [-> [r ->]]. apply wp_bind, (@wp_get BindI), wp_bind. destruct r; cbn; by split; [eexists|]. }
  intros o s1 h1 [[r ->] Hm].
  assert (forall e, known s1 e <-> known s e) as Hsame by (intros e'; unfold known; by rewrite Hm).
  destruct r as [r|]; [destruct (negb (units_eqb r e))|].
  - apply wp_bind, (@wp_get BindI), wp_bind. cbn. split.
    + intros e' He'. apply mset_known. by apply Hsame.
    + split; [|done]. intros _. exists r. cbn. rewrite oget_oset. by rewrite (proj2 (units_eqb_true e e)).
  - apply wp_ret. split; [intros e' He'; by apply Hsame|]. rewrite Hsame. done.
  - apply wp_ret. split; [intros e' He'; by apply Hsame|]. rewrite Hsame. done.
Qed.

Lemma run_calls_spec cs s h :
  bwp (run_calls cs) s h (fun o s' _ => grows s s' /\ exists os, o = Ok os /\ length os = length cs
    /\ (forall j cj oj, cs !! j = Some cj -> os !! j = Some oj -> known s (target cj) -> is_ok oj = false)
    /\ (forall i j ci cj oi oj, (i <= j)%nat -> cs !! i = Some ci -> cs !! j = Some cj ->
          os !! i = Some oi -> os !! j = Some oj -> target ci = target cj -> is_ok oi = false -> is_ok oj = false)).
Proof.
  revert s h. induction cs as [|c cs IH]; intros s h; cbn [run_calls].
  { apply wp_ret. split; [by intros e He|]. exists []. by repeat split. }
  apply wp_bind, wp_attempt. wp_apply run_call_spec. intros o s1 h1 [Hg Ho]. apply wp_bind. wp_apply IH.
  intros o2 s2 h2 (Hg2 & os & -> & Hlen & Hknown & Hsticky). apply wp_ret.
  split; [intros e He; by apply Hg2, Hg|]. exists (o :: os). split; [done|]. split; [simpl; lia|]. split.
  - intros [|j] cj oj Hc Hoj Hk; simpl in *; simplify_eq; [by apply Ho, Hg|].
    eapply Hknown; [done|done|]. by apply Hg.
  - intros [|i] [|j] ci cj oi oj Hij Hci Hcj Hoi Hoj Ht Hf; simpl in *; simplify_eq; [done| |lia|].
    + eapply Hknown; [done|done|]. rewrite <- Ht. by apply Ho.
    + by eapply (Hsticky i j); [lia|..].
Qed.

(** A contradicted network stays blocked: in any sequence of node checks and signing guards,
    whatever the nodes answer, once a call for a chain id has been refused every later call for
    that chain id is refused too, even against another node or when the node becomes silent. *)
Theorem mismatch_is_sticky (e : env BindI) cs s os i j ci cj oi oj :
  outcome e (run_calls cs) s = Ok os -> (i <= j)%nat ->
  cs !! i = Some ci -> cs !! j = Some cj -> os !! i = Some oi -> os !! j = Some oj ->
  target ci = target cj -> is_ok oi = false -> is_ok oj = false.
Proof.
  intros Ho. pose proof (wp_post (fun _ _ => True) e _ s _ (run_calls_spec cs s [])) as (_ & os' & E & _ & _ & H).
  rewrite Ho in E. injection E as <-. apply H.
Qed.

(** A node that first reports another network and then falls silent. *)
Module BindingDemo.
Definition node : env BindI := fun h _ =>
  match h with [] => Ok (true, Ok (Some TESTNET_CHAIN_ID)) | _ => Err "unreachable" end.
Definition calls_made : list call_of :=
  [CheckNode (u "https://a") MAINNET_CHAIN_ID; CheckNode (u "https://b") MAINNET_CHAIN_ID; Assert MAINNET_CHAIN_ID].

Lemma mismatch_is_sticky_witness : is_ok (Err ChainIdMismatchError : res unit) = false.
Proof.
  apply (mismatch_is_sticky node calls_made {| mismatches := []; checks := [] |}
    [Err ChainIdMismatchError; Err ChainIdMismatchError; Err ChainIdMismatchError] 0 2
    (CheckNode (u "https://a") MAINNET_CHAIN_ID) (Assert MAINNET_CHAIN_ID) (Err ChainIdMismatchError));
    (lia || reflexivity).
Defined.
End BindingDemo.
