(* ===== verification/TxSigner.v ===== *)
(** * The transaction signer ([src/packages/core/src/pqc-signer.ts], with [token-minting.ts] and the
    network binding of [chain-id.ts])

    Signing and verifying a payload, and the functions that build the payload of each transaction
    type.  What the platform supplies to a call - the time, sixteen random bytes and the chain id of
    the selected network (an exception when the node contradicted it) - is the record [ctx].
    Callers are typed: an argument that TypeScript types as a string or number is one here. *)
From Stdlib Require Import SpecFloat.
From S2P Require Import Prelude JsText JsNum JsUtf16 JsFloat LosslessJson JsValue Finality Address MessageSigning ChainBinding.
Local Open Scope Z_scope.

Definition BURN_ADDRESS : units := u "XRGE_BURN_0x000000000000000000000000000000000000000000000000000000000000DEAD".

(** ** Bytes *)

(** [parseInt] of two characters, stored in a byte. *)
Definition hex_byte (s : units) : Z := match parseInt_radix 16 s with Some z => z mod 256 | None => 0 end.
Fixpoint hexToBytes (hex : units) : list Z :=
  match hex with a :: b :: r => hex_byte [a; b] :: hexToBytes r | _ => [] end.
Definition bytesToHex (bytes : list Z) : units := toHex bytes.

Record ctx := { cx_now : number; cx_random : list Z; cx_signing : res units }.

Definition generateNonce (cx : ctx) : units := bytesToHex (cx_random cx).

(** [SignedTransaction]. *)
Record SignedTx := { tx_payload : object; tx_signature : units; tx_public_key : units; tx_payload_bytes_hex : option units }.

(** [withChainId] of [chain-id.ts]: unlike the extension's, [null] is a different chain id. *)
Definition coreWithChainId (p : object) (chainId : units) : res object :=
  match prop "chainId" p with
  | JUndef => Ok (with_prop "chainId" (JStr chainId) p)
  | existing => if is_text existing chainId then Ok (with_prop "chainId" (JStr chainId) p) else Err "ChainIdMismatchError"
  end.

Section Signer.
Context `{C : Crypto} `{P : Platform} `{U : Unicode}.

Definition signTransaction (cx : ctx) (payload : object) (privateKey publicKey : units) : res SignedTx :=
  res_bind (cx_signing cx) (fun chainId =>
  res_bind (coreWithChainId payload chainId) (fun bound =>
  res_bind (ml_dsa65_sign (serializePayload bound) (hexToBytes privateKey)) (fun signature =>
  Ok {| tx_payload := bound; tx_signature := bytesToHex signature; tx_public_key := publicKey; tx_payload_bytes_hex := None |}))).

Definition verifyTransaction (t : SignedTx) : bool :=
  match ml_dsa65_verify (hexToBytes (tx_signature t)) (serializePayload (tx_payload t)) (hexToBytes (tx_public_key t)) with
  | Ok b => b
  | Err _ => false
  end.

(** ** Members of a payload *)

Definition field (k : string) (v : js) : units * js := (u k, v).
Definition text (s : string) : js := JStr (u s).
Definition opt_text (x : option units) : js := match x with Some s => JStr s | None => JUndef end.
Definition opt_num (x : option number) : js := match x with Some n => JNum n | None => JUndef end.
Definition texts (l : list units) : js := JArr (map JStr l).
(** [timestamp: Date.now(), nonce: generateNonce()]. *)
Definition stamp (cx : ctx) : object := [field "timestamp" (JNum (cx_now cx)); field "nonce" (JStr (generateNonce cx))].
(** [...(x ? { k: x } : {})] and [...(x !== undefined ? { k: x } : {})]. *)
Definition if_truthy (k : string) (x : option units) : object :=
  match x with Some (c :: t) => [field k (JStr (c :: t))] | _ => [] end.
Definition if_present (k : string) (x : option units) : object := match x with Some t => [field k (JStr t)] | None => [] end.

(** ** Token minting *)

Definition TOKEN_MINT_MAX_AMOUNT : number := num_of_Z 9007199254740991.
Definition TOKEN_MINT_FEE_XRGE : number := num_of_Z 1.
Record TokenMintOptions := { mo_mintable : option bool; mo_maxSupply : option number }.

Definition isWholeAmount (n : number) : bool := isSafeInteger n && num_ltb (num_of_Z 0) n.

Definition tokenMintFields (initialSupply : number) (opts : option TokenMintOptions) : res object :=
  let mintable := match opts with Some o => default false (mo_mintable o) | None => false end in
  let maxSupply := match opts with Some o => mo_maxSupply o | None => None end in
  if negb mintable then
    match maxSupply with Some _ => Err "max supply requires mintable" | None => Ok [] end
  else if negb (isWholeAmount initialSupply) || num_ltb TOKEN_MINT_MAX_AMOUNT initialSupply then
    Err "a mintable token's initial supply must be a positive integer"
  else
    match maxSupply with
    | None => Ok [field "mintable" (JBool true)]
    | Some cap =>
        if negb (isWholeAmount cap) || num_ltb TOKEN_MINT_MAX_AMOUNT cap then Err "max supply must be a positive integer"
        else if num_ltb cap initialSupply then Err "max supply is below the initial supply"
        else Ok [field "mintable" (JBool true); field "max_supply" (JNum cap)]
    end.

Definition assertMintAmount (amount : number) : res unit :=
  if negb (isWholeAmount amount) || num_ltb TOKEN_MINT_MAX_AMOUNT amount then Err "mint amount must be a positive integer" else Ok tt.
(** ** The transaction types *)

Definition createSignedTransfer (cx : ctx) (from priv to : units) (amount fee : number) (token : units) : res SignedTx :=
  signTransaction cx ([field "type" (text "transfer"); field "from" (JStr from); field "to" (JStr to); field "amount" (JNum amount);
    field "fee" (JNum fee); field "token" (JStr token)] ++ stamp cx) priv from.

Definition createSignedTokenCreation (cx : ctx) (creator priv name symbol : units) (initialSupply fee : number)
    (image description : option units) (mint : option TokenMintOptions) : res SignedTx :=
  res_bind (tokenMintFields initialSupply mint) (fun fields =>
  signTransaction cx ([field "type" (text "create_token"); field "from" (JStr creator); field "token_name" (JStr name);
    field "token_symbol" (JStr symbol); field "initial_supply" (JNum initialSupply); field "fee" (JNum fee)] ++ stamp cx
    ++ if_truthy "image" image ++ if_truthy "description" description ++ fields) priv creator).

Definition buildTokenMintPayload (cx : ctx) (creator tokenSymbol : units) (amount fee : number) : res object :=
  let symbol := toUpper (utrim tokenSymbol) in
  if bool_decide (symbol = []) then Err "token symbol is required" else
  res_bind (assertMintAmount amount) (fun _ =>
  Ok ([field "type" (text "mint_tokens"); field "from" (JStr creator); field "token_symbol" (JStr symbol); field "amount" (JNum amount);
    field "fee" (JNum fee)] ++ stamp cx)).

Definition createSignedTokenMint (cx : ctx) (creator priv tokenSymbol : units) (amount fee : number) : res SignedTx :=
  res_bind (buildTokenMintPayload cx creator tokenSymbol amount fee) (fun p => signTransaction cx p priv creator).

Definition createSignedTokenMetadataUpdate (cx : ctx) (pub priv symbol : units)
    (image description website twitter discord : option units) : res SignedTx :=
  signTransaction cx ([field "type" (text "update_token_metadata"); field "from" (JStr pub); field "token_symbol" (JStr symbol)] ++ stamp cx
    ++ if_present "image" image ++ if_present "description" description ++ if_present "website" website
    ++ if_present "twitter" twitter ++ if_present "discord" discord) priv pub.

Definition createSignedTokenMetadataClaim (cx : ctx) (pub priv symbol : units) : res SignedTx :=
  signTransaction cx ([field "type" (text "claim_token_metadata"); field "from" (JStr pub); field "token_symbol" (JStr symbol)] ++ stamp cx) priv pub.

Definition createSignedTokenApproval (cx : ctx) (owner priv spender symbol : units) (amount : number) : res SignedTx :=
  signTransaction cx ([field "type" (text "approve"); field "from" (JStr owner); field "spender" (JStr spender);
    field "token_symbol" (JStr symbol); field "amount" (JNum amount)] ++ stamp cx) priv owner.

Definition createSignedTokenTransferFrom (cx : ctx) (spender priv owner recipient symbol : units) (amount : number) : res SignedTx :=
  signTransaction cx ([field "type" (text "transfer_from"); field "from" (JStr spender); field "owner" (JStr owner); field "to" (JStr recipient);
    field "token_symbol" (JStr symbol); field "amount" (JNum amount)] ++ stamp cx) priv spender.

Definition createSignedSwap (cx : ctx) (from priv tokenIn tokenOut : units) (amountIn minAmountOut : number) : res SignedTx :=
  signTransaction cx ([field "type" (text "swap"); field "from" (JStr from); field "token_in" (JStr tokenIn); field "token_out" (JStr tokenOut);
    field "amount_in" (JNum amountIn); field "min_amount_out" (JNum minAmountOut)] ++ stamp cx) priv from.

Definition createSignedPoolCreation (cx : ctx) (creator priv tokenA tokenB : units) (amountA amountB : number) : res SignedTx :=
  signTransaction cx ([field "type" (text "create_pool"); field "from" (JStr creator); field "token_a" (JStr tokenA); field "token_b" (JStr tokenB);
    field "amount_a" (JNum amountA); field "amount_b" (JNum amountB)] ++ stamp cx) priv creator.

Definition createSignedAddLiquidity (cx : ctx) (from priv poolId : units) (amountA amountB : number) : res SignedTx :=
  signTransaction cx ([field "type" (text "add_liquidity"); field "from" (JStr from); field "pool_id" (JStr poolId);
    field "amount_a" (JNum amountA); field "amount_b" (JNum amountB)] ++ stamp cx) priv from.

Definition createSignedRemoveLiquidity (cx : ctx) (from priv poolId : units) (lpAmount : number) : res SignedTx :=
  signTransaction cx ([field "type" (text "remove_liquidity"); field "from" (JStr from); field "pool_id" (JStr poolId);
    field "lp_amount" (JNum lpAmount)] ++ stamp cx) priv from.

Definition createSignedStake (cx : ctx) (from priv : units) (amount fee : number) : res SignedTx :=
  signTransaction cx ([field "type" (text "stake"); field "from" (JStr from); field "amount" (JNum amount); field "fee" (JNum fee)] ++ stamp cx) priv from.

Definition createSignedUnstake (cx : ctx) (from priv : units) (amount fee : number) : res SignedTx :=
  signTransaction cx ([field "type" (text "unstake"); field "from" (JStr from); field "amount" (JNum amount); field "fee" (JNum fee)] ++ stamp cx) priv from.

Definition createSignedFaucetRequest (cx : ctx) (pub priv : units) : res SignedTx :=
  signTransaction cx ([field "type" (text "faucet"); field "from" (JStr pub)] ++ stamp cx) priv pub.

Definition createSignedBurn (cx : ctx) (from priv : units) (amount fee : number) (token : units) : res SignedTx :=
  signTransaction cx ([field "type" (text "transfer"); field "from" (JStr from); field "to" (JStr BURN_ADDRESS); field "amount" (JNum amount);
    field "fee" (JNum fee); field "token" (JStr token)] ++ stamp cx) priv from.

Definition createSignedNftCreateCollection (cx : ctx) (pub priv symbol name : units)
    (maxSupply royaltyBps : option number) (image description : option units) : res SignedTx :=
  signTransaction cx ([field "type" (text "nft_create_collection"); field "from" (JStr pub); field "symbol" (JStr symbol); field "name" (JStr name);
    field "fee" (JNum (num_of_Z 50)); field "maxSupply" (opt_num maxSupply); field "royaltyBps" (opt_num royaltyBps);
    field "image" (opt_text image); field "description" (opt_text description)] ++ stamp cx) priv pub.

Definition createSignedNftMint (cx : ctx) (pub priv collectionId name : units) (metadataUri : option units) (attributes : js) : res SignedTx :=
  signTransaction cx ([field "type" (text "nft_mint"); field "from" (JStr pub); field "collectionId" (JStr collectionId); field "name" (JStr name);
    field "fee" (JNum (num_of_Z 5)); field "metadataUri" (opt_text metadataUri); field "attributes" attributes] ++ stamp cx) priv pub.

Definition createSignedNftBatchMint (cx : ctx) (pub priv collectionId : units) (names : list units) (uris : option (list units))
    (attributes batchAttributes : js) : res SignedTx :=
  signTransaction cx ([field "type" (text "nft_batch_mint"); field "from" (JStr pub); field "collectionId" (JStr collectionId); field "names" (texts names);
    field "fee" (JNum (num_mul (num_of_Z 5) (num_of_Z (Z.of_nat (length names)))));
    field "uris" (match uris with Some l => texts l | None => JUndef end);
    field "attributes" (nullish attributes batchAttributes)] ++ stamp cx) priv pub.

Definition createSignedNftTransfer (cx : ctx) (pub priv collectionId : units) (tokenId : number) (to : units) (salePrice : option number)
    : res SignedTx :=
  signTransaction cx ([field "type" (text "nft_transfer"); field "from" (JStr pub); field "collectionId" (JStr collectionId);
    field "tokenId" (JNum tokenId); field "to" (JStr to); field "fee" (JNum (num_of_Z 1)); field "salePrice" (opt_num salePrice)] ++ stamp cx) priv pub.

(** [0.1]. *)
Definition TENTH : number := num_div (num_of_Z 1) (num_of_Z 10).

Definition createSignedNftBurn (cx : ctx) (pub priv collectionId : units) (tokenId : number) : res SignedTx :=
  signTransaction cx ([field "type" (text "nft_burn"); field "from" (JStr pub); field "collectionId" (JStr collectionId);
    field "tokenId" (JNum tokenId); field "fee" (JNum TENTH)] ++ stamp cx) priv pub.

Definition createSignedNftLock (cx : ctx) (pub priv collectionId : units) (tokenId : number) (locked : bool) : res SignedTx :=
  signTransaction cx ([field "type" (text "nft_lock"); field "from" (JStr pub); field "collectionId" (JStr collectionId);
    field "tokenId" (JNum tokenId); field "locked" (JBool locked); field "fee" (JNum TENTH)] ++ stamp cx) priv pub.

Definition createSignedNftFreezeCollection (cx : ctx) (pub priv collectionId : units) (frozen : bool) : res SignedTx :=
  signTransaction cx ([field "type" (text "nft_freeze_collection"); field "from" (JStr pub); field "collectionId" (JStr collectionId);
    field "frozen" (JBool frozen); field "fee" (JNum TENTH)] ++ stamp cx) priv pub.

Definition createSignedBridgeWithdraw (cx : ctx) (from priv : units) (amountUnits : number) (evmAddress tokenSymbol : units)
    (fee : number) (normalizeEvm : bool) : res SignedTx :=
  signTransaction cx ([field "type" (text "bridge_withdraw"); field "from" (JStr from); field "amount" (JNum amountUnits); field "fee" (JNum fee);
    field "tokenSymbol" (JStr tokenSymbol);
    field "evmAddress" (JStr (if normalizeEvm && negb (starts_0x evmAddress) then u "0x" ++ evmAddress else evmAddress))] ++ stamp cx) priv from.

Definition createSignedShield (cx : ctx) (pub priv : units) (amount : number) (commitment : units) : res SignedTx :=
  signTransaction cx ([field "type" (text "shield"); field "from" (JStr pub); field "amount" (JNum amount);
    field "commitment" (JStr commitment)] ++ stamp cx) priv pub.

Definition createSignedShieldedTransfer (cx : ctx) (pub priv : units) (nullifiers outputCommitments : list units) (proof : units)
    (fee : number) : res SignedTx :=
  signTransaction cx ([field "type" (text "shielded_transfer"); field "from" (JStr pub); field "nullifiers" (texts nullifiers);
    field "output_commitments" (texts outputCommitments); field "proof" (JStr proof); field "fee" (JNum fee)] ++ stamp cx) priv pub.

Definition createSignedUnshield (cx : ctx) (pub priv : units) (nullifiers : list units) (amount : number) (proof : units) : res SignedTx :=
  signTransaction cx ([field "type" (text "unshield"); field "from" (JStr pub); field "nullifiers" (texts nullifiers); field "amount" (JNum amount);
    field "proof" (JStr proof)] ++ stamp cx) priv pub.

Definition isBurnAddress (address : units) : bool := units_eqb address BURN_ADDRESS.

(** A call of one of the functions above, with the key pair it is called with. *)
Inductive request :=
| Transfer (to : units) (amount fee : number) (token : units)
| TokenCreation (name symbol : units) (initialSupply fee : number) (image description : option units) (mint : option TokenMintOptions)
| TokenMint (tokenSymbol : units) (amount fee : number)
| TokenMetadataUpdate (symbol : units) (image description website twitter discord : option units)
| TokenMetadataClaim (symbol : units)
| TokenApproval (spender symbol : units) (amount : number)
| TokenTransferFrom (owner recipient symbol : units) (amount : number)
| Swap (tokenIn tokenOut : units) (amountIn minAmountOut : number)
| PoolCreation (tokenA tokenB : units) (amountA amountB : number)
| AddLiquidity (poolId : units) (amountA amountB : number)
| RemoveLiquidity (poolId : units) (lpAmount : number)
| Stake (amount fee : number)
| Unstake (amount fee : number)
| FaucetRequest
| Burn (amount fee : number) (token : units)
| NftCreateCollection (symbol name : units) (maxSupply royaltyBps : option number) (image description : option units)
| NftMint (collectionId name : units) (metadataUri : option units) (attributes : js)
| NftBatchMint (collectionId : units) (names : list units) (uris : option (list units)) (attributes batchAttributes : js)
| NftTransfer (collectionId : units) (tokenId : number) (to : units) (salePrice : option number)
| NftBurn (collectionId : units) (tokenId : number)
| NftLock (collectionId : units) (tokenId : number) (locked : bool)
| NftFreezeCollection (collectionId : units) (frozen : bool)
| BridgeWithdraw (amountUnits : number) (evmAddress tokenSymbol : units) (fee : number) (normalizeEvm : bool)
| Shield (amount : number) (commitment : units)
| ShieldedTransfer (nullifiers outputCommitments : list units) (proof : units) (fee : number)
| Unshield (nullifiers : list units) (amount : number) (proof : units).

Definition create (cx : ctx) (pub priv : units) (r : request) : res SignedTx :=
  match r with
  | Transfer to a f t => createSignedTransfer cx pub priv to a f t
  | TokenCreation n s i f im d mi => createSignedTokenCreation cx pub priv n s i f im d mi
  | TokenMint s a f => createSignedTokenMint cx pub priv s a f
  | TokenMetadataUpdate s i d w t di => createSignedTokenMetadataUpdate cx pub priv s i d w t di
  | TokenMetadataClaim s => createSignedTokenMetadataClaim cx pub priv s
  | TokenApproval sp s a => createSignedTokenApproval cx pub priv sp s a
  | TokenTransferFrom o r s a => createSignedTokenTransferFrom cx pub priv o r s a
  | Swap i o a mo => createSignedSwap cx pub priv i o a mo
  | PoolCreation a b x y => createSignedPoolCreation cx pub priv a b x y
  | AddLiquidity p x y => createSignedAddLiquidity cx pub priv p x y
  | RemoveLiquidity p x => createSignedRemoveLiquidity cx pub priv p x
  | Stake a f => createSignedStake cx pub priv a f
  | Unstake a f => createSignedUnstake cx pub priv a f
  | FaucetRequest => createSignedFaucetRequest cx pub priv
  | Burn a f t => createSignedBurn cx pub priv a f t
  | NftCreateCollection s n ms ro i d => createSignedNftCreateCollection cx pub priv s n ms ro i d
  | NftMint c n mu a => createSignedNftMint cx pub priv c n mu a
  | NftBatchMint c ns us a b => createSignedNftBatchMint cx pub priv c ns us a b
  | NftTransfer c t to sp => createSignedNftTransfer cx pub priv c t to sp
  | NftBurn c t => createSignedNftBurn cx pub priv c t
  | NftLock c t l => createSignedNftLock cx pub priv c t l
  | NftFreezeCollection c f => createSignedNftFreezeCollection cx pub priv c f
  | BridgeWithdraw a e t f n => createSignedBridgeWithdraw cx pub priv a e t f n
  | Shield a c => createSignedShield cx pub priv a c
  | ShieldedTransfer n o p f => createSignedShieldedTransfer cx pub priv n o p f
  | Unshield n a p => createSignedUnshield cx pub priv n a p
  end.
End Signer.
