(* ===== verification/TxIssued.v ===== *)
(** * The members of a signed transaction

    What each transaction type writes into its payload, and that every signed transaction carries
    its request, account, time, nonce and network. *)
From Stdlib Require Import SpecFloat.
From S2P Require Import Prelude JsText JsNum JsUtf16 JsFloat LosslessJson JsValue Finality Address MessageSigning MessageClaims CanonicalJson ChainBinding TxSigner.
Local Open Scope Z_scope.

(** A finite number that its text determines. *)
Definition good_number (n : number) : bool :=
  isFinite n && num_text (number_text n) && bool_decide (Number_of_text (number_text n) = n).

(** A payload of well-formed values, not nested too deep. *)
Definition signable (p : object) : Prop :=
  wf_js (JObj p) /\ nesting (view p) <= 256
  /\ Forall (fun kv => match snd kv with JNum n => good_number n = true | _ => True end) p.

Section Commit.
Context `{C : Crypto} `{P : Platform} `{U : Unicode}.

(** Requests the node is meant to treat alike: burning is a transfer to the burn address, a minted
    symbol is trimmed and upper-cased, an empty image or description is none, [mintable: false] is
    none, an EVM address gets its prefix, and the deprecated attributes are a fallback. *)
Definition normal (r : request) : request :=
  match r with
  | Burn a f t => Transfer BURN_ADDRESS a f t
  | TokenMint s a f => TokenMint (toUpper (utrim s)) a f
  | TokenCreation n s i f im d mi =>
      let drop_empty x := match x with Some (c :: t) => Some (c :: t) | _ => None end in
      TokenCreation n s i f (drop_empty im) (drop_empty d)
        (match mi with Some {| mo_mintable := Some true; mo_maxSupply := c |} => Some {| mo_mintable := Some true; mo_maxSupply := c |}
                     | _ => None end)
  | BridgeWithdraw a e t f n => BridgeWithdraw a (if n && negb (starts_0x e) then u "0x" ++ e else e) t f false
  | NftBatchMint c ns us a b => NftBatchMint c ns us (nullish a b) JUndef
  | _ => r
  end.

(** Free-form attributes are compared as JSON. *)
Definition req_eq (r r' : request) : Prop :=
  match r, r' with
  | NftMint c n mu a, NftMint c' n' mu' a' => c = c' /\ n = n' /\ mu = mu' /\ option_Forall2 json_eq (jsonView a) (jsonView a')
  | NftBatchMint c ns us a b, NftBatchMint c' ns' us' a' b' =>
      c = c' /\ ns = ns' /\ us = us' /\ option_Forall2 json_eq (jsonView a) (jsonView a') /\ b = b'
  | _, _ => r = r'
  end.

(** ** Reading members off equal bytes *)

Definition shown (v w : js) : Prop := option_Forall2 json_eq (jsonView v) (jsonView w).

Lemma shown_str s s' : shown (JStr s) (JStr s') -> s = s'.
Proof. unfold shown. cbn. intros H. inversion H as [? ? E|]; subst. by inversion E. Qed.

Lemma shown_bool b b' : shown (JBool b) (JBool b') -> b = b'.
Proof. unfold shown. cbn. intros H. inversion H as [? ? E|]; subst. by inversion E. Qed.

Lemma shown_num n n' : good_number n = true -> good_number n' = true -> shown (JNum n) (JNum n') -> n = n'.
Proof.
  unfold good_number. rewrite !andb_true_iff, !bool_decide_eq_true. intros [[Hf _] Hn] [[Hf' _] Hn'].
  unfold shown. cbn. rewrite Hf, Hf'. intros H. inversion H as [? ? E|]; subst. inversion E as [| | |raw Ea Eb| |].
  rewrite <- Hn, <- Hn'. congruence.
Qed.

Lemma shown_opt_text x x' : shown (opt_text x) (opt_text x') -> x = x'.
Proof. destruct x, x'; cbn [opt_text]; [intros ->%shown_str; done|intros H; inversion H..|done]. Qed.

Lemma shown_opt_num x x' : (forall n, x = Some n -> good_number n = true) -> (forall n, x' = Some n -> good_number n = true) ->
  shown (opt_num x) (opt_num x') -> x = x'.
Proof.
  intros G G'. destruct x, x'; cbn [opt_num]; [intros H; f_equal; apply shown_num; auto|intros H; inversion H..|done].
Qed.

Lemma shown_texts l l' : shown (texts l) (texts l') -> l = l'.
Proof.
  unfold shown, texts. cbn. rewrite !map_map. intros H. inversion H as [? ? E|]; subst. inversion E as [| | | |? ? F|]; subst.
  clear H E. revert l' F. induction l as [|s l IH]; intros [|s' l'] F; inversion F as [|? ? ? ? E F']; subst; [done|].
  cbn in E. inversion E. subst. f_equal. by apply IH.
Qed.

(** A text against no text, and the like. *)
Lemma shown_undef v : shown JUndef v -> jsonView v = None.
Proof. unfold shown. cbn. intros H. by inversion H. Qed.

(** ** Signing *)

Lemma sign_inv cx p sk pk t : prop "chainId" p = JUndef -> signTransaction cx p sk pk = Ok t ->
  exists c sig, cx_signing cx = Ok c /\ tx_payload t = with_prop "chainId" (JStr c) p
    /\ ml_dsa65_sign (serializePayload (tx_payload t)) (hexToBytes sk) = Ok sig
    /\ tx_signature t = bytesToHex sig /\ tx_public_key t = pk.
Proof.
  intros Hu. unfold signTransaction. destruct (cx_signing cx) as [c|]; [|done]. cbn [res_bind].
  unfold coreWithChainId. rewrite Hu. cbn [res_bind]. destruct (ml_dsa65_sign _ _) as [sig|] eqn:E; [|done].
  cbn [res_bind]. intros [= <-]. exists c, sig. done.
Qed.

Definition good_member (p : object) : Prop := forall k n, prop k p = JNum n -> good_number n = true.

Lemma signable_member p : signable p -> good_member p.
Proof.
  intros (Hw & _ & Hg) k n H. apply wf_js_obj in Hw as [Hn _]. unfold prop in H.
  destruct (oget (u k) p) as [v|] eqn:E; [|done]. cbn in H. subst v. apply oget_in in E; [|done].
  rewrite Forall_elem in Hg. apply (Hg _ E).
Qed.

Definition tag (r : request) : string :=
  match r with
  | Transfer _ _ _ _ | Burn _ _ _ => "transfer" | TokenCreation _ _ _ _ _ _ _ => "create_token" | TokenMint _ _ _ => "mint_tokens"
  | TokenMetadataUpdate _ _ _ _ _ _ => "update_token_metadata" | TokenMetadataClaim _ => "claim_token_metadata"
  | TokenApproval _ _ _ => "approve" | TokenTransferFrom _ _ _ _ => "transfer_from" | Swap _ _ _ _ => "swap"
  | PoolCreation _ _ _ _ => "create_pool" | AddLiquidity _ _ _ => "add_liquidity" | RemoveLiquidity _ _ => "remove_liquidity"
  | Stake _ _ => "stake" | Unstake _ _ => "unstake" | FaucetRequest => "faucet"
  | NftCreateCollection _ _ _ _ _ _ => "nft_create_collection" | NftMint _ _ _ _ => "nft_mint"
  | NftBatchMint _ _ _ _ _ => "nft_batch_mint" | NftTransfer _ _ _ _ => "nft_transfer" | NftBurn _ _ => "nft_burn"
  | NftLock _ _ _ => "nft_lock" | NftFreezeCollection _ _ => "nft_freeze_collection" | BridgeWithdraw _ _ _ _ _ => "bridge_withdraw"
  | Shield _ _ => "shield" | ShieldedTransfer _ _ _ _ => "shielded_transfer" | Unshield _ _ _ => "unshield"
  end.

(** The members that carry a (normal) request. *)
Definition says (p : object) (r : request) : Prop :=
  let str k x := prop k p = JStr x in
  let num k x := prop k p = JNum x in
  match r with
  | Transfer to a f t => str "to" to /\ num "amount" a /\ num "fee" f /\ str "token" t
  | TokenCreation n s i f im d mi => str "token_name" n /\ str "token_symbol" s /\ num "initial_supply" i /\ num "fee" f
      /\ prop "image" p = opt_text im /\ prop "description" p = opt_text d
      /\ prop "mintable" p = (match mi with Some _ => JBool true | None => JUndef end)
      /\ prop "max_supply" p = (match mi with Some o => opt_num (mo_maxSupply o) | None => JUndef end)
      /\ (forall o, mi = Some o -> mo_mintable o = Some true)
  | TokenMint s a f => str "token_symbol" s /\ num "amount" a /\ num "fee" f
  | TokenMetadataUpdate s i d w t di => str "token_symbol" s /\ prop "image" p = opt_text i /\ prop "description" p = opt_text d
      /\ prop "website" p = opt_text w /\ prop "twitter" p = opt_text t /\ prop "discord" p = opt_text di
  | TokenMetadataClaim s => str "token_symbol" s
  | TokenApproval sp s a => str "spender" sp /\ str "token_symbol" s /\ num "amount" a
  | TokenTransferFrom o r s a => str "owner" o /\ str "to" r /\ str "token_symbol" s /\ num "amount" a
  | Swap i o a mo => str "token_in" i /\ str "token_out" o /\ num "amount_in" a /\ num "min_amount_out" mo
  | PoolCreation a b x y => str "token_a" a /\ str "token_b" b /\ num "amount_a" x /\ num "amount_b" y
  | AddLiquidity q x y => str "pool_id" q /\ num "amount_a" x /\ num "amount_b" y
  | RemoveLiquidity q x => str "pool_id" q /\ num "lp_amount" x
  | Stake a f | Unstake a f => num "amount" a /\ num "fee" f
  | FaucetRequest => True
  | Burn a f t => False
  | NftCreateCollection s n ms ro i d => str "symbol" s /\ str "name" n /\ prop "maxSupply" p = opt_num ms
      /\ prop "royaltyBps" p = opt_num ro /\ prop "image" p = opt_text i /\ prop "description" p = opt_text d
  | NftMint c n mu a => str "collectionId" c /\ str "name" n /\ prop "metadataUri" p = opt_text mu /\ prop "attributes" p = a
  | NftBatchMint c ns us a b => str "collectionId" c /\ prop "names" p = texts ns
      /\ prop "uris" p = (match us with Some l => texts l | None => JUndef end) /\ prop "attributes" p = a /\ b = JUndef
  | NftTransfer c t to sp => str "collectionId" c /\ num "tokenId" t /\ str "to" to /\ prop "salePrice" p = opt_num sp
  | NftBurn c t => str "collectionId" c /\ num "tokenId" t
  | NftLock c t l => str "collectionId" c /\ num "tokenId" t /\ prop "locked" p = JBool l
  | NftFreezeCollection c f => str "collectionId" c /\ prop "frozen" p = JBool f
  | BridgeWithdraw a e t f n => num "amount" a /\ str "evmAddress" e /\ str "tokenSymbol" t /\ num "fee" f /\ n = false
  | Shield a c => num "amount" a /\ str "commitment" c
  | ShieldedTransfer n o q f => prop "nullifiers" p = texts n /\ prop "output_commitments" p = texts o /\ str "proof" q /\ num "fee" f
  | Unshield n a q => prop "nullifiers" p = texts n /\ num "amount" a /\ str "proof" q
  end.

(** What every signed transaction has. *)
Record issued (cx : ctx) (pub sk : units) (r : request) (t : SignedTx) : Prop := {
  is_type : prop "type" (tx_payload t) = text (tag r);
  is_from : prop "from" (tx_payload t) = JStr pub;
  is_time : prop "timestamp" (tx_payload t) = JNum (cx_now cx);
  is_nonce : prop "nonce" (tx_payload t) = JStr (generateNonce cx);
  is_chain : exists c, cx_signing cx = Ok c /\ prop "chainId" (tx_payload t) = JStr c;
  is_signed : exists sig, ml_dsa65_sign (serializePayload (tx_payload t)) (hexToBytes sk) = Ok sig /\ tx_signature t = bytesToHex sig;
  is_key : tx_public_key t = pub;
  is_said : says (tx_payload t) (normal r);
}.

Ltac member := vm_compute; reflexivity.

Ltac issue := intros (c & sig & Hc & Hp & Hs & Ht & Hk)%sign_inv; [|member];
  (split; [rewrite Hp; member..|exists c; rewrite Hp; split; [done|member]|by exists sig|done|rewrite Hp; cbn [normal says]; repeat split; try member]).

Lemma create_issued cx pub sk r t : create cx pub sk r = Ok t -> issued cx pub sk r t.
Proof.
  destruct r; cbn [create].
  - unfold createSignedTransfer. issue.
  - unfold createSignedTokenCreation.
    destruct (tokenMintFields initialSupply mint) as [fs|] eqn:E; [|done]. cbn [res_bind].
    assert (exists mi, fs = (match mi with Some None => [field "mintable" (JBool true)]
       | Some (Some c) => [field "mintable" (JBool true); field "max_supply" (JNum c)] | None => [] end) /\
      (match mint with Some {| mo_mintable := Some true; mo_maxSupply := c |} => Some {| mo_mintable := Some true; mo_maxSupply := c |}
         | _ => None end) = (fun c => {| mo_mintable := Some true; mo_maxSupply := c |}) <$> mi) as (mi & -> & Em).
    { unfold tokenMintFields in E. destruct mint as [[[[]|] mx]|]; cbn [default negb mo_mintable mo_maxSupply] in E; cbv zeta in E.
      - destruct (negb _ || _); [done|]. exists (Some mx). destruct mx as [cap|]; [|by injection E as <-].
        destruct (negb _ || _); [done|]. destruct (num_ltb _ _); [done|]. by injection E as <-.
      - exists None. destruct mx; [done|]. by injection E as <-.
      - exists None. destruct mx; [done|]. by injection E as <-.
      - exists None. by injection E as <-. }
    destruct image as [[|]|], description as [[|]|], mi as [[|]|]; issue; rewrite Em; try member; by intros o [= <-].
  - unfold createSignedTokenMint, buildTokenMintPayload. cbv zeta. case_bool_decide; [done|].
    destruct (assertMintAmount amount); [|done]. cbn [res_bind]. issue.
  - unfold createSignedTokenMetadataUpdate. destruct image, description, website, twitter, discord; issue.
  - unfold createSignedTokenMetadataClaim. issue.
  - unfold createSignedTokenApproval. issue.
  - unfold createSignedTokenTransferFrom. issue.
  - unfold createSignedSwap. issue.
  - unfold createSignedPoolCreation. issue.
  - unfold createSignedAddLiquidity. issue.
  - unfold createSignedRemoveLiquidity. issue.
  - unfold createSignedStake. issue.
  - unfold createSignedUnstake. issue.
  - unfold createSignedFaucetRequest. issue.
  - unfold createSignedBurn. issue.
  - unfold createSignedNftCreateCollection. issue.
  - unfold createSignedNftMint. issue.
  - unfold createSignedNftBatchMint. issue.
  - unfold createSignedNftTransfer. issue.
  - unfold createSignedNftBurn. issue.
  - unfold createSignedNftLock. issue.
  - unfold createSignedNftFreezeCollection. issue.
  - unfold createSignedBridgeWithdraw. issue.
  - unfold createSignedShield. issue.
  - unfold createSignedShieldedTransfer. issue.
  - unfold createSignedUnshield. issue.
Qed.

End Commit.
