(* ===== verification/TxSignerClaims.v ===== *)
(** * What a transaction signature commits to

    Two transactions with the same signed bytes are the same request of the same account on the
    same network; a signed transaction verifies. *)
From Stdlib Require Import SpecFloat.
From S2P Require Import Prelude JsText JsNum JsUtf16 JsFloat LosslessJson JsValue Finality Address MessageSigning MessageClaims CanonicalJson ChainBinding TxSigner TxIssued FinalityDemo.
Local Open Scope Z_scope.

Section Commit.
Context `{C : Crypto} `{P : Platform} `{U : Unicode}.

(** ** Requests read off equal bytes *)

Section Same.
Variables p q : object.
Hypothesis Hp : signable p.
Hypothesis Hq : signable q.
Hypothesis Hb : serializePayload p = serializePayload q.

Lemma same_shown k : u k <> u "__proto__" -> shown (prop k p) (prop k q).
Proof. destruct Hp as (? & ? & _), Hq as (? & ? & _). intros Hk. apply signed_member; [done..|]. by apply same_bytes_view. Qed.

Lemma same_str k x y : u k <> u "__proto__" -> prop k p = JStr x -> prop k q = JStr y -> x = y.
Proof. intros Hk Ex Ey. apply shown_str. rewrite <- Ex, <- Ey. by apply same_shown. Qed.

Lemma same_bool k x y : u k <> u "__proto__" -> prop k p = JBool x -> prop k q = JBool y -> x = y.
Proof. intros Hk Ex Ey. apply shown_bool. rewrite <- Ex, <- Ey. by apply same_shown. Qed.

Lemma same_num k x y : u k <> u "__proto__" -> prop k p = JNum x -> prop k q = JNum y -> x = y.
Proof.
  intros Hk Ex Ey. apply shown_num; [by eapply (signable_member p)|by eapply (signable_member q)|]. rewrite <- Ex, <- Ey. by apply same_shown.
Qed.

Lemma same_opt_text k x y : u k <> u "__proto__" -> prop k p = opt_text x -> prop k q = opt_text y -> x = y.
Proof. intros Hk Ex Ey. apply shown_opt_text. rewrite <- Ex, <- Ey. by apply same_shown. Qed.

Lemma same_opt_num k x y : u k <> u "__proto__" -> prop k p = opt_num x -> prop k q = opt_num y -> x = y.
Proof.
  intros Hk Ex Ey. apply shown_opt_num; [intros n ->; by eapply (signable_member p)|intros n ->; by eapply (signable_member q)|]. rewrite <- Ex, <- Ey. by apply same_shown.
Qed.

Lemma same_texts k x y : u k <> u "__proto__" -> prop k p = texts x -> prop k q = texts y -> x = y.
Proof. intros Hk Ex Ey. apply shown_texts. rewrite <- Ex, <- Ey. by apply same_shown. Qed.

Lemma same_opt_texts k x y : u k <> u "__proto__" ->
  prop k p = (match x with Some l => texts l | None => JUndef end) ->
  prop k q = (match y with Some l => texts l | None => JUndef end) -> x = y.
Proof.
  intros Hk Ex Ey. destruct x, y; [f_equal; by eapply same_texts| | |done];
    pose proof (same_shown k Hk) as H; rewrite Ex, Ey in H; inversion H.
Qed.

(** Minting options differ in the bytes when they differ. *)
Lemma same_mint x y :
  prop "mintable" p = (match x with Some _ => JBool true | None => JUndef end) ->
  prop "max_supply" p = (match x with Some o => opt_num (mo_maxSupply o) | None => JUndef end) ->
  (forall o, x = Some o -> mo_mintable o = Some true) ->
  prop "mintable" q = (match y with Some _ => JBool true | None => JUndef end) ->
  prop "max_supply" q = (match y with Some o => opt_num (mo_maxSupply o) | None => JUndef end) ->
  (forall o, y = Some o -> mo_mintable o = Some true) -> x = y.
Proof.
  intros Ex Fx Gx Ey Fy Gy. pose proof (same_shown "mintable" ltac:(done)) as H. rewrite Ex, Ey in H.
  destruct x as [[a b]|], y as [[c d]|]; [|inversion H..|done]. f_equal.
  pose proof (Gx _ eq_refl) as Ga. pose proof (Gy _ eq_refl) as Gc. cbn in Ga, Gc, Fx, Fy. subst. f_equal.
  by eapply (same_opt_num "max_supply").
Qed.

Ltac same := match goal with
  | |- _ = _ => first
    [ eapply same_str; [|eassumption|eassumption]; discriminate
    | eapply same_num; [|eassumption|eassumption]; discriminate
    | eapply same_bool; [|eassumption|eassumption]; discriminate
    | eapply same_opt_text; [|eassumption|eassumption]; discriminate
    | eapply same_opt_num; [|eassumption|eassumption]; discriminate
    | eapply same_texts; [|eassumption|eassumption]; discriminate
    | eapply same_opt_texts; [|eassumption|eassumption]; discriminate
    | eapply same_mint; eassumption ]
  end.

Lemma says_same r r' : tag r = tag r' -> says p r -> says q r' -> req_eq r r'.
Proof.
  destruct r; destruct r'; cbn [tag says req_eq]; intros Ht; try discriminate Ht; try done; intros S S'; destruct_and?; subst.
  all: try (f_equal; same).
  all: repeat split; first [same|by apply same_shown].
Qed.
End Same.

Lemma tag_normal r : tag (normal r) = tag r.
Proof. by destruct r. Qed.

Lemma u_inj a b : u a = u b -> a = b.
Proof.
  intros E. apply chars_inj. revert E. unfold u. generalize (chars a) (chars b).
  induction l as [|x l IH]; intros [|y l']; [done..|]. cbn [map]. unfold code at 1 3. intros [= E%Nat2Z.inj F]. f_equal; [|by apply IH].
  by rewrite <- (ascii_nat_embedding x), E, ascii_nat_embedding.
Qed.


(** ** Verification *)

Lemma hexToBytes_toHex b : Forall (fun x => 0 <= x < 256) b -> hexToBytes (toHex b) = b.
Proof.
  assert (forallb (fun x => hex_byte [hexd (x / 16); hexd (x mod 16)] =? x) (seqZ 0 256) = true) as Ha by (vm_compute; reflexivity).
  rewrite forallb_forall in Ha. induction 1 as [|x b Hx _ IH]; [done|]. cbn [toHex flat_map app hexToBytes]. unfold toHex in IH.
  rewrite IH. f_equal. apply Z.eqb_eq, Ha. apply list_elem_of_In, elem_of_seqZ. lia.
Qed.

(** A signed transaction verifies, in whatever order its members arrive.  When the two keys are a
    pair - what is signed with the private key verifies with the public one - a transaction that
    one of the signing functions returns passes [verifyTransaction], and so does every copy with the
    same signature whose payload has the same members with equal values, in any order. *)
Theorem signed_transaction_verifies cx pub sk r t q :
  (forall m sig, ml_dsa65_sign m (hexToBytes sk) = Ok sig ->
     Forall (fun x => 0 <= x < 256) sig /\ ml_dsa65_verify sig m (hexToBytes pub) = Ok true) ->
  create cx pub sk r = Ok t -> wf_js (JObj (tx_payload t)) -> wf_js (JObj q) -> json_eq (view (tx_payload t)) (view q) ->
  verifyTransaction t = true
  /\ verifyTransaction {| tx_payload := q; tx_signature := tx_signature t; tx_public_key := tx_public_key t;
       tx_payload_bytes_hex := tx_payload_bytes_hex t |} = true.
Proof.
  intros Hk [_ _ _ _ _ (sig & Es & Et) Ek _]%create_issued Hp Hq He. apply Hk in Es as [Hb Hv].
  unfold verifyTransaction. cbn [tx_payload tx_signature tx_public_key]. rewrite Et, Ek. unfold bytesToHex.
  rewrite hexToBytes_toHex by done. split; [by rewrite Hv|].
  assert (serializePayload q = serializePayload (tx_payload t)) as ->; [|by rewrite Hv].
  apply serialize_text; [done..|]. rewrite !payload_text_view by done. f_equal. symmetry. apply deep_sort_eq; [by apply view_wfb..|done].
Qed.
End Commit.

(** ** On concrete data *)

Module SignerDemo.
Import FinDemo AddressDemo.

#[export] Instance ShortPlatform : Platform :=
  {| date_parse := fun s => num_of_Z (digits_val s); url_host := Ok; ml_dsa65_sign := fun m sk => Ok [FinDemo.tag sk m] |}.

Definition cx : ctx := {| cx_now := num_of_Z 1790000000000; cx_random := repeat 171 16; cx_signing := Ok (u "rougechain-devnet-1") |}.
Definition pair : units := toHex [1; 2; 3].
Definition send : request := Transfer (u "bob") (num_of_Z 25) TENTH (u "XRGE").
Definition burn : request := Burn (num_of_Z 25) TENTH (u "XRGE").
Definition signed (r : request) : SignedTx :=
  match create cx pair pair r with Ok t => t | Err _ => {| tx_payload := []; tx_signature := []; tx_public_key := []; tx_payload_bytes_hex := None |} end.

(** A payload whose members come in another order. *)
Definition shuffled : object := reverse (tx_payload (signed send)).

Example shuffled_text : payload_text shuffled = payload_text (tx_payload (signed send)) /\ shuffled <> tx_payload (signed send).
Proof. split; [vm_compute; reflexivity|]. intros E. by vm_compute in E. Qed.

(** A checker for payloads of texts and numbers. *)
Definition unit_texts (s : units) : bool := forallb (fun c => (0 <=? c) && (c <? 65536)) s.
Definition plain (v : js) : bool := match v with JNum n => good_number n | JStr s => unit_texts s | _ => false end.

Lemma unit_texts_ok s : unit_texts s = true -> Forall is_unit s.
Proof. unfold unit_texts. rewrite forallb_forall, Forall_forall. intros H x Hx%list_elem_of_In. apply H in Hx. unfold is_unit. lia. Qed.

Lemma plain_signable p : bool_decide (NoDup (map fst p)) && forallb (fun kv => unit_texts (fst kv) && plain (snd kv)) p
    && (nesting (view p) <=? 256) = true -> signable p.
Proof.
  rewrite !andb_true_iff, bool_decide_eq_true, forallb_forall. intros [[Hn Ha] Hd]. split; [|split; [lia|]].
  - apply wf_js_obj. split; [done|]. apply Forall_forall. intros [k v] Hk%list_elem_of_In. apply Ha in Hk. cbn [fst snd] in *.
    apply andb_true_iff in Hk as [Hk Hv]. split; [by apply unit_texts_ok|]. destruct v; try done; cbn in *; [|by apply unit_texts_ok].
    unfold good_number in Hv. rewrite !andb_true_iff in Hv. by destruct Hv as [[_ ?] _].
  - apply Forall_forall. intros [k v] Hk%list_elem_of_In. apply Ha in Hk. cbn [fst snd] in *. apply andb_true_iff in Hk as [_ Hv]. by destruct v.
Qed.


Lemma signed_transaction_verifies_witness :
  verifyTransaction (signed send) = true
  /\ verifyTransaction {| tx_payload := shuffled; tx_signature := tx_signature (signed send); tx_public_key := tx_public_key (signed send);
       tx_payload_bytes_hex := tx_payload_bytes_hex (signed send) |} = true.
Proof.
  apply (signed_transaction_verifies cx pair pair send (signed send)).
  - intros m sig [= <-]. split.
    + constructor; [|done].
      unfold FinDemo.tag. match goal with |- context [?a `mod` 251] => pose proof (Z.mod_pos_bound a 251 ltac:(done)) end. lia.
    + cbn [ml_dsa65_verify ToyCrypto]. f_equal. by apply bool_decide_eq_true.
  - vm_compute; reflexivity.
  - apply plain_signable; vm_compute; reflexivity.
  - apply plain_signable; vm_compute; reflexivity.
  - apply same_bytes_view; [apply plain_signable; vm_compute; reflexivity..|vm_compute; discriminate|vm_compute; discriminate|vm_compute; reflexivity].
Defined.


(** Keys that are array indices are printed first, in ascending order, whatever [sort] did: not the
    order of the keys' texts, in which ["10"] comes before ["9"]. *)
Example index_keys_unsorted :
  payload_text [field "b" JNull; field "10" JNull; field "9" JNull] = stringifyLossless (LObj [(u "9", LNull); (u "10", LNull); (u "b", LNull)])
  /\ units_leb (u "10") (u "9") = true.
Proof. split; vm_compute; reflexivity. Qed.

(** A member named [__proto__] (an own member of a parsed document) is not in the signed bytes. *)
Example proto_not_signed :
  serializePayload [field "amount" (text "1"); field "__proto__" (text "2")] = serializePayload [field "amount" (text "1")].
Proof. vm_compute; reflexivity. Qed.
End SignerDemo.
