(* ===== verification/SignRequest.v ===== *)
(** * What a site asks the wallet to sign ([src/apps/extension/src/lib/contract-tx.ts], [sign-request.ts])

    The contract payloads a site may ask for, what the approval screen derives from them, and the
    preparation of a request before the user is asked.  The current time and a fresh UUID are
    arguments.  A page's message arrives as JSON, so its values are those of [js]. *)
From Stdlib Require Import SpecFloat.
From S2P Require Import Prelude JsText JsNum JsUtf16 JsFloat LosslessJson JsValue BridgeInput EvmCalldata Finality ChainBinding.
Local Open Scope Z_scope.

(** ** Contract payloads *)

Definition CONTRACT_MAX_GAS : Z := 10000000.
(** [0.000001]. *)
Definition CONTRACT_GAS_PRICE_XRGE : number := num_div (num_of_Z 1) (num_of_Z 1000000).
Definition CONTRACT_DEPLOY_FEE_XRGE : number := num_of_Z 10.
Definition ARGS_DISPLAY_LIMIT : nat := Z.to_nat 8000.
Definition QUANTA_PER_XRGE : Z := 1000000000.
Definition QUANTA_PER_GAS : Z := 1000.

Inductive ContractTxType := contract_call | contract_deploy.

Record Attach := { at_symbol : units; at_amount : number }.
Record AttachShown := { as_symbol : units; as_amount : number; as_display : units }.

Record ContractCallDetails := {
  cd_contractAddr : units; cd_method : units; cd_argsPretty : units; cd_argsTruncated : bool; cd_argsBytes : Z;
  cd_gasLimit : number; cd_gasLimitDefaulted : bool; cd_maxFeeXrge : number; cd_attach : option AttachShown; cd_maxTotalXrge : units;
}.
Record ContractDeployDetails := {
  dd_wasmSize : Z; dd_codeHash : units; dd_nonce : units; dd_predictedAddress : units; dd_feeXrge : number;
}.
Inductive ContractTxDetails := CallDetails (d : ContractCallDetails) | DeployDetails (d : ContractDeployDetails).

(** [toLocaleString("en-US")] of an integer: digits in groups of three. *)
Fixpoint commas (n : nat) (reversed : units) : units :=
  match reversed with
  | [] => []
  | c :: r => if (n =? 3)%nat then 44 :: c :: commas 1 r else c :: commas (S n) r
  end.
Definition toLocaleInt (z : Z) : units := rev (commas 0 (rev (udec z))).

Definition formatQuanta (quanta : Z) : units :=
  let whole := Z.quot quanta QUANTA_PER_XRGE in
  let frac := trim_zeros (padStart 9 (udec (Z.rem quanta QUANTA_PER_XRGE))) in
  toLocaleInt whole ++ (if bool_decide (frac = []) then [] else 46 :: frac).

(** [/^[A-Z0-9_-]{1,32}$/]. *)
Definition symbol_unit (c : Z) : bool := ((65 <=? c) && (c <=? 90)) || is_dec c || (c =? 95) || (c =? 45).
Definition symbol_text (s : units) : bool := forallb symbol_unit s && (1 <=? length s)%nat && (length s <=? 32)%nat.

Section Contracts.
Context `{C : Crypto} `{U : Unicode}.

Definition parseAttach (v : js) : res (option Attach) :=
  match v with
  | JUndef | JNull => Ok None
  | JObj a =>
      let symbol := match prop "symbol" a with JStr s => toUpper (utrim s) | _ => [] end in
      if negb (symbol_text symbol) then Err "attach.symbol must be a token symbol" else
      match prop "amount" a with
      | JNum n => if negb (isSafeInteger n) || num_nonpos n then Err "attach.amount must be a positive integer"
                  else Ok (Some {| at_symbol := symbol; at_amount := n |})
      | _ => Err "attach.amount must be a positive integer"
      end
  | _ => Err "attach must be { symbol, amount }"
  end.

Definition contractTxType (t : js) : option ContractTxType :=
  match t with
  | JStr s => if units_eqb s (u "contract_call") then Some contract_call
              else if units_eqb s (u "contract_deploy") then Some contract_deploy else None
  | _ => None
  end.
Definition isContractTxType (t : js) : bool := match contractTxType t with Some _ => true | None => false end.

(** ** Base64 *)

Definition B64 : units := u "ABCDEFGHIJKLMNOPQRSTUVWXYZabcdefghijklmnopqrstuvwxyz0123456789+/".
(** [B64.indexOf(c)]; only called on characters of the alphabet. *)
Fixpoint index_of (c : Z) (i : Z) (l : units) : Z :=
  match l with [] => -1 | x :: r => if x =? c then i else index_of c (i + 1) r end.
Definition b64_digit (c : Z) : Z := if c =? 61 then 0 else index_of c 0 B64.
Definition b64_unit (c : Z) : bool := 0 <=? index_of c 0 B64.

(** The length of the padding when the text is padded Base64. *)
Fixpoint b64_body (l : units) : option nat :=
  match l with
  | [] => Some 0%nat
  | c :: r => if b64_unit c then b64_body r
              else if units_eqb l [61] then Some 1%nat else if units_eqb l [61; 61] then Some 2%nat else None
  end.

Fixpoint b64_groups (l : units) : list Z :=
  match l with
  | a :: b :: c :: d :: r =>
      let n := Z.lor (Z.lor (Z.shiftl (b64_digit a) 18) (Z.shiftl (b64_digit b) 12))
                     (Z.lor (Z.shiftl (b64_digit c) 6) (b64_digit d)) in
      Z.land (Z.shiftr n 16) 255 :: Z.land (Z.shiftr n 8) 255 :: Z.land n 255 :: b64_groups r
  | _ => []
  end.

Definition base64ToBytes (b64 : units) : res (list Z) :=
  match b64_body b64 with
  | Some pad => if (length b64 mod 4 =? 0)%nat then Ok (take (length b64 / 4 * 3 - pad) (b64_groups b64)) else Err "wasm must be standard base64"
  | None => Err "wasm must be standard base64"
  end.

Definition predictContractAddress (from nonce : units) (wasm : list Z) : units :=
  toHex (take 20 (sha256 (utf8 (u "rougechain/contract/v2") ++ utf8 from ++ [0] ++ utf8 nonce ++ [0] ++ sha256 wasm))).

(** ** The details shown *)

(** [JSON.stringify(v, null, 2)]. *)
Definition spaces (n : nat) : units := repeat 32 n.
Definition lines_of (n : nat) (op cl : Z) (l : list units) : units :=
  match l with
  | [] => [op; cl]
  | x :: r => op :: 10 :: spaces (n + 2) ++ x ++ flat_map (fun y => 44 :: 10 :: spaces (n + 2) ++ y) r ++ 10 :: spaces n ++ [cl]
  end.
Fixpoint pretty (n : nat) (v : LosslessJson) : units :=
  match v with
  | LArr l => lines_of n 91 93 (map (pretty (n + 2)) l)
  | LObj o => lines_of n 123 125 (map (fun kv => json_quote (fst kv) ++ u ": " ++ snd kv)
                (own_members (map (fun kv => (fst kv, pretty (n + 2) (snd kv))) o)))
  | _ => stringifyLossless v
  end.
Definition JSON_pretty (v : js) : units := match toJson v with Some x => pretty 0 x | None => u "undefined" end.

(** [BigInt] of a number already known to be an integer. *)
Definition int_of (n : number) : Z := default 0 (BigInt_of_number n).

(** [g !== undefined && (typeof g !== "number" || ...)]; the bounds compare the value of an integer. *)
Definition gas_limit (g : js) : res (number * bool) :=
  match g with
  | JUndef => Ok (num_of_Z CONTRACT_MAX_GAS, true)
  | JNum n =>
      match num_int n with
      | Some z => if (z <? 1) || (CONTRACT_MAX_GAS <? z) then Err "gasLimit must be an integer in range" else Ok (n, false)
      | None => Err "gasLimit must be an integer in range"
      end
  | _ => Err "gasLimit must be an integer in range"
  end.

Definition show_attach (a : Attach) : AttachShown :=
  {| as_symbol := at_symbol a; as_amount := at_amount a;
     as_display := if units_eqb (at_symbol a) (u "XRGE") then formatQuanta (int_of (at_amount a)) else toLocaleInt (int_of (at_amount a)) |}.

Definition analyze_call (payload : object) : res ContractCallDetails :=
  match prop "contractAddr" payload with
  | JStr (x :: contractAddr) =>
      match prop "method" payload with
      | JStr (y :: method) =>
          res_bind (gas_limit (prop "gasLimit" payload)) (fun g =>
          let args := match prop "args" payload with JUndef => JNull | v => v end in
          let shown := match args with JNull => u "{}" | v => JSON_pretty v end in
          let argsBytes := Z.of_nat (length (utf8 (default [] (JSON_stringify (nullish args (JObj [])))))) in
          let truncated := (ARGS_DISPLAY_LIMIT <? length shown)%nat in
          res_bind (parseAttach (prop "attach" payload)) (fun a =>
          let pay := match a with Some t => if units_eqb (at_symbol t) (u "XRGE") then int_of (at_amount t) else 0 | None => 0 end in
          Ok {| cd_contractAddr := x :: contractAddr; cd_method := y :: method;
                cd_argsPretty := if truncated then take ARGS_DISPLAY_LIMIT shown else shown; cd_argsTruncated := truncated;
                cd_argsBytes := argsBytes; cd_gasLimit := fst g; cd_gasLimitDefaulted := snd g;
                cd_maxFeeXrge := num_mul (fst g) CONTRACT_GAS_PRICE_XRGE; cd_attach := show_attach <$> a;
                cd_maxTotalXrge := formatQuanta (int_of (fst g) * QUANTA_PER_GAS + pay) |}))
      | _ => Err "contract_call needs method"
      end
  | _ => Err "contract_call needs contractAddr"
  end.

Definition analyze_deploy (payload : object) (signer : units) : res ContractDeployDetails :=
  match prop "wasm" payload with
  | JStr (x :: r) =>
      match prop "nonce" payload with
      | JStr nonce =>
          if (length nonce <? 8)%nat then Err "contract_deploy needs a nonce of at least 8 characters" else
          res_bind (base64ToBytes (x :: r)) (fun wasm =>
          if bool_decide (wasm = []) then Err "wasm is empty" else
          Ok {| dd_wasmSize := Z.of_nat (length wasm); dd_codeHash := toHex (sha256 wasm); dd_nonce := nonce;
                dd_predictedAddress := predictContractAddress signer nonce wasm; dd_feeXrge := CONTRACT_DEPLOY_FEE_XRGE |})
      | _ => Err "contract_deploy needs a nonce of at least 8 characters"
      end
  | _ => Err "contract_deploy needs wasm (base64)"
  end.

Definition analyzeContractPayload (payload : object) (signer : units) : res ContractTxDetails :=
  let refused := match prop "from" payload with JUndef => false | v => negb (is_text v signer) end in
  if refused then Err "payload.from is not this wallet's signing key" else
  match contractTxType (prop "type" payload) with
  | Some contract_call => res_bind (analyze_call payload) (fun d => Ok (CallDetails d))
  | Some contract_deploy => res_bind (analyze_deploy payload signer) (fun d => Ok (DeployDetails d))
  | None => Err "not a contract transaction"
  end.

(** The payload parked for the popup, without the raw WASM. *)
Definition payloadForDisplay (payload : object) (details : option ContractTxDetails) : object :=
  match details with
  | Some (DeployDetails d) =>
      with_prop "wasm" (JStr (u "<" ++ udec (dd_wasmSize d) ++ u " bytes of WASM, sha256 " ++ take 16 (dd_codeHash d) ++ [8230] ++ u ">")) payload
  | _ => payload
  end.

Definition contractEndpoint (t : ContractTxType) : units :=
  match t with contract_call => u "/v2/contract/execute" | contract_deploy => u "/v2/contract/publish" end.

(** ** Preparation of a request *)

Record PreparedSignRequest := { ps_payload : object; ps_details : option ContractTxDetails; ps_network : NetworkReview }.

(** The envelope [{ payload, serializedHex }]. *)
Definition envelope (raw : object) : option (object * units) :=
  match prop "payload" raw, prop "serializedHex" raw with
  | JObj p, JStr h => Some (p, h)
  | _, _ => None
  end.

(** [{ ...review, chainId: selectedChainId, name: review.selectedName, missing: false }]. *)
Definition now_bound (review : NetworkReview) (selectedChainId : units) : NetworkReview :=
  {| nr_chainId := Some selectedChainId; nr_name := nr_selectedName review; nr_selectedChainId := nr_selectedChainId review;
     nr_selectedName := nr_selectedName review; nr_missing := false |}.

Definition prepareSignRequest (raw : object) (signer selectedChainId : units) (now : number) (uuid : units) : res PreparedSignRequest :=
  let env := envelope raw in
  let payload := match env with Some (p, _) => p | None => raw end in
  let tampered := match env with Some (p, h) => negb (units_eqb (toLower h) (toHex (serializePayload p))) | None => false end in
  if tampered then Err "serializedHex does not match the payload" else
  res_bind (reviewPayloadChainId payload selectedChainId) (fun review =>
  let fill := match env with Some _ => false | None => nr_missing review end in
  let payload := if fill then with_prop "chainId" (JStr selectedChainId) payload else payload in
  let network := if fill then now_bound review selectedChainId else review in
  if negb (isContractTxType (prop "type" payload)) then Ok {| ps_payload := payload; ps_details := None; ps_network := network |} else
  let payload := match env with
    | Some _ => payload
    | None => with_prop "nonce" (nullish (prop "nonce" payload) (JStr uuid))
               (with_prop "timestamp" (nullish (prop "timestamp" payload) (JNum now))
               (with_prop "from" (nullish (prop "from" payload) (JStr signer)) payload))
    end in
  res_bind (analyzeContractPayload payload signer) (fun d =>
  Ok {| ps_payload := payload; ps_details := Some d; ps_network := network |})).

Definition bindSendPayload (payload : object) (selectedChainId : units) : res (object * NetworkReview) :=
  res_bind (reviewPayloadChainId payload selectedChainId) (fun review =>
  Ok (with_prop "chainId" (JStr selectedChainId) payload, now_bound review selectedChainId)).
End Contracts.
