(* ===== verification/SignRequestClaims.v ===== *)
(** * What the approval screen says of a request

    The amounts shown are exact, the details shown of a contract payload are those of the payload,
    and preparing a request changes nothing but the members that may be filled in. *)
From Stdlib Require Import SpecFloat.
From S2P Require Import Prelude JsText JsNum JsUtf16 JsFloat JsExact LosslessJson JsValue BridgeInput EvmCalldata Finality FinalityDemo Address CanonicalJson ChainBinding SignRequest.
Local Open Scope Z_scope.

(** ** Amounts *)

Definition ungrouped (t : units) : units := List.filter (fun c => negb (c =? 44)) t.

Lemma ungrouped_app a b : ungrouped (a ++ b) = ungrouped a ++ ungrouped b.
Proof. apply List.filter_app. Qed.

Lemma ungrouped_digits l : all_dec l -> ungrouped l = l.
Proof.
  unfold all_dec. induction l as [|c l IH]; [done|]. cbn. intros [Hc Hl]%andb_true_iff. unfold is_dec in Hc.
  rewrite (proj2 (Z.eqb_neq c 44)) by lia. cbn. f_equal. by apply IH.
Qed.

Lemma ungrouped_commas n l : all_dec l -> ungrouped (commas n l) = l.
Proof.
  unfold all_dec. revert n. induction l as [|c l IH]; intros n; [done|]. cbn [forallb commas]. intros [Hc Hl]%andb_true_iff. unfold is_dec in Hc.
  assert (c <> 44) as E%Z.eqb_neq by lia. destruct (n =? 3)%nat; cbn; rewrite E; cbn; f_equal; by apply IH.
Qed.

Lemma ungrouped_rev l : ungrouped (rev l) = rev (ungrouped l).
Proof. apply List.filter_rev. Qed.

Lemma all_dec_rev l : all_dec l -> all_dec (rev l).
Proof. unfold all_dec. rewrite !forallb_forall. intros H x Hx. apply H. by apply in_rev. Qed.

Lemma ungrouped_int z : 0 <= z -> ungrouped (toLocaleInt z) = udec z.
Proof.
  intros Hz. unfold toLocaleInt. rewrite ungrouped_rev, ungrouped_commas by (apply all_dec_rev; by apply all_dec_udec).
  apply rev_involutive.
Qed.

Lemma ungrouped_quanta q : 0 <= q -> ungrouped (formatQuanta q) = formatUnits q 9.
Proof.
  intros Hq. unfold formatQuanta, formatUnits, padStart, QUANTA_PER_XRGE. cbn [Nat.eqb]. change (10 ^ Z.of_nat 9) with 1000000000.
  rewrite Z.quot_div_nonneg, Z.rem_mod_nonneg, Z.abs_eq by lia. destruct (Z.ltb_spec q 0); [lia|]. cbv zeta. cbn [app].
  pose proof (Z.mod_pos_bound q 1000000000 ltac:(lia)) as Hm. rewrite ungrouped_app, ungrouped_int by (apply Z.div_pos; lia). f_equal.
  match goal with |- context [trim_zeros ?x] => set (full := x) end. case_bool_decide; [done|]. change (46 :: trim_zeros full) with ([46] ++ trim_zeros full).
  rewrite ungrouped_app. f_equal. apply ungrouped_digits.
  assert (all_dec full) as Hd by (apply all_dec_app; split; [apply all_dec_repeat|apply all_dec_udec; lia]).
  destruct (trim_zeros_eq full) as [k Hk]. rewrite Hk in Hd. by apply all_dec_app in Hd as [? _].
Qed.

(** The amounts the approval screen shows are exact. *)
Lemma shown_quanta_exact q : 0 < q -> parse_units (ungrouped (formatQuanta q)) 9 = Ok q.
Proof. intros Hq. rewrite ungrouped_quanta by lia. by apply amount_roundtrip. Qed.

Lemma shown_int_exact z : 0 < z -> parse_units (ungrouped (toLocaleInt z)) 0 = Ok z.
Proof. intros Hz. rewrite ungrouped_int by lia. by apply (amount_roundtrip z 0). Qed.

(** ** Members *)

Lemma prop_with k k' v p : prop k (with_prop k' v p) = if units_eqb (u k) (u k') then v else prop k p.
Proof. unfold prop, with_prop. rewrite oget_oset. by destruct (units_eqb _ _). Qed.

(** Reading back a member written under the same or another name. *)
Ltac members := rewrite ?prop_with; repeat match goal with |- context [units_eqb (u ?a) (u ?b)] =>
  let b' := eval vm_compute in (units_eqb (u a) (u b)) in change (units_eqb (u a) (u b)) with b' end; cbn match.

(** All members but those named are as before. *)
Definition kept (ks : list string) (p q : object) : Prop := forall k, k ∉ map u ks -> oget k q = oget k p.

Lemma kept_with k v ks p q : k ∈ ks -> kept ks p q -> kept ks p (with_prop k v q).
Proof.
  intros Hk Hq x Hx. unfold with_prop. rewrite oget_oset. unfold units_eqb. rewrite bool_decide_false; [by apply Hq|].
  intros ->. apply Hx. apply list_elem_of_In, in_map. by apply list_elem_of_In.
Qed.

Lemma kept_refl ks p : kept ks p p.
Proof. by intros k _. Qed.

Lemma review_spec p sel v : reviewPayloadChainId p sel = Ok v ->
  nr_selectedChainId v = sel /\
  ((prop "chainId" p = JUndef \/ prop "chainId" p = JNull) /\ nr_missing v = true
   \/ prop "chainId" p = JStr sel /\ nr_missing v = false /\ nr_chainId v = Some sel).
Proof.
  unfold reviewPayloadChainId. cbv zeta. destruct (prop "chainId" p) as [| | | |s| |]; try done.
  1,2: intros [= <-]; by split; [|left; auto].
  case_bool_decide; [done|]. destruct (units_eqb s sel) eqn:E; [|done]. apply units_eqb_true in E as ->. cbn [negb].
  intros [= <-]. by split; [|right].
Qed.

(** ** Details *)

Section Details.
Context `{C : Crypto} `{U : Unicode}.

(** What is shown of the payment attached to a call, and its part in the total. *)
Inductive attach_shown : js -> option AttachShown -> Z -> Prop :=
| attach_none v : v = JUndef \/ v = JNull -> attach_shown v None 0
| attach_some a s amount z d : prop "symbol" a = JStr s -> symbol_text (toUpper (utrim s)) = true ->
    prop "amount" a = JNum amount -> num_int amount = Some z -> 0 < z <= MAX_SAFE_INTEGER ->
    parse_units (ungrouped d) (if units_eqb (toUpper (utrim s)) (u "XRGE") then 9 else 0) = Ok z ->
    attach_shown (JObj a) (Some {| as_symbol := toUpper (utrim s); as_amount := amount; as_display := d |})
      (if units_eqb (toUpper (utrim s)) (u "XRGE") then z else 0).

(** The details are those of the payload. *)
Inductive truthful (p : object) (signer : units) : ContractTxDetails -> Prop :=
| truthful_call d gas pay :
    prop "contractAddr" p = JStr (cd_contractAddr d) -> prop "method" p = JStr (cd_method d) ->
    num_int (cd_gasLimit d) = Some gas -> 1 <= gas <= CONTRACT_MAX_GAS ->
    (prop "gasLimit" p = if cd_gasLimitDefaulted d then JUndef else JNum (cd_gasLimit d)) ->
    (cd_gasLimitDefaulted d = true -> gas = CONTRACT_MAX_GAS) ->
    attach_shown (prop "attach" p) (cd_attach d) pay ->
    parse_units (ungrouped (cd_maxTotalXrge d)) 9 = Ok (gas * QUANTA_PER_GAS + pay) ->
    (cd_argsTruncated d = false -> cd_argsPretty d = match prop "args" p with JUndef | JNull => u "{}" | v => JSON_pretty v end) ->
    truthful p signer (CallDetails d)
| truthful_deploy d b64 wasm :
    prop "wasm" p = JStr b64 -> base64ToBytes b64 = Ok wasm -> wasm <> [] -> prop "nonce" p = JStr (dd_nonce d) ->
    dd_wasmSize d = Z.of_nat (length wasm) -> dd_codeHash d = toHex (sha256 wasm) ->
    dd_predictedAddress d = predictContractAddress signer (dd_nonce d) wasm ->
    truthful p signer (DeployDetails d).

Lemma parseAttach_shown v a : parseAttach v = Ok a ->
  exists pay, 0 <= pay /\ attach_shown v (show_attach <$> a) pay
    /\ pay = match a with Some t => if units_eqb (at_symbol t) (u "XRGE") then int_of (at_amount t) else 0 | None => 0 end.
Proof.
  unfold parseAttach. destruct v as [| |b|n|s|l|o]; try done.
  1,2: intros [= <-]; exists 0; split; [lia|]; split; [constructor; by auto|done].
  destruct (prop "symbol" o) as [| |b|n|s|l|o'] eqn:Es; try done. destruct (negb (symbol_text _)) eqn:Et; [done|]. apply negb_false_iff in Et.
  destruct (prop "amount" o) as [| |b|n| | |] eqn:Ea; try done. destruct (_ || _) eqn:Ec; [done|].
  apply orb_false_iff in Ec as [Hs%negb_false_iff Hp]. intros [= <-]. destruct (safe_positive n Hs Hp) as (z & Hz & Hb).
  cbn [fmap option_fmap option_map show_attach at_symbol at_amount]. unfold int_of. rewrite Hz. cbn [default].
  eexists. split; [|split; [eapply attach_some; try done|reflexivity]].
  - destruct (units_eqb _ _); lia.
  - unfold show_attach, int_of. cbn [at_symbol at_amount]. rewrite Hz. cbn [default].
    destruct (units_eqb _ _); [apply shown_quanta_exact|apply shown_int_exact]; lia.
Qed.

Lemma gas_limit_spec v g : gas_limit v = Ok g -> exists z, num_int (fst g) = Some z /\ 1 <= z <= CONTRACT_MAX_GAS
  /\ (v = if snd g then JUndef else JNum (fst g)) /\ (snd g = true -> z = CONTRACT_MAX_GAS).
Proof.
  unfold gas_limit. destruct v as [| | |n| | |]; try done.
  - intros [= <-]. exists CONTRACT_MAX_GAS. split; [vm_compute; reflexivity|]. unfold CONTRACT_MAX_GAS. repeat split; lia.
  - destruct (num_int n) as [z|] eqn:E; [|done]. destruct (_ || _) eqn:Eb; [done|]. intros [= <-]. exists z.
    apply orb_false_iff in Eb as [? ?]. repeat split; [done|lia|lia|done].
Qed.

Lemma analyze_call_spec p d : analyze_call p = Ok d -> forall signer, truthful p signer (CallDetails d).
Proof.
  unfold analyze_call. destruct (prop "contractAddr" p) as [| | | |[|x a]| |] eqn:Ea; try done.
  destruct (prop "method" p) as [| | | |[|y m]| |] eqn:Em; try done.
  destruct (gas_limit _) as [g|] eqn:Eg; [|done]. cbn [res_bind]. cbv zeta.
  destruct (parseAttach _) as [t|] eqn:Et; [|done]. cbn [res_bind]. intros [= <-] signer.
  destruct (gas_limit_spec _ _ Eg) as (z & Hz & Hr & Hg & Hd). destruct (parseAttach_shown _ _ Et) as (pay & Hp & Hs & Hv).
  eapply truthful_call with (gas := z) (pay := pay); try done.
  - cbn [cd_maxTotalXrge]. rewrite <- Hv. unfold int_of, BigInt_of_number. rewrite Hz. cbn [default]. apply shown_quanta_exact. unfold QUANTA_PER_GAS. lia.
  - cbn [cd_argsTruncated cd_argsPretty]. intros ->. by destruct (prop "args" p).
Qed.

Lemma analyze_spec p signer d : analyzeContractPayload p signer = Ok d ->
  truthful p signer d /\ (prop "from" p = JUndef \/ prop "from" p = JStr signer).
Proof.
  unfold analyzeContractPayload. cbv zeta. intros H.
  assert (prop "from" p = JUndef \/ prop "from" p = JStr signer) as Hf.
  { destruct (prop "from" p) as [| | | |s| |]; try done; [by left|]. cbn [is_text] in H.
    destruct (units_eqb s signer) eqn:E; [|done]. apply units_eqb_true in E as ->. by right. }
  split; [|done]. destruct (match prop "from" p with JUndef => false | _ => _ end); [done|].
  destruct (contractTxType _) as [[]|]; [| |done].
  - destruct (analyze_call p) as [c|] eqn:E; [|done]. injection H as <-. by apply analyze_call_spec.
  - unfold analyze_deploy in H. destruct (prop "wasm" p) as [| | | |[|x w]| |] eqn:Ew; try done.
    destruct (prop "nonce" p) as [| | | |nonce| |] eqn:En; try done. destruct (length nonce <? 8)%nat; [done|].
    destruct (base64ToBytes _) as [wasm|] eqn:Eb; [|done]. cbn [res_bind] in H. case_bool_decide; [done|]. injection H as <-.
    by eapply truthful_deploy.
Qed.
(** What a prepared request is made of. *)
Definition completed (raw p : object) (signer : units) (now : number) (uuid : units) : Prop :=
  if isContractTxType (prop "type" raw) then
    kept ["chainId"; "from"; "timestamp"; "nonce"] raw p
    /\ prop "from" p = nullish (prop "from" raw) (JStr signer)
    /\ prop "timestamp" p = nullish (prop "timestamp" raw) (JNum now) /\ prop "nonce" p = nullish (prop "nonce" raw) (JStr uuid)
  else kept ["chainId"] raw p.

(** For which network the request is, and whether the user is told. *)
Definition network_shown (p : object) (sel : units) (n : NetworkReview) : Prop :=
  nr_selectedChainId n = sel /\
  if nr_missing n then prop "chainId" p = JUndef \/ prop "chainId" p = JNull else prop "chainId" p = JStr sel /\ nr_chainId n = Some sel.

Definition details_shown (p : object) (signer : units) (d : option ContractTxDetails) : Prop :=
  match d with
  | Some d => isContractTxType (prop "type" p) = true /\ truthful p signer d /\ (prop "from" p = JUndef \/ prop "from" p = JStr signer)
  | None => isContractTxType (prop "type" p) = false
  end.

Lemma prepared_spec raw signer sel now uuid r :
  prepareSignRequest raw signer sel now uuid = Ok r ->
  match envelope raw with
  | Some (p, h) => ps_payload r = p /\ toLower h = toHex (serializePayload p)
  | None => completed raw (ps_payload r) signer now uuid /\ nr_missing (ps_network r) = false
  end
  /\ network_shown (ps_payload r) sel (ps_network r) /\ details_shown (ps_payload r) signer (ps_details r).
Proof.
  unfold prepareSignRequest. cbv zeta. destruct (envelope raw) as [[q h]|] eqn:Ee.
  - destruct (units_eqb (toLower h) _) eqn:Eh; [|done]. apply units_eqb_true in Eh. cbn [negb].
    destruct (reviewPayloadChainId q sel) as [v|] eqn:Ev; [|done]. cbn [res_bind]. destruct (review_spec _ _ _ Ev) as [Hs Hm].
    assert (network_shown q sel v) as Hn.
    { split; [done|]. by destruct Hm as [[? ->]|(? & -> & ?)]. }
    destruct (isContractTxType _) eqn:Et; cbn [negb]; [|intros [= <-]; done].
    destruct (analyzeContractPayload q signer) as [d|] eqn:Ed; [|done]. intros [= <-]. destruct (analyze_spec _ _ _ Ed). done.
  - destruct (reviewPayloadChainId raw sel) as [v|] eqn:Ev; [|done]. cbn [res_bind]. destruct (review_spec _ _ _ Ev) as [Hs Hm].
    set (p := if nr_missing v then _ else _). set (n := if nr_missing v then _ else _).
    assert (kept ["chainId"] raw p /\ network_shown p sel n /\ nr_missing n = false) as (Hk & Hn & Hmi).
    { subst p n. unfold network_shown. destruct Hm as [[? Em]|(? & Em & ?)]; rewrite Em; cbn match; [|rewrite ?Em; by split; [apply kept_refl|]].
      split; [apply kept_with; [by left|apply kept_refl]|]. cbn. members. done. }
    clearbody p n.
    assert (prop "type" p = prop "type" raw) as Ht.
    { unfold prop. rewrite Hk; [done|]. intros [E|E]%elem_of_cons; [discriminate E|by apply elem_of_nil in E]. }
    unfold completed. rewrite <- Ht. destruct (isContractTxType (prop "type" p)) eqn:Et; cbn [negb]; [|intros [= <-]; by cbn].
    set (q := with_prop "nonce" _ _). destruct (analyzeContractPayload q signer) as [d|] eqn:Ed; [|done]. cbn [res_bind].
    intros [= <-]. cbn [ps_payload ps_network ps_details]. destruct (analyze_spec _ _ _ Ed).
    assert (forall k, k ∈ ["from"; "timestamp"; "nonce"] -> prop k p = prop k raw) as Hsame.
    { intros k Hin. unfold prop. rewrite Hk; [done|]. rewrite !elem_of_cons in Hin.
      intros [E|E]%elem_of_cons; [|by apply elem_of_nil in E]. destruct Hin as [->|[->|[->|?%elem_of_nil]]]; done. }
    split; [split; [|done]|].
    + split.
      * do 3 (apply kept_with; [set_solver|]). intros k Hin. apply Hk. intros [->|?%elem_of_nil]%elem_of_cons; [|done]. apply Hin. by left.
      * subst q. members. rewrite !Hsame by set_solver. done.
    + split.
      * destruct Hn as [? Hn]. split; [done|]. rewrite Hmi in *. subst q. by members.
      * cbn [details_shown]. split; [subst q; by members|done].
Qed.

(** The user is asked about the very payload that is signed.  When [prepareSignRequest] accepts a
    request, then for an envelope the payload is the one in it and the bytes in it are exactly the
    canonical bytes of that payload; otherwise the payload is what the site sent, with only a missing
    chain id and, for a contract payload, a missing sender, time and nonce filled in.  The payload
    is for the selected network, or names none and is flagged as such (envelopes only).  For a contract
    payload what the screen shows - the contract, method, arguments, gas, attached payment, total in
    exact decimals, or the size, hash and address of the code - is what the payload says, and its
    sender is the wallet. *)
Theorem prepared_faithful raw signer sel now uuid r :
  prepareSignRequest raw signer sel now uuid = Ok r ->
  match envelope raw with
  | Some (p, h) => ps_payload r = p /\ toLower h = toHex (serializePayload p)
  | None => completed raw (ps_payload r) signer now uuid /\ nr_missing (ps_network r) = false
  end
  /\ network_shown (ps_payload r) sel (ps_network r) /\ details_shown (ps_payload r) signer (ps_details r).
Proof. apply prepared_spec. Qed.
End Details.

(** ** On concrete data *)

Module RequestDemo.
Import FinDemo AddressDemo.

Definition member (k : string) (v : js) : units * js := (u k, v).
Definition call_raw : object :=
  [member "type" (JStr (u "contract_call")); member "contractAddr" (JStr (u "c0ffee")); member "method" (JStr (u "buy"));
   member "args" (JObj [member "seat" (JNum (num_of_Z 7))]); member "gasLimit" (JNum (num_of_Z 250000));
   member "attach" (JObj [member "symbol" (JStr (u " xrge ")); member "amount" (JNum (num_of_Z 1500000000))])].

Definition prepared_call : res PreparedSignRequest :=
  prepareSignRequest call_raw (u "abcd") TESTNET_CHAIN_ID (num_of_Z 1790000000000) (u "0f8fad5b-d9cb-469f-a165-70867728950e").

(** The total is the gas and the attached payment. *)
Example call_total : match prepared_call with
  | Ok {| ps_details := Some (CallDetails d) |} => (cd_maxTotalXrge d, as_symbol <$> cd_attach d) | _ => ([], None) end
  = (u "1.75", Some (u "XRGE")).
Proof. vm_compute. reflexivity. Qed.

Lemma prepared_faithful_witness : exists r, prepared_call = Ok r /\ network_shown (ps_payload r) TESTNET_CHAIN_ID (ps_network r)
  /\ details_shown (ps_payload r) (u "abcd") (ps_details r).
Proof.
  assert (exists r, prepared_call = Ok r) as [r Hr] by (eexists; vm_compute; reflexivity). exists r. split; [exact Hr|].
  apply (prepared_faithful call_raw _ _ _ _ r Hr).
Defined.

(** Bytes that are not those of the payload are refused. *)
Example tampered_bytes : prepareSignRequest [member "payload" (JObj [member "amount" (JNum (num_of_Z 1))]); member "serializedHex" (JStr (toHex [1]))]
  (u "abcd") TESTNET_CHAIN_ID (num_of_Z 0) [] = Err "serializedHex does not match the payload".
Proof. vm_compute. reflexivity. Qed.

Example base64_example : base64ToBytes (u "AGFzbQ==") = Ok [0; 97; 115; 109].
Proof. vm_compute. reflexivity. Qed.
End RequestDemo.
