(* ===== verification/WalletWorker.v ===== *)
(** * The background of the wallet extension: requests of RougeChain sites
    ([src/apps/extension/src/background/service-worker.ts])

    The storage helpers, the approval window, the origin of a request and the handler of
    [rougechain-request] messages.  Storage, the clock, random ids, the approval of the user and
    HTTP are commands; stored documents arrive as [JSON.parse] returns them ([None]: nothing stored,
    an error: not JSON).  The network check of [chain-binding.ts] is wired in with its session. *)
From Stdlib Require Import SpecFloat.
From S2P Require Import Prelude JsText JsNum JsUtf16 JsFloat LosslessJson JsValue Interact Address Finality MessageSigning ChainBinding TxSigner SignRequest.
Local Open Scope Z_scope.

(** ** Stored data *)

(** The unlocked wallet; [None] is a missing member. *)
Record UnifiedWallet := {
  w_id : units; w_signingPublicKey : option units; w_signingPrivateKey : option units;
  w_encryptionPublicKey : option units; w_mnemonic : option units;
}.
Record ConnectedSite := { cs_origin : units; cs_connectedAt : number }.

(** ** The world *)

Inductive approval_type := ApConnect | ApSign | ApSignMessage | ApSend | ApEvmConnect | ApEvmPersonalSign | ApEvmSend.

(** What the approval window reads from session storage. *)
Inductive screen :=
| ShowOrigin
| ShowPayload (p : object) (details : option ContractTxDetails) (network : option NetworkReview)
| ShowMessage (r : SignMessageReview).

Record approval := { ap_id : units; ap_type : approval_type; ap_origin : units; ap_screen : screen }.

(** A response: [ok], [status] and what [json()] gives. *)
Record http := { h_ok : bool; h_status : Z; h_json : res js }.

(** The JSON body of a signed request. *)
Record SignedBody := { sb_payload : object; sb_signature : units; sb_public_key : units; sb_bytes_hex : option units }.

Inductive wk_cmd :=
| SessionWallet | LocalWallet
| LocalSites | SaveSites (l : list ConnectedSite)
| LocalNetwork | LocalConfig
| AskApproval (a : approval)
| HttpGet (url : units) | HttpPost (url : units) (b : SignedBody)
| NodeChainId (c : bind_cmd)
| DateNow | RandomUUID
| LocalEvmChain | SaveEvmChain (n : Z)
| LocalOrigins | SaveOrigins (l : list units)
| EmitEvm (tab : Z) (event : string) (data : js)
| RpcPost (url : units) (id : Z) (method : units) (params : list js).

Record worker := { wk_session : session; approvalCounter : Z; rpcId : Z }.

Definition wk_ans (c : wk_cmd) : Type :=
  match c with
  | SessionWallet | LocalWallet => option (res UnifiedWallet)
  | LocalSites => option (res (list ConnectedSite))
  | LocalOrigins => option (res (list units))
  | SaveSites _ | SaveOrigins _ | SaveEvmChain _ | EmitEvm _ _ _ => unit
  | LocalNetwork => option units
  | LocalConfig => (option units * option units)%type
  | AskApproval _ => bool
  | HttpGet _ | HttpPost _ _ | RpcPost _ _ _ _ => http
  | NodeChainId c => ans BindI c
  | DateNow | LocalEvmChain => number
  | RandomUUID => units
  end.
Definition WorkerI : iface := {| st := worker; cmd := wk_cmd; ans := wk_ans |}.

Definition ask (c : wk_cmd) : prog WorkerI (wk_ans c) := @call WorkerI c.

Local Open Scope prog_scope.

(** ** Storage helpers *)

(** The session area first, then the local one. *)
Definition readUnifiedWalletRaw : prog WorkerI (option (res UnifiedWallet)) :=
  let! s := ask SessionWallet in
  match s with Some w => Ret (Some w) | None => ask LocalWallet end.

(** A text that is there and not empty. *)
Definition present (x : option units) : option units := match x with Some (c :: r) => Some (c :: r) | _ => None end.

Definition getWalletData : prog WorkerI (option (units * units)) :=
  let! raw := readUnifiedWalletRaw in
  Ret (match raw with
       | Some (Ok w) => match present (w_signingPublicKey w), present (w_signingPrivateKey w) with
                        | Some pk, Some sk => Some (pk, sk) | _, _ => None end
       | _ => None
       end).

Definition getConnectedSites : prog WorkerI (list ConnectedSite) :=
  let! raw := ask LocalSites in
  Ret (match raw with Some (Ok l) => l | _ => [] end).

Definition saveConnectedSites (sites : list ConnectedSite) : prog WorkerI unit := ask (SaveSites sites).

Definition is_testnet (v : option units) : bool := match v with Some s => units_eqb s (u "testnet") | None => false end.
Definition network_of (v : option units) : NetworkType := if is_testnet v then Testnet else Mainnet.

Definition getSelectedNetwork : prog WorkerI NetworkType :=
  let! v := ask LocalNetwork in Ret (network_of v).

(** [url.replace(/\/+$/, "")] and [endsWith("/api")]. *)
Fixpoint drop_slashes (reversed : units) : units :=
  match reversed with c :: r => if c =? 47 then drop_slashes r else reversed | [] => [] end.
Definition strip_slashes (s : units) : units := rev (drop_slashes (rev s)).
Definition ends_api (s : units) : bool := units_eqb (take 4 (rev s)) (rev (u "/api")).

Definition api_base (config : option units * option units) : units :=
  match present (fst config) with
  | Some custom => let url := strip_slashes custom in if ends_api url then url else url ++ u "/api"
  | None => if is_testnet (snd config) then u "https://testnet.rougechain.io/api" else u "https://api.rougechain.io/api"
  end.

Definition getApiBaseUrl : prog WorkerI units := let! c := ask LocalConfig in Ret (api_base c).

Definition set_session (s : session) (w : worker) : worker :=
  {| wk_session := s; approvalCounter := approvalCounter w; rpcId := rpcId w |}.

(** [checkNodeChainId] with the worker's [fetch]. *)
Definition check_node (baseUrl expected : units) : prog WorkerI unit :=
  embed (I := BindI) (J := WorkerI) wk_session set_session (fun c => ask (NodeChainId c)) (checkNodeChainId baseUrl expected).

Definition getCheckedChainId : prog WorkerI units :=
  let! n := getSelectedNetwork in
  let chainId := chainIdForNetwork n in
  let! base := getApiBaseUrl in
  do! check_node base chainId in
  Ret chainId.

(** ** The approval window *)

Definition requestApproval (type : approval_type) (origin : units) (s : screen) : prog WorkerI bool :=
  let! now := ask DateNow in
  let! w := @get WorkerI in
  let n := approvalCounter w + 1 in
  do! @put WorkerI {| wk_session := wk_session w; approvalCounter := n; rpcId := rpcId w |} in
  ask (AskApproval {| ap_id := number_text now ++ u "-" ++ udec n; ap_type := type; ap_origin := origin; ap_screen := s |}).

(** The window shows [payload && payloadForDisplay(payload, details)]. *)
Definition shown_payload (p : object) (details : option ContractTxDetails) (network : option NetworkReview) : screen :=
  ShowPayload (payloadForDisplay p details) details network.

(** How the promise of [requestApproval] settles: the popup writes a response under the request's
    key, the window closes (and the response is read 300 ms later), or two minutes pass. *)
Inductive window_event :=
| StorageChanged (key : units) (approved : js)
| WindowClosed (id : Z)
| AfterClose (stored : option js)
| TimedOut.
Record window_state := { listening : bool; closing : nat; settled : option bool }.

Definition is_true (v : js) : bool := match v with JBool b => b | _ => false end.
Definition settle (b : bool) (s : window_state) : window_state :=
  {| listening := false; closing := closing s; settled := match settled s with Some x => Some x | None => Some b end |}.

Definition window_step (key : units) (id : Z) (s : window_state) (e : window_event) : window_state :=
  match e with
  | StorageChanged k v => if listening s && units_eqb k key then settle (is_true v) s else s
  | WindowClosed i => if listening s && (i =? id) then {| listening := listening s; closing := S (closing s); settled := settled s |} else s
  | AfterClose stored =>
      match closing s with
      | O => s
      | S n => settle (match stored with Some v => is_true v | None => false end) {| listening := listening s; closing := n; settled := settled s |}
      end
  | TimedOut => settle false s
  end.
Definition opened : window_state := {| listening := true; closing := 0; settled := None |}.
Definition window_run (key : units) (id : Z) (es : list window_event) : window_state := foldl (window_step key id) opened es.

(** ** Who is asking *)

Record url := { u_protocol : units; u_hostname : units; u_origin : units }.
Record sender := { sd_id : units; sd_origin : option units; sd_url : option units; sd_tab : option Z }.

Section Worker.
Context `{C : Crypto} `{P : Platform} `{U : Unicode}.
(** The URL parser and the id of the extension. *)
Variable URL : units -> res url.
Variable runtime_id : units.

Definition trustedOrigin (s : sender) : option units :=
  if negb (units_eqb (sd_id s) runtime_id) then None else
  match (match present (sd_origin s) with Some r => Some r | None => present (sd_url s) end) with
  | None => None
  | Some raw =>
      match URL raw with
      | Err _ => None
      | Ok l =>
          let local := units_eqb (u_hostname l) (u "localhost") || units_eqb (u_hostname l) (u "127.0.0.1") in
          if negb (units_eqb (u_protocol l) (u "https:")) && negb (units_eqb (u_protocol l) (u "http:") && local) then None
          else Some (u_origin l)
      end
  end.

(** ** Requests of RougeChain sites *)

Inductive response :=
| RError (e : js)
| RConnected (publicKey : units)
| RBalance (balance tokens : js)
| RSigned (signedPayload signature publicKey : units) (payload : object)
| RMessage (signature publicKey address : units)
| RSent (result : object).

Definition refuse (m : string) : prog WorkerI response := Ret (RError (text m)).

(** [v?.k], and [v.k] which throws on [null] and [undefined]. *)
Definition opt_member (k : string) (v : js) : js := match v with JObj o => prop k o | _ => JUndef end.
Definition js_member (k : string) (v : js) : res js := match v with JUndef | JNull => Err "TypeError" | _ => Ok (opt_member k v) end.
(** [a || b]. *)
Definition js_or (a b : js) : js := if js_truthy a then a else b.

Definition signPayload (payloadJson privateKeyHex : units) : res units :=
  res_bind (ml_dsa65_sign (utf8 payloadJson) (hexToBytes privateKeyHex)) (fun s => Ok (bytesToHex s)).

Definition has_site (origin : units) (sites : list ConnectedSite) : bool := existsb (fun s => units_eqb (cs_origin s) origin) sites.

(** The checks shared by the methods of a connected site. *)
Definition with_wallet (m : string) (k : units * units -> prog WorkerI response) : prog WorkerI response :=
  let! w := getWalletData in match w with None => refuse m | Some keys => k keys end.
Definition if_connected (origin : units) (m : string) (k : prog WorkerI response) : prog WorkerI response :=
  let! sites := getConnectedSites in if has_site origin sites then k else refuse m.

Definition on_connect (origin : units) : prog WorkerI response :=
  with_wallet "Wallet is locked or not set up" (fun keys =>
  let! sites := getConnectedSites in
  if has_site origin sites then Ret (RConnected (fst keys)) else
  let! approved := requestApproval ApConnect origin ShowOrigin in
  if negb approved then refuse "User denied connection" else
  let! now := ask DateNow in
  do! saveConnectedSites (sites ++ [{| cs_origin := origin; cs_connectedAt := now |}]) in
  Ret (RConnected (fst keys))).

Definition on_getBalance (origin : units) : prog WorkerI response :=
  with_wallet "Wallet is locked" (fun keys =>
  if_connected origin "Site not connected. Call connect() first." (
  let! base := getApiBaseUrl in
  let! res := ask (HttpGet (base ++ u "/balance/" ++ fst keys)) in
  if negb (h_ok res) then Ret (RError (JStr (u "Node returned " ++ udec (h_status res)))) else
  let! data := of_res (h_json res) in
  let! balance := of_res (js_member "balance" data) in
  let! tokens := of_res (js_member "token_balances" data) in
  Ret (RBalance (js_or balance (JNum (num_of_Z 0))) (js_or tokens (JObj []))))).

Definition on_signTransaction (origin : units) (params : js) : prog WorkerI response :=
  with_wallet "Wallet is locked" (fun keys =>
  if_connected origin "Site not connected" (
  match opt_member "payload" params with
  | JObj raw =>
      let! selected := getCheckedChainId in
      (* the time and a fresh id are read here whether or not they are used *)
      let! now := ask DateNow in
      let! uuid := ask RandomUUID in
      match prepareSignRequest raw (fst keys) selected now uuid with
      | Err e => refuse e
      | Ok r =>
          let! approved := requestApproval ApSign origin (shown_payload (ps_payload r) (ps_details r) (Some (ps_network r))) in
          if negb approved then refuse "User denied signature request" else
          let signedPayload := payload_text (ps_payload r) in
          let! sig := of_res (signPayload signedPayload (snd keys)) in
          Ret (RSigned signedPayload sig (fst keys) (ps_payload r))
      end
  | _ => refuse "Invalid payload"
  end)).

Definition on_signMessage (origin : units) (params : js) : prog WorkerI response :=
  with_wallet "Wallet is locked" (fun keys =>
  if_connected origin "Site not connected. Call connect() first." (
  let! address := of_res (pubkeyToAddress sha256 (fst keys)) in
  let! now := ask DateNow in
  let message := match opt_member "message" params with JStr s => s | _ => [] end in
  match reviewSignMessageRequest message origin (Some address) now with
  | Err e => refuse e
  | Ok review =>
      let! approved := requestApproval ApSignMessage origin (ShowMessage review) in
      if negb approved then refuse "User denied message signature request" else
      let! sig := of_res (signMessage (snd keys) (MText (r_message review))) in
      Ret (RMessage sig (fst keys) address)
  end)).

(** The own members of an object or array, as [{ ...v }] copies them. *)
Definition spread (v : js) : object :=
  match v with JObj o => o | JArr l => imap (fun i x => (udec (Z.of_nat i), x)) l | _ => [] end.

(** A contract call or deployment. *)
Definition send_contract (origin : units) (keys : units * units) (t : ContractTxType) (p : object) (network : NetworkReview) : prog WorkerI response :=
  let stranger := match prop "from" p with JUndef => false | v => negb (is_text v (fst keys)) end in
  if stranger then refuse "payload.from is not this wallet's signing key" else
  let! now := ask DateNow in
  let! nonce := match prop "nonce" p with
                | JStr n => if (8 <=? length n)%nat then Ret (JStr n) else let! x := ask RandomUUID in Ret (JStr x)
                | _ => let! x := ask RandomUUID in Ret (JStr x)
                end in
  let contractPayload := with_prop "nonce" nonce (with_prop "timestamp" (JNum now) (with_prop "from" (JStr (fst keys)) p)) in
  match analyzeContractPayload contractPayload (fst keys) with
  | Err e => refuse e
  | Ok details =>
      let! ok := requestApproval ApSend origin (shown_payload contractPayload (Some details) (Some network)) in
      if negb ok then refuse "User denied transaction" else
      let json := payload_text contractPayload in
      let! base := getApiBaseUrl in
      let! sig := of_res (signPayload json (snd keys)) in
      let! res := ask (HttpPost (base ++ contractEndpoint t)
        {| sb_payload := contractPayload; sb_signature := sig; sb_public_key := fst keys; sb_bytes_hex := Some (bytesToHex (utf8 json)) |}) in
      let data := match h_json res with
                  | Ok v => v
                  | Err _ => JObj [field "success" (JBool false); field "error" (JStr (u "Node returned " ++ udec (h_status res)))]
                  end in
      let! success := of_res (js_member "success" data) in
      if js_truthy success then
        Ret (RSent [field "txId" (opt_member "txId" data); field "fee" (opt_member "fee" data); field "address" (opt_member "address" data);
                    field "preview" (opt_member "preview" data)])
      else Ret (RError (js_or (opt_member "error" data) (text "Transaction failed")))
  end.

(** Any other transaction. *)
Definition send_plain (origin : units) (keys : units * units) (p : object) (network : NetworkReview) : prog WorkerI response :=
  let! approved := requestApproval ApSend origin (shown_payload p None (Some network)) in
  if negb approved then refuse "User denied transaction" else
  let! base := getApiBaseUrl in
  let! now := ask DateNow in
  let! nonce := ask RandomUUID in
  let txPayload := with_prop "nonce" (JStr nonce) (with_prop "timestamp" (JNum now) (with_prop "from" (JStr (fst keys)) p)) in
  let! sig := of_res (signPayload (payload_text txPayload) (snd keys)) in
  let! res := ask (HttpPost (base ++ u "/v2/transfer")
    {| sb_payload := txPayload; sb_signature := sig; sb_public_key := fst keys; sb_bytes_hex := None |}) in
  let! data := of_res (h_json res) in
  let! success := of_res (js_member "success" data) in
  if js_truthy success then Ret (RSent [field "txId" (js_or (opt_member "txId" data) (opt_member "tx_id" data))])
  else Ret (RError (js_or (opt_member "error" data) (text "Transaction failed"))).

Definition on_sendTransaction (origin : units) (params : js) : prog WorkerI response :=
  with_wallet "Wallet is locked" (fun keys =>
  if_connected origin "Site not connected" (
  match opt_member "payload" params with
  | (JObj _ | JArr _) as payload =>
      let! selected := getCheckedChainId in
      match bindSendPayload (spread payload) selected with
      | Err e => refuse e
      | Ok (bound, network) =>
          match contractTxType (prop "type" bound) with
          | Some t => send_contract origin keys t bound network
          | None => send_plain origin keys bound network
          end
      end
  | _ => refuse "Invalid payload"
  end)).

(** The listener for [rougechain-request] messages; an exception is answered. *)
Definition dispatch (method origin : units) (params : js) : prog WorkerI response :=
  if units_eqb method (u "connect") then on_connect origin
  else if units_eqb method (u "getBalance") then on_getBalance origin
  else if units_eqb method (u "signTransaction") then on_signTransaction origin params
  else if units_eqb method (u "signMessage") then on_signMessage origin params
  else if units_eqb method (u "sendTransaction") then on_sendTransaction origin params
  else Ret (RError (JStr (u "Unknown method: " ++ method))).

Definition rougechain_request (method : units) (params : js) (s : sender) : prog WorkerI response :=
  match present (trustedOrigin s) with
  | None => refuse "Requests are only accepted from https sites (or localhost)"
  | Some origin =>
      let! r := attempt (dispatch method origin params) in
      Ret (match r with Ok x => x | Err e => RError (js_or (text e) (text "Internal error")) end)
  end.
End Worker.
