(* ===== verification/WorkerClaims.v ===== *)
(** * What the wallet's background does for a site

    Against every storage, node, clock and user: what is signed was shown to the user and
    approved for the very site that asked, with the wallet unlocked, the site connected and the
    network checked. *)
From Stdlib Require Import SpecFloat.
From S2P Require Import Prelude JsText JsNum JsUtf16 JsFloat LosslessJson JsValue Interact Address Finality MessageSigning CanonicalJson ChainBinding TxSigner SignRequest SignRequestClaims WalletWorker.
Local Open Scope Z_scope.

(** ** Evidence in a history *)

Abbreviation wh := (history WorkerI).
Definition saw (h : wh) (c : wk_cmd) (a : wk_ans c) : Prop := @Ev WorkerI c (Ok a) ∈ h.

Definition unlocked (h : wh) (keys : units * units) : Prop :=
  exists w, (saw h SessionWallet (Some (Ok w)) \/ saw h LocalWallet (Some (Ok w)))
    /\ w_signingPublicKey w = Some (fst keys) /\ w_signingPrivateKey w = Some (snd keys).
Definition connected (h : wh) (origin : units) : Prop :=
  exists l, saw h LocalSites (Some (Ok l)) /\ has_site origin l = true.
Definition selected (h : wh) (chainId : units) : Prop :=
  exists v, saw h LocalNetwork v /\ chainId = chainIdForNetwork (network_of v).
Definition approved (h : wh) (t : approval_type) (origin : units) (s : screen) : Prop :=
  exists id, saw h (AskApproval {| ap_id := id; ap_type := t; ap_origin := origin; ap_screen := s |}) true.

(** No signed request was sent. *)
Definition quiet (h : wh) : Prop := forall url b r, @Ev WorkerI (HttpPost url b) r ∉ h.

Record grew (h h' : wh) : Prop := { grew_in : forall e, e ∈ h -> e ∈ h'; grew_quiet : quiet h -> quiet h' }.
#[export] Instance grew_preorder : PreOrder grew.
Proof. split; [by split|]. intros h1 h2 h3 [A B] [D E]. split; auto. Qed.

Definition is_post (c : wk_cmd) : bool := match c with HttpPost _ _ => true | _ => false end.

Lemma grew_cons (c : wk_cmd) r (h : wh) : is_post c = false -> grew h (@Ev WorkerI c r :: h).
Proof.
  intros Hc. split; [by right|]. intros Hq url b r' [E|E]%elem_of_cons; [|by apply (Hq url b r')]. injection E as E. by subst c.
Qed.

Lemma saw_grew h h' c a : grew h h' -> saw h c a -> saw h' c a.
Proof. intros [G _]. apply G. Qed.

Lemma unlocked_grew h h' k : grew h h' -> unlocked h k -> unlocked h' k.
Proof. intros G (w & [H|H] & ?); exists w; split; try done; [left|right]; by eapply saw_grew. Qed.
Lemma connected_grew h h' o : grew h h' -> connected h o -> connected h' o.
Proof. intros G (l & ? & ?). exists l. split; [by eapply saw_grew|done]. Qed.
Lemma selected_grew h h' o : grew h h' -> selected h o -> selected h' o.
Proof. intros G (l & ? & ?). exists l. split; [by eapply saw_grew|done]. Qed.
Lemma approved_grew h h' t o x : grew h h' -> approved h t o x -> approved h' t o x.
Proof. intros G (l & ?). exists l. by eapply saw_grew. Qed.
#[export] Hint Resolve unlocked_grew connected_grew selected_grew approved_grew : worker.

(** ** The helpers *)

(** Commands that read. *)
Definition is_read (c : wk_cmd) : bool :=
  match c with
  | SessionWallet | LocalWallet | LocalSites | LocalNetwork | LocalConfig | HttpGet _ | NodeChainId _ | DateNow | RandomUUID
  | LocalEvmChain | LocalOrigins => true
  | _ => false
  end.

Lemma read_not_post c : is_read c = true -> is_post c = false.
Proof. by destruct c. Qed.

(** Under a guard that permits reading, and asking the user on behalf of [origin]. *)
Section Helpers.
Variable ok : wh -> cmd WorkerI -> Prop.
Variable origin : units.
Hypothesis ok_read : forall h c, is_read c = true -> ok h c.
Hypothesis ok_ask : forall h a, ap_origin a = origin -> ok h (AskApproval a).
Notation hwp := (wp ok anything).

Lemma hwp_ask c s h (Q : res (wk_ans c) -> worker -> wh -> Prop) :
  ok h c -> (forall r, Q r s (@Ev WorkerI c r :: h)) -> hwp (ask c) s h Q.
Proof. intros Hok HQ. apply (wp_call (I := WorkerI)); [done|]. intros r _. apply HQ. Qed.

Definition silent {A} (p : prog WorkerI A) (R : wh -> A -> Prop) : Prop :=
  forall s h, hwp p s h (fun o s' h' => s' = s /\ grew h h' /\ forall a, o = Ok a -> R h' a).

Lemma ask_silent c (R : wh -> wk_ans c -> Prop) : is_read c = true -> (forall h a, saw h c a -> R h a) -> silent (ask c) R.
Proof.
  intros Hr HR s h. apply hwp_ask; [by apply ok_read|]. intros r. split; [done|]. split; [by apply grew_cons, read_not_post|].
  intros a ->. apply HR. left.
Qed.

Lemma bind_silent {A B} (p : prog WorkerI A) (f : A -> prog WorkerI B) (R : wh -> A -> Prop) (R' : wh -> B -> Prop) :
  silent p R -> (forall a, silent (f a) (fun h' b => forall h, grew h h' -> R h a -> R' h' b)) -> silent (bind p f) R'.
Proof.
  intros Hp Hf s h. apply wp_bind. wp_apply Hp. intros [a|e] s' h' (-> & G & HR); [|by repeat split; [apply G..|]].
  wp_apply Hf. intros o s2 h2 (-> & G2 & HR2). split; [done|]. split; [by transitivity h'|]. intros b Hb. by eapply HR2; [..|apply HR].
Qed.

Lemma ret_silent {A} (a : A) (R : wh -> A -> Prop) : (forall h, R h a) -> silent (Ret a) R.
Proof. intros HR s h. apply wp_ret. split; [done|]. split; [reflexivity|]. intros ? [= <-]. apply HR. Qed.

Lemma present_some x t : present x = Some t -> x = Some t.
Proof. by destruct x as [[|]|]. Qed.

Lemma readWallet_silent : silent readUnifiedWalletRaw (fun h o => forall w, o = Some (Ok w) ->
  saw h SessionWallet (Some (Ok w)) \/ saw h LocalWallet (Some (Ok w))).
Proof.
  eapply bind_silent with (R := fun h a => saw h SessionWallet a); [by apply ask_silent|]. intros [w|].
  - apply ret_silent. intros h h0 G Hs w' [= ->]. left. by eapply saw_grew.
  - apply ask_silent; [done|]. intros h a Ha h0 G _ w ->. by right.
Qed.

Lemma getWalletData_silent : silent getWalletData (fun h o => forall keys, o = Some keys -> unlocked h keys).
Proof.
  eapply bind_silent; [apply readWallet_silent|]. intros raw. apply ret_silent. intros h h0 G Hr keys.
  destruct raw as [[w|]|]; try done. destruct (present (w_signingPublicKey w)) as [pk|] eqn:Ep; [|done].
  destruct (present (w_signingPrivateKey w)) as [sk|] eqn:Es; [|done]. intros [= <-].
  eapply unlocked_grew; [done|]. exists w. split; [by apply Hr|]. by rewrite (present_some _ _ Ep), (present_some _ _ Es).
Qed.

Lemma getConnectedSites_silent : silent getConnectedSites (fun h l => l = [] \/ saw h LocalSites (Some (Ok l))).
Proof.
  eapply bind_silent with (R := fun h a => saw h LocalSites a); [by apply ask_silent|]. intros raw. apply ret_silent.
  intros h h0 G Hs. destruct raw as [[l|]|]; [right; by eapply saw_grew|by left..].
Qed.

Lemma getApiBaseUrl_silent : silent getApiBaseUrl (fun _ _ => True).
Proof. eapply bind_silent with (R := fun _ _ => True); [by apply ask_silent|]. intros c. by apply ret_silent. Qed.

Lemma getSelectedNetwork_silent : silent getSelectedNetwork (fun h n => exists v, saw h LocalNetwork v /\ n = network_of v).
Proof.
  eapply bind_silent with (R := fun h a => saw h LocalNetwork a); [by apply ask_silent|]. intros v. apply ret_silent.
  intros h h0 G Hs. exists v. split; [by eapply saw_grew|done].
Qed.

(** The network check leaves a session that does not contradict the chain id. *)
Lemma check_node_spec b c s h :
  hwp (check_node b c) s h (fun o s' h' => grew h h' /\ (is_ok o = true -> ~ known (wk_session s') c)).
Proof.
  eapply wp_mono; [|eapply (wp_embed (I := BindI) (J := WorkerI) wk_session set_session (fun c => ask (NodeChainId c))
    (fun sI _ sJ hJ => wk_session sJ = sI /\ grew h hJ) (fun _ _ => True) anything ok anything
    (checkNodeChainId b c) (wk_session s) []); [| | | |apply (run_call_spec (CheckNode b c))]].
  - intros o s' h' (sI & hI & [<- G] & _ & Hk). split; [done|]. intros Ho Hkn. apply Hk in Hkn. congruence.
  - intros sI hI cI sJ hJ [<- G] _. apply hwp_ask; [auto|]. intros r. split; [done|]. split; [done|].
    transitivity hJ; [done|by apply grew_cons].
  - by intros sI hI sJ hJ [<- _].
  - by intros sI sI' hI sJ hJ [_ G].
  - done.
Qed.

Lemma getCheckedChainId_spec s h :
  hwp getCheckedChainId s h (fun o s' h' => grew h h' /\ forall c, o = Ok c -> selected h' c /\ ~ known (wk_session s') c).
Proof.
  unfold getCheckedChainId. apply wp_bind. wp_apply getSelectedNetwork_silent. intros [n|e] s1 h1 (-> & G1 & Hn); [|by split].
  cbv zeta. apply wp_bind. wp_apply getApiBaseUrl_silent. intros [base|e] s2 h2 (-> & G2 & _); [|split; [by transitivity h1|done]].
  apply wp_bind. wp_apply check_node_spec. intros [[]|e] s3 h3 (G3 & Hk); (split; [by transitivity h1; [|transitivity h2]|]); [|done].
  intros c [= <-]. split; [|by apply Hk]. destruct (Hn n eq_refl) as (v & Hv & ->). exists v. split; [|done].
  eapply saw_grew; [|exact Hv]. by transitivity h2.
Qed.

Lemma requestApproval_spec ty x s h :
  hwp (requestApproval ty origin x) s h (fun o s' h' => wk_session s' = wk_session s /\ grew h h' /\ (o = Ok true -> approved h' ty origin x)).
Proof.
  unfold requestApproval. apply wp_bind, hwp_ask; [auto|]. intros [now|e]; [|by split; [|split; [apply grew_cons|]]].
  apply wp_bind, (wp_get (I := WorkerI)). cbv zeta. apply wp_bind, (wp_put (I := WorkerI)). apply hwp_ask; [auto|]. intros r.
  split; [done|]. split; [etrans; apply grew_cons; [done|]; done|]. intros ->. eexists. left.
Qed.

End Helpers.

Section Worker.
Context `{C : Crypto} `{P : Platform} `{U : Unicode}.

(** ** What may be done *)

(** The user approved a screen with the payload, its details and its network; the code of a deployment is
    left out of the payload shown (its size and hash are in the details). *)
Definition approved_payload (h : wh) (ty : approval_type) (origin : units) (p : object) (details : option ContractTxDetails) (network : NetworkReview) : Prop :=
  exists q, approved h ty origin (ShowPayload q details (Some network))
    /\ match details with Some (DeployDetails _) => kept ["wasm"] p q | _ => q = p end.

Lemma approved_shown h ty origin p details network :
  approved h ty origin (shown_payload p details (Some network)) -> approved_payload h ty origin p details network.
Proof.
  intros Ha. exists (payloadForDisplay p details). split; [done|]. destruct details as [[|d]|]; cbn; [done| |done].
  apply kept_with; [by left|apply kept_refl].
Qed.

(** A signed body that the user approved: [shown] is the payload on the screen. *)
Record consented (h : wh) (origin : units) (b : SignedBody) : Prop := {
  co_keys : exists keys, unlocked h keys /\ sb_public_key b = fst keys /\ prop "from" (sb_payload b) = JStr (fst keys)
    /\ signPayload (payload_text (sb_payload b)) (snd keys) = Ok (sb_signature b);
  co_site : connected h origin;
  co_screen : exists c shown details network,
    selected h c /\ prop "chainId" (sb_payload b) = JStr c
    /\ approved_payload h ApSend origin shown details network
    /\ network_shown shown c network /\ nr_missing network = false /\ details_shown shown (sb_public_key b) details
    /\ kept ["from"; "timestamp"; "nonce"] shown (sb_payload b) /\ (details <> None -> shown = sb_payload b);
}.

(** Guard of the commands for a request of [origin]. *)
Definition site_ok (origin : units) (h : wh) (c : cmd WorkerI) : Prop :=
  match c with
  | HttpPost _ b => consented h origin b
  | SaveSites l => approved h ApConnect origin ShowOrigin
      /\ exists old now, (old = [] \/ saw h LocalSites (Some (Ok old))) /\ l = old ++ [{| cs_origin := origin; cs_connectedAt := now |}]
  | AskApproval a => ap_origin a = origin
  | SaveOrigins _ | SaveEvmChain _ | RpcPost _ _ _ _ | EmitEvm _ _ _ => False
  | _ => True
  end.

Variable origin : units.
Notation owp := (wp (site_ok origin) anything).

Lemma site_read h c : is_read c = true -> site_ok origin h c.
Proof. by destruct c. Qed.
Lemma site_ask h a : ap_origin a = origin -> site_ok origin h (AskApproval a).
Proof. done. Qed.

Notation silent := (silent (site_ok origin)).

(** ** The methods *)

Definition answered (s : worker) (h : wh) (r : response) : Prop :=
  match r with
  | RError _ => True
  | RConnected pk => (exists sk, unlocked h (pk, sk)) /\ (connected h origin \/ approved h ApConnect origin ShowOrigin)
  | RBalance _ _ => (exists keys, unlocked h keys) /\ connected h origin
  | RSigned txt sig pk p => exists sk c details network,
      unlocked h (pk, sk) /\ connected h origin /\ selected h c /\ ~ known (wk_session s) c
      /\ network_shown p c network /\ details_shown p pk details
      /\ approved_payload h ApSign origin p details network
      /\ txt = payload_text p /\ signPayload txt sk = Ok sig
  | RMessage sig pk address => exists sk review,
      unlocked h (pk, sk) /\ connected h origin /\ approved h ApSignMessage origin (ShowMessage review)
      /\ signMessage sk (MText (r_message review)) = Ok sig /\ pubkeyToAddress sha256 pk = Ok address
  | RSent _ => ~ quiet h
  end.

(** What holds when a method has finished. *)
Record good (o : res response) (s : worker) (h : wh) : Prop := {
  good_answer : forall r, o = Ok r -> answered s h r;
  good_network : forall url b r, @Ev WorkerI (HttpPost url b) r ∈ h -> exists c, prop "chainId" (sb_payload b) = JStr c /\ ~ known (wk_session s) c;
}.

Lemma good_err e s h : quiet h -> good (Err e) s h.
Proof. intros Q. split; [done|]. intros url b r H. by apply Q in H. Qed.

Lemma good_quiet r s h : quiet h -> answered s h r -> good (Ok r) s h.
Proof. intros Q Ha. split; [by intros ? [= <-]|]. intros url b r' H. by apply Q in H. Qed.

Lemma refuse_good m s h : quiet h -> owp (refuse m) s h good.
Proof. intros Q. by apply wp_ret, good_quiet. Qed.

Lemma silent_bind {A} (p : prog WorkerI A) R k s h :
  silent p R -> quiet h -> (forall a h', grew h h' -> quiet h' -> R h' a -> owp (k a) s h' good) -> owp (bind p k) s h good.
Proof.
  intros Hp Q Hk. apply wp_bind. wp_apply Hp. intros [a|e] s' h' (-> & G & HR); [|by apply good_err, G]. apply Hk; [done|by apply G|by apply HR].
Qed.

Lemma ask_bind c k s h : is_post c = false -> site_ok origin h c -> quiet h ->
  (forall a h', grew h h' -> quiet h' -> saw h' c a -> owp (k a) s h' good) -> owp (bind (ask c) k) s h good.
Proof.
  intros Hp Hok Q Hk. pose proof (fun r => grew_cons c r h Hp) as G. apply wp_bind, hwp_ask; [done|].
  intros [a|e]; [apply Hk; [done|by apply G|left]|by apply good_err, G].
Qed.

Lemma approval_bind ty x k s h : quiet h ->
  (forall a s' h', wk_session s' = wk_session s -> grew h h' -> quiet h' -> (a = true -> approved h' ty origin x) -> owp (k a) s' h' good) ->
  owp (bind (requestApproval ty origin x) k) s h good.
Proof.
  intros Q Hk. apply wp_bind. wp_apply (requestApproval_spec (site_ok origin) origin site_read site_ask). intros [a|e] s' h' (Es & G & Ha); [|by apply good_err, G].
  apply Hk; [done..|by apply G|]. intros ->. by apply Ha.
Qed.

Lemma res_bind_spec {A} (r : res A) k s h : quiet h -> (forall a, r = Ok a -> owp (k a) s h good) -> owp (bind (of_res r) k) s h good.
Proof. intros Q Hk. apply wp_bind, wp_of_res. destruct r; [by apply Hk|by apply good_err]. Qed.

Lemma with_wallet_spec m k s h : quiet h ->
  (forall keys h', grew h h' -> quiet h' -> unlocked h' keys -> owp (k keys) s h' good) -> owp (with_wallet m k) s h good.
Proof.
  intros Q Hk. unfold with_wallet. eapply silent_bind; [exact (getWalletData_silent _ site_read)|done|]. intros [keys|] h' G Q' Hu.
  - apply Hk; [done..|by apply Hu].
  - by apply refuse_good.
Qed.

Lemma if_connected_spec m k s h : quiet h ->
  (forall h', grew h h' -> quiet h' -> connected h' origin -> owp k s h' good) -> owp (if_connected origin m k) s h good.
Proof.
  intros Q Hk. unfold if_connected. eapply silent_bind; [exact (getConnectedSites_silent _ site_read)|done|]. intros l h' G Q' Hl.
  destruct (has_site origin l) eqn:E; [|by apply refuse_good]. apply Hk; [done..|]. destruct Hl as [->|Hl]; [done|]. by exists l.
Qed.

Lemma on_connect_spec s h : quiet h -> owp (on_connect origin) s h good.
Proof.
  intros Q. unfold on_connect. apply with_wallet_spec; [done|]. intros [pk sk] h1 G1 Q1 Hu. eapply silent_bind; [exact (getConnectedSites_silent _ site_read)|done|].
  intros l h2 G2 Q2 Hl. destruct (has_site origin l) eqn:E.
  { apply wp_ret, good_quiet; [done|]. split; [exists sk; by eauto with worker|left]. destruct Hl as [->|Hl]; [done|]. by exists l. }
  apply approval_bind; [done|]. intros a s3 h3 _ G3 Q3 Ha. destruct a; [|by apply refuse_good]. cbn [negb]. specialize (Ha eq_refl).
  apply ask_bind; [done..|]. intros now h4 G4 Q4 _. apply ask_bind; [done| |done|].
  - split; [by eauto with worker|]. exists l, now. split; [|done]. destruct Hl as [->|Hl]; [by left|right].
    eapply saw_grew; [|exact Hl]. by transitivity h3.
  - intros [] h5 G5 Q5 _. apply wp_ret, good_quiet; [done|]. split; [|right; by eauto with worker]. exists sk.
    eapply unlocked_grew; [|done]. transitivity h2; [done|]. transitivity h3; [done|]. by transitivity h4.
Qed.

Lemma on_getBalance_spec s h : quiet h -> owp (on_getBalance origin) s h good.
Proof.
  intros Q. apply with_wallet_spec; [done|]. intros keys h1 G1 Q1 Hu. apply if_connected_spec; [done|]. intros h2 G2 Q2 Hc.
  eapply silent_bind; [exact (getApiBaseUrl_silent _ site_read)|done|]. intros base h3 G3 Q3 _. apply ask_bind; [done..|]. intros r h4 G4 Q4 _.
  destruct (h_ok r); cbn [negb]; [|by apply wp_ret, good_quiet]. do 3 (apply res_bind_spec; [done|]; intros ? _).
  apply wp_ret, good_quiet; [done|]. assert (grew h2 h4) by (by transitivity h3). split; [exists keys|]; eauto with worker.
Qed.

(** The network check in the middle of a method. *)
Lemma checked_bind k s h : quiet h ->
  (forall c s' h', grew h h' -> quiet h' -> selected h' c -> ~ known (wk_session s') c -> owp (k c) s' h' good) ->
  owp (bind getCheckedChainId k) s h good.
Proof.
  intros Q Hk. apply wp_bind. wp_apply (getCheckedChainId_spec (site_ok origin) site_read). intros [c|e] s' h' [G Hc]; [|by apply good_err, G].
  destruct (Hc c eq_refl). apply Hk; [done|by apply G|done..].
Qed.

Lemma on_signTransaction_spec params s h : quiet h -> owp (on_signTransaction origin params) s h good.
Proof.
  intros Q. apply with_wallet_spec; [done|]. intros [pk sk] h1 G1 Q1 Hu. apply if_connected_spec; [done|]. intros h2 G2 Q2 Hc.
  destruct (opt_member "payload" params) as [| | | | | |raw]; try by apply refuse_good.
  apply checked_bind; [done|]. intros c s3 h3 G3 Q3 Hs Hk. apply ask_bind; [done..|]. intros now h4 G4 Q4 _.
  apply ask_bind; [done..|]. intros uuid h5 G5 Q5 _. destruct (prepareSignRequest _ _ _ _ _) as [r|e] eqn:Er; [|by apply refuse_good].
  apply prepared_spec in Er as (_ & Hn & Hd). cbn [fst snd] in *. apply approval_bind; [done|]. intros a s6 h6 Es G6 Q6 Ha.
  destruct a; cbn [negb]; [|by apply refuse_good]. apply res_bind_spec; [done|]. intros sig Hsig. apply wp_ret, good_quiet; [done|].
  assert (grew h3 h6) by (transitivity h4; [done|by transitivity h5]). assert (grew h2 h6) by (by transitivity h3).
  exists sk, c, (ps_details r), (ps_network r). rewrite Es. split; [by eauto with worker|]. split; [by eauto with worker|].
  split; [by eauto with worker|]. by split_and!; try done; apply approved_shown, Ha.
Qed.

Lemma review_message m o a now r : reviewSignMessageRequest m o a now = Ok r -> r_message r = m.
Proof. unfold reviewSignMessageRequest. do 4 (destruct (_ : bool); [done|]). by intros [= <-]. Qed.

Lemma on_signMessage_spec params s h : quiet h -> owp (on_signMessage origin params) s h good.
Proof.
  intros Q. apply with_wallet_spec; [done|]. intros [pk sk] h1 G1 Q1 Hu. apply if_connected_spec; [done|]. intros h2 G2 Q2 Hc.
  apply res_bind_spec; [done|]. intros address Had. apply ask_bind; [done..|]. intros now h3 G3 Q3 _. cbv zeta.
  destruct (reviewSignMessageRequest _ _ _ _) as [r|e] eqn:Er; [|by apply refuse_good].
  apply approval_bind; [done|]. intros a s4 h4 Es G4 Q4 Ha. destruct a; cbn [negb]; [|by apply refuse_good].
  apply res_bind_spec; [done|]. intros sig Hsig. apply wp_ret, good_quiet; [done|]. assert (grew h2 h4) by (by transitivity h3).
  exists sk, r. split; [by eauto with worker|]. split; [by eauto with worker|]. split; [by apply Ha|done].
Qed.

(** A continuation that only reads the answer. *)
Definition reports (p : prog WorkerI response) : Prop :=
  forall s h, owp p s h (fun o s' h' => s' = s /\ h' = h /\ match o with Ok (RError _) | Ok (RSent _) | Err _ => True | _ => False end).

(** After an approved request was sent, whatever the node answers. *)
Lemma sent_spec url b (k : http -> prog WorkerI response) c s h :
  quiet h -> consented h origin b -> prop "chainId" (sb_payload b) = JStr c -> ~ known (wk_session s) c ->
  (forall r, reports (k r)) -> owp (bind (ask (HttpPost url b)) k) s h good.
Proof.
  intros Q Hb Hc Hk Hr. apply wp_bind, hwp_ask; [done|]. intros r.
  assert (forall o, match o with Ok (RError _) | Ok (RSent _) | Err _ => True | _ => False end ->
    good o s (@Ev WorkerI (HttpPost url b) r :: h)) as Hgood; [|destruct r as [r|e]; [|by apply Hgood]].
  { intros o Ho. split; [|intros url' b' r' [E|E]%elem_of_cons; [|by apply Q in E]].
    - intros x ->. destruct x; try done. intros Hq. apply (Hq url b r). left.
    - injection E as _ -> _. by exists c. }
  wp_apply Hr. intros o s' h' (-> & -> & Ho). by apply Hgood.
Qed.

Lemma truthy_reports (v : js) r e : (match r with RSent _ => True | _ => False end) -> reports (if js_truthy v then Ret r else Ret (RError e)).
Proof. intros Hr s h. destruct (js_truthy v); apply wp_ret; [|done]. by destruct r. Qed.

Lemma res_reports {A} (r : res A) k : (forall a, reports (k a)) -> reports (bind (of_res r) k).
Proof. intros Hk s h. apply wp_bind, wp_of_res. destruct r; [apply Hk|done]. Qed.

(** Completing a payload. *)
Definition complete (p : object) (from : units) (now : number) (nonce : js) : object :=
  with_prop "nonce" nonce (with_prop "timestamp" (JNum now) (with_prop "from" (JStr from) p)).

Lemma complete_kept p from now nonce : kept ["from"; "timestamp"; "nonce"] p (complete p from now nonce).
Proof. do 3 (apply kept_with; [set_solver|]). apply kept_refl. Qed.

Lemma complete_from p from now nonce : prop "from" (complete p from now nonce) = JStr from.
Proof. unfold complete. rewrite !prop_with. done. Qed.

Lemma complete_chain p from now nonce : prop "chainId" (complete p from now nonce) = prop "chainId" p.
Proof. unfold complete. rewrite !prop_with. done. Qed.

Lemma complete_type p from now nonce : prop "type" (complete p from now nonce) = prop "type" p.
Proof. unfold complete. rewrite !prop_with. done. Qed.

Lemma send_plain_spec keys p network c s h :
  quiet h -> unlocked h keys -> connected h origin -> selected h c -> prop "chainId" p = JStr c -> ~ known (wk_session s) c ->
  nr_missing network = false -> network_shown p c network -> contractTxType (prop "type" p) = None ->
  owp (send_plain origin keys p network) s h good.
Proof.
  intros Q Hu Hc Hs Hp Hk Hm Hn Ht. unfold send_plain. apply approval_bind; [done|]. intros a s1 h1 Es G1 Q1 Ha.
  destruct a; cbn [negb]; [|by apply refuse_good]. specialize (Ha eq_refl).
  eapply silent_bind; [exact (getApiBaseUrl_silent _ site_read)|done|]. intros base h2 G2 Q2 _.
  apply ask_bind; [done..|]. intros now h3 G3 Q3 _. apply ask_bind; [done..|]. intros nonce h4 G4 Q4 _. cbv zeta.
  change (with_prop "nonce" _ _) with (complete p (fst keys) now (JStr nonce)). apply res_bind_spec; [done|]. intros sig Hsig.
  assert (grew h1 h4) by (transitivity h2; [done|by transitivity h3]). assert (grew h h4) by (by transitivity h1).
  eapply sent_spec with (c := c); [done| |by rewrite <- Hp, <- (complete_chain p (fst keys) now (JStr nonce))|by rewrite Es|].
  - split; cbn [sb_payload sb_public_key sb_signature].
    + exists keys. split; [by eauto with worker|]. split; [done|]. split; [apply complete_from|done].
    + by eauto with worker.
    + exists c, p, None, network. split; [by eauto with worker|]. split; [by rewrite complete_chain|].
      split; [apply approved_shown; by eauto with worker|]. do 2 (split; [done|]). split; [cbn; unfold isContractTxType; by rewrite Ht|].
      split; [apply complete_kept|done].
  - intros r. do 2 (apply res_reports; intros ?). by apply truthy_reports.
Qed.

Lemma nonce_silent v : silent (match v with
  | JStr n => if (8 <=? length n)%nat then Ret (JStr n) else bind (ask RandomUUID) (fun x => Ret (JStr x))
  | _ => bind (ask RandomUUID) (fun x => Ret (JStr x)) end) (fun _ _ => True).
Proof.
  assert (silent (bind (ask RandomUUID) (fun x => Ret (JStr x))) (fun _ _ => True)) as H.
  { eapply bind_silent with (R := fun _ _ => True); [by apply (ask_silent _ site_read)|]. intros x. by apply ret_silent. }
  destruct v; try done. destruct (8 <=? _)%nat; [by apply ret_silent|done].
Qed.

Lemma send_contract_spec keys t p network c s h :
  quiet h -> unlocked h keys -> connected h origin -> selected h c -> prop "chainId" p = JStr c -> ~ known (wk_session s) c ->
  nr_missing network = false -> network_shown p c network -> contractTxType (prop "type" p) = Some t ->
  owp (send_contract origin keys t p network) s h good.
Proof.
  intros Q Hu Hc Hs Hp Hk Hm Hn Ht. unfold send_contract. cbv zeta. destruct (match prop "from" p with JUndef => false | _ => _ end); [by apply refuse_good|].
  apply ask_bind; [done..|]. intros now h1 G1 Q1 _. eapply silent_bind; [apply nonce_silent|done|]. intros nonce h2 G2 Q2 _.
  change (with_prop "nonce" _ _) with (complete p (fst keys) now nonce).
  destruct (analyzeContractPayload _ _) as [d|e] eqn:Ed; [|by apply refuse_good]. apply analyze_spec in Ed as [Hd _].
  apply approval_bind; [done|]. intros a s3 h3 Es G3 Q3 Ha. destruct a; cbn [negb]; [|by apply refuse_good]. specialize (Ha eq_refl).
  eapply silent_bind; [exact (getApiBaseUrl_silent _ site_read)|done|]. intros base h4 G4 Q4 _. apply res_bind_spec; [done|]. intros sig Hsig.
  assert (grew h h4) by (transitivity h1; [done|transitivity h2; [done|by transitivity h3]]).
  eapply sent_spec with (c := c); [done| |by rewrite <- Hp, <- (complete_chain p (fst keys) now nonce)|by rewrite Es|].
  - split; cbn [sb_payload sb_public_key sb_signature].
    + exists keys. split; [by eauto with worker|]. split; [done|]. split; [apply complete_from|done].
    + by eauto with worker.
    + eexists c, _, (Some d), network. split; [by eauto with worker|]. split; [by rewrite complete_chain|].
      split; [apply approved_shown; by eauto with worker|]. split; [by unfold network_shown in *; rewrite complete_chain|]. split; [done|].
      split; [|split; [apply kept_refl|done]]. cbn. unfold isContractTxType. rewrite complete_type, Ht. split; [done|]. split; [done|].
      right. apply complete_from.
  - intros r. apply res_reports. intros v. by apply truthy_reports.
Qed.

Lemma on_sendTransaction_spec params s h : quiet h -> owp (on_sendTransaction origin params) s h good.
Proof.
  intros Q. apply with_wallet_spec; [done|]. intros keys h1 G1 Q1 Hu. apply if_connected_spec; [done|]. intros h2 G2 Q2 Hc.
  destruct (opt_member "payload" params) as [| | | | |l|o]; try by apply refuse_good.
  all: apply checked_bind; [done|]; intros c s3 h3 G3 Q3 Hs Hk; assert (grew h1 h3) by (by transitivity h2).
  all: unfold bindSendPayload; destruct (reviewPayloadChainId _ _) as [v|e] eqn:Ev; cbn [res_bind]; [|by apply refuse_good].
  all: set (p := with_prop "chainId" _ _); assert (prop "chainId" p = JStr c) by (unfold p; by rewrite prop_with).
  all: assert (network_shown p c (now_bound v c)) by (by split; [apply (review_spec _ _ _ Ev)|]).
  all: destruct (contractTxType (prop "type" p)) eqn:Et; [apply (send_contract_spec _ _ _ _ c)|apply (send_plain_spec _ _ _ c)]; eauto with worker.
Qed.

Lemma dispatch_spec method params s h : quiet h -> owp (dispatch method origin params) s h good.
Proof.
  intros Q. unfold dispatch.
  destruct (units_eqb method _); [by apply on_connect_spec|]. destruct (units_eqb method _); [by apply on_getBalance_spec|].
  destruct (units_eqb method _); [by apply on_signTransaction_spec|]. destruct (units_eqb method _); [by apply on_signMessage_spec|].
  destruct (units_eqb method _); [by apply on_sendTransaction_spec|]. by apply wp_ret, good_quiet.
Qed.
End Worker.

(** ** Claims *)

Section Claims.
Context `{C : Crypto} `{P : Platform} `{U : Unicode}.
Variable URL : units -> res url.
Variable runtime_id : units.

(** The site that Chrome names: a page of an https site, or of this machine, sent through this extension. *)
Definition trusted (sd : sender) (origin : units) : Prop :=
  sd_id sd = runtime_id /\ exists raw l, (sd_origin sd = Some raw \/ sd_url sd = Some raw) /\ URL raw = Ok l /\ u_origin l = origin
  /\ (u_protocol l = u "https:" \/ u_protocol l = u "http:" /\ (u_hostname l = u "localhost" \/ u_hostname l = u "127.0.0.1")).

Lemma trustedOrigin_spec sd origin : trustedOrigin URL runtime_id sd = Some origin -> trusted sd origin.
Proof.
  unfold trustedOrigin. destruct (units_eqb (sd_id sd) runtime_id) eqn:Ei; [|done]. apply units_eqb_true in Ei. cbn [negb].
  set (raw := match present (sd_origin sd) with Some _ => _ | None => _ end).
  destruct raw as [r|] eqn:Er; [|done]. destruct (URL r) as [l|] eqn:El; [|done]. cbv zeta.
  assert (sd_origin sd = Some r \/ sd_url sd = Some r) as Hr.
  { subst raw. destruct (present (sd_origin sd)) eqn:Eo; [left|right]; apply present_some; congruence. }
  destruct (units_eqb (u_protocol l) (u "https:")) eqn:Es; cbn [negb andb].
  - apply units_eqb_true in Es. intros [= <-]. split; [done|]. exists r, l. auto.
  - destruct (units_eqb (u_protocol l) (u "http:")) eqn:Eh; cbn [negb andb]; [|done]. apply units_eqb_true in Eh.
    destruct (_ || _) eqn:Ehost; cbn [negb]; [|done]. intros [= <-]. split; [done|]. exists r, l.
    apply orb_true_iff in Ehost as [E|E]; apply units_eqb_true in E; auto 10.
Qed.

(** C3 Nothing is signed for a site behind the user's back.  In every run of the handler of a site's
    request, whatever the site sends, and whatever storage, the node and the user answer, it
    answers, and
    - the request comes from the https (or local) site that Chrome names; everything below is
      about that site, and every approval window names it;
    - a signed transaction is returned only for an unlocked wallet and a connected site, on the
      selected network, which no node has contradicted, after the user approved a screen showing
      that very payload, the network it is for, and for a contract its true details; the signature
      is over the canonical bytes of that payload with the wallet's key;
    - a signed message is returned only after the user approved a screen for that message;
    - a transaction is sent to a node only under the same conditions, and differs from the approved
      screen at most in its sender (the wallet), time and nonce - not at all for a contract;
    - a site is added to the connected sites only after the user approved it. *)
Theorem site_signatures_approved (e : env WorkerI) s method params sd :
  let p := rougechain_request URL runtime_id method params sd in
  match present (trustedOrigin URL runtime_id sd) with
  | None => trace e p s = [] /\ exists m, outcome e p s = Ok (RError m)
  | Some origin =>
      trusted sd origin /\ guarded (site_ok origin) (trace e p s)
      /\ (exists r, outcome e p s = Ok r /\ answered origin (final e p s) (trace e p s) r)
      /\ (forall url b r, @Ev WorkerI (HttpPost url b) r ∈ trace e p s ->
            exists c, prop "chainId" (sb_payload b) = JStr c /\ ~ known (wk_session (final e p s)) c)
  end.
Proof.
  cbv zeta. unfold rougechain_request. destruct (present _) as [origin|] eqn:Et; [|split; [done|by eexists]].
  apply present_some, trustedOrigin_spec in Et. split; [done|]. set (p := bind _ _).
  assert (wp (site_ok origin) anything p s [] (fun o s' h' => (exists r, o = Ok r /\ answered origin s' h' r) /\
    forall url b r, @Ev WorkerI (HttpPost url b) r ∈ h' -> exists c, prop "chainId" (sb_payload b) = JStr c /\ ~ known (wk_session s') c)) as Hw.
  { subst p. apply wp_bind, wp_attempt. wp_apply (dispatch_spec origin); [|by intros url b r ?%elem_of_nil].
    intros o s' h' [Ha Hn]. apply wp_ret. split; [|done]. eexists. split; [done|]. destruct o; [by apply Ha|done]. }
  split; [by apply (wp_guarded _ e) in Hw|]. apply (wp_post _ e _ s _ Hw).
Qed.
End Claims.

(** The promise of [requestApproval] resolves to [true] only on a response of the popup for this very request. *)
Lemma window_true key id es : settled (window_run key id es) = Some true ->
  StorageChanged key (JBool true) ∈ es \/ AfterClose (Some (JBool true)) ∈ es.
Proof.
  unfold window_run. assert (forall s, (settled s = Some true -> False) -> settled (foldl (window_step key id) s es) = Some true ->
    StorageChanged key (JBool true) ∈ es \/ AfterClose (Some (JBool true)) ∈ es) as H; [|by apply H].
  induction es as [|ev es IH]; intros s Hs; cbn [foldl]; [done|]. intros Hf.
  assert (settled (window_step key id s ev) = Some true -> StorageChanged key (JBool true) = ev \/ AfterClose (Some (JBool true)) = ev) as Hstep.
  { destruct ev as [k v|i|st|]; cbn [window_step].
    - destruct (listening s && units_eqb k key) eqn:E; [|done]. apply andb_true_iff in E as [_ ->%units_eqb_true].
      cbn. destruct (settled s) as [[]|]; [done..|]. destruct v; try done. intros [= ->]. by left.
    - by destruct (listening s && (i =? id)).
    - destruct (closing s); [done|]. cbn. destruct (settled s) as [[]|]; [done..|]. destruct st as [v|]; [|done]. destruct v; try done.
      intros [= ->]. by right.
    - cbn. by destruct (settled s) as [[]|]. }
  destruct (decide (settled (window_step key id s ev) = Some true)) as [E|E].
  - destruct (Hstep E) as [<-|<-]; [left|right]; left.
  - destruct (IH _ E Hf); [left|right]; by right.
Qed.
