(* ===== verification/EvmWorker.v ===== *)
(** * The background of the wallet extension: the Base provider
    ([src/apps/extension/src/background/service-worker.ts], [lib/evm-rpc.ts], [lib/evm-wallet.ts])

    The handler of [evm-request] messages, the JSON-RPC client and the transaction filler.  Key
    derivation, EIP-191 and EIP-1559 signing and UTF-8 decoding are the library class [EvmLib];
    a page's parameters are arbitrary [js] values.  Errors name the rule; their texts are not kept. *)
From Stdlib Require Import SpecFloat.
From S2P Require Import Prelude JsText JsNum JsUtf16 JsFloat LosslessJson JsValue Interact BridgeInput EvmCalldata Address Finality MessageSigning ChainBinding TxSigner SignRequest WalletWorker.
Local Open Scope Z_scope.

(** ** Conversions of page values *)

(** Digits only, at least one. *)
Fixpoint all_digits (radix : Z) (acc : Z) (s : units) : option Z :=
  match s with
  | [] => Some acc
  | c :: r => match digit_in radix c with Some d => all_digits radix (radix * acc + d) r | None => None end
  end.
Definition some_digits (radix : Z) (s : units) : option Z := match s with [] => None | _ => all_digits radix 0 s end.

(** [BigInt(text)]. *)
Definition BigInt_units (s : units) : option Z :=
  match utrim s with
  | [] => Some 0
  | a :: r =>
      if a =? 45 then Z.opp <$> some_digits 10 r
      else if a =? 43 then some_digits 10 r
      else match r with
           | b :: r' =>
               if (a =? 48) && ((b =? 120) || (b =? 88)) then some_digits 16 r'
               else if (a =? 48) && ((b =? 111) || (b =? 79)) then some_digits 8 r'
               else if (a =? 48) && ((b =? 98) || (b =? 66)) then some_digits 2 r'
               else some_digits 10 (a :: r)
           | [] => some_digits 10 (a :: r)
           end
  end.

Definition from_option {A} (m : string) (o : option A) : res A := match o with Some a => Ok a | None => Err m end.

(** [BigInt(v)]. *)
Definition BigInt_js (v : js) : res Z :=
  match v with
  | JUndef | JNull => Err "TypeError"
  | JBool b => Ok (if b then 1 else 0)
  | JNum n => from_option "RangeError" (BigInt_of_number n)
  | JStr s => from_option "SyntaxError" (BigInt_units s)
  | JArr _ | JObj _ => res_bind (js_String v) (fun s => from_option "SyntaxError" (BigInt_units s))
  end.
Definition toBigInt (v : js) : res Z := if js_truthy v then BigInt_js v else Ok 0.

(** ** The libraries *)

Record Eip1559Fields := {
  f_chainId : Z; f_nonce : Z; f_to : js; f_value : Z; f_data : js; f_gasLimit : Z; f_maxFeePerGas : Z; f_maxPriorityFeePerGas : Z;
}.
(** Mnemonic validation, the private key at the Ethereum path, its address, the two signers
    (a message as text or bytes) and strict UTF-8 decoding. *)
Class EvmLib := {
  validateMnemonic : units -> bool;
  hd_private_key : units -> res (option (list Z));
  addr_fromPrivateKey : units -> res units;
  eip191_sign : units + list Z -> units -> res units;
  eip1559_sign : Eip1559Fields -> units -> res units;
  utf8_decode : list Z -> option units;
}.

Record EvmAccount := { ea_address : units; ea_privateKey : units }.

(** ** Chains *)

Record ChainConfig := { cc_chainId : Z; cc_chainIdHex : units; cc_name : units; cc_rpcUrl : units }.
Definition BASE_MAINNET_CHAIN_ID : Z := 8453.
Definition BASE_SEPOLIA_CHAIN_ID : Z := 84532.
Definition CHAINS (chainId : Z) : option ChainConfig :=
  if chainId =? BASE_MAINNET_CHAIN_ID then
    Some {| cc_chainId := chainId; cc_chainIdHex := u "0x2105"; cc_name := u "Base"; cc_rpcUrl := u "https://mainnet.base.org" |}
  else if chainId =? BASE_SEPOLIA_CHAIN_ID then
    Some {| cc_chainId := chainId; cc_chainIdHex := u "0x14a34"; cc_name := u "Base Sepolia"; cc_rpcUrl := u "https://sepolia.base.org" |}
  else None.
Definition isSupportedChain (chainId : Z) : bool := match CHAINS chainId with Some _ => true | None => false end.
Definition getChain (chainId : Z) : res ChainConfig := from_option "Unsupported chain" (CHAINS chainId).

(** [wei] as a decimal number of ETH. *)
Definition WEI : Z := 1000000000000000000.
Definition weiToEth (hexWei : js) : units :=
  if negb (js_truthy hexWei) then u "0" else
  match BigInt_js hexWei with
  | Err _ => u "0"
  | Ok wei =>
      let whole := Z.quot wei WEI in
      let frac := trim_zeros (padStart 18 (udec (Z.rem wei WEI))) in
      if bool_decide (frac = []) then udec whole else udec whole ++ 46 :: frac
  end.

Section Evm.
Context `{E : EvmLib} `{U : Unicode}.

Definition toHexKey (bytes : list Z) : units := u "0x" ++ Finality.toHex bytes.

Definition deriveEvmAccount (mnemonic : option units) : res (option EvmAccount) :=
  match present mnemonic with
  | None => Ok None
  | Some m =>
      if negb (validateMnemonic (utrim m)) then Ok None else
      res_bind (hd_private_key (utrim m)) (fun k =>
      match k with
      | None => Ok None
      | Some bytes => res_bind (addr_fromPrivateKey (toHexKey bytes)) (fun a => Ok (Some {| ea_address := a; ea_privateKey := toHexKey bytes |}))
      end)
  end.

Definition evmHexToBytes (hex : units) : list Z := TxSigner.hexToBytes (if starts_0x hex then drop 2 hex else hex).

(** [/^[\x09\x0A\x0D\x20-\x7E\xA0-\uFFFF]*$/]. *)
Definition preview_unit (c : Z) : bool := (c =? 9) || (c =? 10) || (c =? 13) || ((32 <=? c) && (c <=? 126)) || ((160 <=? c) && (c <=? 65535)).

Definition decodeSignMessage (hexOrText : units) : units :=
  if negb (starts_0x hexOrText) then hexOrText else
  match utf8_decode (evmHexToBytes hexOrText) with
  | Some t => if forallb preview_unit t then t else hexOrText
  | None => hexOrText
  end.

(** ** JSON-RPC *)

Local Open Scope prog_scope.

Definition rpc (chainId : Z) (method : units) (params : list js) : prog WorkerI js :=
  let! c := of_res (getChain chainId) in
  let! w := @get WorkerI in
  let id := rpcId w + 1 in
  do! @put WorkerI {| wk_session := wk_session w; approvalCounter := approvalCounter w; rpcId := id |} in
  let! res := ask (RpcPost (cc_rpcUrl c) id method params) in
  if negb (h_ok res) then Throw "Base RPC HTTP" else
  let! json := of_res (h_json res) in
  let! error := of_res (js_member "error" json) in
  if js_truthy error then Throw "RPC error" else Ret (opt_member "result" json).

Record TxRequest := { tr_to : js; tr_value : js; tr_data : js; tr_gas : js }.

Definition plain_data (data : js) : js := if js_truthy data && negb (is_text data (u "0x")) then data else JStr (u "0x").
Definition ONE_GWEI : Z := 1000000000.

Definition gas_for (chainId : Z) (account : EvmAccount) (tx : TxRequest) : prog WorkerI Z :=
  if js_truthy (tr_gas tx) then of_res (toBigInt (tr_gas tx)) else
  let! r := rpc chainId (u "eth_estimateGas") [JObj [field "from" (JStr (ea_address account)); field "to" (tr_to tx);
    field "value" (nullish (tr_value tx) (text "0x0")); field "data" (plain_data (tr_data tx))]] in
  let! est := of_res (toBigInt r) in
  Ret (Z.quot (est * 120) 100).

(** Inside its [try]. *)
Definition priority_fee (chainId : Z) : prog WorkerI Z :=
  let! r := attempt (let! x := rpc chainId (u "eth_maxPriorityFeePerGas") [] in of_res (toBigInt x)) in
  Ret (match r with Ok z => if z =? 0 then ONE_GWEI else z | Err _ => ONE_GWEI end).

Definition fillSignAndSend (chainId : Z) (account : EvmAccount) (tx : TxRequest) : prog WorkerI js :=
  let! value := of_res (toBigInt (tr_value tx)) in
  let! n := rpc chainId (u "eth_getTransactionCount") [JStr (ea_address account); text "pending"] in
  let! nonce := of_res (toBigInt n) in
  let! gasLimit := gas_for chainId account tx in
  let! priority := priority_fee chainId in
  let! block := rpc chainId (u "eth_getBlockByNumber") [text "pending"; JBool false] in
  let! baseFee := of_res (toBigInt (opt_member "baseFeePerGas" block)) in
  let! raw := of_res (eip1559_sign {| f_chainId := chainId; f_nonce := nonce; f_to := tr_to tx; f_value := value;
    f_data := plain_data (tr_data tx); f_gasLimit := gasLimit; f_maxFeePerGas := baseFee * 2 + priority;
    f_maxPriorityFeePerGas := priority |} (ea_privateKey account)) in
  rpc chainId (u "eth_sendRawTransaction") [JStr raw].

(** ** The provider *)

Definition getEvmAccount : prog WorkerI (option EvmAccount) :=
  let! raw := readUnifiedWalletRaw in
  Ret (match raw with
       | Some (Ok w) => match deriveEvmAccount (w_mnemonic w) with Ok a => a | Err _ => None end
       | _ => None
       end).

(** [Number(stored)] is the answer of the command. *)
Definition getEvmChainId : prog WorkerI Z :=
  let! c := ask LocalEvmChain in
  Ret (match num_int c with Some z => if isSupportedChain z then z else BASE_MAINNET_CHAIN_ID | None => BASE_MAINNET_CHAIN_ID end).
Definition setEvmChainId (chainId : Z) : prog WorkerI unit := ask (SaveEvmChain chainId).

Definition getEvmOrigins : prog WorkerI (list units) :=
  let! raw := ask LocalOrigins in Ret (match raw with Some (Ok l) => l | _ => [] end).
Definition includes (origin : units) (l : list units) : bool := existsb (fun o => units_eqb o origin) l.
Definition addEvmOrigin (origin : units) : prog WorkerI unit :=
  let! l := getEvmOrigins in if includes origin l then Ret tt else ask (SaveOrigins (l ++ [origin])).

Definition emitEvm (tab : option Z) (event : string) (data : js) : prog WorkerI unit :=
  match tab with None => Ret tt | Some t => ask (EmitEvm t event data) end.

Inductive EvmResult := EvmOk (result : js) | EvmErr (code : Z) (message : string).

Definition READ_PROXY : list units := map u
  ["eth_call"; "eth_getBalance"; "eth_getCode"; "eth_getStorageAt"; "eth_estimateGas"; "eth_gasPrice"; "eth_maxPriorityFeePerGas";
   "eth_feeHistory"; "eth_blockNumber"; "eth_getBlockByNumber"; "eth_getBlockByHash"; "eth_getTransactionByHash";
   "eth_getTransactionReceipt"; "eth_getTransactionCount"; "eth_getLogs"; "eth_getProof"; "eth_chainId"; "net_version"].

Definition param (i : nat) (params : list js) : js := default JUndef (params !! i).

Definition on_accounts (origin : units) : prog WorkerI EvmResult :=
  let! origins := getEvmOrigins in
  if negb (includes origin origins) then Ret (EvmOk (JArr [])) else
  let! acct := getEvmAccount in
  Ret (EvmOk (JArr (match acct with Some a => [JStr (ea_address a)] | None => [] end))).

Definition on_requestAccounts (chain : ChainConfig) (origin : units) (tab : option Z) : prog WorkerI EvmResult :=
  let! acct := getEvmAccount in
  match acct with
  | None => Ret (EvmErr 4100 "No Base account")
  | Some a =>
      let! origins := getEvmOrigins in
      let! refused :=
        (if includes origin origins then Ret false else
         let! ok := requestApproval ApEvmConnect origin
           (ShowPayload [field "address" (JStr (ea_address a)); field "chain" (JStr (cc_name chain))] None None) in
         if ok then do! addEvmOrigin origin in Ret false else Ret true) in
      if refused : bool then Ret (EvmErr 4001 "User rejected the connection request") else
      do! emitEvm tab "connect" (JObj [field "chainId" (JStr (cc_chainIdHex chain))]) in
      do! emitEvm tab "accountsChanged" (JArr [JStr (ea_address a)]) in
      Ret (EvmOk (JArr [JStr (ea_address a)]))
  end.

(** [wallet_switchEthereumChain] and [wallet_addEthereumChain]; [(params[0])?.chainId ?? ""] is parsed as hexadecimal. *)
Definition on_switchChain (params : list js) (tab : option Z) : prog WorkerI EvmResult :=
  let! t := of_res (js_String (nullish (opt_member "chainId" (param 0 params)) (JStr []))) in
  match parseInt_radix 16 t with
  | Some target =>
      match CHAINS target with
      | None => Ret (EvmErr 4902 "Unrecognized chain")
      | Some c =>
          do! setEvmChainId target in
          do! emitEvm tab "chainChanged" (JStr (cc_chainIdHex c)) in
          Ret (EvmOk JNull)
      end
  | None => Ret (EvmErr 4902 "Unrecognized chain")
  end.

(** The account and the site, or a refusal. *)
Definition with_account (origin : units) (k : EvmAccount -> prog WorkerI EvmResult) : prog WorkerI EvmResult :=
  let! acct := getEvmAccount in
  match acct with
  | None => Ret (EvmErr 4100 "No Base account available")
  | Some a =>
      let! origins := getEvmOrigins in
      if includes origin origins then k a else Ret (EvmErr 4100 "Connect the site first (eth_requestAccounts)")
  end.

Definition on_personalSign (chain : ChainConfig) (origin : units) (params : list js) : prog WorkerI EvmResult :=
  with_account origin (fun a =>
  let! first := of_res (js_String (param 0 params)) in
  let! msgParam := (if units_eqb (toLower first) (toLower (ea_address a)) then of_res (js_String (param 1 params)) else Ret first) in
  let! ok := requestApproval ApEvmPersonalSign origin
    (ShowPayload [field "address" (JStr (ea_address a)); field "chain" (JStr (cc_name chain));
                  field "message" (JStr (decodeSignMessage msgParam)); field "raw" (JStr msgParam)] None None) in
  if negb ok then Ret (EvmErr 4001 "User rejected the signature request") else
  let! sig := of_res (eip191_sign (if starts_0x msgParam then inr (evmHexToBytes msgParam) else inl msgParam) (ea_privateKey a)) in
  Ret (EvmOk (JStr sig))).

Definition evm_send_screen (chain : ChainConfig) (a : EvmAccount) (tx : js) : screen :=
  ShowPayload [field "address" (JStr (ea_address a)); field "chain" (JStr (cc_name chain)); field "chainId" (JNum (num_of_Z (cc_chainId chain)));
    field "to" (opt_member "to" tx); field "valueEth" (JStr (weiToEth (opt_member "value" tx)));
    field "hasData" (JBool (js_truthy (opt_member "data" tx) && negb (is_text (opt_member "data" tx) (u "0x"))))] None None.

Definition on_sendEvm (chain : ChainConfig) (origin : units) (params : list js) : prog WorkerI EvmResult :=
  with_account origin (fun a =>
  let tx := nullish (param 0 params) (JObj []) in
  if negb (js_truthy (opt_member "to" tx)) then Ret (EvmErr (-32602) "Transaction is missing 'to'") else
  let! ok := requestApproval ApEvmSend origin (evm_send_screen chain a tx) in
  if negb ok then Ret (EvmErr 4001 "User rejected the transaction") else
  let! r := attempt (fillSignAndSend (cc_chainId chain) a {| tr_to := opt_member "to" tx; tr_value := opt_member "value" tx;
                       tr_data := opt_member "data" tx; tr_gas := opt_member "gas" tx |}) in
  Ret (match r with Ok hash => EvmOk hash | Err e => EvmErr (-32000) e end)).

Definition blind_methods : list units := map u ["eth_sign"; "eth_signTypedData"; "eth_signTypedData_v3"; "eth_signTypedData_v4"].

Definition is_method (method : units) (s : string) : bool := units_eqb method (u s).

Definition handleEvmRequest (method : units) (rawParams : js) (origin : units) (tab : option Z) : prog WorkerI EvmResult :=
  let params := match rawParams with JArr l => l | _ => [] end in
  let! chainId := getEvmChainId in
  let! chain := of_res (getChain chainId) in
  if is_method method "eth_chainId" then Ret (EvmOk (JStr (cc_chainIdHex chain)))
  else if is_method method "net_version" then Ret (EvmOk (JStr (udec chainId)))
  else if is_method method "eth_accounts" then on_accounts origin
  else if is_method method "eth_requestAccounts" then on_requestAccounts chain origin tab
  else if is_method method "wallet_switchEthereumChain" || is_method method "wallet_addEthereumChain" then on_switchChain params tab
  else if is_method method "personal_sign" then on_personalSign chain origin params
  else if is_method method "eth_sendTransaction" then on_sendEvm chain origin params
  else if includes method blind_methods then Ret (EvmErr 4200 "not supported (blind-signing protection)")
  else if includes method READ_PROXY then
    let! r := attempt (rpc chainId method params) in
    Ret (match r with Ok v => EvmOk v | Err e => EvmErr (-32603) e end)
  else Ret (EvmErr 4200 "Unsupported method").

(** The listener for [evm-request] messages. *)
Definition evm_request (URL : units -> res url) (runtime_id : units) (method : units) (params : js) (s : sender) : prog WorkerI EvmResult :=
  match present (trustedOrigin URL runtime_id s) with
  | None => Ret (EvmErr 4100 "Requests are only accepted from https sites (or localhost)")
  | Some origin =>
      let! r := attempt (handleEvmRequest method params origin (sd_tab s)) in
      Ret (match r with Ok x => x | Err e => EvmErr (-32603) e end)
  end.
End Evm.
