(* ===== verification/EvmWorkerClaims.v ===== *)
(** * What the wallet's background does on Base for a site

    Against every storage, node and user: a Base transaction is broadcast, and a message signed, only
    after the user approved a screen for the site that asked, and the screen told the truth.
    Runs of this handler and of the one for RougeChain sites follow: requests that are served, and three in which
    the handlers do something unwanted. *)
From Stdlib Require Import SpecFloat.
From S2P Require Import Prelude JsText JsNum JsUtf16 JsFloat LosslessJson JsValue Interact FinalityDemo BridgeInput EvmCalldata Address Finality MessageSigning ChainBinding TxSigner TxIssued TxSignerClaims SignRequest SignRequestClaims WalletWorker WorkerClaims EvmWorker.
Local Open Scope Z_scope.

(** ** The amount on the screen *)

Lemma weiToEth_units v z : toBigInt v = Ok z -> 0 <= z -> weiToEth v = formatUnits z 18.
Proof.
  unfold toBigInt, weiToEth. destruct (js_truthy v); cbn [negb]; [|by intros [= <-]]. intros -> Hz.
  unfold formatUnits, padStart, WEI. cbn [Nat.eqb]. change (10 ^ Z.of_nat 18) with 1000000000000000000. cbv zeta.
  rewrite Z.quot_div_nonneg, Z.rem_mod_nonneg, Z.abs_eq by lia. destruct (Z.ltb_spec z 0); [lia|]. cbn [app].
  case_bool_decide; [by rewrite app_nil_r|done].
Qed.

Lemma shown_wei_exact v z : toBigInt v = Ok z -> 0 < z -> parse_units (weiToEth v) 18 = Ok z.
Proof. intros Hv Hz. rewrite (weiToEth_units v z) by (done || lia). by apply amount_roundtrip. Qed.

Section Evm.
Context `{E : EvmLib} `{U : Unicode}.
Variable origin : units.

(** ** What may be done *)

Definition account (h : wh) (a : EvmAccount) : Prop :=
  exists w, (saw h SessionWallet (Some (Ok w)) \/ saw h LocalWallet (Some (Ok w))) /\ deriveEvmAccount (w_mnemonic w) = Ok (Some a).
Definition evm_connected (h : wh) : Prop := exists l, saw h LocalOrigins (Some (Ok l)) /\ includes origin l = true.

(** A raw transaction the user approved: the account, network and recipient on the screen are those
    signed, the amount on the screen is the exact amount signed, and a transaction that calls code is shown to. *)
Record evm_consented (h : wh) (chain : ChainConfig) (params : list js) : Prop := {
  ec_raw : exists a f raw p amount, params = [JStr raw] /\ eip1559_sign f (ea_privateKey a) = Ok raw /\ account h a
    /\ approved h ApEvmSend origin (ShowPayload p None None)
    /\ prop "address" p = JStr (ea_address a) /\ prop "chain" p = JStr (cc_name chain) /\ f_chainId f = cc_chainId chain
    /\ prop "to" p = f_to f /\ js_truthy (f_to f) = true
    /\ prop "valueEth" p = JStr amount /\ (0 < f_value f -> parse_units amount 18 = Ok (f_value f))
    /\ (f_data f = JStr (u "0x") \/ prop "hasData" p = JBool true);
  ec_site : evm_connected h;
}.

Definition evm_ok (h : wh) (c : cmd WorkerI) : Prop :=
  match c with
  | RpcPost url _ m params => exists chain, CHAINS (cc_chainId chain) = Some chain /\ url = cc_rpcUrl chain
      /\ (m ∈ READ_PROXY \/ m = u "eth_sendRawTransaction" /\ evm_consented h chain params)
  | SaveOrigins l => (exists p, approved h ApEvmConnect origin (ShowPayload p None None))
      /\ exists old, (old = [] \/ saw h LocalOrigins (Some (Ok old))) /\ l = old ++ [origin]
  | SaveEvmChain n => isSupportedChain n = true
  | AskApproval a => ap_origin a = origin
  | HttpPost _ _ | SaveSites _ => False
  | _ => True
  end.

Lemma evm_read h c : is_read c = true -> evm_ok h c.
Proof. by destruct c. Qed.
Lemma evm_ask h a : ap_origin a = origin -> evm_ok h (AskApproval a).
Proof. done. Qed.

Notation ewp := (wp evm_ok anything).

(** ** Sub-programs *)

Definition fine {A} (R : wh -> A -> Prop) : res A -> worker -> wh -> Prop := fun o _ h => forall a, o = Ok a -> R h a.
Definition steps {A} (p : prog WorkerI A) (h : wh) (R : wh -> A -> Prop) : Prop :=
  forall s, ewp p s h (fun o _ h' => grew h h' /\ forall a, o = Ok a -> R h' a).

Lemma fine_bind {A B} (p : prog WorkerI A) (k : A -> prog WorkerI B) R1 R2 s h :
  steps p h R1 -> (forall a s' h', grew h h' -> R1 h' a -> ewp (k a) s' h' (fine R2)) -> ewp (bind p k) s h (fine R2).
Proof. intros Hp Hk. apply wp_bind. wp_apply Hp. intros [a|e] s' h' [G HR]; [apply Hk; auto|done]. Qed.

Lemma steps_bind {A B} (p : prog WorkerI A) (k : A -> prog WorkerI B) h R1 R2 :
  steps p h R1 -> (forall a h', grew h h' -> R1 h' a -> steps (k a) h' R2) -> steps (bind p k) h R2.
Proof.
  intros Hp Hk s. apply wp_bind. wp_apply Hp. intros [a|e] s' h' [G HR]; [|done]. wp_apply (Hk a h' G (HR a eq_refl)).
  intros o s2 h2 [G2 H2]. split; [by transitivity h'|done].
Qed.

Lemma steps_silent {A} (p : prog WorkerI A) R h : silent evm_ok p R -> steps p h R.
Proof. intros Hp s. wp_apply Hp. intros o s' h' (_ & G & HR). done. Qed.

Lemma steps_ret {A} (a : A) (R : wh -> A -> Prop) h : R h a -> steps (Ret a) h R.
Proof. intros HR s. apply wp_ret. split; [reflexivity|]. by intros ? [= <-]. Qed.

Lemma steps_res {A} (r : res A) h : steps (of_res r) h (fun _ a => r = Ok a).
Proof. intros s. apply wp_of_res. split; [reflexivity|]. done. Qed.

Lemma steps_any {A} (p : prog WorkerI A) h R : steps p h R -> steps p h (fun _ _ => True).
Proof. intros Hp s. wp_apply Hp. by intros o s' h' [? _]. Qed.

Lemma steps_ask c h : is_post c = false -> evm_ok h c -> steps (ask c) h (fun h' a => saw h' c a).
Proof. intros Hp Hok s. apply (hwp_ask evm_ok); [done|]. intros r. split; [by apply grew_cons|]. intros a ->. left. Qed.

Lemma steps_attempt {A} (p : prog WorkerI A) R h : steps p h R -> steps (attempt p) h (fun h' o => forall a, o = Ok a -> R h' a).
Proof. intros Hp s. apply wp_attempt. wp_apply Hp. intros o s' h' [G HR]. split; [done|]. by intros ? [= <-]. Qed.

Lemma steps_approval ty x h : steps (requestApproval ty origin x) h (fun h' b => b = true -> approved h' ty origin x).
Proof.
  intros s. wp_apply (requestApproval_spec evm_ok origin evm_read evm_ask). intros o s' h' (_ & G & Ha). split; [done|].
  intros a -> ->. by apply Ha.
Qed.

Lemma account_grew h h' a : grew h h' -> account h a -> account h' a.
Proof. intros G (w & [H|H] & ?); exists w; split; try done; [left|right]; by eapply saw_grew. Qed.
Lemma evm_connected_grew h h' : grew h h' -> evm_connected h -> evm_connected h'.
Proof. intros G (l & ? & ?). exists l. split; [by eapply saw_grew|done]. Qed.
Hint Resolve account_grew evm_connected_grew approved_grew : worker.

Lemma getEvmAccount_steps h : steps getEvmAccount h (fun h' o => forall a, o = Some a -> account h' a).
Proof.
  eapply steps_bind; [apply steps_silent, readWallet_silent, evm_read|]. intros raw h' G Hr. apply steps_ret. intros a.
  destruct raw as [[w|]|]; try done. destruct (deriveEvmAccount _) as [x|] eqn:Ed; [|done]. intros ->. exists w. split; [by apply Hr|done].
Qed.

Lemma getEvmOrigins_steps h : steps getEvmOrigins h (fun h' l => l = [] \/ saw h' LocalOrigins (Some (Ok l))).
Proof.
  eapply steps_bind; [by apply steps_ask|]. intros raw h' G Hr. apply steps_ret. destruct raw as [[l|]|]; [by right|by left..].
Qed.

(** ** Requests to the node *)

Lemma chain_id c chain : CHAINS c = Some chain -> cc_chainId chain = c /\ CHAINS (cc_chainId chain) = Some chain.
Proof.
  intros H. assert (cc_chainId chain = c) as ->; [|done]. revert H. unfold CHAINS.
  destruct (c =? BASE_MAINNET_CHAIN_ID); [by intros [= <-]|]. destruct (c =? BASE_SEPOLIA_CHAIN_ID); [by intros [= <-]|done].
Qed.

Lemma rpc_steps c m params h :
  (forall chain h', CHAINS c = Some chain -> grew h h' -> m ∈ READ_PROXY \/ m = u "eth_sendRawTransaction" /\ evm_consented h' chain params) ->
  steps (rpc c m params) h (fun _ _ => True).
Proof.
  intros Hok. eapply steps_bind; [apply steps_res|]. intros chain h1 G1 Hc. unfold getChain, from_option in Hc.
  destruct (CHAINS c) as [ch|] eqn:Ec; [|done]. injection Hc as ->. destruct (chain_id c chain Ec) as [_ Hch].
  intros s. apply wp_bind, (wp_get (I := WorkerI)). cbv zeta. apply wp_bind, (wp_put (I := WorkerI)). apply wp_bind.
  eapply wp_mono; [|apply steps_ask; [done|exists chain; auto]]. intros [r|e] s2 h2 [G2 _]; [|done].
  destruct (h_ok r); cbn [negb]; [|done]. apply wp_bind, wp_of_res. destruct (h_json r) as [j|]; [|done].
  apply wp_bind, wp_of_res. destruct (js_member "error" j) as [v|]; [|done]. by destruct (js_truthy v).
Qed.

Lemma includes_elem m l : includes m l = true -> m ∈ l.
Proof.
  unfold includes. intros (x & Hx & Ex)%existsb_exists. apply units_eqb_true in Ex as ->. by apply list_elem_of_In.
Qed.

Lemma read_steps c m params h : includes (u m) READ_PROXY = true -> steps (rpc c (u m) params) h (fun _ _ => True).
Proof.
  intros Hm. apply rpc_steps. intros chain h' _ _. left. by apply includes_elem.
Qed.

Lemma fill_steps a tx chain h :
  CHAINS (cc_chainId chain) = Some chain -> account h a -> evm_connected h -> approved h ApEvmSend origin (evm_send_screen chain a tx) ->
  js_truthy (opt_member "to" tx) = true ->
  steps (fillSignAndSend (cc_chainId chain) a {| tr_to := opt_member "to" tx; tr_value := opt_member "value" tx;
    tr_data := opt_member "data" tx; tr_gas := opt_member "gas" tx |}) h (fun _ _ => True).
Proof.
  intros Hch Ha Hc Hap Hto. eapply steps_bind; [apply steps_res|]. intros value h1 G1 Hv. cbn [tr_value] in Hv.
  eapply steps_bind; [by apply read_steps|]. intros n h2 G2 _. eapply steps_bind; [apply steps_res|]. intros nonce h3 G3 _.
  eapply steps_bind with (R1 := fun _ _ => True).
  { unfold gas_for. destruct (js_truthy (tr_gas _)); [by eapply steps_any, steps_res|].
    eapply steps_bind; [by apply read_steps|]. intros r h4 G4 _. eapply steps_bind; [apply steps_res|]. intros est h5 G5 _. by apply steps_ret. }
  intros gas h4 G4 _. eapply steps_bind with (R1 := fun _ _ => True).
  { unfold priority_fee. eapply steps_bind; [apply steps_attempt with (R := fun _ _ => True); eapply steps_bind; [by apply read_steps|]|].
    - intros x h5 G5 _. by eapply steps_any, steps_res.
    - intros r h5 G5 _. by apply steps_ret. }
  intros priority h5 G5 _. eapply steps_bind; [by apply read_steps|]. intros block h6 G6 _.
  eapply steps_bind; [apply steps_res|]. intros baseFee h7 G7 _. eapply steps_bind; [apply steps_res|]. intros raw h8 G8 Hraw.
  apply rpc_steps. intros chain' h9 E9 G9. rewrite Hch in E9. injection E9 as <-. right. split; [done|].
  assert (grew h h9) as G.
  { transitivity h1; [done|]. transitivity h2; [done|]. transitivity h3; [done|]. transitivity h4; [done|].
    transitivity h5; [done|]. transitivity h6; [done|]. transitivity h7; [done|]. by transitivity h8. }
  split; [|by eauto with worker]. eexists a, _, raw, _, _. split; [done|]. split; [exact Hraw|]. cbn [f_chainId f_to f_value f_data tr_to tr_data].
  split; [by eauto with worker|]. split; [by unfold evm_send_screen in Hap; eauto with worker|].
  split_and!; try reflexivity; [done|by intros Hz; apply shown_wei_exact|].
  unfold plain_data. destruct (_ && _) eqn:Ed; [right|left]; reflexivity.
Qed.

(** ** The methods *)

(** What an answer means. *)
Definition evm_answered (method : units) (h : wh) (r : EvmResult) : Prop :=
  match r with
  | EvmErr _ _ => True
  | EvmOk v =>
      (method = u "personal_sign" -> exists a chain msg sig, v = JStr sig /\ account h a /\ evm_connected h
         /\ approved h ApEvmPersonalSign origin
              (ShowPayload [field "address" (JStr (ea_address a)); field "chain" (JStr (cc_name chain));
                            field "message" (JStr (decodeSignMessage msg)); field "raw" (JStr msg)] None None)
         /\ eip191_sign (if starts_0x msg then inr (evmHexToBytes msg) else inl msg) (ea_privateKey a) = Ok sig)
      /\ (method = u "eth_accounts" -> v = JArr [] \/ evm_connected h)
  end.

Lemma with_account_spec k s h R : (forall c m h', R h' (EvmErr c m)) ->
  (forall a s' h', grew h h' -> account h' a -> evm_connected h' -> ewp (k a) s' h' (fine R)) -> ewp (with_account origin k) s h (fine R).
Proof.
  intros Hr Hk. eapply fine_bind; [apply getEvmAccount_steps|]. intros [a|] s1 h1 G1 Ha; [|apply wp_ret; by intros ? [= <-]].
  eapply fine_bind; [apply getEvmOrigins_steps|]. intros l s2 h2 G2 Hl. destruct (includes origin l) eqn:Ei; [|apply wp_ret; by intros ? [= <-]].
  apply Hk; [by transitivity h1|eapply account_grew; [done|by apply Ha]|]. destruct Hl as [->|Hl]; [done|by exists l].
Qed.

Lemma personalSign_spec chain params s h : ewp (on_personalSign chain origin params) s h (fine (evm_answered (u "personal_sign"))).
Proof.
  apply with_account_spec; [done|]. intros a s1 h1 G1 Ha Hc. eapply fine_bind; [apply steps_res|]. intros first s2 h2 G2 _.
  eapply fine_bind with (R1 := fun _ _ => True).
  { destruct (units_eqb _ _); [|by apply steps_ret]. by eapply steps_any, steps_res. }
  intros msg s3 h3 G3 _. eapply fine_bind; [apply steps_approval|]. intros ok s4 h4 G4 Hap. destruct ok; cbn [negb]; [|apply wp_ret; by intros ? [= <-]].
  eapply fine_bind; [apply steps_res|]. intros sig s5 h5 G5 Hsig. apply wp_ret. intros r [= <-]. split; [|done]. intros _.
  assert (grew h1 h5) by (transitivity h2; [done|]; transitivity h3; [done|]; by transitivity h4).
  exists a, chain, msg, sig. split; [done|]. split_and!; eauto with worker.
Qed.

Lemma sendEvm_spec chain params s h : CHAINS (cc_chainId chain) = Some chain ->
  ewp (on_sendEvm chain origin params) s h (fine (evm_answered (u "eth_sendTransaction"))).
Proof.
  intros Hch. apply with_account_spec; [done|]. intros a s1 h1 G1 Ha Hc. cbv zeta. destruct (js_truthy _) eqn:Eto; cbn [negb]; [|apply wp_ret; by intros ? [= <-]].
  eapply fine_bind; [apply steps_approval|]. intros ok s2 h2 G2 Hap. destruct ok; cbn [negb]; [|apply wp_ret; by intros ? [= <-]].
  eapply fine_bind; [apply steps_attempt, fill_steps; eauto with worker|]. intros r s3 h3 G3 _. apply wp_ret. intros x [= <-].
  destruct r; [|done]. split; discriminate.
Qed.

Lemma emit_steps tab e v h : steps (emitEvm tab e v) h (fun _ _ => True).
Proof. destruct tab; [|by apply steps_ret]. by apply (steps_any _ _ _ (steps_ask (EmitEvm z e v) h eq_refl Logic.I)). Qed.

Lemma addOrigin_steps h p : approved h ApEvmConnect origin (ShowPayload p None None) -> steps (addEvmOrigin origin) h (fun _ _ => True).
Proof.
  intros Hap. eapply steps_bind; [apply getEvmOrigins_steps|]. intros l h1 G1 Hl. destruct (includes origin l); [by apply steps_ret|].
  eapply steps_any, (steps_ask (SaveOrigins (l ++ [origin]))); [done|]. split; [exists p; by eauto with worker|by exists l].
Qed.

Lemma requestAccounts_spec chain tab s h : ewp (on_requestAccounts chain origin tab) s h (fine (evm_answered (u "eth_requestAccounts"))).
Proof.
  eapply fine_bind; [apply getEvmAccount_steps|]. intros [a|] s1 h1 G1 Ha; [|apply wp_ret; by intros ? [= <-]].
  eapply fine_bind; [apply getEvmOrigins_steps|]. intros l s2 h2 G2 Hl. eapply fine_bind with (R1 := fun _ _ => True).
  { destruct (includes origin l); [by apply steps_ret|]. eapply steps_bind; [apply steps_approval|]. intros ok h3 G3 Hap.
    destruct ok; [|by apply steps_ret]. eapply steps_bind; [by eapply addOrigin_steps, Hap|]. intros [] h4 G4 _. by apply steps_ret. }
  intros refused s3 h3 G3 _. destruct refused; [apply wp_ret; by intros ? [= <-]|].
  eapply fine_bind; [apply emit_steps|]. intros [] s4 h4 G4 _. eapply fine_bind; [apply emit_steps|]. intros [] s5 h5 G5 _.
  apply wp_ret. intros x [= <-]. split; discriminate.
Qed.

Lemma switchChain_spec params tab m s h : m <> u "personal_sign" -> m <> u "eth_accounts" -> ewp (on_switchChain params tab) s h (fine (evm_answered m)).
Proof.
  intros Hm Hm'. eapply fine_bind; [apply steps_res|]. intros t s1 h1 G1 _. destruct (parseInt_radix 16 t) as [z|]; [|apply wp_ret; by intros ? [= <-]].
  destruct (CHAINS z) as [c|] eqn:Ec; [|apply wp_ret; by intros ? [= <-]]. eapply fine_bind; [apply (steps_ask (SaveEvmChain z)); [done|]|].
  - cbn. unfold isSupportedChain. by rewrite Ec.
  - intros [] s2 h2 G2 _. eapply fine_bind; [apply emit_steps|]. intros [] s3 h3 G3 _. apply wp_ret. by intros x [= <-].
Qed.

Lemma accounts_spec s h : ewp (on_accounts origin) s h (fine (evm_answered (u "eth_accounts"))).
Proof.
  eapply fine_bind; [apply getEvmOrigins_steps|]. intros l s1 h1 G1 Hl. destruct (includes origin l) eqn:Ei; cbn [negb].
  - eapply fine_bind; [apply getEvmAccount_steps|]. intros acct s2 h2 G2 _. apply wp_ret. intros x [= <-]. split; [discriminate|].
    intros _. right. eapply evm_connected_grew; [done|]. destruct Hl as [->|Hl]; [done|by exists l].
  - apply wp_ret. intros x [= <-]. split; [discriminate|by left].
Qed.

Lemma handleEvm_spec method params tab s h : ewp (handleEvmRequest method params origin tab) s h (fine (evm_answered method)).
Proof.
  unfold handleEvmRequest. cbv zeta. set (ps := match params with JArr l => l | _ => [] end).
  eapply fine_bind with (R1 := fun _ _ => True).
  { eapply steps_bind; [apply (steps_ask LocalEvmChain); done|]. intros c h' G _. by apply steps_ret. }
  intros cid s1 h1 G1 _. eapply fine_bind; [apply steps_res|]. intros chain s2 h2 G2 Hc. unfold getChain, from_option in Hc.
  destruct (CHAINS cid) as [ch|] eqn:Ec; [|done]. injection Hc as ->. destruct (chain_id cid chain Ec) as [_ Hch].
  unfold is_method. destruct (units_eqb method (u "eth_chainId")) eqn:E1.
  { apply units_eqb_true in E1 as ->. apply wp_ret. intros x [= <-]. split; discriminate. }
  destruct (units_eqb method (u "net_version")) eqn:E2.
  { apply units_eqb_true in E2 as ->. apply wp_ret. intros x [= <-]. split; discriminate. }
  destruct (units_eqb method (u "eth_accounts")) eqn:E3; [apply units_eqb_true in E3 as ->; apply accounts_spec|].
  destruct (units_eqb method (u "eth_requestAccounts")) eqn:E4; [apply units_eqb_true in E4 as ->; apply requestAccounts_spec|].
  destruct (units_eqb method (u "wallet_switchEthereumChain") || units_eqb method (u "wallet_addEthereumChain")) eqn:E5.
  { apply switchChain_spec; intros ->; discriminate E5. }
  destruct (units_eqb method (u "personal_sign")) eqn:E6; [apply units_eqb_true in E6 as ->; apply personalSign_spec|].
  destruct (units_eqb method (u "eth_sendTransaction")) eqn:E7; [apply units_eqb_true in E7 as ->; by apply sendEvm_spec|].
  destruct (includes method blind_methods); [apply wp_ret; by intros ? [= <-]|].
  destruct (includes method READ_PROXY) eqn:E8; [|apply wp_ret; by intros ? [= <-]].
  eapply fine_bind; [apply steps_attempt, rpc_steps; intros; left; by apply includes_elem|].
  intros r s3 h3 G3 _. apply wp_ret. intros x [= <-]. destruct r; [|done].
  split; intros ->; [discriminate E6|discriminate E3].
Qed.
End Evm.

Section Claims.
Context `{E : EvmLib} `{U : Unicode}.
Variable URL : units -> res url.
Variable runtime_id : units.

(** C13 Nothing is sent on Base behind the user's back.  In every run of the handler of a Base request,
    whatever the page sends, and whatever storage, the node and the user answer, it answers, and
    - the request comes from the https (or local) site that Chrome names, and every approval window names it;
    - a raw transaction is broadcast only to the node of a supported chain, for a connected site
      and an unlocked account, after the user approved a screen that named the account, the chain,
      the recipient and, in exact decimals, the amount that are signed, and said so when call data is signed;
    - every other request to the node is one of the read-only methods;
    - [personal_sign] answers with a signature only of the message the user approved; typed data and
      [eth_sign] are never signed;
    - a site is added to the connected sites only after the user approved it, and learns an address
      through [eth_accounts] only when connected. *)
Theorem base_sends_approved (e : env WorkerI) s method params sd :
  let p := evm_request URL runtime_id method params sd in
  match present (trustedOrigin URL runtime_id sd) with
  | None => trace e p s = [] /\ exists c m, outcome e p s = Ok (EvmErr c m)
  | Some origin => trusted URL runtime_id sd origin /\ guarded (evm_ok origin) (trace e p s)
      /\ exists r, outcome e p s = Ok r /\ evm_answered origin method (trace e p s) r
  end.
Proof.
  cbv zeta. unfold evm_request. destruct (present _) as [origin|] eqn:Et; [|split; [done|by eexists _, _]].
  apply present_some, trustedOrigin_spec in Et. split; [done|]. set (p := bind _ _).
  assert (wp (evm_ok origin) anything p s [] (fun o s' h' => exists r, o = Ok r /\ evm_answered origin method h' r)) as Hw.
  { subst p. apply wp_bind, wp_attempt. wp_apply (handleEvm_spec origin). intros o s' h' Ho. apply wp_ret.
    eexists. split; [done|]. destruct o; [by apply Ho|done]. }
  split; [by apply (wp_guarded _ e) in Hw|]. apply (wp_post _ e _ s _ Hw).
Qed.
End Claims.

(** ** Runs of both background handlers *)

Module WorkerDemo.
Import FinDemo AddressDemo SignerDemo.

Definition wallet : UnifiedWallet :=
  {| w_id := u "w"; w_signingPublicKey := Some (Finality.toHex [1; 2; 3]); w_signingPrivateKey := Some (Finality.toHex [1; 2; 3]);
     w_encryptionPublicKey := None; w_mnemonic := None |}.
Definition site (s : string) : ConnectedSite := {| cs_origin := u s; cs_connectedAt := num_of_Z 0 |}.
Definition old : ConnectedSite := site "https://old.example".
Definition game : ConnectedSite := site "https://game.example".
Definition page : sender := {| sd_id := u "ext"; sd_origin := Some (u "https://game.example"); sd_url := None; sd_tab := None |}.
Definition parse_url (s : units) : res url := Ok {| u_protocol := u "https:"; u_hostname := drop 8 s; u_origin := s |}.

Definition asked (h : history WorkerI) : bool :=
  existsb (fun e : event WorkerI => match e with Ev c _ => match (c : wk_cmd) with AskApproval _ => true | _ => false end end) h.

(** A world with a node on [reported]; the stored sites, and the network read first and second. *)
Definition world (sites : history WorkerI -> list ConnectedSite) (first second : option units) (reported : units) : env WorkerI :=
  fun h c => match c as c return res (wk_ans c) with
  | SessionWallet | LocalWallet => Ok (Some (Ok wallet))
  | LocalSites => Ok (Some (Ok (sites h)))
  | LocalOrigins => Ok None
  | SaveSites _ | SaveOrigins _ | SaveEvmChain _ | EmitEvm _ _ _ => Ok tt
  | LocalNetwork => Ok first
  | LocalConfig => Ok (None, second)
  | AskApproval _ => Ok true
  | HttpGet _ | HttpPost _ _ | RpcPost _ _ _ _ => Ok {| h_ok := true; h_status := 200; h_json := Ok (JObj [field "success" (JBool true); field "txId" (text "t1")]) |}
  | NodeChainId (FetchChainId _) => Ok (true, Ok (Some reported))
  | DateNow | LocalEvmChain => Ok (num_of_Z 1790000000000)
  | RandomUUID => Ok (u "0f8fad5b-d9cb-469f-a165-70867728950e")
  end.

Definition fresh : worker := {| wk_session := {| mismatches := []; checks := [] |}; approvalCounter := 0; rpcId := 0 |}.
Definition ask_for (m : string) (params : js) : prog WorkerI response := rougechain_request parse_url (u "ext") (u m) params page.
Definition pay : js := JObj [field "payload" (JObj [field "type" (text "transfer"); field "to" (text "bob"); field "amount" (JNum (num_of_Z 5))])].

Definition mainnet_world (sites : list ConnectedSite) : env WorkerI := world (fun _ => sites) None None MAINNET_CHAIN_ID.

(** A connected site gets its transaction sent; an unknown one is refused. *)
Example payment_sent : outcome (mainnet_world [game]) (ask_for "sendTransaction" pay) fresh = Ok (RSent [field "txId" (text "t1")]).
Proof. vm_compute. reflexivity. Qed.
Example stranger_refused : outcome (mainnet_world [old]) (ask_for "sendTransaction" pay) fresh = Ok (RError (text "Site not connected")).
Proof. vm_compute. reflexivity. Qed.
Example payment_signed : match outcome (mainnet_world [game]) (ask_for "signTransaction" pay) fresh with
  | Ok (RSigned t _ _ p) => prop "chainId" p = JStr MAINNET_CHAIN_ID /\ t = payload_text p | _ => False end.
Proof. vm_compute. by split. Qed.

(** The sites of the last write. *)
Fixpoint saved (h : history WorkerI) : option (list units) :=
  match h with
  | [] => None
  | Ev c _ :: r => match (c : wk_cmd) with SaveSites l => Some (map cs_origin l) | _ => saved r end
  end.

(** While the approval window of a new site is open the user removes [old]; the list read before
    the window opened is written back, and [old] is connected again. *)
Example removed_site_returns :
  let e := world (fun h => if asked h then [] else [old]) None None MAINNET_CHAIN_ID in
  outcome e (ask_for "connect" JUndef) fresh = Ok (RConnected (Finality.toHex [1; 2; 3]))
  /\ saved (trace e (ask_for "connect" JUndef) fresh) = Some [cs_origin old; cs_origin game].
Proof. split; vm_compute; reflexivity. Qed.

(** The network is read twice.  When the user switches to the test network in between, the main
    network's chain id is compared with the test network's node, and the main network is refused
    for the rest of the session, also after switching back. *)
Example switch_blocks_network :
  let racing := world (fun _ => [game]) None (Some (u "testnet")) TESTNET_CHAIN_ID in
  let s := final racing (ask_for "signTransaction" pay) fresh in
  outcome (mainnet_world [game]) (ask_for "signTransaction" pay) s = Ok (RError (text "CHAIN_ID_MISMATCH")).
Proof. vm_compute. reflexivity. Qed.

(** A toy library whose decoder reads one byte per character, and three bytes as U+202E. *)
#[export] Instance ToyEvm : EvmLib := {|
  validateMnemonic := fun _ => true; hd_private_key := fun _ => Ok (Some [1]); addr_fromPrivateKey := fun k => Ok k;
  eip191_sign := fun _ k => Ok k; eip1559_sign := fun _ k => Ok k;
  utf8_decode := fun b => if bool_decide (take 3 b = [0xe2; 0x80; 0xae]) then Some (0x202e :: drop 3 b) else Some b |}.

(** The preview shows a right-to-left override as text, not the hexadecimal bytes. *)
Example override_in_preview : decodeSignMessage (u "0xe280ae6c697665") = 0x202e :: u "live".
Proof. vm_compute. reflexivity. Qed.
End WorkerDemo.
