(* ===== verification/WalletKeys.v ===== *)
(** * Wallets and their keys ([UnifiedWallet] of the site and the extension,
    [src/packages/core/src/messaging-keys.ts])

    The wallet record, the check of its key sizes, the messaging key derived from the recovery
    phrase and the move of a stored wallet to it.  Empty texts are missing keys. *)
From S2P Require Import Prelude JsText JsNum JsUtf16 JsFloat LosslessJson.
Local Open Scope Z_scope.

Record UnifiedWallet := {
  uw_id : units; uw_displayName : units; uw_createdAt : number;
  uw_signingPublicKey : units; uw_signingPrivateKey : units; uw_encryptionPublicKey : units; uw_encryptionPrivateKey : units;
  uw_legacyEncryptionPublicKey : units; uw_legacyEncryptionPrivateKey : units;
  uw_version : Z; uw_mnemonic : units; uw_avatarUrl : units;
}.

Definition ML_DSA65_SECRET_KEY_BYTES : Z := 4032.
Definition ML_DSA65_PUBLIC_KEY_BYTES : Z := 1952.
Definition ML_KEM768_SECRET_KEY_BYTES : Z := 2400.

(** [s.length / 2 === n]. *)
Definition has_bytes (n : Z) (s : units) : bool := Z.of_nat (length s) =? 2 * n.

Record keypair := { kp_public : units; kp_private : units }.

Definition set_signing (k : keypair) (w : UnifiedWallet) : UnifiedWallet :=
  {| uw_id := uw_id w; uw_displayName := uw_displayName w; uw_createdAt := uw_createdAt w;
     uw_signingPublicKey := kp_public k; uw_signingPrivateKey := kp_private k;
     uw_encryptionPublicKey := uw_encryptionPublicKey w; uw_encryptionPrivateKey := uw_encryptionPrivateKey w;
     uw_legacyEncryptionPublicKey := uw_legacyEncryptionPublicKey w; uw_legacyEncryptionPrivateKey := uw_legacyEncryptionPrivateKey w;
     uw_version := uw_version w; uw_mnemonic := uw_mnemonic w; uw_avatarUrl := uw_avatarUrl w |}.
Definition set_encryption (k : keypair) (w : UnifiedWallet) : UnifiedWallet :=
  {| uw_id := uw_id w; uw_displayName := uw_displayName w; uw_createdAt := uw_createdAt w;
     uw_signingPublicKey := uw_signingPublicKey w; uw_signingPrivateKey := uw_signingPrivateKey w;
     uw_encryptionPublicKey := kp_public k; uw_encryptionPrivateKey := kp_private k;
     uw_legacyEncryptionPublicKey := uw_legacyEncryptionPublicKey w; uw_legacyEncryptionPrivateKey := uw_legacyEncryptionPrivateKey w;
     uw_version := uw_version w; uw_mnemonic := uw_mnemonic w; uw_avatarUrl := uw_avatarUrl w |}.
Definition set_legacy (k : keypair) (w : UnifiedWallet) : UnifiedWallet :=
  {| uw_id := uw_id w; uw_displayName := uw_displayName w; uw_createdAt := uw_createdAt w;
     uw_signingPublicKey := uw_signingPublicKey w; uw_signingPrivateKey := uw_signingPrivateKey w;
     uw_encryptionPublicKey := uw_encryptionPublicKey w; uw_encryptionPrivateKey := uw_encryptionPrivateKey w;
     uw_legacyEncryptionPublicKey := kp_public k; uw_legacyEncryptionPrivateKey := kp_private k;
     uw_version := uw_version w; uw_mnemonic := uw_mnemonic w; uw_avatarUrl := uw_avatarUrl w |}.
Definition set_version (n : Z) (w : UnifiedWallet) : UnifiedWallet :=
  {| uw_id := uw_id w; uw_displayName := uw_displayName w; uw_createdAt := uw_createdAt w;
     uw_signingPublicKey := uw_signingPublicKey w; uw_signingPrivateKey := uw_signingPrivateKey w;
     uw_encryptionPublicKey := uw_encryptionPublicKey w; uw_encryptionPrivateKey := uw_encryptionPrivateKey w;
     uw_legacyEncryptionPublicKey := uw_legacyEncryptionPublicKey w; uw_legacyEncryptionPrivateKey := uw_legacyEncryptionPrivateKey w;
     uw_version := n; uw_mnemonic := uw_mnemonic w; uw_avatarUrl := uw_avatarUrl w |}.
Definition set_name (t : units) (w : UnifiedWallet) : UnifiedWallet :=
  {| uw_id := uw_id w; uw_displayName := t; uw_createdAt := uw_createdAt w;
     uw_signingPublicKey := uw_signingPublicKey w; uw_signingPrivateKey := uw_signingPrivateKey w;
     uw_encryptionPublicKey := uw_encryptionPublicKey w; uw_encryptionPrivateKey := uw_encryptionPrivateKey w;
     uw_legacyEncryptionPublicKey := uw_legacyEncryptionPublicKey w; uw_legacyEncryptionPrivateKey := uw_legacyEncryptionPrivateKey w;
     uw_version := uw_version w; uw_mnemonic := uw_mnemonic w; uw_avatarUrl := uw_avatarUrl w |}.

Definition no_text (s : units) : bool := bool_decide (s = []).

(** SHA-512 of the material and the ML-KEM-768 key generated from it. *)
Class KeyDerivation := {
  kem_of_material : units -> keypair;
  kem_size : forall m, has_bytes ML_KEM768_SECRET_KEY_BYTES (kp_private (kem_of_material m)) = true /\ kp_public (kem_of_material m) <> [];
}.

Section Messaging.
Context `{K : KeyDerivation}.

Definition deriveMessagingKeypair (mnemonic signingPrivateKeyHex : units) : res keypair :=
  let material := if no_text mnemonic then signingPrivateKeyHex else mnemonic in
  if no_text material then Err "a mnemonic or signing private key is required"
  else Ok (kem_of_material (material ++ u "|rougee-gram|kem-v1")).

Definition hasMessagingKeys (w : UnifiedWallet) : bool :=
  negb (no_text (uw_encryptionPublicKey w)) && negb (no_text (uw_encryptionPrivateKey w)) && has_bytes ML_KEM768_SECRET_KEY_BYTES (uw_encryptionPrivateKey w).

Definition withDerivedMessagingKeys (w : UnifiedWallet) : res UnifiedWallet :=
  if hasMessagingKeys w || no_text (uw_signingPrivateKey w) then Ok w else
  res_bind (deriveMessagingKeypair (uw_mnemonic w) (uw_signingPrivateKey w)) (fun k => Ok (set_encryption k w)).

Definition migrateToDerivedMessagingKeys (w : UnifiedWallet) : res UnifiedWallet :=
  if no_text (uw_mnemonic w) || no_text (uw_signingPrivateKey w) || negb (hasMessagingKeys w) then Ok w
  else if negb (no_text (uw_legacyEncryptionPrivateKey w)) then Ok w
  else
    res_bind (deriveMessagingKeypair (uw_mnemonic w) (uw_signingPrivateKey w)) (fun derived =>
    if units_eqb (kp_public derived) (uw_encryptionPublicKey w) then Ok w
    else Ok (set_legacy {| kp_public := uw_encryptionPublicKey w; kp_private := uw_encryptionPrivateKey w |} (set_encryption derived w))).

(** The messaging keys that open content sent to a wallet. *)
Definition opening_keys (w : UnifiedWallet) : list units := [uw_encryptionPrivateKey w; uw_legacyEncryptionPrivateKey w].

(** Deriving never throws, keeps every key that opens old content, leaves the wallet with a usable
    key, and a second time does nothing. *)
Lemma migrate_spec w : exists w', migrateToDerivedMessagingKeys w = Ok w'
  /\ (forall k, k <> [] -> k ∈ opening_keys w -> k ∈ opening_keys w')
  /\ uw_signingPrivateKey w' = uw_signingPrivateKey w /\ uw_signingPublicKey w' = uw_signingPublicKey w
  /\ (hasMessagingKeys w = true -> hasMessagingKeys w' = true)
  /\ migrateToDerivedMessagingKeys w' = Ok w'.
Proof.
  unfold migrateToDerivedMessagingKeys. destruct (no_text (uw_mnemonic w)) eqn:Em; cbn [orb]; [exists w; by rewrite Em|].
  destruct (no_text (uw_signingPrivateKey w)) eqn:Es; cbn [orb]; [exists w; rewrite ?Em; by rewrite Es|].
  destruct (hasMessagingKeys w) eqn:Eh; cbn [orb negb]; [|exists w; by rewrite Em, Es, Eh].
  destruct (no_text (uw_legacyEncryptionPrivateKey w)) eqn:El; cbn [negb]; [|exists w; by rewrite Em, Es, Eh, El].
  unfold deriveMessagingKeypair at 1. rewrite Em, Em. cbn [res_bind]. set (d := kem_of_material _). cbv zeta.
  destruct (units_eqb (kp_public d) (uw_encryptionPublicKey w)) eqn:Ed.
  { exists w. rewrite Em, Es, Eh, El. cbn [orb negb]. unfold deriveMessagingKeypair. rewrite Em, Em. cbn [res_bind]. cbv zeta. fold d. by rewrite Ed. }
  eexists. split; [reflexivity|]. split; [|split; [done|split; [done|split]]].
  - intros k Hk. unfold opening_keys, no_text in *. apply bool_decide_eq_true in El. rewrite El. cbn. rewrite !elem_of_cons. intros [->|[->|?%elem_of_nil]]; [auto|done..].
  - intros _. unfold hasMessagingKeys. cbn. destruct (kem_size (uw_mnemonic w ++ u "|rougee-gram|kem-v1")) as [Hs Hp]. fold d in Hs, Hp.
    rewrite Hs, andb_true_r. unfold no_text. rewrite !bool_decide_false; [done| |done]. intros E. by rewrite E in Hs.
  - cbn. rewrite Em, Es. cbn [orb].
    assert (no_text (uw_encryptionPrivateKey w) = false) as ->.
    { unfold hasMessagingKeys in Eh. rewrite !andb_true_iff, !negb_true_iff in Eh. apply Eh. }
    by destruct (negb _).
Qed.
End Messaging.
