(* ===== verification/ExtVault.v ===== *)
(** * The wallet vault of the extension ([src/apps/extension/src/lib/unified-wallet.ts], [storage.ts])

    One or more wallets under a password.  Storage is the popup's cache over the two areas of
    [chrome.storage]: the decrypted wallet and vault go to the session area (memory), the rest to
    the local area (disk).  Documents are typed: [JSON.stringify] and [JSON.parse] of them are left
    out, a document that does not parse is a missing one.  Writes to an area may fail and are
    ignored, as in the code.  New signing keys, salts and the outcome of writes are commands. *)
From S2P Require Import Prelude JsText JsNum JsUtf16 JsFloat LosslessJson Interact Finality TxSigner WalletKeys.
Local Open Scope Z_scope.

Record WalletVault := { v_wallets : list UnifiedWallet; v_activeId : units }.
Record Metadata := { md_displayName : units; md_signingPublicKey : units }.

(** The text [{ salt, iv, data }] of an encrypted vault, in hexadecimal. *)
Record blob := { b_salt : units; b_iv : units; b_data : units }.

(** What an encrypted blob holds: a vault, or a wallet of an older build. *)
Inductive secret := SVault (v : WalletVault) | SWallet (w : UnifiedWallet).

(** ** Storage *)

Record area := {
  a_wallet : option UnifiedWallet; a_vault : option WalletVault; a_metadata : option Metadata;
  a_encrypted : option blob; a_activeId : option units; a_autoLock : option number;
}.
Definition no_area : area := {| a_wallet := None; a_vault := None; a_metadata := None; a_encrypted := None; a_activeId := None; a_autoLock := None |}.

(** One change of an area. *)
Inductive edit :=
| EWallet (w : option UnifiedWallet) | EVault (v : option WalletVault) | EMetadata (m : option Metadata)
| EEncrypted (b : option blob) | EActiveId (i : option units) | EAutoLock (n : option number).

Definition apply_edit (e : edit) (a : area) : area :=
  {| a_wallet := match e with EWallet w => w | _ => a_wallet a end;
     a_vault := match e with EVault v => v | _ => a_vault a end;
     a_metadata := match e with EMetadata m => m | _ => a_metadata a end;
     a_encrypted := match e with EEncrypted b => b | _ => a_encrypted a end;
     a_activeId := match e with EActiveId i => i | _ => a_activeId a end;
     a_autoLock := match e with EAutoLock n => n | _ => a_autoLock a end |}.

(** [SESSION_KEYS]. *)
Definition session_key (e : edit) : bool := match e with EWallet _ | EVault _ => true | _ => false end.

Record storage := { cache : area; session_area : option area; local_area : area }.

Inductive vault_cmd := KeygenSigning | RandomBytes (n : nat) | AreaWrite (e : edit).
Definition VaultI : iface := {| st := storage; cmd := vault_cmd; ans := fun c =>
  match c with KeygenSigning => keypair | RandomBytes _ => list Z | AreaWrite _ => unit end |}.

Definition vask (c : vault_cmd) : prog VaultI (ans VaultI c) := @call VaultI c.
Definition vget : prog VaultI storage := @get VaultI.
Definition vput (s : storage) : prog VaultI unit := @put VaultI s.

Local Open Scope prog_scope.

(** The area a key is routed to, after a write. *)
Definition route (e : edit) (s : storage) : storage :=
  match session_area s with
  | Some a => if session_key e then {| cache := cache s; session_area := Some (apply_edit e a); local_area := local_area s |}
              else {| cache := cache s; session_area := session_area s; local_area := apply_edit e (local_area s) |}
  | None => {| cache := cache s; session_area := session_area s; local_area := apply_edit e (local_area s) |}
  end.

(** [setItem] and [removeItem]: the cache first, then the area. *)
Definition edit_item (e : edit) : prog VaultI unit :=
  let! s := vget in
  do! vput {| cache := apply_edit e (cache s); session_area := session_area s; local_area := local_area s |} in
  let! r := attempt (vask (AreaWrite e)) in
  match r with
  | Ok _ => let! s := vget in vput (route e s)
  | Err _ => Ret tt
  end.

(** [purgeLocalKey(UNIFIED_WALLET_KEY)]. *)
Definition purgeLocalWallet : prog VaultI unit :=
  let! r := attempt (vask (AreaWrite (EWallet None))) in
  match r with
  | Ok _ => let! s := vget in
            vput {| cache := cache s; session_area := session_area s; local_area := apply_edit (EWallet None) (local_area s) |}
  | Err _ => Ret tt
  end.

(** [initStorage]: the local area, overlaid with the session area. *)
Definition overlay {A} (a b : option A) : option A := match a with Some x => Some x | None => b end.
Definition initStorage : prog VaultI unit :=
  let! s := vget in
  let l := local_area s in
  let c := match session_area s with
           | None => l
           | Some a => {| a_wallet := overlay (a_wallet a) (a_wallet l); a_vault := overlay (a_vault a) (a_vault l);
                          a_metadata := overlay (a_metadata a) (a_metadata l); a_encrypted := overlay (a_encrypted a) (a_encrypted l);
                          a_activeId := overlay (a_activeId a) (a_activeId l); a_autoLock := overlay (a_autoLock a) (a_autoLock l) |}
           end in
  vput {| cache := c; session_area := session_area s; local_area := l |}.

(** ** Keys and encryption *)

(** PBKDF2 of a password, and AES-GCM of the text of a document under it. *)
Class VaultCrypto := {
  pbkdf2 : units -> list Z -> Z -> list Z;
  aes_seal : list Z -> list Z -> secret -> list Z;
  aes_open : list Z -> list Z -> list Z -> res secret;
}.

Section Vault.
Context `{K : KeyDerivation} `{VC : VaultCrypto}.

Definition signing_ok (w : UnifiedWallet) : bool :=
  has_bytes ML_DSA65_SECRET_KEY_BYTES (uw_signingPrivateKey w) && has_bytes ML_DSA65_PUBLIC_KEY_BYTES (uw_signingPublicKey w).

Definition ensureCorrectKeys (wallet : UnifiedWallet) : prog VaultI UnifiedWallet :=
  let! w1 := (if signing_ok wallet then Ret wallet else let! k := vask KeygenSigning in Ret (set_signing k wallet)) in
  let! w2 := (if hasMessagingKeys w1 then Ret w1
              else let! k := of_res (deriveMessagingKeypair (uw_mnemonic w1) (uw_signingPrivateKey w1)) in Ret (set_encryption k w1)) in
  Ret (if signing_ok wallet && hasMessagingKeys w1 then w2 else set_version 4 w2).

Definition encryptWallet (d : secret) (password : units) : prog VaultI blob :=
  let! salt := vask (RandomBytes 16) in
  let! iv := vask (RandomBytes 12) in
  Ret {| b_salt := bytesToHex salt; b_iv := bytesToHex iv; b_data := bytesToHex (aes_seal (pbkdf2 password salt 600000) iv d) |}.

Definition decryptWallet (b : blob) (password : units) : res secret :=
  let salt := hexToBytes (b_salt b) in
  let iv := hexToBytes (b_iv b) in
  let data := hexToBytes (b_data b) in
  match aes_open (pbkdf2 password salt 600000) iv data with
  | Ok d => Ok d
  | Err _ => match aes_open (pbkdf2 password salt 100000) iv data with
             | Ok d => Ok d
             | Err _ => Err "Decryption failed"
             end
  end.

(** ** Reading *)

Definition getVaultSettings : prog VaultI number := let! s := vget in Ret (default (num_of_Z 5) (a_autoLock (cache s))).
Definition saveVaultSettings (minutes : number) : prog VaultI unit := edit_item (EAutoLock (Some minutes)).

Definition isWalletLocked (s : storage) : bool :=
  match a_wallet (cache s), a_encrypted (cache s) with None, Some _ => true | _, _ => false end.
Definition hasEncryptedWallet (s : storage) : bool := match a_encrypted (cache s) with Some _ => true | None => false end.
Definition hasWallet (s : storage) : bool := match a_wallet (cache s), a_encrypted (cache s) with None, None => false | _, _ => true end.
Definition getLockedWalletMetadata (s : storage) : option Metadata := a_metadata (cache s).
Definition getVaultSession (s : storage) : option WalletVault := a_vault (cache s).

Definition same_keys (a b : UnifiedWallet) : bool :=
  (uw_version a =? uw_version b) && units_eqb (uw_signingPublicKey a) (uw_signingPublicKey b) && units_eqb (uw_encryptionPublicKey a) (uw_encryptionPublicKey b).

Definition saveUnifiedWallet (wallet : UnifiedWallet) : prog VaultI unit :=
  let! w := ensureCorrectKeys wallet in edit_item (EWallet (Some w)).

Definition loadUnifiedWallet : prog VaultI (option UnifiedWallet) :=
  let! s := vget in
  match a_wallet (cache s) with
  | None => Ret None
  | Some wallet =>
      let! r := attempt (let! w := ensureCorrectKeys wallet in
                         do! (if same_keys w wallet then Ret tt else edit_item (EWallet (Some w))) in Ret w) in
      Ret (match r with Ok w => Some w | Err _ => None end)
  end.

(** [v.wallets.find(w => w.id === v.activeId) ?? v.wallets[0]]. *)
Definition find_wallet (id : units) (l : list UnifiedWallet) : option UnifiedWallet := List.find (fun w => units_eqb (uw_id w) id) l.
Definition active_of (v : WalletVault) : option UnifiedWallet := overlay (find_wallet (v_activeId v) (v_wallets v)) (head (v_wallets v)).

Definition getActiveWallet : prog VaultI (option UnifiedWallet) :=
  let! s := vget in
  match getVaultSession s with Some v => Ret (active_of v) | None => loadUnifiedWallet end.

(** [id], name, key and whether active. *)
Definition listVaultWallets : prog VaultI (list (units * units * units * bool)) :=
  let! s := vget in
  match getVaultSession s with
  | Some v => Ret (map (fun w => (uw_id w, uw_displayName w, uw_signingPublicKey w, units_eqb (uw_id w) (v_activeId v))) (v_wallets v))
  | None => let! w := loadUnifiedWallet in
            Ret (match w with Some w => [(uw_id w, uw_displayName w, uw_signingPublicKey w, true)] | None => [] end)
  end.

(** ** The vault *)

Definition loadVaultIntoSession (v : WalletVault) : prog VaultI unit :=
  do! edit_item (EVault (Some v)) in
  match active_of v with
  | Some a => do! edit_item (EActiveId (Some (uw_id a))) in saveUnifiedWallet a
  | None => Ret tt
  end.

Fixpoint ensure_all (l : list UnifiedWallet) : prog VaultI (list UnifiedWallet) :=
  match l with
  | [] => Ret []
  | w :: r => let! x := ensureCorrectKeys w in let! xs := ensure_all r in Ret (x :: xs)
  end.

Definition persistVault (v : WalletVault) (password : units) : prog VaultI unit :=
  let! ws := ensure_all (v_wallets v) in
  let clean := {| v_wallets := ws; v_activeId := v_activeId v |} in
  let! b := encryptWallet (SVault clean) password in
  do! edit_item (EEncrypted (Some b)) in
  match active_of clean with
  | Some a => edit_item (EMetadata (Some {| md_displayName := uw_displayName a; md_signingPublicKey := uw_signingPublicKey a |}))
  | None => Ret tt
  end.

(** Locking, by the user or by the popup. *)
Definition lockUnifiedWallet : prog VaultI unit := do! edit_item (EWallet None) in edit_item (EVault None).
Definition autoLockWallet : prog VaultI unit := lockUnifiedWallet.

Definition unlockUnifiedWallet (password : units) : prog VaultI (option UnifiedWallet) :=
  let! s := vget in
  match a_encrypted (cache s) with
  | None => Throw "No encrypted wallet found"
  | Some b =>
      let! d := of_res (decryptWallet b password) in
      let! v := match d with
                | SVault v => Ret v
                | SWallet w =>
                    let! x := ensureCorrectKeys w in
                    let v := {| v_wallets := [x]; v_activeId := uw_id x |} in
                    do! persistVault v password in Ret v
                end in
      let! s := vget in
      let saved := default [] (a_activeId (cache s)) in
      let v := if negb (no_text saved) && existsb (fun w => units_eqb (uw_id w) saved) (v_wallets v)
               then {| v_wallets := v_wallets v; v_activeId := saved |} else v in
      do! loadVaultIntoSession v in
      getActiveWallet
  end.

Definition setActiveWallet (id : units) : prog VaultI (option UnifiedWallet) :=
  let! s := vget in
  match getVaultSession s with
  | None => Ret None
  | Some v =>
      match find_wallet id (v_wallets v) with
      | None => Ret None
      | Some a =>
          do! edit_item (EVault (Some {| v_wallets := v_wallets v; v_activeId := id |})) in
          do! edit_item (EActiveId (Some id)) in
          do! saveUnifiedWallet a in
          Ret (Some a)
      end
  end.

Definition has_key (pk : units) (l : list UnifiedWallet) : bool := existsb (fun x => units_eqb (uw_signingPublicKey x) pk) l.

Definition addWalletToVault (wallet : UnifiedWallet) (password : units) : prog VaultI WalletVault :=
  let! s := vget in
  let v := default {| v_wallets := []; v_activeId := [] |} (getVaultSession s) in
  let! w := ensureCorrectKeys wallet in
  let v := {| v_wallets := if has_key (uw_signingPublicKey w) (v_wallets v) then v_wallets v else v_wallets v ++ [w]; v_activeId := uw_id w |} in
  do! persistVault v password in
  do! loadVaultIntoSession v in
  Ret v.

Definition removeWalletFromVault (id password : units) : prog VaultI WalletVault :=
  let! s := vget in
  match getVaultSession s with
  | None => Throw "Vault is locked"
  | Some v =>
      if (length (v_wallets v) <=? 1)%nat then Throw "Can't remove your only wallet" else
      let ws := List.filter (fun w => negb (units_eqb (uw_id w) id)) (v_wallets v) in
      let! active := (if units_eqb (v_activeId v) id then match ws with w :: _ => Ret (uw_id w) | [] => Throw "TypeError" end else Ret (v_activeId v)) in
      let v := {| v_wallets := ws; v_activeId := active |} in
      do! persistVault v password in
      do! loadVaultIntoSession v in
      Ret v
  end.

(** The first wallet with the id gets the name. *)
Fixpoint rename_first (id name : units) (l : list UnifiedWallet) : list UnifiedWallet :=
  match l with
  | [] => []
  | w :: r => if units_eqb (uw_id w) id then set_name name w :: r else w :: rename_first id name r
  end.

Definition renameWalletInVault (id name password : units) : prog VaultI unit :=
  let! s := vget in
  match getVaultSession s with
  | None => Throw "Vault is locked"
  | Some v =>
      match find_wallet id (v_wallets v) with
      | None => Throw "Wallet not found"
      | Some _ =>
          let v := {| v_wallets := rename_first id name (v_wallets v); v_activeId := v_activeId v |} in
          do! persistVault v password in loadVaultIntoSession v
      end
  end.

Definition persistNewWallet (wallet : UnifiedWallet) (password : units) : prog VaultI unit :=
  if (length password <? 8)%nat then Throw "Password must be at least 8 characters" else
  let! w := ensureCorrectKeys wallet in
  let! s := vget in
  match getVaultSession s with
  | Some _ => do! addWalletToVault w password in Ret tt
  | None => let v := {| v_wallets := [w]; v_activeId := uw_id w |} in
            do! persistVault v password in loadVaultIntoSession v
  end.

Definition needsEncryptionMigration : prog VaultI bool :=
  let! s := vget in
  if hasEncryptedWallet s then Ret false else
  let! w := loadUnifiedWallet in Ret (match w with Some _ => true | None => false end).

Definition migrateToEncrypted (password : units) : prog VaultI UnifiedWallet :=
  let! w := loadUnifiedWallet in
  match w with
  | None => Throw "No wallet to migrate"
  | Some w => do! persistNewWallet w password in do! purgeLocalWallet in Ret w
  end.

Definition clearUnifiedWallet : prog VaultI unit :=
  do! edit_item (EWallet None) in do! edit_item (EMetadata None) in edit_item (EEncrypted None).

Definition getBlockchainWallet : prog VaultI (option (units * units)) :=
  let! w := loadUnifiedWallet in Ret ((fun w => (uw_signingPublicKey w, uw_signingPrivateKey w)) <$> w).
End Vault.
