(* ===== verification/VaultClaims.v ===== *)
(** * The extension's vault keeps the wallets it is given

    The keys stay off the disk; and, with one password, the encrypted vault, the session and the
    active wallet follow a plain list of wallets through every sequence of operations. *)
From S2P Require Import Prelude JsText JsNum JsUtf16 JsFloat LosslessJson Interact Finality TxSigner TxSignerClaims WalletKeys ExtVault.
Local Open Scope Z_scope.

Section Vault.
Context `{K : KeyDerivation} `{VC : VaultCrypto}.

(** ** Keys stay off the disk *)

Inductive vault_op :=
| OpNew (w : UnifiedWallet) (pw : units) | OpAdd (w : UnifiedWallet) (pw : units) | OpRemove (id pw : units)
| OpRename (id name pw : units) | OpActive (id : units) | OpLock | OpUnlock (pw : units) | OpLoad | OpList
| OpSave (w : UnifiedWallet) | OpSettings (n : number) | OpMigrate (pw : units) | OpClear | OpInit.

Definition ignore {A} (p : prog VaultI A) : prog VaultI unit := bind p (fun _ => Ret tt).

Definition run_op (o : vault_op) : prog VaultI unit :=
  match o with
  | OpNew w pw => persistNewWallet w pw
  | OpAdd w pw => ignore (addWalletToVault w pw)
  | OpRemove id pw => ignore (removeWalletFromVault id pw)
  | OpRename id name pw => renameWalletInVault id name pw
  | OpActive id => ignore (setActiveWallet id)
  | OpLock => lockUnifiedWallet
  | OpUnlock pw => ignore (unlockUnifiedWallet pw)
  | OpLoad => ignore getActiveWallet
  | OpList => ignore listVaultWallets
  | OpSave w => saveUnifiedWallet w
  | OpSettings n => saveVaultSettings n
  | OpMigrate pw => ignore (migrateToEncrypted pw)
  | OpClear => clearUnifiedWallet
  | OpInit => initStorage
  end.

(** A sequence of operations; an operation that throws is over. *)
Fixpoint run_ops (os : list vault_op) : prog VaultI unit :=
  match os with [] => Ret tt | o :: r => bind (attempt (run_op o)) (fun _ => run_ops r) end.

Notation vwp := (wp (I := VaultI) (fun _ _ => True) anything).

(** There is a session area, and the disk holds no key material that was not there before. *)
Definition off_disk (l0 : area) (s : storage) : Prop :=
  session_area s <> None
  /\ (a_wallet (local_area s) = None \/ a_wallet (local_area s) = a_wallet l0)
  /\ (a_vault (local_area s) = None \/ a_vault (local_area s) = a_vault l0).

Definition keeps {A} (l0 : area) (p : prog VaultI A) : Prop := forall s h, off_disk l0 s -> vwp p s h (fun _ s' _ => off_disk l0 s').

Lemma keeps_bind {A B} l0 (p : prog VaultI A) (f : A -> prog VaultI B) : keeps l0 p -> (forall a, keeps l0 (f a)) -> keeps l0 (bind p f).
Proof. intros Hp Hf s h Hs. apply wp_bind. wp_apply Hp; [|done]. intros [a|e] s' h' Hs'; [by apply Hf|done]. Qed.
Lemma keeps_attempt {A} l0 (p : prog VaultI A) : keeps l0 p -> keeps l0 (attempt p).
Proof. intros Hp s h Hs. apply wp_attempt. by wp_apply Hp. Qed.
Lemma keeps_ret {A} l0 (a : A) : keeps l0 (Ret a).
Proof. by intros s h Hs. Qed.
Lemma keeps_throw {A} l0 m : keeps l0 (Throw m : prog VaultI A).
Proof. by intros s h Hs. Qed.
Lemma keeps_res {A} l0 (r : res A) : keeps l0 (of_res r).
Proof. destruct r; [apply keeps_ret|apply keeps_throw]. Qed.
Lemma keeps_ask l0 c : keeps l0 (vask c).
Proof. intros s h Hs. apply (wp_call (I := VaultI)); [done|]. by intros r _. Qed.
Lemma keeps_get l0 : keeps l0 vget.
Proof. intros s h Hs. by apply (wp_get (I := VaultI)). Qed.
Hint Resolve keeps_ret keeps_throw keeps_res keeps_ask keeps_get : keeps.

Lemma keeps_edit l0 e : keeps l0 (edit_item e).
Proof.
  intros s h (Hn & Hw & Hv). unfold edit_item. apply wp_bind, (wp_get (I := VaultI)), wp_bind, (wp_put (I := VaultI)), wp_bind, wp_attempt.
  apply (wp_call (I := VaultI)); [done|]. intros [[]|m] _; [|done]. apply wp_bind, (wp_get (I := VaultI)), (wp_put (I := VaultI)).
  unfold route. cbn [session_area]. destruct (session_area s) as [a|] eqn:Es; [|done]. by destruct e.
Qed.

Lemma keeps_purge l0 : keeps l0 purgeLocalWallet.
Proof.
  intros s h (Hn & Hw & Hv). unfold purgeLocalWallet. apply wp_bind, wp_attempt. apply (wp_call (I := VaultI)); [done|].
  intros [[]|m] _; [|done]. apply wp_bind, (wp_get (I := VaultI)), (wp_put (I := VaultI)). split; [done|]. split; [by left|done].
Qed.

Lemma keeps_init l0 : keeps l0 initStorage.
Proof. intros s h Hs. unfold initStorage. by apply wp_bind, (wp_get (I := VaultI)), (wp_put (I := VaultI)). Qed.
Hint Resolve keeps_edit keeps_purge keeps_init : keeps.

Ltac keeps_step := match goal with
  | |- keeps _ (bind _ _) => apply keeps_bind; [|intros]
  | |- keeps _ (attempt _) => apply keeps_attempt
  | |- keeps _ (match ?x with _ => _ end) => destruct x
  | |- keeps _ (let x := _ in _) => cbv zeta
  | _ => solve [auto with keeps]
  end.

Lemma keeps_ensure l0 w : keeps l0 (ensureCorrectKeys w).
Proof. unfold ensureCorrectKeys. repeat keeps_step. Qed.
Hint Resolve keeps_ensure : keeps.
Lemma keeps_save l0 w : keeps l0 (saveUnifiedWallet w).
Proof. unfold saveUnifiedWallet. repeat keeps_step. Qed.
Lemma keeps_load l0 : keeps l0 loadUnifiedWallet.
Proof. unfold loadUnifiedWallet. repeat keeps_step. Qed.
Hint Resolve keeps_save keeps_load : keeps.
Lemma keeps_session l0 v : keeps l0 (loadVaultIntoSession v).
Proof. unfold loadVaultIntoSession. repeat keeps_step. Qed.
Lemma keeps_all l0 l : keeps l0 (ensure_all l).
Proof. induction l; cbn [ensure_all]; repeat keeps_step. Qed.
Hint Resolve keeps_session keeps_all : keeps.
Lemma keeps_persist l0 v pw : keeps l0 (persistVault v pw).
Proof. unfold persistVault, encryptWallet. repeat keeps_step. Qed.
Hint Resolve keeps_persist : keeps.
Lemma keeps_active l0 : keeps l0 getActiveWallet.
Proof. unfold getActiveWallet. repeat keeps_step. Qed.
Lemma keeps_add l0 w pw : keeps l0 (addWalletToVault w pw).
Proof. unfold addWalletToVault. repeat keeps_step. Qed.
Hint Resolve keeps_active keeps_add : keeps.
Lemma keeps_new l0 w pw : keeps l0 (persistNewWallet w pw).
Proof. unfold persistNewWallet. repeat keeps_step. Qed.
Hint Resolve keeps_new : keeps.

Lemma keeps_op l0 o : keeps l0 (run_op o).
Proof.
  destruct o; cbn [run_op]; unfold ignore, removeWalletFromVault, renameWalletInVault, setActiveWallet, lockUnifiedWallet, unlockUnifiedWallet,
    listVaultWallets, saveVaultSettings, migrateToEncrypted, clearUnifiedWallet; repeat keeps_step.
Qed.

Lemma keeps_ops l0 os : keeps l0 (run_ops os).
Proof. induction os; cbn [run_ops]; [apply keeps_ret|]. apply keeps_bind; [apply keeps_attempt, keeps_op|done]. Qed.


(** ** The vault as a list of wallets *)

(** Whether there is a vault, whether it is open, its wallets, and the id selected. *)
Record machine := { m_exists : bool; m_open : bool; m_wallets : list UnifiedWallet; m_selected : units }.
Definition m_active (m : machine) : option UnifiedWallet := overlay (find_wallet (m_selected m) (m_wallets m)) (head (m_wallets m)).

Definition m_add (w : UnifiedWallet) (m : machine) : machine :=
  let base := if m_open m then m_wallets m else [] in
  {| m_exists := true; m_open := true; m_wallets := if has_key (uw_signingPublicKey w) base then base else base ++ [w]; m_selected := uw_id w |}.
Definition m_with (m : machine) (ws : list UnifiedWallet) (sel : units) : machine :=
  {| m_exists := m_exists m; m_open := m_open m; m_wallets := ws; m_selected := sel |}.

Definition mstep (o : vault_op) (m : machine) : machine :=
  match o with
  | OpNew w _ | OpAdd w _ => m_add w m
  | OpRemove id _ =>
      if negb (m_open m) || (length (m_wallets m) <=? 1)%nat then m else
      let ws := List.filter (fun w => negb (units_eqb (uw_id w) id)) (m_wallets m) in
      if units_eqb (m_selected m) id then match ws with [] => m | w :: _ => m_with m ws (uw_id w) end else m_with m ws (m_selected m)
  | OpRename id name _ =>
      if negb (m_open m) then m else
      match find_wallet id (m_wallets m) with Some _ => m_with m (rename_first id name (m_wallets m)) (m_selected m) | None => m end
  | OpActive id =>
      if negb (m_open m) then m else
      match find_wallet id (m_wallets m) with Some _ => m_with m (m_wallets m) id | None => m end
  | OpLock => {| m_exists := m_exists m; m_open := false; m_wallets := m_wallets m; m_selected := m_selected m |}
  | OpUnlock _ => if negb (m_exists m) then m else
      {| m_exists := true; m_open := true; m_wallets := m_wallets m;
         m_selected := match m_active m with Some a => uw_id a | None => m_selected m end |}
  | _ => m
  end.

(** A wallet with keys of the right sizes and an id. *)
Definition sound (w : UnifiedWallet) : Prop := signing_ok w = true /\ hasMessagingKeys w = true /\ uw_id w <> [].

(** The storage of the popup holds what the list says. *)
Record holds (pw : units) (m : machine) (s : storage) : Prop := {
  ho_blob : if m_exists m then exists b act, a_encrypted (cache s) = Some b /\ decryptWallet b pw = Ok (SVault {| v_wallets := m_wallets m; v_activeId := act |})
            else a_encrypted (cache s) = None /\ m_wallets m = [] /\ m_open m = false;
  ho_sound : Forall sound (m_wallets m);
  ho_saved : forall a, m_active m = Some a -> a_activeId (cache s) = Some (uw_id a);
  ho_session : if m_open m then exists v, a_vault (cache s) = Some v /\ v_wallets v = m_wallets m /\ (m_wallets m <> [] -> v_activeId v = m_selected m)
               else a_vault (cache s) = None;
  ho_wallet : if m_open m then forall a, m_active m = Some a -> a_wallet (cache s) = Some a else a_wallet (cache s) = None;
}.

(** Operations with this password and sound wallets. *)
Definition op_ok (pw : units) (o : vault_op) : Prop :=
  match o with
  | OpNew w p => p = pw /\ sound w /\ (8 <= length pw)%nat
  | OpAdd w p => p = pw /\ sound w
  | OpRemove _ p | OpRename _ _ p | OpUnlock p => p = pw
  | OpActive _ | OpLock | OpLoad | OpList | OpSettings _ => True
  | OpSave _ | OpMigrate _ | OpClear | OpInit => False
  end.

(** Random bytes are bytes; everything else may fail. *)
Definition is_byte (x : Z) : Prop := 0 <= x < 256.
Definition random_ok : history VaultI -> forall c, res (ans VaultI c) -> Prop := fun _ c =>
  match c with RandomBytes _ => fun r => exists b, r = Ok b /\ Forall is_byte b | _ => fun _ => True end.
Notation rwp := (wp (I := VaultI) (fun _ _ => True) random_ok).

Hypothesis seal_open : forall k iv d, aes_open k iv (aes_seal k iv d) = Ok d.
Hypothesis seal_bytes : forall k iv d, Forall is_byte (aes_seal k iv d).

Lemma ensure_sound w : sound w -> ensureCorrectKeys w = Ret w.
Proof. intros (Hs & Hm & _). unfold ensureCorrectKeys. rewrite Hs. cbn [bind]. rewrite Hm. cbn [bind andb]. done. Qed.

Lemma ensure_all_sound l : Forall sound l -> ensure_all l = Ret l.
Proof. induction 1 as [|w l Hw _ IH]; [done|]. cbn [ensure_all]. rewrite (ensure_sound w Hw), IH. done. Qed.

Lemma edit_spec e s h Q : (forall s' h', cache s' = apply_edit e (cache s) -> Q (Ok tt) s' h') -> rwp (edit_item e) s h Q.
Proof.
  intros HQ. unfold edit_item. apply wp_bind, (wp_get (I := VaultI)), wp_bind, (wp_put (I := VaultI)), wp_bind, wp_attempt.
  apply (wp_call (I := VaultI)); [done|]. intros [[]|m] _; [|by apply HQ]. apply wp_bind, (wp_get (I := VaultI)), (wp_put (I := VaultI)), HQ.
  unfold route. cbn [session_area]. destruct (session_area s); [|done]. by destruct (session_key e).
Qed.

Lemma edit_bind {A} e (k : unit -> prog VaultI A) s h Q :
  (forall s' h', cache s' = apply_edit e (cache s) -> rwp (k tt) s' h' Q) -> rwp (bind (edit_item e) k) s h Q.
Proof. intros Hk. apply wp_bind, edit_spec. exact Hk. Qed.

Lemma encrypt_spec d pw s h Q : (forall b h', decryptWallet b pw = Ok d -> Q (Ok b) s h') -> rwp (encryptWallet d pw) s h Q.
Proof.
  intros HQ. unfold encryptWallet. apply wp_bind, (wp_call (I := VaultI)); [done|]. intros r (salt & -> & Hs).
  apply wp_bind, (wp_call (I := VaultI)); [done|]. intros r (iv & -> & Hi). apply wp_ret, HQ.
  unfold decryptWallet. cbn [b_salt b_iv b_data]. unfold bytesToHex. by rewrite !hexToBytes_toHex, seal_open by (done || apply seal_bytes).
Qed.

(** A vault that was encrypted and loaded. *)
Definition opened (v : WalletVault) : machine := {| m_exists := true; m_open := true; m_wallets := v_wallets v; m_selected := v_activeId v |}.

Lemma active_sound v a : Forall sound (v_wallets v) -> active_of v = Some a -> sound a.
Proof.
  intros Hs. unfold active_of, overlay, find_wallet. rewrite Forall_forall in Hs.
  destruct (List.find _ _) as [x|] eqn:E.
  - intros [= <-]. apply find_some in E as [Hin _]. by apply Hs, list_elem_of_In.
  - destruct (v_wallets v) as [|w l]; [done|]. intros [= <-]. apply Hs. left.
Qed.

Lemma load_session_spec v b pw act s h Q :
  Forall sound (v_wallets v) -> a_encrypted (cache s) = Some b -> decryptWallet b pw = Ok (SVault {| v_wallets := v_wallets v; v_activeId := act |}) ->
  (forall s' h', holds pw (opened v) s' -> Q (Ok tt) s' h') -> rwp (loadVaultIntoSession v) s h Q.
Proof.
  intros Hs Hb Hd HQ. unfold loadVaultIntoSession. apply edit_bind. intros s1 h1 E1. destruct (active_of v) as [a|] eqn:Ea.
  - apply edit_bind. intros s2 h2 E2. unfold saveUnifiedWallet. rewrite (ensure_sound a (active_sound v a Hs Ea)). cbn [bind].
    apply edit_spec. intros s3 h3 E3. apply HQ. rewrite E2, E1 in E3.
    split; cbn [opened m_exists m_open m_wallets m_selected]; rewrite ?E3; cbn; [by exists b, act|done| |by exists v|].
    + intros x Hx. unfold m_active in Hx. cbn in Hx. change (active_of v = Some x) in Hx. congruence.
    + intros x Hx. change (active_of v = Some x) in Hx. congruence.
  - apply wp_ret, HQ. split; cbn [opened m_exists m_open m_wallets m_selected]; rewrite ?E1; cbn; [by exists b, act|done| |by exists v|];
      intros x Hx; change (active_of v = Some x) in Hx; congruence.
Qed.

Lemma store_spec {A} v pw (k : unit -> prog VaultI A) s h Q :
  Forall sound (v_wallets v) -> (forall s' h', holds pw (opened v) s' -> rwp (k tt) s' h' Q) ->
  rwp (bind (persistVault v pw) (fun _ => bind (loadVaultIntoSession v) k)) s h Q.
Proof.
  intros Hs HQ. apply wp_bind. unfold persistVault. rewrite ensure_all_sound by done. cbn [bind]. cbv zeta.
  apply wp_bind, encrypt_spec. intros b h1 Hb. apply edit_bind. intros s2 h2 E2.
  assert (forall s' h', a_encrypted (cache s') = Some b -> rwp (bind (loadVaultIntoSession v) k) s' h' Q) as Hl.
  { intros s' h' Hc. apply wp_bind. eapply load_session_spec; [done|done|exact Hb|]. done. }
  destruct (active_of _) as [a|].
  - apply edit_spec. intros s3 h3 E3. apply Hl. by rewrite E3, E2.
  - apply wp_ret, Hl. by rewrite E2.
Qed.

Lemma store_done v pw s h Q :
  Forall sound (v_wallets v) -> (forall s' h', holds pw (opened v) s' -> Q (Ok tt) s' h') ->
  rwp (bind (persistVault v pw) (fun _ => loadVaultIntoSession v)) s h Q.
Proof.
  intros Hs HQ. apply wp_bind. unfold persistVault. rewrite ensure_all_sound by done. cbn [bind]. cbv zeta.
  apply wp_bind, encrypt_spec. intros b h1 Hb. apply edit_bind. intros s2 h2 E2.
  destruct (active_of _) as [a|].
  - apply edit_spec. intros s3 h3 E3. eapply load_session_spec; [done| |exact Hb|done]. by rewrite E3, E2.
  - apply wp_ret. eapply load_session_spec; [done| |exact Hb|done]. by rewrite E2.
Qed.

(** The list does not care about the id selected of an empty vault. *)
Lemma holds_ext pw m m' s : m_exists m = m_exists m' -> m_open m = m_open m' -> m_wallets m = m_wallets m' ->
  (m_wallets m <> [] -> m_selected m = m_selected m') -> holds pw m s -> holds pw m' s.
Proof.
  destruct m as [ex op ws sel], m' as [ex' op' ws' sel']. cbn. intros <- <- <- Hsel H. destruct ws as [|w ws].
  - destruct H as [Hb Hso _ Hse Hwa]. split; [done|done|done| |by destruct op]. cbn in *. destruct op; [|done].
    destruct Hse as (v & ? & ? & _). by exists v.
  - by rewrite <- Hsel.
Qed.

Lemma add_spec {A} w pw m (k : WalletVault -> prog VaultI A) s h Q : holds pw m s -> sound w ->
  (forall v s' h', holds pw (m_add w m) s' -> rwp (k v) s' h' Q) -> rwp (bind (addWalletToVault w pw) k) s h Q.
Proof.
  intros Hh Hw HQ. apply wp_bind. unfold addWalletToVault. apply wp_bind, (wp_get (I := VaultI)). cbv zeta. rewrite (ensure_sound w Hw). cbn [bind].
  set (base := if m_open m then m_wallets m else []).
  assert (v_wallets (default {| v_wallets := []; v_activeId := [] |} (getVaultSession s)) = base) as ->.
  { unfold base, getVaultSession. destruct Hh as [_ _ _ Hse _]. destruct (m_open m); [|by rewrite Hse]. destruct Hse as (v & -> & Hv & _). done. }
  apply store_spec; cbn [v_wallets].
  - destruct Hh as [_ Hso _ _ _]. unfold base. destruct (m_open m); destruct (has_key _ _); try done; try (apply Forall_app; split; [done|by constructor]); by constructor.
  - intros s' h' H. apply wp_ret, HQ. eapply holds_ext; [..|exact H]; done.
Qed.

(** ** Every operation follows the list *)

Lemma session_of pw m s : holds pw m s ->
  if m_open m then exists v, getVaultSession s = Some v /\ v_wallets v = m_wallets m /\ (m_wallets m <> [] -> v_activeId v = m_selected m) /\ m_exists m = true
  else getVaultSession s = None.
Proof.
  intros [Hb _ _ Hse _]. unfold getVaultSession. destruct (m_open m); [|done]. destruct Hse as (v & ? & ? & ?). exists v.
  split; [done|]. split; [done|]. split; [done|]. destruct (m_exists m); [done|]. by destruct Hb as (_ & _ & ?).
Qed.

Lemma find_some_sound id l a : find_wallet id l = Some a -> a ∈ l /\ uw_id a = id.
Proof. unfold find_wallet. intros [Hin E]%find_some. apply units_eqb_true in E. split; [by apply list_elem_of_In|done]. Qed.

Lemma new_refines w pw m s h : holds pw m s -> sound w -> (8 <= length pw)%nat ->
  rwp (persistNewWallet w pw) s h (fun _ s' _ => holds pw (m_add w m) s').
Proof.
  intros Hh Hw Hl. unfold persistNewWallet. destruct (Nat.ltb_spec (length pw) 8) as [|_]; [lia|]. rewrite (ensure_sound w Hw). cbn [bind].
  apply wp_bind, (wp_get (I := VaultI)). pose proof (session_of _ _ _ Hh) as Hse. destruct (m_open m) eqn:Eo.
  - destruct Hse as (v & -> & _). eapply add_spec; [done..|]. intros v' s' h' H. by apply wp_ret.
  - rewrite Hse. apply store_done; [by constructor|]. intros s' h' H. eapply holds_ext; [..|exact H]; try done; unfold m_add; by rewrite Eo.
Qed.

Lemma remove_refines id pw m s h : holds pw m s -> rwp (ignore (removeWalletFromVault id pw)) s h (fun _ s' _ => holds pw (mstep (OpRemove id pw) m) s').
Proof.
  intros Hh. unfold ignore, removeWalletFromVault. apply wp_bind, wp_bind, (wp_get (I := VaultI)). pose proof (session_of _ _ _ Hh) as Hse. cbn [mstep].
  destruct (m_open m) eqn:Eo; cbn [negb orb]; [|rewrite Hse; done]. destruct Hse as (v & -> & Hv & Hsel & Hex). rewrite <- Hv.
  destruct (length (v_wallets v) <=? 1)%nat eqn:El; [done|]. set (ws := List.filter _ _).
  assert (Forall sound ws) as Hws.
  { apply Forall_forall. intros x Hx%list_elem_of_In. apply filter_In in Hx as [Hx _]. apply list_elem_of_In in Hx.
    destruct Hh as [_ Hso _ _ _]. rewrite Forall_forall in Hso. apply Hso. by rewrite <- Hv. }
  assert (v_activeId v = m_selected m) as Hact by (apply Hsel; rewrite <- Hv; intros E; by rewrite E in El).
  rewrite Hact. assert (forall act m', m_with m ws act = m' -> rwp (bind (persistVault {| v_wallets := ws; v_activeId := act |} pw) (fun _ =>
    bind (loadVaultIntoSession {| v_wallets := ws; v_activeId := act |}) (fun _ => Ret {| v_wallets := ws; v_activeId := act |}))) s h
    (fun o s' h' => match o with Ok a => rwp (Ret tt) s' h' (fun _ s' _ => holds pw m' s') | Err e => holds pw m' s' end)) as Hst.
  { intros act m' <-. apply store_spec; [done|]. intros s' h' H. do 2 apply wp_ret. eapply holds_ext; [..|exact H]; done. }
  apply wp_bind. destruct (units_eqb (m_selected m) id); [destruct ws as [|w0 ws'] eqn:Ews|]; [done| |]; apply wp_ret; by apply Hst.
Qed.

Lemma rename_sound id name l : Forall sound l -> Forall sound (rename_first id name l).
Proof. induction 1 as [|w l Hw Hl IH]; [done|]. cbn [rename_first]. by destruct (units_eqb _ _); constructor. Qed.

Lemma rename_refines id name pw m s h : holds pw m s -> rwp (renameWalletInVault id name pw) s h (fun _ s' _ => holds pw (mstep (OpRename id name pw) m) s').
Proof.
  intros Hh. unfold renameWalletInVault. apply wp_bind, (wp_get (I := VaultI)). pose proof (session_of _ _ _ Hh) as Hse. cbn [mstep].
  destruct (m_open m) eqn:Eo; cbn [negb]; [|rewrite Hse; done]. destruct Hse as (v & -> & Hv & Hsel & Hex). rewrite <- Hv.
  destruct (find_wallet id (v_wallets v)) as [a|] eqn:Ef; [|done].
  assert (m_wallets m <> []) as Hne by (rewrite <- Hv; intros E; by rewrite E in Ef). rewrite (Hsel Hne).
  apply store_done; cbn [v_wallets]; [apply rename_sound; rewrite Hv; apply Hh|]. intros s' h' H. eapply holds_ext; [..|exact H]; done.
Qed.

Lemma active_refines id pw m s h : holds pw m s -> rwp (ignore (setActiveWallet id)) s h (fun _ s' _ => holds pw (mstep (OpActive id) m) s').
Proof.
  intros Hh. unfold ignore, setActiveWallet. apply wp_bind, wp_bind, (wp_get (I := VaultI)). pose proof (session_of _ _ _ Hh) as Hse. cbn [mstep].
  destruct (m_open m) eqn:Eo; cbn [negb]; [|rewrite Hse; done]. destruct Hse as (v & -> & Hv & _ & Hex). rewrite Hv.
  destruct (find_wallet id (m_wallets m)) as [a|] eqn:Ef; [|done]. apply edit_bind. intros s1 h1 E1. apply edit_bind. intros s2 h2 E2.
  destruct Hh as [Hb Hso _ _ _]. destruct (find_some_sound _ _ _ Ef) as [Hin Hid]. pose proof Hso as Hso'. rewrite Forall_forall in Hso'.
  unfold saveUnifiedWallet. rewrite (ensure_sound a (Hso' _ Hin)). cbn [bind]. apply edit_bind. intros s3 h3 E3. do 2 apply wp_ret.
  rewrite E2, E1 in E3. split; cbn [m_with m_exists m_open m_wallets m_selected]; rewrite ?E3, ?Eo; cbn [apply_edit a_wallet a_vault a_encrypted a_activeId]; [by rewrite Hex in *|done| |by eexists|].
  - intros x. unfold m_active, overlay. cbn [m_with m_wallets m_selected]. rewrite Ef. intros [= <-]. by rewrite Hid.
  - intros x. unfold m_active, overlay. cbn [m_with m_wallets m_selected]. rewrite Ef. by intros [= <-].
Qed.

Lemma lock_refines pw m s h : holds pw m s -> rwp lockUnifiedWallet s h (fun _ s' _ => holds pw (mstep OpLock m) s').
Proof.
  intros [Hb Hso Hsa _ _]. unfold lockUnifiedWallet. apply edit_bind. intros s1 h1 E1. apply edit_spec. intros s2 h2 E2. rewrite E1 in E2.
  split; cbn [mstep m_exists m_open m_wallets m_selected]; rewrite ?E2; cbn; try done. destruct (m_exists m); [done|]. by destruct Hb as (? & ? & _).
Qed.

Lemma m_active_in m a : m_active m = Some a -> a ∈ m_wallets m.
Proof.
  unfold m_active, overlay. destruct (find_wallet _ _) as [x|] eqn:E.
  - intros [= <-]. by apply find_some_sound in E as [? _].
  - destruct (m_wallets m) as [|w l]; [done|]. intros [= <-]. left.
Qed.

Lemma m_active_none m : m_active m = None -> m_wallets m = [].
Proof. unfold m_active, overlay. destruct (find_wallet _ _); [done|]. by destruct (m_wallets m). Qed.

Lemma unlock_refines pw m s h : holds pw m s -> rwp (ignore (unlockUnifiedWallet pw)) s h (fun _ s' _ => holds pw (mstep (OpUnlock pw) m) s').
Proof.
  intros Hh. pose proof Hh as [Hb Hso Hsa _ _]. unfold ignore, unlockUnifiedWallet. apply wp_bind, wp_bind, (wp_get (I := VaultI)). cbn [mstep].
  destruct (m_exists m) eqn:Ex; cbn [negb]; [|destruct Hb as [-> _]; done]. destruct Hb as (b & act & Eb & Hd). rewrite Eb.
  apply wp_bind, wp_of_res. rewrite Hd. apply wp_bind, wp_ret. apply wp_bind, (wp_get (I := VaultI)). cbv zeta. cbn [v_wallets].
  set (v := if negb _ && _ then _ else _).
  assert (v_wallets v = m_wallets m /\ (forall a, m_active m = Some a -> v_activeId v = uw_id a)) as [Hv Ha].
  { destruct (m_active m) as [a|] eqn:Ea.
    - pose proof (m_active_in _ _ Ea) as Hin. pose proof Hso as Hso'. rewrite Forall_forall in Hso'. destruct (Hso' _ Hin) as (_ & _ & Hid).
      subst v. rewrite (Hsa a eq_refl). change (default [] (Some (uw_id a))) with (uw_id a). unfold no_text. rewrite bool_decide_false by done. cbn [negb andb].
      assert (existsb (fun w => units_eqb (uw_id w) (uw_id a)) (m_wallets m) = true) as ->.
      { apply existsb_exists. exists a. split; [by apply list_elem_of_In|by apply units_eqb_true]. }
      split; [done|]. by intros x [= <-].
    - apply m_active_none in Ea. split; [|done]. subst v. by destruct (_ && _). }
  clearbody v. apply wp_bind. eapply load_session_spec; [by rewrite Hv|done|rewrite Hv; exact Hd|]. intros s' h' H.
  assert (holds pw {| m_exists := true; m_open := true; m_wallets := m_wallets m;
    m_selected := match m_active m with Some a => uw_id a | None => m_selected m end |} s') as H'.
  { eapply holds_ext; [..|exact H]; cbn; try done. intros Hne. destruct (m_active m) as [a|] eqn:Ea; [by apply Ha|].
    apply m_active_none in Ea. congruence. }
  unfold getActiveWallet. apply wp_bind, (wp_get (I := VaultI)). pose proof (session_of _ _ _ H') as (v' & -> & _). by do 2 apply wp_ret.
Qed.

Lemma getActive_refines pw m s h : holds pw m s -> rwp (ignore getActiveWallet) s h (fun _ s' _ => holds pw m s').
Proof.
  intros Hh. unfold ignore, getActiveWallet. apply wp_bind, wp_bind, (wp_get (I := VaultI)). pose proof (session_of _ _ _ Hh) as Hse.
  pose proof Hh as [_ _ _ _ Hwa]. destruct (m_open m); [by destruct Hse as (v & -> & _)|]. rewrite Hse. unfold loadUnifiedWallet.
  apply wp_bind, (wp_get (I := VaultI)). by rewrite Hwa.
Qed.

Lemma list_refines pw m s h : holds pw m s -> rwp (ignore listVaultWallets) s h (fun _ s' _ => holds pw m s').
Proof.
  intros Hh. unfold ignore, listVaultWallets. apply wp_bind, wp_bind, (wp_get (I := VaultI)). pose proof (session_of _ _ _ Hh) as Hse.
  pose proof Hh as [_ _ _ _ Hwa]. destruct (m_open m); [by destruct Hse as (v & -> & _)|]. rewrite Hse. unfold loadUnifiedWallet.
  apply wp_bind, wp_bind, (wp_get (I := VaultI)). by rewrite Hwa.
Qed.

Lemma op_refines o pw m s h : op_ok pw o -> holds pw m s -> rwp (run_op o) s h (fun _ s' _ => holds pw (mstep o m) s').
Proof.
  intros Hok Hh. destruct o; cbn [op_ok run_op] in *; try done.
  - destruct Hok as (-> & ? & ?). by apply new_refines.
  - destruct Hok as (-> & ?). unfold ignore. by eapply add_spec.
  - subst. by apply remove_refines.
  - subst. by apply rename_refines.
  - by apply active_refines.
  - by apply lock_refines.
  - subst. by apply unlock_refines.
  - by apply getActive_refines.
  - by apply list_refines.
  - destruct Hh as [Hb Hso Hsa Hse Hwa]. unfold saveVaultSettings. apply edit_spec. intros s' h' E. split; rewrite ?E; cbn; done.
Qed.

Lemma ops_refine os pw m s h : Forall (op_ok pw) os -> holds pw m s ->
  rwp (run_ops os) s h (fun _ s' _ => holds pw (foldl (fun m o => mstep o m) m os) s').
Proof.
  intros Hos. revert m s h. induction Hos as [|o os Ho _ IH]; intros m s h Hh; cbn [run_ops foldl]; [done|].
  apply wp_bind, wp_attempt. eapply wp_mono; [|by apply op_refines]. intros r s' h' Hh'. by apply IH.
Qed.

End Vault.

(** ** On concrete data *)

Module VaultDemo.

(** An injective encoding of documents as bytes. *)
Fixpoint bits (p : positive) : list Z := match p with xH => [] | xO q => 0 :: bits q | xI q => 1 :: bits q end.
Fixpoint unbits (l : list Z) : positive := match l with [] => xH | b :: r => if b =? 0 then xO (unbits r) else xI (unbits r) end.

Lemma unbits_bits p : unbits (bits p) = p.
Proof. induction p; cbn; congruence. Qed.
Lemma bits_bytes p : Forall is_byte (bits p).
Proof. induction p; cbn; [constructor; [unfold is_byte; lia|done]..|done]. Qed.

#[export] Instance number_eq_dec : EqDecision number.
Proof. unfold number. solve_decision. Defined.
Definition number_sum (x : number) : bool + (bool + (unit + (bool * positive * Z))) :=
  match x with SpecFloat.S754_zero s => inl s | SpecFloat.S754_infinity s => inr (inl s) | SpecFloat.S754_nan => inr (inr (inl tt))
             | SpecFloat.S754_finite s m e => inr (inr (inr (s, m, e))) end.
Definition sum_number (x : bool + (bool + (unit + (bool * positive * Z)))) : number :=
  match x with inl s => SpecFloat.S754_zero s | inr (inl s) => SpecFloat.S754_infinity s | inr (inr (inl tt)) => SpecFloat.S754_nan
             | inr (inr (inr (s, m, e))) => SpecFloat.S754_finite s m e end.
#[export] Instance number_countable : Countable number.
Proof. refine (inj_countable' number_sum sum_number _). by intros []. Defined.

#[export] Instance wallet_eq_dec : EqDecision UnifiedWallet.
Proof. solve_decision. Defined.
#[export] Instance wallet_countable : Countable UnifiedWallet.
Proof.
  refine (inj_countable' (fun w => (uw_id w, uw_displayName w, uw_createdAt w, uw_signingPublicKey w, uw_signingPrivateKey w, uw_encryptionPublicKey w,
      uw_encryptionPrivateKey w, uw_legacyEncryptionPublicKey w, uw_legacyEncryptionPrivateKey w, uw_version w, uw_mnemonic w, uw_avatarUrl w))
    (fun '(a, b, c, d, e, f, g, h, i, j, k, l) => Build_UnifiedWallet a b c d e f g h i j k l) _). by intros [].
Defined.
#[export] Instance secret_eq_dec : EqDecision secret.
Proof. intros [[a b]|a] [[c d]|c]; [|right; discriminate|right; discriminate|]; unfold Decision; [destruct (decide (a = c)); [destruct (decide (b = d))|]|destruct (decide (a = c))];
  subst; [by left|right; congruence..|by left|right; congruence]. Defined.
#[export] Instance secret_countable : Countable secret.
Proof.
  refine (inj_countable' (fun d => match d with SVault v => inl (v_wallets v, v_activeId v) | SWallet w => inr w end)
    (fun x => match x with inl (a, b) => SVault {| v_wallets := a; v_activeId := b |} | inr w => SWallet w end) _). by intros [[]|].
Defined.

#[export] Instance ToyVault : VaultCrypto := {|
  pbkdf2 := fun pw salt n => pw ++ salt;
  aes_seal := fun k iv d => bits (encode d);
  aes_open := fun k iv b => match decode (unbits b) with Some d => Ok d | None => Err "OperationError" end |}.
#[export] Program Instance ToyKem : KeyDerivation := {| kem_of_material := fun m => {| kp_public := [97]; kp_private := repeat 97 4800 |} |}.
Next Obligation. by split. Qed.

Lemma toy_seal_open k iv d : aes_open k iv (aes_seal k iv d) = Ok d.
Proof. cbn. by rewrite unbits_bits, decode_encode. Qed.

Definition wallet (id : string) (c : Z) : UnifiedWallet :=
  {| uw_id := u id; uw_displayName := u id; uw_createdAt := num_of_Z 0; uw_signingPublicKey := repeat c 3904; uw_signingPrivateKey := repeat c (Z.to_nat 8064);
     uw_encryptionPublicKey := [c]; uw_encryptionPrivateKey := repeat c 4800; uw_legacyEncryptionPublicKey := []; uw_legacyEncryptionPrivateKey := [];
     uw_version := 4; uw_mnemonic := []; uw_avatarUrl := [] |}.
Definition alice : UnifiedWallet := wallet "alice" 97.
Definition bob : UnifiedWallet := wallet "bob" 98.
Definition pw : units := u "correct horse".

Definition fresh : storage := {| cache := no_area; session_area := Some no_area; local_area := no_area |}.
Definition chrome : env VaultI := fun _ c => match c with KeygenSigning => Ok {| kp_public := []; kp_private := [] |} | RandomBytes n => Ok (repeat 7 n) | AreaWrite _ => Ok tt end.

Lemma alice_sound : sound alice.
Proof. split; [vm_compute; reflexivity|]. split; [vm_compute; reflexivity|discriminate]. Qed.
Lemma bob_sound : sound bob.
Proof. split; [vm_compute; reflexivity|]. split; [vm_compute; reflexivity|discriminate]. Qed.

Definition empty_machine : machine := {| m_exists := false; m_open := false; m_wallets := []; m_selected := [] |}.
Definition session : list vault_op := [OpNew alice pw; OpAdd bob pw; OpActive (u "alice"); OpLock; OpUnlock pw].


End VaultDemo.

(** ** Unwanted runs *)

Module VaultRuns.
Import VaultDemo.

Definition bob_again : UnifiedWallet := wallet "bob-2" 98.

(** A cipher that stores wallets by their place in a list of known ones. *)
Definition known_wallets : list UnifiedWallet := [alice; bob; bob_again].
Definition place (w : UnifiedWallet) : Z := if units_eqb (uw_id w) (u "alice") then 0 else if units_eqb (uw_id w) (u "bob") then 1 else 2.
#[export] Instance Codebook : VaultCrypto := {|
  pbkdf2 := fun pw salt n => pw ++ salt;
  aes_seal := fun _ _ d => match d with SVault v => map place (v_wallets v) | SWallet w => [place w] end;
  aes_open := fun _ _ b => Ok (SVault {| v_wallets := map (fun i => nth (Z.to_nat i) known_wallets alice) b; v_activeId := [] |}) |}.

(** The ids in the session's vault, and what the encrypted vault decrypts to with a password. *)
Definition session_ids (s : storage) : option (list units) := (fun v => map uw_id (v_wallets v)) <$> a_vault (cache s).
Definition sealed_ids (s : storage) (password : units) : option (list units) :=
  match a_encrypted (cache s) with
  | Some b => match decryptWallet b password with Ok (SVault v) => Some (map uw_id (v_wallets v)) | _ => None end
  | None => None
  end.

(** Deleting the wallet leaves the decrypted vault in the session; the wallet created next is added to
    it, and the deleted wallet is encrypted again, under the new password. *)
Example deleted_wallet_returns :
  let s1 := final chrome (run_ops [OpNew alice pw; OpClear]) fresh in
  let s2 := final chrome (run_ops [OpNew bob (u "another password")]) s1 in
  hasWallet s1 = false /\ session_ids s1 = Some [u "alice"]
  /\ sealed_ids s2 (u "another password") = Some [u "alice"; u "bob"].
Proof. vm_compute. done. Qed.

(** Importing a wallet that the vault already has, under a new id, makes the first wallet active and not
    the imported one. *)
Example reimport_selects_first :
  let s := final chrome (run_ops [OpNew alice pw; OpAdd bob pw; OpAdd bob_again pw]) fresh in
  uw_id <$> a_wallet (cache s) = Some (u "alice").
Proof. vm_compute. done. Qed.

(** A wallet persisted while the vault is locked replaces the vault. *)
Example locked_vault_replaced :
  let s := final chrome (run_ops [OpNew alice pw; OpLock; OpNew bob pw]) fresh in sealed_ids s pw = Some [u "bob"].
Proof. vm_compute. done. Qed.
End VaultRuns.
