(* ===== verification/WalletStore.v ===== *)
(** * The wallet store of the sites ([src/packages/core/src/unified-wallet.ts], with the profile overlay of [avatar.ts])

    The unlocked wallet lives in the tab's session storage, the encrypted vault and public data
    in local storage, next to plaintext wallets that older builds left there.  A stored wallet
    document is its members (empty: missing) or a text that is no JSON; an encrypted vault is its
    bytes (the Base64 around them is left out).  The selected network is fixed: keys are the scoped
    ones, or the old unscoped ones.  Fresh keys, random bytes and the clock are commands. *)
From S2P Require Import Prelude JsText JsNum JsUtf16 JsFloat LosslessJson Interact WalletKeys ExtVault.
Local Open Scope Z_scope.

(** ** Documents *)

(** The members of a stored wallet document of any build. *)
Record jdoc := { j_wallet : UnifiedWallet; j_publicKey : units; j_privateKey : units; j_createdAtText : units }.

Definition no_wallet : UnifiedWallet :=
  {| uw_id := []; uw_displayName := []; uw_createdAt := num_of_Z 0; uw_signingPublicKey := []; uw_signingPrivateKey := [];
     uw_encryptionPublicKey := []; uw_encryptionPrivateKey := []; uw_legacyEncryptionPublicKey := []; uw_legacyEncryptionPrivateKey := [];
     uw_version := 0; uw_mnemonic := []; uw_avatarUrl := [] |}.
Definition of_wallet (w : UnifiedWallet) : jdoc := {| j_wallet := w; j_publicKey := []; j_privateKey := []; j_createdAtText := [] |}.

Inductive slot := Unified | Messenger | Blockchain.
Inductive wkey := Scoped (s : slot) | Old (s : slot).
#[export] Instance slot_eq_dec : EqDecision slot.
Proof. solve_decision. Defined.
#[export] Instance wkey_eq_dec : EqDecision wkey.
Proof. solve_decision. Defined.

(** The device's newer name ([[]]: none) and photo ([None]: none stored, [Some []]: removed). *)
Record profile := { pr_name : units; pr_avatar : option units }.
(** The metadata document; locking writes the first two members only. *)
Record SiteMetadata := { sm_displayName : units; sm_signingPublicKey : units; sm_rest : option (units * units * number) }.

Record site := {
  wallets : wkey -> option (res jdoc);
  encrypted : option (list Z); locked : option bool; metadata : option SiteMetadata;
  session_wallet : option (res UnifiedWallet); pending : bool; profiles : units -> profile;
}.

(** ** The world *)

Inductive store_cmd := KeygenDsa | KeygenKem | Randoms (n : nat) | ClockNow.
Definition StoreI : iface := {| st := site; cmd := store_cmd; ans := fun c =>
  match c with KeygenDsa | KeygenKem => keypair | Randoms _ => list Z | ClockNow => number end |}.
Definition sask (c : store_cmd) : prog StoreI (ans StoreI c) := @call StoreI c.
Definition sget : prog StoreI site := @get StoreI.
Definition modify (f : site -> site) : prog StoreI unit := @Get StoreI unit (fun s => @Put StoreI unit (f s) (Ret tt)).

(** [new Date(text).getTime()], [new Date(ms).getTime()] and [new Date(ms).toISOString()], which throws on
    an invalid date. *)
Class Dates := { date_getTime : units -> number; date_clip : number -> number; toISOString : number -> res units }.

Definition put_wallet (k : wkey) (d : option (res jdoc)) (s : site) : site :=
  {| wallets := fun x => if decide (x = k) then d else wallets s x; encrypted := encrypted s; locked := locked s; metadata := metadata s;
     session_wallet := session_wallet s; pending := pending s; profiles := profiles s |}.
Definition put_encrypted (b : option (list Z)) (s : site) : site :=
  {| wallets := wallets s; encrypted := b; locked := locked s; metadata := metadata s;
     session_wallet := session_wallet s; pending := pending s; profiles := profiles s |}.
Definition put_locked (b : option bool) (s : site) : site :=
  {| wallets := wallets s; encrypted := encrypted s; locked := b; metadata := metadata s;
     session_wallet := session_wallet s; pending := pending s; profiles := profiles s |}.
Definition put_metadata (m : option SiteMetadata) (s : site) : site :=
  {| wallets := wallets s; encrypted := encrypted s; locked := locked s; metadata := m;
     session_wallet := session_wallet s; pending := pending s; profiles := profiles s |}.
Definition put_session (w : option (res UnifiedWallet)) (s : site) : site :=
  {| wallets := wallets s; encrypted := encrypted s; locked := locked s; metadata := metadata s;
     session_wallet := w; pending := pending s; profiles := profiles s |}.
Definition put_pending (b : bool) (s : site) : site :=
  {| wallets := wallets s; encrypted := encrypted s; locked := locked s; metadata := metadata s;
     session_wallet := session_wallet s; pending := b; profiles := profiles s |}.

Local Open Scope prog_scope.

(** ** What a document holds *)

Definition holdsSecrets (d : option (res jdoc)) : bool :=
  match d with
  | Some (Ok j) => negb (no_text (uw_signingPrivateKey (j_wallet j))) || negb (no_text (uw_encryptionPrivateKey (j_wallet j)))
                   || negb (no_text (j_privateKey j)) || negb (no_text (uw_mnemonic (j_wallet j)))
  | _ => false
  end.

Definition storedPublicKey (d : option (res jdoc)) : option units :=
  match d with
  | Some (Ok j) => if negb (no_text (uw_signingPublicKey (j_wallet j))) then Some (uw_signingPublicKey (j_wallet j))
                   else if negb (no_text (j_publicKey j)) then Some (j_publicKey j) else None
  | _ => None
  end.

Definition hasPlaintextStoredWallet (signingPublicKey : option units) (s : site) : bool :=
  match wallets s (Scoped Unified) with
  | Some (Ok j) =>
      let w := j_wallet j in
      (negb (no_text (uw_signingPrivateKey w)) || negb (no_text (uw_encryptionPrivateKey w)) || negb (no_text (uw_mnemonic w)))
      && match signingPublicKey with None => true | Some k => units_eqb (uw_signingPublicKey w) k end
  | _ => false
  end.

(** [storedPublicKey(raw) !== key]. *)
Definition belongs (d : option (res jdoc)) (key : units) : bool :=
  match storedPublicKey d with Some k => units_eqb k key | None => false end.

Definition removeUnlessUnvaultedSecrets (k : wkey) (vaulted : option units) (s : site) : site :=
  let d := wallets s k in
  let kept := holdsSecrets d && match vaulted with None => true | Some pk => negb (belongs d pk) end in
  if kept then s else put_wallet k None s.

Definition clearMigratedLegacyWallets (movedPublicKey : units) (s : site) : site :=
  let clear k s := if holdsSecrets (wallets s k) && negb (belongs (wallets s k) movedPublicKey) then s else put_wallet k None s in
  clear (Old Blockchain) (clear (Old Messenger) (clear (Old Unified) s)).

Definition hasEncryptedWallet (s : site) : bool := match encrypted s with Some _ => true | None => false end.
Definition isWalletLocked (s : site) : bool := match locked s with Some b => b | None => false end.
Definition isWalletPending (s : site) : bool := pending s.
Definition getLockedWalletMetadata (s : site) : option SiteMetadata := metadata s.

Section Store.
Context `{K : KeyDerivation} `{VC : VaultCrypto} `{D : Dates}.

(** ** Keys *)

(** A wallet of the extension has no private keys and is left alone. *)
Definition is_extension (w : UnifiedWallet) : bool := no_text (uw_signingPrivateKey w) && negb (no_text (uw_signingPublicKey w)).

Definition ensureCorrectKeys (wallet : UnifiedWallet) : prog StoreI UnifiedWallet :=
  if is_extension wallet then Ret wallet else
  let! w1 := (if signing_ok wallet then Ret wallet else let! k := sask KeygenDsa in Ret (set_signing k wallet)) in
  let! w2 := (if hasMessagingKeys w1 then Ret w1 else let! k := sask KeygenKem in Ret (set_encryption k w1)) in
  Ret (if signing_ok wallet && hasMessagingKeys w1 then w2 else set_version 4 w2).

(** ** Encryption *)

Definition PBKDF2_ITERATIONS : Z := 600000.

Definition encryptWallet (w : UnifiedWallet) (password : units) : prog StoreI (list Z) :=
  let! salt := sask (Randoms 16) in
  let! iv := sask (Randoms 12) in
  Ret (salt ++ iv ++ aes_seal (pbkdf2 password salt PBKDF2_ITERATIONS) iv (SWallet w)).

Definition migrateFromV1 (data : UnifiedWallet) : prog StoreI UnifiedWallet :=
  let! createdAt := (if num_truthy (uw_createdAt data) then Ret (date_clip (uw_createdAt data)) else sask ClockNow) in
  Ret {| uw_id := uw_id data; uw_displayName := if no_text (uw_displayName data) then u "My Wallet" else uw_displayName data;
         uw_createdAt := createdAt; uw_signingPublicKey := uw_signingPublicKey data; uw_signingPrivateKey := uw_signingPrivateKey data;
         uw_encryptionPublicKey := uw_encryptionPublicKey data; uw_encryptionPrivateKey := uw_encryptionPrivateKey data;
         uw_legacyEncryptionPublicKey := []; uw_legacyEncryptionPrivateKey := []; uw_version := 2; uw_mnemonic := []; uw_avatarUrl := [] |}.

(** A decrypted document as a wallet. *)
Definition as_wallet (d : secret) : prog StoreI UnifiedWallet :=
  let w := match d with SWallet w => w | SVault _ => no_wallet end in
  if (uw_version w =? 0) || (uw_version w =? 1) then migrateFromV1 w else Ret w.

Definition decryptWallet (combined : list Z) (password : units) : prog StoreI UnifiedWallet :=
  let salt := take 16 combined in
  let iv := take 12 (drop 16 combined) in
  let data := drop 28 combined in
  let! r := attempt (let! d := of_res (aes_open (pbkdf2 password salt PBKDF2_ITERATIONS) iv data) in as_wallet d) in
  match r with
  | Ok w => Ret w
  | Err _ => let! d := of_res (aes_open (pbkdf2 password salt 100000) iv data) in as_wallet d
  end.

(** ** Saving *)

Definition messenger_doc (w : UnifiedWallet) (iso : units) : jdoc :=
  {| j_wallet := {| uw_id := uw_id w; uw_displayName := uw_displayName w; uw_createdAt := num_of_Z 0;
                    uw_signingPublicKey := uw_signingPublicKey w; uw_signingPrivateKey := []; uw_encryptionPublicKey := uw_encryptionPublicKey w;
                    uw_encryptionPrivateKey := []; uw_legacyEncryptionPublicKey := []; uw_legacyEncryptionPrivateKey := [];
                    uw_version := 0; uw_mnemonic := []; uw_avatarUrl := [] |};
     j_publicKey := []; j_privateKey := []; j_createdAtText := iso |}.
Definition blockchain_doc (w : UnifiedWallet) : jdoc :=
  {| j_wallet := {| uw_id := []; uw_displayName := []; uw_createdAt := uw_createdAt w; uw_signingPublicKey := []; uw_signingPrivateKey := [];
                    uw_encryptionPublicKey := []; uw_encryptionPrivateKey := []; uw_legacyEncryptionPublicKey := []; uw_legacyEncryptionPrivateKey := [];
                    uw_version := 0; uw_mnemonic := []; uw_avatarUrl := [] |};
     j_publicKey := uw_signingPublicKey w; j_privateKey := []; j_createdAtText := [] |}.
Definition has_secrets (w : UnifiedWallet) : bool :=
  negb (no_text (uw_signingPrivateKey w)) || negb (no_text (uw_encryptionPrivateKey w)) || negb (no_text (uw_mnemonic w)).

(** The documents that locking and saving write. *)
Definition metadata_of (w : UnifiedWallet) : SiteMetadata := {| sm_displayName := uw_displayName w; sm_signingPublicKey := uw_signingPublicKey w; sm_rest := None |}.
Definition full_metadata (w : UnifiedWallet) : SiteMetadata :=
  {| sm_displayName := uw_displayName w; sm_signingPublicKey := uw_signingPublicKey w; sm_rest := Some (uw_id w, uw_encryptionPublicKey w, uw_createdAt w) |}.

Definition saveUnifiedWallet (wallet : UnifiedWallet) : prog StoreI unit :=
  let! w := ensureCorrectKeys wallet in
  do! modify (put_session (Some (Ok w))) in
  let! s := sget in
  do! (if negb (has_secrets w) && negb (hasEncryptedWallet s) then modify (put_wallet (Scoped Unified) (Some (Ok (of_wallet w)))) else Ret tt) in
  do! modify (put_metadata (Some (full_metadata w))) in
  let! iso := of_res (toISOString (uw_createdAt w)) in
  do! modify (put_wallet (Scoped Messenger) (Some (Ok (messenger_doc w iso)))) in
  modify (put_wallet (Scoped Blockchain) (Some (Ok (blockchain_doc w)))).

Definition stageUnifiedWallet (wallet : UnifiedWallet) : prog StoreI unit :=
  let! w := ensureCorrectKeys wallet in
  do! modify (put_session (Some (Ok w))) in modify (put_pending true).

Definition persistLegacyPlaintext (w : UnifiedWallet) : prog StoreI unit := modify (put_wallet (Scoped Unified) (Some (Ok (of_wallet w)))).

(** ** Loading *)

Definition upgradeAndSave (wallet : UnifiedWallet) : prog StoreI UnifiedWallet :=
  let! w := ensureCorrectKeys wallet in
  do! (if same_keys w wallet then Ret tt else saveUnifiedWallet w) in
  Ret w.

Definition migrate (wallet : UnifiedWallet) : prog StoreI UnifiedWallet :=
  do! persistLegacyPlaintext wallet in upgradeAndSave wallet.

(** Inside a [try]: [None] continues with the next source. *)
Definition try_source (p : prog StoreI UnifiedWallet) : prog StoreI (option UnifiedWallet) :=
  let! r := attempt p in Ret (match r with Ok w => Some w | Err _ => None end).

Definition created (text : units) : prog StoreI number := if no_text text then sask ClockNow else Ret (date_getTime text).

(** The wallet of a messenger document. *)
Definition of_messenger (j : jdoc) : prog StoreI UnifiedWallet :=
  let m := j_wallet j in
  let! t := created (j_createdAtText j) in
  Ret {| uw_id := uw_id m; uw_displayName := uw_displayName m; uw_createdAt := t; uw_signingPublicKey := uw_signingPublicKey m;
         uw_signingPrivateKey := uw_signingPrivateKey m; uw_encryptionPublicKey := uw_encryptionPublicKey m;
         uw_encryptionPrivateKey := uw_encryptionPrivateKey m; uw_legacyEncryptionPublicKey := []; uw_legacyEncryptionPrivateKey := [];
         uw_version := 2; uw_mnemonic := []; uw_avatarUrl := [] |}.

(** The wallet of a blockchain document; the id names the time. *)
Definition of_blockchain (j : jdoc) : prog StoreI UnifiedWallet :=
  let! now := sask ClockNow in
  let! t := (if num_truthy (uw_createdAt (j_wallet j)) then Ret (uw_createdAt (j_wallet j)) else sask ClockNow) in
  Ret {| uw_id := u "wallet-" ++ number_text now; uw_displayName := u "My Wallet"; uw_createdAt := t; uw_signingPublicKey := j_publicKey j;
         uw_signingPrivateKey := j_privateKey j; uw_encryptionPublicKey := []; uw_encryptionPrivateKey := [];
         uw_legacyEncryptionPublicKey := []; uw_legacyEncryptionPrivateKey := []; uw_version := 2; uw_mnemonic := []; uw_avatarUrl := [] |}.

(** 3 to 5: a legacy document with a private key is moved to the scoped key first. *)
Definition move_legacy (p : prog StoreI UnifiedWallet) : prog StoreI UnifiedWallet :=
  let! w := p in let! r := migrate w in do! saveUnifiedWallet r in Ret r.

Definition move_old (p : prog StoreI UnifiedWallet) : prog StoreI UnifiedWallet :=
  let! w := p in let! r := migrate w in do! saveUnifiedWallet r in
  do! modify (clearMigratedLegacyWallets (uw_signingPublicKey w)) in Ret r.

(** A source that is there and has what the check wants. *)
Definition from_slot (k : wkey) (check : jdoc -> bool) (p : jdoc -> prog StoreI UnifiedWallet) : prog StoreI (option UnifiedWallet) :=
  let! s := sget in
  match wallets s k with
  | Some (Ok j) => if check j then try_source (p j) else Ret None
  | _ => Ret None
  end.

Definition signing_there (j : jdoc) : bool := negb (no_text (uw_signingPublicKey (j_wallet j))).
Definition signing_private (j : jdoc) : bool := negb (no_text (uw_signingPrivateKey (j_wallet j))).
Definition plain_private (j : jdoc) : bool := negb (no_text (j_privateKey j)).

(** The sources in order; [l] continues when a source gave nothing. *)
Fixpoint first_source (l : list (prog StoreI (option UnifiedWallet))) : prog StoreI (option UnifiedWallet) :=
  match l with [] => Ret None | p :: r => let! o := p in match o with Some w => Ret (Some w) | None => first_source r end end.

(** The session wallet, when it names a key. *)
Definition load_session : prog StoreI (option UnifiedWallet) :=
  let! s := sget in
  match session_wallet s with
  | Some (Ok w) => if negb (no_text (uw_signingPublicKey w)) then try_source (upgradeAndSave w) else Ret None
  | _ => Ret None
  end.

(** 4 stops the search when it throws or its text is no JSON. *)
Definition load_blockchain (rest : prog StoreI (option UnifiedWallet)) : prog StoreI (option UnifiedWallet) :=
  let! s := sget in
  match wallets s (Scoped Blockchain) with
  | Some (Err _) => Ret None
  | Some (Ok j) => if plain_private j then try_source (move_legacy (of_blockchain j)) else rest
  | None => rest
  end.

Definition loadUnifiedWallet : prog StoreI (option UnifiedWallet) :=
  let! found := first_source [
    load_session;
    from_slot (Scoped Unified) signing_there (fun j => let! w := upgradeAndSave (j_wallet j) in do! saveUnifiedWallet w in Ret w);
    from_slot (Scoped Messenger) signing_private (fun j => move_legacy (of_messenger j)) ] in
  match found with
  | Some w => Ret (Some w)
  | None => load_blockchain (first_source [
      from_slot (Old Unified) signing_private (fun j => move_old (Ret (j_wallet j)));
      from_slot (Old Messenger) signing_private (fun j => move_old (of_messenger j)) ])
  end.

(** ** Locking *)

Definition lockUnifiedWallet (password : units) : prog StoreI unit :=
  let! found := loadUnifiedWallet in
  match found with
  | None => Throw "No wallet to lock"
  | Some w =>
      let! b := encryptWallet w password in
      let pk := Some (uw_signingPublicKey w) in
      do! modify (put_encrypted (Some b)) in
      do! modify (put_locked (Some true)) in
      do! modify (put_metadata (Some (metadata_of w))) in
      do! modify (put_session None) in
      do! modify (put_pending false) in
      do! modify (removeUnlessUnvaultedSecrets (Scoped Unified) pk) in
      do! modify (removeUnlessUnvaultedSecrets (Scoped Messenger) pk) in
      modify (removeUnlessUnvaultedSecrets (Scoped Blockchain) pk)
  end.

(** [overlayStoredProfile] of [avatar.ts]. *)
Definition overlayStoredProfile (s : site) (w : UnifiedWallet) : UnifiedWallet :=
  let p := profiles s (uw_signingPublicKey w) in
  let n := if no_text (pr_name p) then w else set_name (pr_name p) w in
  {| uw_id := uw_id n; uw_displayName := uw_displayName n; uw_createdAt := uw_createdAt n; uw_signingPublicKey := uw_signingPublicKey n;
     uw_signingPrivateKey := uw_signingPrivateKey n; uw_encryptionPublicKey := uw_encryptionPublicKey n;
     uw_encryptionPrivateKey := uw_encryptionPrivateKey n; uw_legacyEncryptionPublicKey := uw_legacyEncryptionPublicKey n;
     uw_legacyEncryptionPrivateKey := uw_legacyEncryptionPrivateKey n; uw_version := uw_version n; uw_mnemonic := uw_mnemonic n;
     uw_avatarUrl := match pr_avatar p with Some a => a | None => uw_avatarUrl n end |}.

Definition unlockUnifiedWallet (password : units) : prog StoreI UnifiedWallet :=
  let! s := sget in
  match encrypted s with
  | None => Throw "No encrypted wallet found"
  | Some b =>
      let! raw := decryptWallet b password in
      let! s := sget in
      let! w := ensureCorrectKeys (overlayStoredProfile s raw) in
      let! w := of_res (migrateToDerivedMessagingKeys w) in
      do! saveUnifiedWallet w in
      do! modify (put_locked (Some false)) in
      Ret w
  end.

Definition changeVaultPassword (currentPassword newPassword : units) : prog StoreI unit :=
  let! s := sget in
  match encrypted s with
  | None => Throw "No vault password is set"
  | Some b =>
      let! _ := decryptWallet b currentPassword in
      let! found := loadUnifiedWallet in
      match found with
      | None => Throw "Unlock your wallet first"
      | Some w => let! b := encryptWallet w newPassword in modify (put_encrypted (Some b))
      end
  end.

Definition autoLockWallet : prog StoreI unit :=
  let! s := sget in
  if negb (hasEncryptedWallet s) then Ret tt else
  do! modify (put_session None) in
  do! modify (put_pending false) in
  do! modify (removeUnlessUnvaultedSecrets (Scoped Unified) None) in
  do! modify (removeUnlessUnvaultedSecrets (Scoped Messenger) None) in
  do! modify (removeUnlessUnvaultedSecrets (Scoped Blockchain) None) in
  modify (put_locked (Some true)).

Definition clearUnifiedWallet : prog StoreI unit :=
  modify (fun s => {| wallets := fun _ => None; encrypted := None; locked := None; metadata := None; session_wallet := None;
                      pending := false; profiles := profiles s |}).

Definition hasWallet (s : site) : bool :=
  let there {A} (o : option A) := match o with Some _ => true | None => false end in
  there (session_wallet s) || there (wallets s (Scoped Unified)) || there (wallets s (Scoped Messenger)) || there (wallets s (Scoped Blockchain))
  || there (encrypted s) || there (wallets s (Old Unified)) || there (wallets s (Old Messenger)) || there (wallets s (Old Blockchain)).

Definition getBlockchainWallet : prog StoreI (option (units * units)) :=
  let! w := loadUnifiedWallet in Ret ((fun w => (uw_signingPublicKey w, uw_signingPrivateKey w)) <$> w).

Definition getLegacyMessagingKey (signingPublicKey : units) : prog StoreI (option keypair) :=
  let! w := loadUnifiedWallet in
  Ret (match w with
       | Some w => if negb (units_eqb (uw_signingPublicKey w) signingPublicKey) || no_text (uw_legacyEncryptionPublicKey w) || no_text (uw_legacyEncryptionPrivateKey w)
                   then None else Some {| kp_public := uw_legacyEncryptionPublicKey w; kp_private := uw_legacyEncryptionPrivateKey w |}
       | None => None
       end).
End Store.
