(* ===== verification/StoreClaims.v ===== *)
(** * The site never writes a private key to disk, and a locked wallet comes back

    Against every clock and source of randomness; with runs in which keys of another wallet are lost. *)
From S2P Require Import Prelude JsText JsNum JsUtf16 JsFloat LosslessJson Interact WalletKeys ExtVault VaultClaims WalletStore.
Local Open Scope Z_scope.

Section Store.
Context `{K : KeyDerivation} `{VC : VaultCrypto} `{D : Dates}.

(** ** Operations *)

Inductive store_op :=
| StStage (w : UnifiedWallet) | StSave (w : UnifiedWallet) | StLoad | StLock (pw : units) | StUnlock (pw : units)
| StPassword (old new : units) | StAutoLock | StClear.

Definition run_store (o : store_op) : prog StoreI unit :=
  match o with
  | StStage w => stageUnifiedWallet w
  | StSave w => WalletStore.saveUnifiedWallet w
  | StLoad => bind WalletStore.loadUnifiedWallet (fun _ => Ret tt)
  | StLock pw => WalletStore.lockUnifiedWallet pw
  | StUnlock pw => bind (WalletStore.unlockUnifiedWallet pw) (fun _ => Ret tt)
  | StPassword old new => changeVaultPassword old new
  | StAutoLock => WalletStore.autoLockWallet
  | StClear => WalletStore.clearUnifiedWallet
  end.

Fixpoint run_stores (os : list store_op) : prog StoreI unit :=
  match os with [] => Ret tt | o :: r => bind (attempt (run_store o)) (fun _ => run_stores r) end.

(** ** Private keys on disk *)

(** The private keys and recovery phrase in a document; an empty text is no key. *)
Definition wallet_secrets (w : UnifiedWallet) : list units := [uw_signingPrivateKey w; uw_encryptionPrivateKey w; uw_mnemonic w].
Definition doc_secrets (j : jdoc) : list units := j_privateKey j :: wallet_secrets (j_wallet j).
Definition on_disk (s : site) (x : units) : Prop := exists k j, wallets s k = Some (Ok j) /\ x ∈ doc_secrets j.

Section Private.
Variable before : units -> Prop.

Definition within (l : list units) : Prop := forall x, x <> [] -> x ∈ l -> before x.
Definition private_disk (s : site) : Prop := forall x, x <> [] -> on_disk s x -> before x.

Notation swp := (wp (I := StoreI) (fun _ _ => True) anything).
Definition private {A} (p : prog StoreI A) (R : A -> Prop) : Prop :=
  forall s h, private_disk s -> swp p s h (fun o s' _ => private_disk s' /\ forall a, o = Ok a -> R a).

Lemma private_bind {A B} (p : prog StoreI A) (f : A -> prog StoreI B) R R' : private p R -> (forall a, R a -> private (f a) R') -> private (bind p f) R'.
Proof. intros Hp Hf s h Hs. apply wp_bind. wp_apply Hp; [|done]. intros [a|e] s' h' [Hs' Ha]; [apply Hf; auto|done]. Qed.
Lemma private_mono {A} (p : prog StoreI A) (R R' : A -> Prop) : (forall a, R a -> R' a) -> private p R -> private p R'.
Proof. intros HR Hp s h Hs. wp_apply Hp; [|done]. intros o s' h' [? Ha]. split; [done|]. auto. Qed.
Lemma private_attempt {A} (p : prog StoreI A) R : private p R -> private (attempt p) (fun o => forall a, o = Ok a -> R a).
Proof. intros Hp s h Hs. apply wp_attempt. wp_apply Hp; [|done]. intros o s' h' [? Ha]. split; [done|]. by intros ? [= <-]. Qed.
Lemma private_ret {A} (a : A) (R : A -> Prop) : R a -> private (Ret a) R.
Proof. intros Ha s h Hs. apply wp_ret. split; [done|]. by intros ? [= <-]. Qed.
Lemma private_throw {A} m (R : A -> Prop) : private (Throw m) R.
Proof. by intros s h Hs. Qed.
Lemma private_res {A} (r : res A) : private (of_res r) (fun a => r = Ok a).
Proof. intros s h Hs. apply wp_of_res. done. Qed.
Lemma private_ask c : private (sask c) (fun _ => True).
Proof. intros s h Hs. apply (wp_call (I := StoreI)); [done|]. by intros r _. Qed.
Lemma private_get : private sget private_disk.
Proof. intros s h Hs. apply (wp_get (I := StoreI)). split; [done|]. by intros ? [= <-]. Qed.
Lemma private_modify f : (forall s, private_disk s -> private_disk (f s)) -> private (modify f) (fun _ => True).
Proof. intros Hf s h Hs. cbn. split; [by apply Hf|done]. Qed.

(** Writing a document whose keys are known. *)
Lemma private_put k d s : private_disk s -> (forall j, d = Some (Ok j) -> within (doc_secrets j)) -> private_disk (put_wallet k d s).
Proof.
  intros Hs Hd x Hx (k' & j & E & Hin). cbn in E. destruct (decide (k' = k)); [by eapply Hd|]. apply Hs; [done|]. by exists k', j.
Qed.

Lemma no_secrets_within w : has_secrets w = false -> within (doc_secrets (of_wallet w)).
Proof.
  unfold has_secrets, no_text. rewrite !orb_false_iff, !negb_false_iff, !bool_decide_eq_true. intros [[E1 E2] E3] x Hx.
  unfold doc_secrets, wallet_secrets. cbn. rewrite E1, E2, E3, !elem_of_cons. intros [?|[?|[?|[?|?%elem_of_nil]]]]; done.
Qed.

Lemma private_ensure w : private (WalletStore.ensureCorrectKeys w) (fun _ => True).
Proof.
  unfold WalletStore.ensureCorrectKeys. destruct (is_extension w); [by apply private_ret|].
  apply private_bind with (R := fun _ => True).
  { destruct (signing_ok w); [by apply private_ret|]. eapply private_bind; [apply private_ask|]. intros k _. by apply private_ret. }
  intros w1 _. apply private_bind with (R := fun _ => True).
  { destruct (hasMessagingKeys w1); [by apply private_ret|]. eapply private_bind; [apply private_ask|]. intros k _. by apply private_ret. }
  intros w2 _. by apply private_ret.
Qed.

Lemma private_save w : private (WalletStore.saveUnifiedWallet w) (fun _ => True).
Proof.
  unfold WalletStore.saveUnifiedWallet. eapply private_bind; [apply private_ensure|]. intros v _.
  eapply private_bind; [by apply private_modify|]. intros _ _. eapply private_bind; [apply private_get|]. intros s _.
  apply private_bind with (R := fun _ => True).
  { destruct (has_secrets v) eqn:Ev; cbn [negb andb]; [by apply private_ret|]. destruct (negb _); [|by apply private_ret].
    apply private_modify. intros s' Hs'. apply private_put; [done|]. intros j [= <-]. by apply no_secrets_within. }
  intros _ _. eapply private_bind; [by apply private_modify|]. intros _ _. eapply private_bind; [apply private_res|]. intros iso _.
  eapply private_bind; [apply private_modify; intros s' Hs'; apply private_put; [done|]; intros j [= <-] x Hx|].
  - unfold doc_secrets, wallet_secrets. cbn. rewrite !elem_of_cons. intros [?|[?|[?|[?|?%elem_of_nil]]]]; done.
  - intros _ _. apply private_modify; intros s' Hs'; apply private_put; [done|]; intros j [= <-] x Hx.
    unfold doc_secrets, wallet_secrets. cbn. rewrite !elem_of_cons. intros [?|[?|[?|[?|?%elem_of_nil]]]]; done.
Qed.

Lemma private_upgrade w : private (upgradeAndSave w) (fun _ => True).
Proof.
  unfold upgradeAndSave. eapply private_bind; [apply private_ensure|]. intros v _. apply private_bind with (R := fun _ => True).
  - destruct (same_keys v w); [by apply private_ret|apply private_save].
  - intros _ _. by apply private_ret.
Qed.

Lemma private_migrate w : within (wallet_secrets w) -> private (migrate w) (fun _ => True).
Proof.
  intros Hw. unfold migrate, persistLegacyPlaintext. eapply private_bind; [|intros _ _; apply private_upgrade]. apply private_modify.
  intros s Hs. apply private_put; [done|]. intros j [= <-] x Hx [?|Hin]%elem_of_cons; [done|by apply Hw].
Qed.

Lemma private_try p : private p (fun _ => True) -> private (try_source p) (fun _ => True).
Proof. intros Hp. unfold try_source. eapply private_bind; [by apply private_attempt|]. intros o _. by apply private_ret. Qed.

Lemma private_move p : private p (fun w => within (wallet_secrets w)) -> private (move_legacy p) (fun _ => True).
Proof.
  intros Hp. unfold move_legacy. eapply private_bind; [exact Hp|]. intros w Hw. eapply private_bind; [by apply private_migrate|]. intros r _.
  eapply private_bind; [apply private_save|]. intros _ _. by apply private_ret.
Qed.

Lemma private_clear_migrated pk s : private_disk s -> private_disk (clearMigratedLegacyWallets pk s).
Proof.
  intros Hs. unfold clearMigratedLegacyWallets. cbv zeta.
  assert (forall k s, private_disk s -> private_disk (if holdsSecrets (wallets s k) && negb (belongs (wallets s k) pk) then s else put_wallet k None s)) as Hc.
  { intros k s' Hs'. destruct (_ && _); [done|]. by apply private_put. }
  by apply Hc, Hc, Hc.
Qed.

Lemma private_move_old p : private p (fun w => within (wallet_secrets w)) -> private (move_old p) (fun _ => True).
Proof.
  intros Hp. unfold move_old. eapply private_bind; [exact Hp|]. intros w Hw. eapply private_bind; [by apply private_migrate|]. intros r _.
  eapply private_bind; [apply private_save|]. intros _ _. eapply private_bind; [apply private_modify, private_clear_migrated|]. intros _ _. by apply private_ret.
Qed.

Lemma private_slot k check p :
  (forall j, within (doc_secrets j) -> private (p j) (fun _ => True)) -> private (from_slot k check p) (fun _ => True).
Proof.
  intros Hp. unfold from_slot. eapply private_bind; [apply private_get|]. intros s Hs. destruct (wallets s k) as [[j|]|] eqn:E; try by apply private_ret.
  destruct (check j); [|by apply private_ret]. apply private_try, Hp. intros x Hx Hin. apply Hs; [done|]. by exists k, j.
Qed.

Lemma private_of_messenger j : within (doc_secrets j) -> private (of_messenger j) (fun w => within (wallet_secrets w)).
Proof.
  intros Hj. unfold of_messenger. cbv zeta. apply private_bind with (R := fun _ => True).
  - unfold created. destruct (no_text _); [apply private_ask|by apply private_ret].
  - intros t _. apply private_ret. intros x Hx. unfold wallet_secrets. cbn. rewrite !elem_of_cons. intros [->|[->|[?|?%elem_of_nil]]]; [..|done|done];
      apply Hj; try done; unfold doc_secrets, wallet_secrets; rewrite !elem_of_cons; auto.
Qed.

Lemma private_of_blockchain j : within (doc_secrets j) -> private (of_blockchain j) (fun w => within (wallet_secrets w)).
Proof.
  intros Hj. unfold of_blockchain. eapply private_bind; [apply private_ask|]. intros now _. apply private_bind with (R := fun _ => True).
  - destruct (num_truthy _); [by apply private_ret|apply private_ask].
  - intros t _. apply private_ret. intros x Hx. unfold wallet_secrets. cbn. rewrite !elem_of_cons. intros [->|[?|[?|?%elem_of_nil]]]; [|done..].
    apply Hj; [done|]. left.
Qed.

Lemma private_first l : (forall p, p ∈ l -> private p (fun _ => True)) -> private (first_source l) (fun _ => True).
Proof.
  induction l as [|p l IH]; intros Hl; cbn [first_source]; [by apply private_ret|]. eapply private_bind; [apply Hl; left|].
  intros [w|] _; [by apply private_ret|]. apply IH. intros q Hq. apply Hl. by right.
Qed.

Lemma private_load : private WalletStore.loadUnifiedWallet (fun _ => True).
Proof.
  unfold WalletStore.loadUnifiedWallet. eapply private_bind; [apply private_first|].
  - intros p. rewrite !elem_of_cons. intros [->|[->|[->|?%elem_of_nil]]]; [| | |done].
    + unfold load_session. eapply private_bind; [apply private_get|]. intros s _. destruct (session_wallet s) as [[w|]|]; try by apply private_ret.
      destruct (negb _); [apply private_try, private_upgrade|by apply private_ret].
    + apply private_slot. intros j _. eapply private_bind; [apply private_upgrade|]. intros w _. eapply private_bind; [apply private_save|].
      intros _ _. by apply private_ret.
    + apply private_slot. intros j Hj. by apply private_move, private_of_messenger.
  - intros [w|] _; [by apply private_ret|]. unfold load_blockchain. eapply private_bind; [apply private_get|]. intros s Hs.
    assert (private (first_source [from_slot (Old Unified) signing_private (fun j => move_old (Ret (j_wallet j)));
      from_slot (Old Messenger) signing_private (fun j => move_old (of_messenger j))]) (fun _ => True)) as Hrest.
    { apply private_first. intros p. rewrite !elem_of_cons. intros [->|[->|?%elem_of_nil]]; [| |done]; apply private_slot; intros j Hj; apply private_move_old.
      - apply private_ret. intros x Hx Hin. apply Hj; [done|by right].
      - by apply private_of_messenger. }
    destruct (wallets s (Scoped Blockchain)) as [[j|]|] eqn:E; [|by apply private_ret|done]. destruct (plain_private j); [|done].
    apply private_try, private_move, private_of_blockchain. intros x Hx Hin. apply Hs; [done|]. by exists (Scoped Blockchain), j.
Qed.

Lemma private_remove k pk s : private_disk s -> private_disk (removeUnlessUnvaultedSecrets k pk s).
Proof. intros Hs. unfold removeUnlessUnvaultedSecrets. cbv zeta. destruct (_ && _); [done|]. by apply private_put. Qed.

Lemma private_decrypt b pw : private (WalletStore.decryptWallet b pw) (fun _ => True).
Proof.
  assert (forall d, private (as_wallet d) (fun _ => True)) as Ha.
  { intros d. unfold as_wallet, migrateFromV1. cbv zeta. destruct (_ || _); [|by apply private_ret]. apply private_bind with (R := fun _ => True).
    - destruct (num_truthy _); [by apply private_ret|apply private_ask].
    - intros t _. by apply private_ret. }
  unfold WalletStore.decryptWallet. cbv zeta. eapply private_bind.
  - apply private_attempt with (R := fun _ => True). eapply private_bind; [apply private_res|]. intros d _. apply Ha.
  - intros [w|e] _; [by apply private_ret|]. eapply private_bind; [apply private_res|]. intros d _. apply Ha.
Qed.

Lemma private_encrypt w pw : private (WalletStore.encryptWallet w pw) (fun _ => True).
Proof.
  unfold WalletStore.encryptWallet. eapply private_bind; [apply private_ask|]. intros salt _. eapply private_bind; [apply private_ask|].
  intros iv _. by apply private_ret.
Qed.

Ltac plain_steps := repeat (eapply private_bind; [by apply private_modify|intros _ _]).

Lemma private_lock pw : private (WalletStore.lockUnifiedWallet pw) (fun _ => True).
Proof.
  unfold WalletStore.lockUnifiedWallet. eapply private_bind; [apply private_load|]. intros [w|] _; [|apply private_throw].
  eapply private_bind; [apply private_encrypt|]. intros b _. cbv zeta. plain_steps.
  do 2 (eapply private_bind; [apply private_modify, private_remove|intros _ _]). apply private_modify, private_remove.
Qed.

Lemma private_op o : private (run_store o) (fun _ => True).
Proof.
  destruct o as [w|w| |pw|pw|old new| |]; cbn [run_store].
  - unfold stageUnifiedWallet. eapply private_bind; [apply private_ensure|]. intros v _. plain_steps. by apply private_modify.
  - apply private_save.
  - eapply private_bind; [apply private_load|]. intros w _. by apply private_ret.
  - apply private_lock.
  - apply private_bind with (R := fun _ => True); [|intros w _; by apply private_ret]. unfold WalletStore.unlockUnifiedWallet. eapply private_bind; [apply private_get|].
    intros s _. destruct (encrypted s) as [b|]; [|apply private_throw]. eapply private_bind; [apply private_decrypt|]. intros raw _.
    eapply private_bind; [apply private_get|]. intros s' _. eapply private_bind; [apply private_ensure|]. intros w _.
    eapply private_bind; [apply private_res|]. intros w' _. eapply private_bind; [apply private_save|]. intros _ _. plain_steps. by apply private_ret.
  - unfold changeVaultPassword. eapply private_bind; [apply private_get|]. intros s _. destruct (encrypted s) as [b|]; [|apply private_throw].
    eapply private_bind; [apply private_decrypt|]. intros _ _. eapply private_bind; [apply private_load|]. intros [w|] _; [|apply private_throw].
    eapply private_bind; [apply private_encrypt|]. intros b' _. by apply private_modify.
  - unfold WalletStore.autoLockWallet. eapply private_bind; [apply private_get|]. intros s _. destruct (negb _); [by apply private_ret|]. plain_steps.
    do 3 (eapply private_bind; [apply private_modify, private_remove|intros _ _]). by apply private_modify.
  - apply private_modify. intros s Hs x Hx (k & j & ? & _). done.
Qed.

Lemma private_ops os : private (run_stores os) (fun _ => True).
Proof.
  induction os as [|o os IH]; cbn [run_stores]; [by apply private_ret|]. eapply private_bind; [apply private_attempt, private_op|]. by intros _ _.
Qed.
End Private.


(** ** Locking and unlocking *)

(** Random bytes of the length asked for. *)
Definition randoms_ok : history StoreI -> forall c, res (ans StoreI c) -> Prop := fun _ c =>
  match c with Randoms n => fun r => exists b, r = Ok b /\ length b = n | _ => fun _ => True end.
Notation lwp := (wp (I := StoreI) (fun _ _ => True) randoms_ok).

(** An unlocked wallet with keys of the right sizes, of a build that writes the version. *)
Record usable (w : UnifiedWallet) : Prop := {
  us_signing : signing_ok w = true; us_messaging : hasMessagingKeys w = true; us_version : 2 <= uw_version w;
  us_date : exists iso, toISOString (uw_createdAt w) = Ok iso;
}.

Lemma usable_keys w : signing_ok w = true -> no_text (uw_signingPublicKey w) = false /\ no_text (uw_signingPrivateKey w) = false.
Proof.
  unfold signing_ok, has_bytes, no_text. intros [H1 H2]%andb_true_iff. split; apply bool_decide_eq_false_2; intros E; rewrite E in *; done.
Qed.

Lemma ensure_usable w : signing_ok w = true -> hasMessagingKeys w = true -> WalletStore.ensureCorrectKeys w = Ret w.
Proof.
  intros Hs Hm. unfold WalletStore.ensureCorrectKeys, is_extension. destruct (usable_keys w Hs) as [_ ->]. cbn [andb]. by rewrite Hs; cbn [bind]; rewrite Hm.
Qed.

Lemma same_keys_refl w : same_keys w w = true.
Proof. unfold same_keys. rewrite Z.eqb_refl. by rewrite !(proj2 (units_eqb_true _ _)). Qed.

(** The unlocked wallet is found without a change. *)
Lemma load_unlocked w s h (Q : res (option UnifiedWallet) -> site -> history StoreI -> Prop) :
  session_wallet s = Some (Ok w) -> usable w -> Q (Ok (Some w)) s h -> lwp WalletStore.loadUnifiedWallet s h Q.
Proof.
  intros Hw [Hs Hm _ _] HQ. unfold WalletStore.loadUnifiedWallet. apply wp_bind. cbn [first_source]. apply wp_bind. unfold load_session.
  apply wp_bind, (wp_get (I := StoreI)). rewrite Hw. destruct (usable_keys w Hs) as [-> _]. cbn [negb]. unfold try_source, upgradeAndSave.
  rewrite (ensure_usable w Hs Hm). cbn [bind]. by rewrite same_keys_refl.
Qed.

Lemma encrypt_lwp w pw s h Q : (forall b h', (exists salt iv, length salt = 16%nat /\ length iv = 12%nat
    /\ b = salt ++ iv ++ aes_seal (pbkdf2 pw salt PBKDF2_ITERATIONS) iv (SWallet w)) -> Q (Ok b) s h') -> lwp (WalletStore.encryptWallet w pw) s h Q.
Proof.
  intros HQ. unfold WalletStore.encryptWallet. apply wp_bind, (wp_call (I := StoreI)); [done|]. intros r (salt & -> & Hs).
  apply wp_bind, (wp_call (I := StoreI)); [done|]. intros r (iv & -> & Hi). apply wp_ret, HQ. by exists salt, iv.
Qed.

(** What locking removes. *)
Definition only_vaulted (w : UnifiedWallet) (s s' : site) : Prop := forall k,
  wallets s' k = wallets s k
  \/ wallets s' k = None /\ (holdsSecrets (wallets s k) = false \/ belongs (wallets s k) (uw_signingPublicKey w) = true).

Lemma only_vaulted_remove k w s s' : only_vaulted w s s' -> only_vaulted w s (removeUnlessUnvaultedSecrets k (Some (uw_signingPublicKey w)) s').
Proof.
  intros Ho k'. unfold removeUnlessUnvaultedSecrets. cbv zeta. destruct (holdsSecrets (wallets s' k) && _) eqn:E; [by apply Ho|].
  cbn. destruct (decide (k' = k)) as [->|]; [|by apply Ho]. right. split; [done|]. destruct (Ho k) as [Ek|[Ek Hk]]; [|done].
  rewrite Ek in E. apply andb_false_iff in E as [E|E]; [by left|right]. by apply negb_false_iff in E.
Qed.

Hypothesis seal_open : forall k iv d, aes_open k iv (aes_seal k iv d) = Ok d.

Definition sealed (b : list Z) (w : UnifiedWallet) (pw : units) : Prop :=
  exists salt iv, length salt = 16%nat /\ length iv = 12%nat /\ b = salt ++ iv ++ aes_seal (pbkdf2 pw salt PBKDF2_ITERATIONS) iv (SWallet w).

Lemma decrypt_sealed b w pw s h (Q : res UnifiedWallet -> site -> history StoreI -> Prop) :
  sealed b w pw -> 2 <= uw_version w -> Q (Ok w) s h -> lwp (WalletStore.decryptWallet b pw) s h Q.
Proof.
  intros (salt & iv & Hs & Hi & ->) Hv HQ. unfold WalletStore.decryptWallet. cbv zeta.
  rewrite take_app_length', drop_app_length' by done. rewrite take_app_length' by done.
  replace (drop 28 (salt ++ iv ++ _)) with (aes_seal (pbkdf2 pw salt PBKDF2_ITERATIONS) iv (SWallet w))
    by (rewrite app_assoc, drop_app_length' by (rewrite length_app; lia); done).
  rewrite seal_open. cbn [of_res bind attempt]. unfold as_wallet. cbv zeta.
  destruct (Z.eqb_spec (uw_version w) 0); [lia|]. destruct (Z.eqb_spec (uw_version w) 1); [lia|]. done.
Qed.

Lemma lock_spec w pw s h (Q : res unit -> site -> history StoreI -> Prop) : session_wallet s = Some (Ok w) -> usable w ->
  (forall s' h' b, encrypted s' = Some b -> sealed b w pw -> session_wallet s' = None -> locked s' = Some true -> profiles s' = profiles s ->
     only_vaulted w s s' -> Q (Ok tt) s' h') -> lwp (WalletStore.lockUnifiedWallet pw) s h Q.
Proof.
  intros Hw Hu HQ. unfold WalletStore.lockUnifiedWallet. apply wp_bind. eapply load_unlocked; [done..|].
  apply wp_bind, encrypt_lwp. intros b h' Hb. cbv zeta.
  set (s1 := put_pending false (put_session None (put_metadata (Some (metadata_of w)) (put_locked (Some true) (put_encrypted (Some b) s))))).
  assert (only_vaulted w s s1) as H1 by (by left).
  pose proof (only_vaulted_remove (Scoped Unified) _ _ _ H1) as H2.
  pose proof (only_vaulted_remove (Scoped Messenger) _ _ _ H2) as H3.
  pose proof (only_vaulted_remove (Scoped Blockchain) _ _ _ H3) as H4.
  assert (forall k pk s, encrypted (removeUnlessUnvaultedSecrets k pk s) = encrypted s /\ session_wallet (removeUnlessUnvaultedSecrets k pk s) = session_wallet s
    /\ locked (removeUnlessUnvaultedSecrets k pk s) = locked s /\ profiles (removeUnlessUnvaultedSecrets k pk s) = profiles s) as Hr.
  { intros k pk s0. unfold removeUnlessUnvaultedSecrets. cbv zeta. by destruct (_ && _). }
  cbn. eapply HQ; [| |..|exact H4].
  - rewrite !(proj1 (Hr _ _ _)). reflexivity.
  - exact Hb.
  - by rewrite !(proj1 (proj2 (Hr _ _ _))).
  - by rewrite !(proj1 (proj2 (proj2 (Hr _ _ _)))).
  - by rewrite !(proj2 (proj2 (proj2 (Hr _ _ _)))).
Qed.

(** What a restored wallet has in common with the one that was locked. *)
Record restored (w w' : UnifiedWallet) : Prop := {
  re_public : uw_signingPublicKey w' = uw_signingPublicKey w; re_private : uw_signingPrivateKey w' = uw_signingPrivateKey w;
  re_id : uw_id w' = uw_id w; re_mnemonic : uw_mnemonic w' = uw_mnemonic w;
  re_opening : forall k, k <> [] -> k ∈ opening_keys w -> k ∈ opening_keys w';
  re_usable : usable w';
}.

Lemma migrate_fields w w' : migrateToDerivedMessagingKeys w = Ok w' ->
  uw_id w' = uw_id w /\ uw_mnemonic w' = uw_mnemonic w /\ uw_version w' = uw_version w /\ uw_createdAt w' = uw_createdAt w.
Proof.
  unfold migrateToDerivedMessagingKeys. destruct (_ || _); [by intros [= <-]|]. destruct (negb _); [by intros [= <-]|].
  destruct (deriveMessagingKeypair _ _); [|done]. cbn [res_bind]. destruct (units_eqb _ _); by intros [= <-].
Qed.

Lemma overlay_fields s w : let o := overlayStoredProfile s w in
  signing_ok o = signing_ok w /\ hasMessagingKeys o = hasMessagingKeys w /\ uw_version o = uw_version w /\ uw_createdAt o = uw_createdAt w
  /\ uw_signingPublicKey o = uw_signingPublicKey w /\ uw_signingPrivateKey o = uw_signingPrivateKey w /\ uw_id o = uw_id w
  /\ uw_mnemonic o = uw_mnemonic w /\ opening_keys o = opening_keys w.
Proof. cbv zeta. unfold overlayStoredProfile. cbv zeta. by destruct (no_text _). Qed.

Lemma save_usable w s h (Q : res unit -> site -> history StoreI -> Prop) : usable w ->
  (forall s' h', session_wallet s' = Some (Ok w) -> encrypted s' = encrypted s -> Q (Ok tt) s' h') -> lwp (WalletStore.saveUnifiedWallet w) s h Q.
Proof.
  intros [Hs Hm _ [iso Hi]] HQ. unfold WalletStore.saveUnifiedWallet. rewrite (ensure_usable w Hs Hm). cbn [bind].
  apply wp_bind. cbn [wp modify]. apply wp_bind, (wp_get (I := StoreI)). cbv zeta. apply wp_bind.
  assert (has_secrets w = true) as ->. { unfold has_secrets. destruct (usable_keys w Hs) as [_ ->]. done. }
  cbn [negb andb]. apply wp_ret. apply wp_bind. cbn [wp modify]. apply wp_bind, wp_of_res. rewrite Hi. cbn. by apply HQ.
Qed.

(** C36 A locked wallet comes back.  For an unlocked wallet with keys of the right sizes: locking succeeds, and
    then no wallet is in the session, the encrypted vault holds the wallet, and a plaintext document was
    removed from disk only if it held no private key or belongs to this wallet.  Unlocking with the same
    password succeeds and gives back the same signing keys, id and recovery phrase, with every messaging key
    that opened content before (a newly derived one may be added); the unlocked wallet is usable again. *)
Theorem lock_unlock_roundtrip (e : env StoreI) pw s w :
  respects randoms_ok e -> session_wallet s = Some (Ok w) -> usable w ->
  let s1 := final e (WalletStore.lockUnifiedWallet pw) s in
  outcome e (WalletStore.lockUnifiedWallet pw) s = Ok tt /\ session_wallet s1 = None /\ only_vaulted w s s1
  /\ exists w', outcome e (WalletStore.unlockUnifiedWallet pw) s1 = Ok w'
       /\ session_wallet (final e (WalletStore.unlockUnifiedWallet pw) s1) = Some (Ok w') /\ restored w w'.
Proof.
  intros He Hw Hu. cbv zeta.
  assert (lwp (WalletStore.lockUnifiedWallet pw) s [] (fun o s1 _ => o = Ok tt /\ session_wallet s1 = None /\ only_vaulted w s s1
    /\ lwp (WalletStore.unlockUnifiedWallet pw) s1 [] (fun o s2 _ => exists w', o = Ok w' /\ session_wallet s2 = Some (Ok w') /\ restored w w'))) as H.
  { eapply lock_spec; [done..|]. intros s1 h1 b Hb Hse Hs1 Hl Hp Ho. split; [done|]. split; [done|]. split; [done|].
    unfold WalletStore.unlockUnifiedWallet. apply wp_bind, (wp_get (I := StoreI)). rewrite Hb. apply wp_bind.
    eapply decrypt_sealed; [exact Hse|apply Hu|]. apply wp_bind, (wp_get (I := StoreI)).
    destruct (overlay_fields s1 w) as (Fs & Fm & Fv & Fd & Fp & Fk & Fi & Fn & Fo). set (o := overlayStoredProfile s1 w) in *. clearbody o.
    destruct Hu as [Us Um Uv Ud]. rewrite (ensure_usable o) by congruence. cbn [bind]. apply wp_bind, wp_of_res.
    destruct (migrate_spec o) as (w' & Em & Hop & Hsk & Hpk & Hm & _). rewrite Em. destruct (migrate_fields _ _ Em) as (Gi & Gn & Gv & Gd).
    assert (usable w') as Hu'.
    { split; [|apply Hm; congruence|lia|rewrite Gd, Fd; exact Ud]. unfold signing_ok in *. rewrite Hsk, Hpk, Fk, Fp. exact Us. }
    apply wp_bind. apply save_usable; [done|]. intros s2 h2 H2 _. apply wp_bind. cbn [wp modify]. exists w'. split; [done|]. split; [done|].
    split; [congruence..| |done]. intros k Hk Hin. apply Hop; [done|]. by rewrite Fo. }
  pose proof (wp_run _ _ e _ s [] _ He Logic.I H) as Hr. unfold outcome, final.
  destruct (run e (WalletStore.lockUnifiedWallet pw) s []) as [[o1 s1] h1] eqn:E1. cbn [fst snd] in *. destruct Hr as [(-> & Hs1 & Ho & Hw2) _].
  split; [done|]. split; [done|]. split; [done|]. pose proof (wp_run _ _ e _ s1 [] _ He Logic.I Hw2) as Hr2.
  destruct (run e (WalletStore.unlockUnifiedWallet pw) s1 []) as [[o2 s2] h2] eqn:E2. by destruct Hr2 as [? _].
Qed.
End Store.

(** ** On concrete data *)

Module StoreDemo.
Import VaultDemo.

#[export] Instance ToyDates : Dates := {| date_getTime := fun _ => num_of_Z 0; date_clip := fun n => n; toISOString := fun _ => Ok (u "1970-01-01T00:00:00.000Z") |}.

Definition browser : env StoreI := fun _ c =>
  match c with
  | KeygenDsa => Ok {| kp_public := repeat 99 3904; kp_private := repeat 99 (Z.to_nat 8064) |}
  | KeygenKem => Ok {| kp_public := [99]; kp_private := repeat 99 4800 |}
  | Randoms n => Ok (repeat 7 n)
  | ClockNow => Ok (num_of_Z 5)
  end.

Definition empty_site : site := {| wallets := fun _ => None; encrypted := None; locked := None; metadata := None; session_wallet := None;
  pending := false; profiles := fun _ => {| pr_name := []; pr_avatar := None |} |}.
Definition unlocked (w : UnifiedWallet) : site := put_session (Some (Ok w)) empty_site.

Lemma alice_usable : usable alice.
Proof. split; [vm_compute; reflexivity..|cbn; lia|by eexists]. Qed.

Lemma lock_unlock_roundtrip_witness : let s1 := final browser (WalletStore.lockUnifiedWallet pw) (unlocked alice) in
  exists w', outcome browser (WalletStore.unlockUnifiedWallet pw) s1 = Ok w' /\ restored alice w'.
Proof.
  destruct (lock_unlock_roundtrip toy_seal_open browser pw (unlocked alice) alice) as (_ & _ & _ & w' & Hw & _ & Hr).
  - intros h []; cbn; try done. eexists. split; [reflexivity|]. apply repeat_length.
  - reflexivity.
  - apply alice_usable.
  - exists w'. by split.
Defined.

(** Two documents of older builds, under the scoped keys: the messenger wallet of alice and the
    blockchain wallet of bob. *)
Definition messenger_left : jdoc := {| j_wallet := alice; j_publicKey := []; j_privateKey := []; j_createdAtText := [] |}.
Definition blockchain_left : jdoc := {| j_wallet := no_wallet; j_publicKey := uw_signingPublicKey bob; j_privateKey := uw_signingPrivateKey bob; j_createdAtText := [] |}.
Definition two_wallets : site :=
  put_wallet (Scoped Messenger) (Some (Ok messenger_left)) (put_wallet (Scoped Blockchain) (Some (Ok blockchain_left)) empty_site).


(** The private key a document of the site holds. *)
Definition private_at (s : site) (k : wkey) : option units :=
  match wallets s k with Some (Ok j) => Some (if no_text (j_privateKey j) then uw_signingPrivateKey (j_wallet j) else j_privateKey j) | _ => None end.

(** Loading moves alice's wallet and writes the public data of that wallet over bob's document, the
    only copy of bob's key. *)
Example other_key_overwritten :
  let s := final browser WalletStore.loadUnifiedWallet two_wallets in
  private_at two_wallets (Scoped Blockchain) = Some (uw_signingPrivateKey bob)
  /\ private_at s (Scoped Blockchain) = Some [] /\ private_at s (Scoped Unified) = Some (uw_signingPrivateKey alice)
  /\ encrypted s = None.
Proof. vm_compute. done. Qed.

(** The document of another wallet that locking keeps is overwritten by the unlocking. *)
Definition kept_at_lock : site := put_wallet (Scoped Blockchain) (Some (Ok blockchain_left)) (unlocked alice).
Definition same_private (s : site) (k : wkey) (x : units) : bool := match private_at s k with Some y => units_eqb y x | None => false end.
(** A cipher for alice's wallet only. *)
Definition OneWallet : VaultCrypto := {| pbkdf2 := fun _ _ _ => []; aes_seal := fun _ _ _ => []; aes_open := fun _ _ _ => Ok (SWallet alice) |}.
Example kept_key_overwritten :
  let s1 := final browser (WalletStore.lockUnifiedWallet (VC := OneWallet) pw) kept_at_lock in
  let s2 := final browser (WalletStore.unlockUnifiedWallet (VC := OneWallet) pw) s1 in
  same_private s1 (Scoped Blockchain) (uw_signingPrivateKey bob) = true /\ same_private s2 (Scoped Blockchain) [] = true.
Proof. vm_compute. done. Qed.
End StoreDemo.
