(* ===== verification/Envelope.v ===== *)
(** * Message envelopes ([src/packages/core/src/messenger-envelope.ts])

    The JSON envelope around a chat text, reactions, and the pass that unwraps a list of decrypted
    messages.  A message is the members the pass looks at, and the rest ([em_rest]). *)
From S2P Require Import Prelude JsText JsNum JsUtf16 JsFloat LosslessJson JsValue BridgeInput Finality Address MessageSigning MessageClaims CanonicalJson JsJson.
Local Open Scope Z_scope.

(** ** Envelopes *)

Abbreviation EnvelopeData := object.
Inductive Envelope :=
| Msg (body : units) (replyTo : option units) (pay req : option EnvelopeData)
| Rx (target emoji : units).

Definition asData (x : js) : option EnvelopeData := match x with JObj o => Some o | _ => None end.

(** [v === 1] and [v === t]. *)
Definition is_one (v : js) : bool := match v with JNum n => num_eqb n (num_of_Z 1) | _ => false end.
Definition same_text (v : js) (t : string) : bool := match v with JStr s => units_eqb s (u t) | _ => false end.
Definition text_of (v : js) : option units := match v with JStr s => Some s | _ => None end.

Definition read_envelope (o : object) : option Envelope :=
  let msg := if is_one (prop "v" o) && same_text (prop "k" o) "msg" then
               body ← text_of (prop "b" o); Some (Msg body (text_of (prop "r" o)) (asData (prop "pay" o)) (asData (prop "req" o)))
             else None in
  match msg with
  | Some e => Some e
  | None => if is_one (prop "v" o) && same_text (prop "k" o) "rx" then
              t ← text_of (prop "t" o); e ← text_of (prop "e" o); Some (Rx t e)
            else None
  end.

Definition parseEnvelope (raw : units) : Envelope :=
  match JSON_parse raw with
  | Ok (JObj o) => default (Msg raw None None None) (read_envelope o)
  | _ => Msg raw None None None
  end.

Definition ONE : js := JNum (num_of_Z 1).

(** An empty [replyTo] is left out. *)
Definition given (t : option units) : option units := match t with Some [] | None => None | Some t => Some t end.
Definition opt_field (k : string) (v : option js) : object := match v with Some x => [jfield k x] | None => [] end.

Definition msg_members (body : units) (replyTo : option units) (pay req : option EnvelopeData) : object :=
  [jfield "v" ONE; jfield "k" (JStr (u "msg")); jfield "b" (JStr body)]
  ++ opt_field "r" (JStr <$> given replyTo) ++ opt_field "pay" (JObj <$> pay) ++ opt_field "req" (JObj <$> req).
Definition buildMsgEnvelope (body : units) (replyTo : option units) (pay req : option EnvelopeData) : units :=
  stringify_object (msg_members body replyTo pay req).

Definition rx_members (target emoji : units) : object :=
  [jfield "v" ONE; jfield "k" (JStr (u "rx")); jfield "t" (JStr target); jfield "e" (JStr emoji)].
Definition buildRxEnvelope (target emoji : units) : units := stringify_object (rx_members target emoji).

(** ** Lists of messages *)

Record EnvelopeReaction := { rx_emoji : units; rx_sender : option units }.

Record EnvelopeMessage (R : Type) := {
  em_id : units; em_plaintext : option units; em_senderWalletId : option units;
  em_reactions : option (list units); em_reactionsFrom : option (list EnvelopeReaction);
  em_replyTo : option units; em_pay : option EnvelopeData; em_req : option EnvelopeData; em_mediaUrl : option units; em_rest : R;
}.
Arguments em_id {R}. Arguments em_plaintext {R}. Arguments em_senderWalletId {R}. Arguments em_reactions {R}. Arguments em_reactionsFrom {R}.
Arguments em_replyTo {R}. Arguments em_pay {R}. Arguments em_req {R}. Arguments em_mediaUrl {R}. Arguments em_rest {R}.

Section Apply.
Context {R : Type}.
Implicit Types m : EnvelopeMessage R.

Definition unwrapped m (body : units) (replyTo : option units) (pay req : option EnvelopeData) : EnvelopeMessage R :=
  {| em_id := em_id m; em_plaintext := Some body; em_senderWalletId := em_senderWalletId m; em_reactions := em_reactions m;
     em_reactionsFrom := em_reactionsFrom m; em_replyTo := replyTo;
     em_pay := match pay with Some p => Some p | None => em_pay m end; em_req := match req with Some r => Some r | None => em_req m end;
     em_mediaUrl := em_mediaUrl m; em_rest := em_rest m |}.

Definition reacted m (rx : list EnvelopeReaction) : EnvelopeMessage R :=
  {| em_id := em_id m; em_plaintext := em_plaintext m; em_senderWalletId := em_senderWalletId m;
     em_reactions := Some (default [] (em_reactions m) ++ map rx_emoji rx);
     em_reactionsFrom := Some (default [] (em_reactionsFrom m) ++ rx);
     em_replyTo := em_replyTo m; em_pay := em_pay m; em_req := em_req m; em_mediaUrl := em_mediaUrl m; em_rest := em_rest m |}.

(** [!text || m.mediaUrl || text.startsWith("[")]. *)
Definition left_alone m : bool :=
  match given (em_plaintext m) with
  | None => true
  | Some t => match given (em_mediaUrl m) with Some _ => true | None => match t with c :: _ => c =? 91 | [] => true end end
  end.

(** The loop, with the reactions by target and the messages so far. *)
Definition env_state : Type := list (units * list EnvelopeReaction) * list (EnvelopeMessage R).
Definition apply_one (s : env_state) m : env_state :=
  let '(reactions, out) := s in
  if left_alone m then (reactions, out ++ [m]) else
  let text := default [] (em_plaintext m) in
  match parseEnvelope text with
  | Rx target emoji =>
      (oset target (default [] (oget target reactions) ++ [{| rx_emoji := emoji; rx_sender := em_senderWalletId m |}]) reactions, out)
  | Msg body replyTo pay req =>
      (reactions, out ++ [if units_eqb body text then m else unwrapped m body replyTo pay req])
  end.

Definition applyEnvelopes (messages : list (EnvelopeMessage R)) : list (EnvelopeMessage R) :=
  let '(reactions, out) := foldl apply_one ([], []) messages in
  match reactions with
  | [] => out
  | _ => map (fun m => match oget (em_id m) reactions with Some rx => reacted m rx | None => m end) out
  end.

(** ** Reference: what each message becomes *)

(** The reaction a message is, with its target. *)
Definition reaction_of m : option (units * EnvelopeReaction) :=
  if left_alone m then None else
  match parseEnvelope (default [] (em_plaintext m)) with
  | Rx target emoji => Some (target, {| rx_emoji := emoji; rx_sender := em_senderWalletId m |})
  | Msg _ _ _ _ => None
  end.

(** The message as it is shown, when it is no reaction. *)
Definition shown_as m : option (EnvelopeMessage R) :=
  if left_alone m then Some m else
  let text := default [] (em_plaintext m) in
  match parseEnvelope text with
  | Rx _ _ => None
  | Msg body replyTo pay req => Some (if units_eqb body text then m else unwrapped m body replyTo pay req)
  end.

(** The reactions to a message, in the order of the list. *)
Definition reactions_to (id : units) (messages : list (EnvelopeMessage R)) : list EnvelopeReaction :=
  omap (fun m => p ← reaction_of m; if units_eqb (fst p) id then Some (snd p) else None) messages.

Definition with_reactions (messages : list (EnvelopeMessage R)) m : EnvelopeMessage R :=
  match reactions_to (em_id m) messages with [] => m | rx => reacted m rx end.

Definition displayed (messages : list (EnvelopeMessage R)) : list (EnvelopeMessage R) :=
  map (with_reactions messages) (omap shown_as messages).
End Apply.

(** ** Notes to self and tips *)

Record Participant := { pt_id : option units; pt_signingPublicKey : option units; pt_encryptionPublicKey : option units }.
Record ConversationView := { cv_name : option units; cv_participants : option (list Participant); cv_participantIds : option (list units) }.

Definition in_ids (myIds : list units) (x : units) : bool := existsb (units_eqb x) myIds.

Definition isNoteToSelf (c : ConversationView) (myIds : list units) : bool :=
  let named := match cv_name c with Some n => units_eqb n (u "Note to Self") | None => false end in
  if named then true else
  match default [] (cv_participants c) with
  | [] => match default [] (cv_participantIds c) with [] => false | ids => forallb (in_ids myIds) ids end
  | ps => forallb (fun p => in_ids myIds (default [] (pt_id p)) || in_ids myIds (default [] (pt_signingPublicKey p))
                            || in_ids myIds (default [] (pt_encryptionPublicKey p))) ps
  end.

(** The longest prefix of units that satisfy a test. *)
Fixpoint span_while (f : Z -> bool) (l : units) : units * units :=
  match l with
  | c :: r => if f c then let '(a, b) := span_while f r in (c :: a, b) else ([], l)
  | [] => ([], [])
  end.
Definition amount_unit (c : Z) : bool := is_dec c || (c =? 46).
Definition letter_unit (c : Z) : bool := ((65 <=? c) && (c <=? 90)) || ((97 <=? c) && (c <=? 122)).

(** [TIP_RE] on the trimmed body. *)
Definition parseTip (body : option units) : option (units * units) :=
  b ← given body;
  r ← strip (u "[tip:") (utrim b);
  let '(amount, r1) := span_while amount_unit r in
  r2 ← expect 58 r1;
  let '(symbol, r3) := span_while letter_unit r2 in
  r4 ← expect 93 r3;
  if negb (bool_decide (amount = [])) && (2 <=? length symbol)%nat && (length symbol <=? 8)%nat && bool_decide (r4 = []) then Some (amount, symbol) else None.
