(* ===== verification/EnvelopeClaims.v ===== *)
(** * Envelopes read back, and every message is shown once

    What [buildMsgEnvelope] and [buildRxEnvelope] write is what [parseEnvelope] reads; the pass over a list of
    messages is the reference [displayed]; and when it may be repeated. *)
From S2P Require Import Prelude JsText JsNum JsUtf16 JsFloat LosslessJson JsValue Finality Address MessageSigning MessageClaims CanonicalJson JsJson Envelope.
Local Open Scope Z_scope.

(** ** The pass over a list *)

Section Apply.
Context {R : Type}.
Implicit Types m : EnvelopeMessage R.

Definition reactions_map (ms : list (EnvelopeMessage R)) (r : list (units * list EnvelopeReaction)) : Prop :=
  forall id, oget id r = match reactions_to id ms with [] => None | rx => Some rx end.

Lemma reactions_to_app id ms ms' : reactions_to (R := R) id (ms ++ ms') = reactions_to id ms ++ reactions_to id ms'.
Proof. apply omap_app. Qed.

Lemma apply_loop ms : exists r, foldl apply_one ([], []) ms = (r, omap shown_as ms) /\ reactions_map ms r.
Proof.
  induction ms as [|m ms IH] using rev_ind; [by exists []|]. destruct IH as (r & E & Hr).
  rewrite foldl_app, E, omap_app. cbn [foldl apply_one omap list_omap].
  assert (reaction_of m = None -> reactions_map (ms ++ [m]) r) as Hnone.
  { intros Hm id. rewrite reactions_to_app, Hr. unfold reactions_to at 2. cbn. rewrite Hm. cbn. by rewrite app_nil_r. }
  destruct (left_alone m) eqn:El.
  { exists r. split; [unfold shown_as; rewrite El; done|]. apply Hnone. unfold reaction_of. by rewrite El. }
  destruct (parseEnvelope (default [] (em_plaintext m))) as [body rt pay req|target emoji] eqn:Ep.
  { exists r. split; [unfold shown_as; rewrite El, Ep; done|]. apply Hnone. unfold reaction_of. by rewrite El, Ep. }
  set (x := {| rx_emoji := emoji; rx_sender := em_senderWalletId m |}).
  exists (oset target (default [] (oget target r) ++ [x]) r). split; [unfold shown_as; rewrite El, Ep; cbn; by rewrite app_nil_r|].
  intros id. rewrite oget_oset, reactions_to_app. unfold reactions_to at 2. cbn. unfold reaction_of. rewrite El, Ep. cbn.
  destruct (units_eqb id target) eqn:Ei.
  - apply units_eqb_true in Ei as ->. rewrite (proj2 (units_eqb_true target target)) by done. cbn. rewrite Hr. by destruct (reactions_to target ms).
  - assert (units_eqb target id = false) as ->.
    { destruct (units_eqb target id) eqn:E2; [|done]. apply units_eqb_true in E2 as ->. by rewrite (proj2 (units_eqb_true id id)) in Ei. }
    cbn. by rewrite app_nil_r, Hr.
Qed.

Lemma apply_displayed ms : applyEnvelopes (R := R) ms = displayed ms.
Proof.
  unfold applyEnvelopes, displayed. destruct (apply_loop ms) as (r & -> & Hr).
  assert (forall l, map (fun m => match oget (em_id m) r with Some rx => reacted m rx | None => m end) l = map (with_reactions ms) l) as Hm.
  { intros l. apply map_ext. intros m. unfold with_reactions. rewrite Hr. by destruct (reactions_to (em_id m) ms). }
  destruct r as [|p r]; [|apply Hm]. rewrite <- Hm. cbn. by rewrite map_id.
Qed.

(** ** Repeating the pass *)

(** A text that the pass leaves as it is. *)
Definition settles (t : units) : bool :=
  match t with
  | [] => true
  | c :: _ => (c =? 91) || match parseEnvelope t with Msg b _ _ _ => units_eqb b t | Rx _ _ => false end
  end.

Definition settled m : Prop := shown_as m = Some m /\ reaction_of m = None.

Lemma settles_settled m : settles (default [] (em_plaintext m)) = true -> settled m.
Proof.
  intros H. unfold settled, shown_as, reaction_of. destruct (left_alone m) eqn:El; [done|]. unfold left_alone in El.
  destruct (em_plaintext m) as [[|c t]|]; cbn [default given id] in *; [done| |done].
  unfold settles in H. destruct (c =? 91); [by destruct (given (em_mediaUrl m))|]. cbn [orb] in H.
  destruct (parseEnvelope (c :: t)) as [b| ]; [by rewrite H|discriminate H].
Qed.

Lemma settled_reacted m rx : settled m -> settled (reacted m rx).
Proof.
  unfold settled, shown_as, reaction_of. change (left_alone (reacted m rx)) with (left_alone m). change (em_plaintext (reacted m rx)) with (em_plaintext m).
  destruct (left_alone m); [done|]. destruct (parseEnvelope _) as [b|]; [|by intros [? ?]]. destruct (units_eqb b _) eqn:E; [done|].
  intros [H _]. injection H as H. apply (f_equal em_plaintext) in H. cbn in H. rewrite <- H in E. cbn in E.
  by rewrite (proj2 (units_eqb_true b b)) in E.
Qed.

Lemma displayed_settled ms : Forall settled ms -> displayed (R := R) ms = ms.
Proof.
  intros Hs. unfold displayed.
  assert (omap shown_as ms = ms) as ->. { induction Hs as [|m ms [H _] _ IH]; [done|]. cbn. rewrite H. by f_equal. }
  assert (forall id, reactions_to id ms = []) as Hr. { intros id. induction Hs as [|m l [_ H] _ IH]; [done|]. cbn. rewrite H. cbn. done. }
  etrans; [|apply map_id]. apply map_ext. intros m. unfold with_reactions. by rewrite Hr.
Qed.

(** The body of every envelope in the list is itself plain. *)
Definition bodies_plain (ms : list (EnvelopeMessage R)) : Prop :=
  forall m body replyTo pay req, m ∈ ms -> left_alone m = false -> parseEnvelope (default [] (em_plaintext m)) = Msg body replyTo pay req ->
    settles body = true.

Lemma displayed_plain ms : bodies_plain ms -> Forall settled (displayed ms).
Proof.
  intros Hb. unfold displayed. apply Forall_forall. intros x (y & -> & Hy)%list_elem_of_fmap.
  assert (settled y) as Hs.
  { apply list_elem_of_omap in Hy as (m & Hm & Ey). specialize (Hb m). unfold shown_as in Ey. destruct (left_alone m) eqn:El.
    - injection Ey as <-. unfold settled, shown_as, reaction_of. by rewrite El.
    - destruct (parseEnvelope _) as [body rt pay req|] eqn:Ep; [|done]. injection Ey as <-. destruct (units_eqb body _) eqn:Eb.
      + unfold settled, shown_as, reaction_of. by rewrite El, Ep, Eb.
      + apply settles_settled. cbn. by eapply Hb. }
  unfold with_reactions. destruct (reactions_to _ ms); [done|by apply settled_reacted].
Qed.

End Apply.

(** ** Round trips *)

(** Data of an envelope that can be sent: JavaScript values, not nested too deep. *)
Definition sendable (d : option EnvelopeData) : Prop :=
  match d with Some o => wf_js (JObj o) /\ nesting (json_tree (JObj o)) <= 255 | None => True end.

(** What comes back of data: every member as it is read back, and the same JSON text when its numbers
    survive theirs. *)
Definition received (d d' : option EnvelopeData) : Prop :=
  match d, d' with
  | Some o, Some q => (forall k, prop k q = read_back (prop k o)) /\ (exact_tree (json_tree (JObj o)) -> stringify_object q = stringify_object o)
  | None, None => True
  | _, _ => False
  end.

Lemma wf_str s : Forall is_unit s -> wf_js (JStr s).
Proof. done. Qed.

Lemma received_data d : sendable d -> received d (asData (read_back (default JUndef (JObj <$> d)))).
Proof.
  destruct d as [o|]; [|done]. intros [Hw _]. cbn [fmap option_fmap option_map default id]. destruct (read_back_obj o Hw) as (q & E & H).
  rewrite E. cbn. split; [done|]. intros He. by apply read_back_text.
Qed.

(** The members of a message envelope. *)
Lemma msg_props body replyTo pay req : let o := msg_members body replyTo pay req in
  prop "v" o = ONE /\ prop "k" o = JStr (u "msg") /\ prop "b" o = JStr body /\ prop "r" o = default JUndef (JStr <$> given replyTo)
  /\ prop "pay" o = default JUndef (JObj <$> pay) /\ prop "req" o = default JUndef (JObj <$> req).
Proof. cbv zeta. unfold msg_members. destruct (given replyTo), pay, req; split_and!; reflexivity. Qed.

Lemma msg_wf body replyTo pay req : Forall is_unit body -> Forall is_unit (default [] replyTo) -> sendable pay -> sendable req ->
  wf_js (JObj (msg_members body replyTo pay req)) /\ nesting (json_tree (JObj (msg_members body replyTo pay req))) <= 256.
Proof.
  intros Hb Hr Hp Hq.
  assert (wf_js ONE) as H1 by (by intros _).
  assert (forall t, given replyTo = Some t -> Forall is_unit t) as Hg. { intros t. destruct replyTo as [[|c r]|]; [done| |done]. by intros [= <-]. }
  split.
  - apply wf_fields.
    + unfold msg_members. destruct (given replyTo), pay, req; distinct_keys.
    + unfold msg_members, opt_field. repeat apply Forall_app_2; [fields_wf; done|..].
      * destruct (given replyTo) eqn:E; fields_wf. by apply Hg.
      * destruct pay; fields_wf. apply Hp.
      * destruct req; fields_wf. apply Hq.
  - apply (tree_bound _ 255); [lia|]. unfold msg_members, opt_field.
    repeat apply Forall_app_2; [repeat (apply List.Forall_cons; [done|]); apply List.Forall_nil|..].
    + destruct (given replyTo); repeat constructor; done.
    + destruct pay; [|constructor]. apply List.Forall_cons; [apply Hp|constructor].
    + destruct req; [|constructor]. apply List.Forall_cons; [apply Hq|constructor].
Qed.

Lemma rx_wf target emoji : Forall is_unit target -> Forall is_unit emoji ->
  wf_js (JObj (rx_members target emoji)) /\ nesting (json_tree (JObj (rx_members target emoji))) <= 256.
Proof.
  intros Ht He. split; [|done]. apply wf_fields; [distinct_keys|].
  unfold rx_members. fields_wf; done.
Qed.

Lemma read_back_one : read_back ONE = ONE.
Proof. by vm_compute. Qed.

(** A sent envelope is read as it was meant.  For texts of UTF-16 code units and payment data of JavaScript
    values, [parseEnvelope] reads the text of [buildMsgEnvelope] as a message with the same body, the same reply
    (none for an empty one), and the payment and request data as JSON carries them, member by member; it reads
    the text of [buildRxEnvelope] as the reaction it was built from. *)
Theorem envelope_roundtrip body replyTo pay req target emoji :
  Forall is_unit body -> Forall is_unit (default [] replyTo) -> sendable pay -> sendable req -> Forall is_unit target -> Forall is_unit emoji ->
  (exists pay' req', parseEnvelope (buildMsgEnvelope body replyTo pay req) = Msg body (given replyTo) pay' req'
     /\ received pay pay' /\ received req req')
  /\ parseEnvelope (buildRxEnvelope target emoji) = Rx target emoji.
Proof.
  intros Hb Hr Hp Hq Ht He. split.
  - destruct (msg_wf body replyTo pay req) as [Hw Hn]; [done..|]. destruct (parse_object_prop _ Hw Hn) as (q & E & H).
    unfold parseEnvelope, buildMsgEnvelope. rewrite E. unfold read_envelope. cbv zeta. rewrite !H.
    destruct (msg_props body replyTo pay req) as (-> & -> & -> & -> & -> & ->). rewrite read_back_one.
    do 2 eexists. split; [|split; by apply received_data]. cbn. by destruct (given replyTo).
  - destruct (rx_wf target emoji) as [Hw Hn]; [done..|]. destruct (parse_object_prop _ Hw Hn) as (q & E & H).
    unfold parseEnvelope, buildRxEnvelope. rewrite E. unfold read_envelope. cbv zeta. by rewrite !H.
Qed.

(** ** On concrete data *)

Module EnvelopeDemo.
Definition message (id text : units) : EnvelopeMessage unit :=
  {| em_id := id; em_plaintext := Some text; em_senderWalletId := Some (u "bob"); em_reactions := None; em_reactionsFrom := None;
     em_replyTo := None; em_pay := None; em_req := None; em_mediaUrl := None; em_rest := tt |}.

Definition payment : EnvelopeData := [jfield "token" (JStr (u "XRGE")); jfield "amount" (JNum (num_of_Z 5))].

Lemma envelope_roundtrip_witness :
  exists pay', parseEnvelope (buildMsgEnvelope (u "Sent 5 XRGE") (Some (u "m1")) (Some payment) None) = Msg (u "Sent 5 XRGE") (Some (u "m1")) pay' None
    /\ received (Some payment) pay'.
Proof.
  destruct (envelope_roundtrip (u "Sent 5 XRGE") (Some (u "m1")) (Some payment) None (u "m1") (u "ok")) as [(p & r & E & Hp & Hr) _];
    try apply u_units; [|done|].
  - split; [|by vm_compute]. apply wf_fields; [distinct_keys|]. unfold payment. fields_wf. by intros _.
  - exists p. split; [|exact Hp]. destruct r as [r|]; [destruct Hr|exact E].
Defined.

Definition chat : list (EnvelopeMessage unit) := [message (u "m1") (buildMsgEnvelope (u "hi") None None None); message (u "m2") (buildRxEnvelope (u "m1") (u "+1"))].


(** A message whose body reads as a reaction is shown after the first pass, and gone after the second. *)
Example repeated_pass_drops :
  let once := applyEnvelopes [message (u "m1") (buildMsgEnvelope (buildRxEnvelope (u "m0") (u "+1")) None None None)] in
  map em_id once = [u "m1"] /\ applyEnvelopes once = [].
Proof. vm_compute. done. Qed.
End EnvelopeDemo.
