(* ===== verification/MessengerCrypto.v ===== *)
(** * Encryption of messages ([src/packages/core/src/pqc-messenger.ts], [messenger-crypto-v2.ts])

    The world of the messenger, signed requests, and the two package formats: a message for one
    recipient with a copy for the sender, and the wrapped-key package of groups.  ML-KEM
    decapsulation, HKDF, AES-GCM and UTF-8 decoding are the class [MessageCrypto]; encapsulation,
    which is randomised, is a command.  A member of a package that is no text makes it unreadable. *)
From S2P Require Import Prelude JsText JsNum JsUtf16 JsFloat LosslessJson JsValue Interact Finality Address MessageSigning MessageClaims CanonicalJson JsJson Envelope ChainBinding TxSigner WalletKeys.
Local Open Scope Z_scope.

(** ** The world *)

(** [Wallet] and [WalletWithPrivateKeys]; empty texts are missing keys. *)
Record MWallet := {
  mw_id : units; mw_displayName : units; mw_signingPublicKey : units; mw_encryptionPublicKey : units;
  mw_signingPrivateKey : units; mw_encryptionPrivateKey : units; mw_avatarUrl : option units;
}.

Record TofuEntry := { te_walletId : units; te_signingFingerprint : units; te_encryptionFingerprint : units; te_firstSeen : number }.

(** A stored document: absent, no JSON, or its content. *)
Abbreviation document A := (option (res A)).

(** The messenger's items in local storage. *)
Record mstate := {
  ms_sent : document (list (units * units)); ms_privacy : document object; ms_tofu : document (list (units * TofuEntry)); ms_wallet : document MWallet;
}.

(** A response: [ok], [status], and what [text()] and [json()] give. *)
Record reply := { rp_ok : bool; rp_status : Z; rp_text : res units; rp_json : res js }.

Inductive ms_cmd :=
| RandomOf (n : nat) | Encapsulate (publicKey : list Z) | NowMs | NowIso | RandomId | DsaKeys | DemoBot
| SigningChain
| PostSigned (path : units) (b : SignedTx) | FetchGet (path : units) | FetchQuery (path : units) (params : list (units * units))
| LegacyKey (signingPublicKey : units) | UnlockedWallet | AvatarFor (w : MWallet).

Definition ms_ans (c : ms_cmd) : Type :=
  match c with
  | RandomOf _ => list Z
  | Encapsulate _ => list Z * list Z
  | NowMs => number
  | NowIso | RandomId | SigningChain => units
  | DemoBot => option MWallet
  | DsaKeys => keypair
  | PostSigned _ _ | FetchGet _ | FetchQuery _ _ => reply
  | LegacyKey _ => option keypair
  | UnlockedWallet => option (units * units)
  | AvatarFor _ => option units
  end.

Definition MsgI : iface := {| st := mstate; cmd := ms_cmd; ans := ms_ans |}.
Definition mask (c : ms_cmd) : prog MsgI (ms_ans c) := @call MsgI c.
Definition mget : prog MsgI mstate := @get MsgI.
Definition mput (s : mstate) : prog MsgI unit := @put MsgI s.

Class MessageCrypto := {
  kem_decapsulate : list Z -> list Z -> res (list Z);
  hkdf : list Z -> units -> list Z;
  gcm_encrypt : list Z -> list Z -> list Z -> list Z;
  gcm_decrypt : list Z -> list Z -> list Z -> res (list Z);
  text_decode : list Z -> units;
}.

Local Open Scope prog_scope.

Section Crypto.
Context `{C : Crypto} `{P : Platform} `{M : MessageCrypto}.

(** ** Signed requests *)

Definition sorted_payload (p : object) : object := match sortKeysDeep (JObj p) with JObj o => o | _ => [] end.

Definition buildSignedRequest (payload : object) (signingPrivateKey signingPublicKey : units) : prog MsgI SignedTx :=
  let! nonce := mask (RandomOf 16) in
  let! now := mask NowMs in
  let fullPayload := with_prop "nonce" (JStr (bytesToHex nonce)) (with_prop "timestamp" (JNum now) (with_prop "from" (JStr signingPublicKey) payload)) in
  let! chainId := mask SigningChain in
  let! bound := of_res (coreWithChainId fullPayload chainId) in
  let! sig := of_res (ml_dsa65_sign (serializePayload bound) (hexToBytes signingPrivateKey)) in
  Ret {| tx_payload := sorted_payload bound; tx_signature := bytesToHex sig; tx_public_key := signingPublicKey; tx_payload_bytes_hex := None |}.

(** ** Members of a package *)

(** A text member; anything else makes the package unreadable. *)
Definition need (k : string) (o : object) : res units := match prop k o with JStr s => Ok s | _ => Err "TypeError" end.
(** [x && y && z] on text members. *)
Definition have (k : string) (o : object) : bool := js_truthy (prop k o).

Definition parse_package (text : units) : res object :=
  res_bind (JSON_parse text) (fun v => match v with JObj o => Ok o | _ => Err "TypeError" end).

(** ** One recipient *)

Definition MSG_INFO : units := u "pqc-msg".
Record KemBox := { kb_kemCipherText : units; kb_iv : units; kb_encryptedContent : units }.

Definition kemEncryptPlaintext (plaintext : units) (encryptionPublicKey : list Z) : prog MsgI KemBox :=
  let! e := mask (Encapsulate encryptionPublicKey) in
  let! iv := mask (RandomOf 12) in
  Ret {| kb_kemCipherText := bytesToHex (fst e); kb_iv := bytesToHex iv;
         kb_encryptedContent := bytesToHex (gcm_encrypt (hkdf (snd e) MSG_INFO) iv (utf8 plaintext)) |}.

Definition package_members (r : KemBox) (s : option KemBox) : object :=
  [jfield "kemCipherText" (JStr (kb_kemCipherText r)); jfield "iv" (JStr (kb_iv r)); jfield "encryptedContent" (JStr (kb_encryptedContent r))]
  ++ match s with
     | Some s => [jfield "senderKemCipherText" (JStr (kb_kemCipherText s)); jfield "senderIv" (JStr (kb_iv s));
                  jfield "senderEncryptedContent" (JStr (kb_encryptedContent s))]
     | None => []
     end.

Definition encryptMessage (plaintext recipientEncryptionPublicKey senderSigningPrivateKey : units) (senderEncryptionPublicKey : units)
  : prog MsgI (units * units) :=
  let senderPrivKeyBytes := hexToBytes senderSigningPrivateKey in
  if negb (Z.of_nat (length senderPrivKeyBytes) =? ML_DSA65_SECRET_KEY_BYTES) then Throw "Signing key invalid" else
  let! recipientEnc := kemEncryptPlaintext plaintext (hexToBytes recipientEncryptionPublicKey) in
  let! senderEnc := (if no_text senderEncryptionPublicKey then Ret None
                     else let! b := kemEncryptPlaintext plaintext (hexToBytes senderEncryptionPublicKey) in Ret (Some b)) in
  let encryptedPackage := stringify_object (package_members recipientEnc senderEnc) in
  let! signature := of_res (ml_dsa65_sign (utf8 encryptedPackage) senderPrivKeyBytes) in
  Ret (encryptedPackage, bytesToHex signature).

Definition kemDecryptPayload (kemCipherText iv encryptedContent : units) (decryptionPrivateKey : list Z) : res units :=
  res_bind (kem_decapsulate (hexToBytes kemCipherText) decryptionPrivateKey) (fun sharedSecret =>
  res_bind (gcm_decrypt (hkdf sharedSecret MSG_INFO) (hexToBytes iv) (hexToBytes encryptedContent)) (fun d =>
  Ok (text_decode d))).

(** The check of a signature; any exception is [false]. *)
Definition verified (encryptedPackage signature signer : units) (hex : units -> list Z) : bool :=
  if no_text signer || no_text signature then false else
  match ml_dsa65_verify (hex signature) (utf8 encryptedPackage) (hex signer) with Ok b => b | Err _ => false end.

Definition decryptMessage (encryptedPackage recipientEncryptionPrivateKey senderSigningPublicKey signature : units) (isSender : bool)
  : res (units * bool) :=
  res_bind (parse_package encryptedPackage) (fun d =>
  let privKeyBytes := hexToBytes recipientEncryptionPrivateKey in
  let own := isSender && have "senderKemCipherText" d && have "senderIv" d && have "senderEncryptedContent" d in
  res_bind (need (if own then "senderKemCipherText" else "kemCipherText") d) (fun ct =>
  res_bind (need (if own then "senderIv" else "iv") d) (fun iv =>
  res_bind (need (if own then "senderEncryptedContent" else "encryptedContent") d) (fun content =>
  res_bind (kemDecryptPayload ct iv content privKeyBytes) (fun plaintext =>
  Ok (plaintext, verified encryptedPackage signature senderSigningPublicKey hexToBytes)))))).

(** ** Groups *)

Definition WRAP_INFO : units := u "pqc-cek-wrap".

(** [fromHex] drops a [0x]. *)
Definition fromHex (hex : units) : list Z := hexToBytes (match strip (u "0x") hex with Some r => r | None => hex end).

Definition is_two (v : js) : bool := match v with JNum n => num_eqb n (num_of_Z 2) | _ => false end.
Definition is_object (v : js) : bool := match v with JObj _ | JArr _ => true | _ => false end.

Definition isV2Package (encryptedPackage : units) : bool :=
  match JSON_parse encryptedPackage with
  | Ok (JObj o) => is_two (prop "version" o) && is_object (prop "wrappedKeys" o)
  | _ => false
  end.

(** [[...new Set(l)]]. *)
Fixpoint distinct (seen l : list units) : list units :=
  match l with
  | [] => []
  | x :: r => if existsb (units_eqb x) seen then distinct seen r else x :: distinct (x :: seen) r
  end.

Definition wrapped_key (ct cek iv : list Z) : js :=
  JObj [jfield "kemCipherText" (JStr (bytesToHex ct)); jfield "wrappedCek" (JStr (bytesToHex cek)); jfield "wrappedIv" (JStr (bytesToHex iv))].

(** The loop over the members' keys, read by [hex]. *)
Fixpoint wrap_all (hex : units -> list Z) (cek : list Z) (keys : list units) (wrappedKeys : object) : prog MsgI object :=
  match keys with
  | [] => Ret wrappedKeys
  | k :: r =>
      if no_text k then wrap_all hex cek r wrappedKeys else
      let! e := mask (Encapsulate (hex k)) in
      let! wrapIv := mask (RandomOf 12) in
      wrap_all hex cek r (oset k (wrapped_key (fst e) (gcm_encrypt (hkdf (snd e) WRAP_INFO) wrapIv cek) wrapIv) wrappedKeys)
  end.

Definition v2_members (iv content : list Z) (wrappedKeys : object) : object :=
  [jfield "version" (JNum (num_of_Z 2)); jfield "iv" (JStr (bytesToHex iv)); jfield "encryptedContent" (JStr (bytesToHex content));
   jfield "wrappedKeys" (JObj wrappedKeys)].

(** The body that messages and mails share; they read hexadecimal texts with functions of their own. *)
Definition encrypt_wrapped (hex : units -> list Z) (plaintext : units) (recipientEncPubKeys : list units) (senderEncPubKey : units) : prog MsgI units :=
  let! cek := mask (RandomOf 32) in
  let! iv := mask (RandomOf 12) in
  let encrypted := gcm_encrypt cek iv (utf8 plaintext) in
  let! wrappedKeys := wrap_all hex cek (distinct [] (recipientEncPubKeys ++ [senderEncPubKey])) [] in
  Ret (stringify_object (v2_members iv encrypted wrappedKeys)).

Definition encryptV2Package (plaintext : units) (recipientEncPubKeys : list units) (senderEncPubKey : units) : prog MsgI units :=
  encrypt_wrapped fromHex plaintext recipientEncPubKeys senderEncPubKey.

Definition encryptAndSignV2 (plaintext : units) (recipientEncPubKeys : list units) (senderEncPubKey senderSigningPrivateKey : units)
  : prog MsgI (units * units) :=
  let! encryptedPackage := encryptV2Package plaintext recipientEncPubKeys senderEncPubKey in
  let! signature := of_res (ml_dsa65_sign (utf8 encryptedPackage) (fromHex senderSigningPrivateKey)) in
  Ret (encryptedPackage, bytesToHex signature).

(** Opening the wrapped key of a member, and the content with it. *)
Definition open_wrapped (hex : units -> list Z) (pkg : object) (myEncPrivKey myEncPubKey : units) : res units :=
  match prop "wrappedKeys" pkg with
  | JObj keys =>
      match default JUndef (oget myEncPubKey keys) with
      | JObj mine =>
          res_bind (need "kemCipherText" mine) (fun ct =>
          res_bind (kem_decapsulate (hex ct) (hex myEncPrivKey)) (fun sharedSecret =>
          res_bind (need "wrappedIv" mine) (fun wiv =>
          res_bind (need "wrappedCek" mine) (fun wcek =>
          res_bind (gcm_decrypt (hkdf sharedSecret WRAP_INFO) (hex wiv) (hex wcek)) (fun cek =>
          res_bind (need "iv" pkg) (fun iv =>
          res_bind (need "encryptedContent" pkg) (fun content =>
          res_bind (gcm_decrypt cek (hex iv) (hex content)) (fun pt =>
          Ok (text_decode pt)))))))))
      | JUndef | JNull => Err "No wrapped key for this recipient"
      | _ => Err "TypeError"
      end
  | _ => Err "No wrapped key for this recipient"
  end.

Definition decryptV2Package (encryptedPackage myEncPrivKey myEncPubKey : units) : res units :=
  res_bind (parse_package encryptedPackage) (fun pkg => open_wrapped fromHex pkg myEncPrivKey myEncPubKey).

Definition verifyPackageSignature (encryptedPackage signatureHex signerSigningPubKey : units) : bool :=
  verified encryptedPackage signatureHex signerSigningPubKey fromHex.
End Crypto.
