(* ===== verification/MessageOpens.v ===== *)
(** * Encrypted messages open for their recipients

    Against every source of randomness, with a KEM, a cipher and a signature scheme that keep their laws. *)
From S2P Require Import Prelude JsText JsNum JsUtf16 JsFloat LosslessJson JsValue Interact EvmCalldata Finality Address MessageSigning MessageClaims CanonicalJson JsJson Envelope ChainBinding TxSigner TxSignerClaims WalletKeys MessengerCrypto.
Local Open Scope Z_scope.

(** ** Hexadecimal texts *)

Lemma hexd_ok x : 0 <= x < 16 -> is_unit (hexd x) /\ hexd x <> 120.
Proof. intros Hx. unfold hexd, is_unit. destruct (x <? 10) eqn:E; [apply Z.ltb_lt in E|apply Z.ltb_ge in E]; lia. Qed.

Lemma toHex_units b : Forall byte b -> Forall is_unit (toHex b).
Proof.
  induction 1 as [|x b Hx _ IH]; [constructor|]. unfold byte in Hx. pose proof (Z.mod_pos_bound x 16).
  assert (0 <= x / 16 < 16) by (split; [apply Z.div_pos; lia|apply Z.div_lt_upper_bound; lia]).
  cbn [toHex flat_map app]. constructor; [apply hexd_ok; lia|]. constructor; [apply hexd_ok; lia|exact IH].
Qed.

Lemma toHex_prefix b : Forall byte b -> strip (u "0x") (toHex b) = None.
Proof.
  destruct 1 as [|x b Hx _]; [done|]. unfold byte in Hx. cbn [toHex flat_map app]. change (u "0x") with [48; 120]. cbn [strip].
  destruct (48 =? hexd (x / 16)); [|done]. pose proof (Z.mod_pos_bound x 16). destruct (hexd_ok (x mod 16) ltac:(lia)) as [_ H'].
  destruct (Z.eqb_spec 120 (hexd (x mod 16))); [congruence|done].
Qed.

Lemma fromHex_toHex b : Forall byte b -> MessengerCrypto.fromHex (toHex b) = b.
Proof. intros Hb. unfold MessengerCrypto.fromHex. rewrite toHex_prefix by done. by apply hexToBytes_toHex. Qed.

Lemma toHex_nonempty b : b <> [] -> no_text (toHex b) = false.
Proof. intros Hb. apply bool_decide_eq_false_2. by destruct b. Qed.

Lemma truthy_hex b : b <> [] -> js_truthy (JStr (toHex b)) = true.
Proof. intros Hb. cbn. rewrite bool_decide_eq_false_2; [done|]. by destruct b. Qed.

(** ** The laws *)

(** What encryption of messages relies on: AES-GCM decrypts what it encrypted under the same key and nonce, and
    its ciphertext holds at least the tag; [kem_pair] are the key pairs of the KEM. *)
Class MessageLaws `{M : MessageCrypto} := {
  kem_pair : list Z -> list Z -> Prop;
  gcm_law : forall k iv d, Forall byte d -> gcm_decrypt k iv (gcm_encrypt k iv d) = Ok d;
  gcm_bytes : forall k iv d, Forall byte d -> Forall byte (gcm_encrypt k iv d) /\ gcm_encrypt k iv d <> [];
}.

Section Opens.
Context `{C : Crypto} `{P : Platform} `{M : MessageCrypto} `{L : MessageLaws}.

(** Text that [TextDecoder] gives back from what [TextEncoder] wrote: without lone surrogates and leading byte order mark. *)
Definition plain_text (t : units) : Prop := Forall is_unit t /\ text_decode (utf8 t) = t.

(** Random bytes as asked for; what is encapsulated for a key opens with its private key. *)
Definition kem_ok : history MsgI -> forall c, res (ans MsgI c) -> Prop := fun _ c =>
  match c with
  | RandomOf n => fun r => exists b, r = Ok b /\ length b = n /\ Forall byte b
  | Encapsulate pk => fun r => exists ct ss, r = Ok (ct, ss) /\ Forall byte ct /\ ct <> [] /\ forall sk, kem_pair pk sk -> kem_decapsulate ct sk = Ok ss
  | _ => fun _ => True
  end.
Notation kwp := (wp (I := MsgI) (fun _ _ => True) kem_ok).

Lemma kwp_outcome {A} (e : env MsgI) (p : prog MsgI A) s (Q : res A -> Prop) : respects kem_ok e -> kwp p s [] (fun o _ _ => Q o) -> Q (outcome e p s).
Proof.
  intros He Hp. pose proof (wp_run _ _ e p s [] _ He Logic.I Hp) as H. unfold outcome. destruct (run e p s []) as [[? ?] ?]. by destruct H.
Qed.

(** A signing key and its public key. *)
Definition sign_pair (sk pk : list Z) : Prop :=
  forall m, exists sig, ml_dsa65_sign m sk = Ok sig /\ Forall byte sig /\ sig <> [] /\ ml_dsa65_verify sig m pk = Ok true.

(** ** One recipient *)

(** A box that opens with the private key of a public key. *)
Record opens (pk : list Z) (plaintext : units) (b : KemBox) : Prop := {
  op_open : forall sk, kem_pair pk sk -> kemDecryptPayload (kb_kemCipherText b) (kb_iv b) (kb_encryptedContent b) sk = Ok plaintext;
  op_truthy : js_truthy (JStr (kb_kemCipherText b)) = true /\ js_truthy (JStr (kb_iv b)) = true /\ js_truthy (JStr (kb_encryptedContent b)) = true;
  op_units : Forall is_unit (kb_kemCipherText b) /\ Forall is_unit (kb_iv b) /\ Forall is_unit (kb_encryptedContent b);
}.

Lemma kemEncrypt_spec plaintext pk s h (Q : res KemBox -> mstate -> history MsgI -> Prop) : plain_text plaintext ->
  (forall b h', opens pk plaintext b -> Q (Ok b) s h') -> kwp (kemEncryptPlaintext plaintext pk) s h Q.
Proof.
  intros Ht HQ. unfold kemEncryptPlaintext. apply wp_bind, (wp_call (I := MsgI)); [done|]. intros r (ct & ss & -> & Hct & Hne & Hk).
  apply wp_bind, (wp_call (I := MsgI)); [done|]. intros r (iv & -> & Hl & Hiv). apply wp_ret, HQ.
  destruct Ht as [Hu Ht]. apply utf8_bytes in Hu. destruct (gcm_bytes (hkdf ss MSG_INFO) iv (utf8 plaintext) Hu) as [Hg Hgn].
  split; cbn [kb_kemCipherText kb_iv kb_encryptedContent fst snd]; unfold bytesToHex.
  - intros sk Hp. unfold kemDecryptPayload. rewrite !hexToBytes_toHex by done. rewrite (Hk sk Hp). cbn [res_bind].
    rewrite gcm_law by done. cbn [res_bind]. by rewrite Ht.
  - split_and!; apply truthy_hex; [done|by destruct iv|done].
  - split_and!; by apply toHex_units.
Qed.

Lemma package_wf r s pk pk' t : opens pk t r -> opens pk' t s ->
  wf_js (JObj (package_members r (Some s))) /\ nesting (json_tree (JObj (package_members r (Some s)))) <= 256.
Proof.
  intros [_ _ (? & ? & ?)] [_ _ (? & ? & ?)]. split; [|done]. apply wf_fields; [distinct_keys|]. unfold package_members. cbn [app]. by fields_wf.
Qed.

Lemma read_back_str s : read_back (JStr s) = JStr s.
Proof. done. Qed.

Lemma signed_verified sk pk signer pkg sig : sign_pair sk pk -> ml_dsa65_sign (utf8 pkg) sk = Ok sig ->
  forall hex, hex signer = pk -> (forall b, Forall byte b -> hex (toHex b) = b) -> signer <> [] -> verified pkg (toHex sig) signer hex = true.
Proof.
  intros Hs Hsig hex Hsigner Hhex Hne. destruct (Hs (utf8 pkg)) as (sig' & E & Hb & Hn & Hv). rewrite Hsig in E. injection E as <-.
  unfold verified. unfold no_text at 1. rewrite bool_decide_eq_false_2 by done. rewrite toHex_nonempty by done. cbn [orb].
  by rewrite Hhex, Hsigner, Hv.
Qed.

Lemma encryptMessage_spec plaintext rpub sk spub s h (Q : res (units * units) -> mstate -> history MsgI -> Prop) :
  plain_text plaintext -> length (hexToBytes sk) = Z.to_nat 4032 -> spub <> [] -> (exists pk, sign_pair (hexToBytes sk) pk) ->
  (forall r b sig h', opens (hexToBytes rpub) plaintext r -> opens (hexToBytes spub) plaintext b ->
     let pkg := stringify_object (package_members r (Some b)) in
     ml_dsa65_sign (utf8 pkg) (hexToBytes sk) = Ok sig -> Q (Ok (pkg, toHex sig)) s h') ->
  kwp (encryptMessage plaintext rpub sk spub) s h Q.
Proof.
  intros Ht Hl Hs [pk Hp] HQ. unfold encryptMessage. cbv zeta. rewrite Hl, Z2Nat.id by lia. cbn match.
  apply wp_bind, kemEncrypt_spec; [done|]. intros r h1 Hr. apply wp_bind. unfold no_text. rewrite bool_decide_eq_false_2 by done.
  apply wp_bind, kemEncrypt_spec; [done|]. intros b h2 Hb. apply wp_ret. apply wp_bind, wp_of_res.
  destruct (Hp (utf8 (stringify_object (package_members r (Some b))))) as (sig & E & _). rewrite E. apply wp_ret. by apply HQ.
Qed.

Lemma not_group r b pk pk' t : opens pk t r -> opens pk' t b -> isV2Package (stringify_object (package_members r (Some b))) = false.
Proof.
  intros Hr Hb. destruct (package_wf _ _ _ _ _ Hr Hb) as [Hw Hn]. destruct (parse_object_prop _ Hw Hn) as (q & E & Hq).
  unfold isV2Package. rewrite E, Hq. by change (prop "version" (package_members r (Some b))) with JUndef.
Qed.

(** Both copies open. *)
Lemma decrypt_opens r b rpub spub plaintext priv signer sig (own : bool) : opens rpub plaintext r -> opens spub plaintext b ->
  kem_pair (if own then spub else rpub) (hexToBytes priv) ->
  let pkg := stringify_object (package_members r (Some b)) in
  decryptMessage pkg priv signer sig own = Ok (plaintext, verified pkg sig signer hexToBytes).
Proof.
  intros Hr Hb Hk. cbv zeta. destruct (package_wf _ _ _ _ _ Hr Hb) as [Hw Hn]. destruct (parse_object_prop _ Hw Hn) as (q & E & Hq).
  unfold decryptMessage, parse_package. rewrite E. cbn [res_bind]. unfold have, need. rewrite !Hq.
  change (prop "senderKemCipherText" (package_members r (Some b))) with (JStr (kb_kemCipherText b)).
  change (prop "senderIv" (package_members r (Some b))) with (JStr (kb_iv b)).
  change (prop "senderEncryptedContent" (package_members r (Some b))) with (JStr (kb_encryptedContent b)).
  rewrite !read_back_str. destruct Hb as [Ho (-> & -> & ->) _]. rewrite !andb_true_r.
  destruct own; cbn match.
  - change (prop "senderKemCipherText" (package_members r (Some b))) with (JStr (kb_kemCipherText b)).
    change (prop "senderIv" (package_members r (Some b))) with (JStr (kb_iv b)).
    change (prop "senderEncryptedContent" (package_members r (Some b))) with (JStr (kb_encryptedContent b)).
    rewrite !read_back_str. cbn [res_bind]. by rewrite Ho.
  - change (prop "kemCipherText" (package_members r (Some b))) with (JStr (kb_kemCipherText r)).
    change (prop "iv" (package_members r (Some b))) with (JStr (kb_iv r)).
    change (prop "encryptedContent" (package_members r (Some b))) with (JStr (kb_encryptedContent r)).
    rewrite !read_back_str. cbn [res_bind]. destruct Hr as [Ho' _ _]. by rewrite Ho'.
Qed.
(** ** Groups *)

Lemma distinct_elem l : forall seen k, k ∈ l -> k ∈ distinct seen l \/ k ∈ seen.
Proof.
  induction l as [|x l IH]; intros seen k Hk; [by apply elem_of_nil in Hk|]. cbn [distinct].
  destruct (existsb (units_eqb x) seen) eqn:E; apply elem_of_cons in Hk as [->|Hk].
  - right. apply existsb_exists in E as (y & Hy & Ey%units_eqb_true). subst. by apply list_elem_of_In.
  - by apply IH.
  - left. left.
  - destruct (IH (x :: seen) k Hk) as [?|[->|?]%elem_of_cons]; [left; by right|left; left|by right].
Qed.

Lemma distinct_only l : forall seen k, k ∈ distinct seen l -> k ∈ l.
Proof.
  induction l as [|x l IH]; intros seen k; cbn [distinct]; [done|]. destruct (existsb _ seen); [intros H; right; by eapply IH|].
  intros [->|H]%elem_of_cons; [left|right; by eapply IH].
Qed.

Section Wrapped.
(** How hexadecimal texts are read. *)
Variable hex : units -> list Z.
Hypothesis hex_ok : forall b, Forall byte b -> hex (toHex b) = b.

(** The wrapped key of a member opens. *)
Definition wrapped_for (cek : list Z) (k : units) (v : js) : Prop :=
  exists ct ss iv, v = wrapped_key ct (gcm_encrypt (hkdf ss WRAP_INFO) iv cek) iv /\ Forall byte ct /\ Forall byte iv /\ Forall byte cek
    /\ forall sk, kem_pair (hex k) sk -> kem_decapsulate ct sk = Ok ss.

(** Exactly the non-empty keys of a list have one. *)
Record wraps (cek : list Z) (keys : list units) (w : object) : Prop := {
  wr_nodup : NoDup (map fst w);
  wr_in : forall k, k ∈ keys -> k <> [] -> exists v, oget k w = Some v;
  wr_only : forall k v, oget k w = Some v -> k ∈ keys /\ k <> [] /\ wrapped_for cek k v;
}.

Lemma wrap_all_spec cek keys : Forall byte cek -> forall done w s h (Q : res object -> mstate -> history MsgI -> Prop), wraps cek done w ->
  (forall w' h', wraps cek (done ++ keys) w' -> Q (Ok w') s h') -> kwp (wrap_all hex cek keys w) s h Q.
Proof.
  intros Hcek. induction keys as [|k keys IH]; intros done w s h Q Hw HQ; cbn [wrap_all]; [apply wp_ret, HQ; by rewrite app_nil_r|].
  assert (forall w' h', wraps cek ((done ++ [k]) ++ keys) w' -> Q (Ok w') s h') as HQ' by (intros w' h'; rewrite <- app_assoc; apply HQ).
  destruct Hw as [Hn Hi Ho]. destruct (no_text k) eqn:Ek.
  - apply bool_decide_eq_true in Ek. apply IH with (done := done ++ [k]); [|done]. split; [done| |].
    + intros x [Hx| ->%list_elem_of_singleton]%elem_of_app Hne; [by apply Hi|done].
    + intros x v Hx. destruct (Ho x v Hx) as (? & ? & ?). split; [by apply elem_of_app; left|done].
  - apply bool_decide_eq_false in Ek. apply wp_bind, (wp_call (I := MsgI)); [done|]. intros r (ct & ss & -> & Hct & _ & Hk).
    apply wp_bind, (wp_call (I := MsgI)); [done|]. intros r (iv & -> & _ & Hiv). cbn [fst snd]. apply IH with (done := done ++ [k]); [|done].
    split; [by apply oset_nodup| |].
    + intros x Hx Hne. rewrite oget_oset. destruct (units_eqb x k) eqn:E; [by eexists|].
      apply elem_of_app in Hx as [Hx| ->%list_elem_of_singleton]; [by apply Hi|]. by rewrite (proj2 (units_eqb_true k k)) in E.
    + intros x v. rewrite oget_oset. destruct (units_eqb x k) eqn:E.
      * apply units_eqb_true in E as ->. intros [= <-]. split; [apply elem_of_app; right; by apply list_elem_of_singleton|]. split; [done|].
        by exists ct, ss, iv.
      * intros Hx. destruct (Ho x v Hx) as (? & ? & ?). split; [by apply elem_of_app; left|done].
Qed.

Lemma wrapped_wf cek k v : wrapped_for cek k v -> wf_js v /\ nesting (json_tree v) <= 1.
Proof.
  intros (ct & ss & iv & -> & Hct & Hiv & Hc & _). split; [|done]. unfold wrapped_key. apply wf_fields; [distinct_keys|].
  fields_wf; apply toHex_units; try done. by apply gcm_bytes.
Qed.

Lemma v2_wf cek keys w iv content : wraps cek keys w -> Forall (Forall is_unit) keys -> Forall byte iv -> Forall byte content ->
  wf_js (JObj w) /\ wf_js (JObj (v2_members iv content w)) /\ nesting (json_tree (JObj (v2_members iv content w))) <= 256.
Proof.
  intros [Hn _ Ho] Hk Hiv Hc.
  assert (Forall (fun kv => Forall is_unit (fst kv) /\ wf_js (snd kv) /\ nesting (json_tree (snd kv)) <= 1) w) as Hw.
  { apply Forall_elem. intros [k v] Hin. apply oget_in in Hin; [|done]. destruct (Ho k v Hin) as (Hk' & _ & Hv). rewrite Forall_elem in Hk.
    split; [by apply Hk|]. by eapply wrapped_wf. }
  assert (wf_js (JObj w)) as Hwf. { apply wf_fields; [done|]. eapply Forall_impl; [exact Hw|]. intros kv (? & ? & ?). done. }
  split; [done|]. split.
  - apply wf_fields; [distinct_keys|]. unfold v2_members. fields_wf; [by intros _|by apply toHex_units..|done].
  - etrans; [apply (tree_bound _ 2); [lia|]|lia]. unfold v2_members. repeat (apply List.Forall_cons; [try done|]); [|apply List.Forall_nil].
    change (snd (jfield "wrappedKeys" (JObj w))) with (JObj w). apply (tree_bound w 1); [lia|].
    eapply Forall_impl; [exact Hw|]. by intros kv (? & ? & ?).
Qed.

(** A member opens the package; a key that is not there does not. *)
Lemma open_group cek keys w iv plaintext : wraps cek keys w -> Forall (Forall is_unit) keys -> Forall byte iv -> plain_text plaintext ->
  exists q qw, JSON_parse (stringify_object (v2_members iv (gcm_encrypt cek iv (utf8 plaintext)) w)) = Ok (JObj q)
  /\ is_two (prop "version" q) = true /\ prop "wrappedKeys" q = JObj qw
  /\ forall pub priv,
       (pub ∈ keys -> pub <> [] -> kem_pair (hex pub) (hex priv) -> open_wrapped hex q priv pub = Ok plaintext)
       /\ (pub ∉ keys -> open_wrapped hex q priv pub = Err "No wrapped key for this recipient").
Proof.
  intros Hw Hk Hiv Ht. set (content := gcm_encrypt cek iv (utf8 plaintext)). destruct Ht as [Hu Ht]. apply utf8_bytes in Hu.
  destruct (gcm_bytes cek iv (utf8 plaintext) Hu) as [Hc _].
  destruct (v2_wf cek keys w iv content) as (Hww & Hwf & Hn); [done..|]. destruct (parse_object_prop _ Hwf Hn) as (q & E & Hq).
  destruct (read_back_object w Hww) as (qw & Ew & Hqw).
  assert (prop "wrappedKeys" q = JObj qw) as Hp. { rewrite Hq. exact Ew. }
  exists q, qw. split; [exact E|]. split; [by rewrite Hq|]. split; [exact Hp|]. intros pub priv. split.
  - intros Hin Hne Hpair. destruct Hw as [_ Hi Ho]. destruct (Hi pub Hin Hne) as (v & Ev). destruct (Ho pub v Ev) as (_ & _ & Hf).
    pose proof (wrapped_wf _ _ _ Hf) as [Hv _]. destruct Hf as (ct & ss & wiv & -> & Hct & Hwiv & Hcek & Hd).
    unfold open_wrapped. rewrite Hp, Hqw, Ev. cbn [default id].
    destruct (read_back_obj _ Hv) as (mine & Em & Hm). unfold wrapped_key. rewrite Em. unfold need. rewrite !Hm, !Hq.
    change (read_back (prop "kemCipherText" _)) with (JStr (toHex ct)). change (read_back (prop "wrappedIv" _)) with (JStr (toHex wiv)).
    change (read_back (prop "wrappedCek" _)) with (JStr (toHex (gcm_encrypt (hkdf ss WRAP_INFO) wiv cek))).
    change (read_back (prop "iv" (v2_members iv content w))) with (JStr (toHex iv)).
    change (read_back (prop "encryptedContent" (v2_members iv content w))) with (JStr (toHex content)). cbn [res_bind].
    rewrite (hex_ok ct) by exact Hct. rewrite (Hd _ Hpair). cbn [res_bind].
    rewrite (hex_ok wiv) by exact Hwiv. rewrite (hex_ok (gcm_encrypt _ wiv cek)) by (by apply gcm_bytes). rewrite gcm_law by done. cbn [res_bind].
    rewrite (hex_ok iv) by exact Hiv. rewrite (hex_ok content) by exact Hc. unfold content. rewrite gcm_law by done. cbn [res_bind]. by rewrite Ht.
  - intros Hout. unfold open_wrapped. rewrite Hp, Hqw.
    destruct (oget pub w) as [v|] eqn:Ev; [|reflexivity]. destruct Hw as [_ _ Ho]. destruct (Ho pub v Ev) as [Hin _]. destruct (Hout Hin).
Qed.

Lemma encrypt_wrapped_spec plaintext recipients spub s h (Q : res units -> mstate -> history MsgI -> Prop) :
  (forall cek iv w h', Forall byte iv -> wraps cek (distinct [] (recipients ++ [spub])) w ->
     Q (Ok (stringify_object (v2_members iv (gcm_encrypt cek iv (utf8 plaintext)) w))) s h') ->
  kwp (encrypt_wrapped hex plaintext recipients spub) s h Q.
Proof.
  intros HQ. unfold encrypt_wrapped.
  apply wp_bind, (wp_call (I := MsgI)); [done|]. intros r (cek & -> & _ & Hcek). apply wp_bind, (wp_call (I := MsgI)); [done|]. intros r (iv & -> & _ & Hiv).
  cbv zeta. apply wp_bind. apply (wrap_all_spec _ _ Hcek []); [split; [constructor|by intros k ?%elem_of_nil|done]|]. intros w h' Hw.
  apply wp_ret. by apply HQ.
Qed.
End Wrapped.

(** A group package of the messenger. *)
Lemma decrypt_group cek keys w iv plaintext priv pub : wraps MessengerCrypto.fromHex cek keys w -> Forall (Forall is_unit) keys -> Forall byte iv ->
  plain_text plaintext ->
  let pkg := stringify_object (v2_members iv (gcm_encrypt cek iv (utf8 plaintext)) w) in
  isV2Package pkg = true
  /\ (pub ∈ keys -> pub <> [] -> kem_pair (MessengerCrypto.fromHex pub) (MessengerCrypto.fromHex priv) -> decryptV2Package pkg priv pub = Ok plaintext)
  /\ (pub ∉ keys -> decryptV2Package pkg priv pub = Err "No wrapped key for this recipient").
Proof.
  intros Hw Hk Hiv Ht. cbv zeta. destruct (open_group _ fromHex_toHex _ _ _ _ _ Hw Hk Hiv Ht) as (q & qw & E & Hv & Hp & Ho).
  unfold isV2Package, decryptV2Package, parse_package. rewrite E. cbn [res_bind]. split; [by rewrite Hv, Hp|]. apply Ho.
Qed.

Lemma encryptGroup_spec plaintext recipients spub sk s h (Q : res (units * units) -> mstate -> history MsgI -> Prop) :
  (exists pk, sign_pair (MessengerCrypto.fromHex sk) pk) ->
  (forall cek iv w sig h', Forall byte iv -> wraps MessengerCrypto.fromHex cek (distinct [] (recipients ++ [spub])) w ->
     let pkg := stringify_object (v2_members iv (gcm_encrypt cek iv (utf8 plaintext)) w) in
     ml_dsa65_sign (utf8 pkg) (MessengerCrypto.fromHex sk) = Ok sig -> Q (Ok (pkg, toHex sig)) s h') ->
  kwp (encryptAndSignV2 plaintext recipients spub sk) s h Q.
Proof.
  intros [pk Hp] HQ. unfold encryptAndSignV2, encryptV2Package. apply wp_bind, encrypt_wrapped_spec. intros cek iv w h' Hiv Hw. apply wp_bind, wp_of_res.
  destruct (Hp (utf8 (stringify_object (v2_members iv (gcm_encrypt cek iv (utf8 plaintext)) w)))) as (sig & E & _). rewrite E. apply wp_ret.
  by apply HQ.
Qed.

(** Keys as their owners hold them: hexadecimal texts without a prefix. *)
Definition bare (hex : units) : Prop := strip (u "0x") hex = None.
Lemma bare_hex hex : bare hex -> MessengerCrypto.fromHex hex = hexToBytes hex.
Proof. unfold bare, MessengerCrypto.fromHex. by intros ->. Qed.

End Opens.
