(* ===== verification/Messenger.v ===== *)
(** * The messenger client ([src/packages/core/src/pqc-messenger.ts], avatar checks of [avatar.ts])

    The items the messenger keeps in local storage, the wallet directory of the node, registration,
    and conversations.  Whether a node is configured is the
    variable [apiBase]; a path stands for the request to that node.  Stored documents are typed, and
    writing one succeeds.  What a node answers is any value; a member that is typed as a text
    and arrives as something else counts as missing.  Where the avatar of a registration comes from, when the
    wallet names none, is a command. *)
From S2P Require Import Prelude JsText JsNum JsUtf16 JsFloat LosslessJson JsValue Interact Finality Address MessageSigning MessageClaims CanonicalJson JsJson Envelope ChainBinding TxSigner WalletKeys MessengerCrypto.
Local Open Scope Z_scope.
Local Open Scope prog_scope.

(** ** Members of answers *)

(** The members of a value; reading one of [null] or [undefined] throws. *)
Definition members_of (v : js) : res object := match v with JObj o => Ok o | JUndef | JNull => Err "TypeError" | _ => Ok [] end.
(** [v?.k]. *)
Definition opt_prop (k : string) (v : js) : js := match v with JObj o => prop k o | _ => JUndef end.
(** [o.a || o.b || default] on texts. *)
Fixpoint first_text (ks : list string) (o : object) : units :=
  match ks with [] => [] | k :: r => match prop k o with JStr (c :: t) => c :: t | _ => first_text r o end end.
(** [o.a ?? o.b ?? d]. *)
Fixpoint first_given (ks : list string) (o : object) (d : js) : js :=
  match ks with [] => d | k :: r => nullish (prop k o) (first_given r o d) end.
(** [x || []], then used as an array. *)
Definition as_list (v : js) : res (list js) := if js_truthy v then match v with JArr l => Ok l | _ => Err "TypeError" end else Ok [].
Definition json_or_null (r : reply) : js := match rp_json r with Ok v => v | Err _ => JNull end.

Definition and_text (a b : units) : units := if no_text a then b else a.

(** ** Avatars *)

Definition AVATAR_MAX_BYTES : Z := 262144.

Fixpoint first_avatar (l : list js) : option units :=
  match l with
  | [] => None
  | JStr v :: r => if no_text (utrim v) then first_avatar r else Some (utrim v)
  | _ :: r => first_avatar r
  end.
Definition normalizeAvatarField (raw : js) : option units :=
  match raw with JObj o => first_avatar [prop "avatarUrl" o; prop "avatar_url" o; prop "avatar" o] | _ => None end.

Definition AVATAR_TYPES : list units := map u ["png"; "jpg"; "jpeg"; "gif"; "webp"].
Definition isSafeAvatarUrl (url : option units) : bool :=
  match given url with
  | None => false
  | Some t => let l := map lower_unit t in
              existsb (fun x => starts_with (u "data:image/" ++ x ++ u ";base64,") l) AVATAR_TYPES || starts_with (u "https://") l
  end.
Definition fitsAvatarLimit (url : units) : bool := Z.of_nat (length (utf8 url)) <=? AVATAR_MAX_BYTES.

Section Messenger.
Context `{C : Crypto} `{P : Platform} `{M : MessageCrypto} `{U : Unicode} `{K : KeyDerivation}.
Variable apiBase : bool.

(** ** Local storage *)

Definition content {A} (d : document A) (other : A) : A := match d with Some (Ok a) => a | _ => other end.

Definition put_sent (d : document (list (units * units))) (s : mstate) : mstate :=
  {| ms_sent := d; ms_privacy := ms_privacy s; ms_tofu := ms_tofu s; ms_wallet := ms_wallet s |}.
Definition put_privacy (d : document object) (s : mstate) : mstate :=
  {| ms_sent := ms_sent s; ms_privacy := d; ms_tofu := ms_tofu s; ms_wallet := ms_wallet s |}.
Definition put_tofu (d : document (list (units * TofuEntry))) (s : mstate) : mstate :=
  {| ms_sent := ms_sent s; ms_privacy := ms_privacy s; ms_tofu := d; ms_wallet := ms_wallet s |}.
Definition put_mwallet (d : document MWallet) (s : mstate) : mstate :=
  {| ms_sent := ms_sent s; ms_privacy := ms_privacy s; ms_tofu := ms_tofu s; ms_wallet := d |}.
Definition update (f : mstate -> mstate) : prog MsgI unit := let! s := mget in mput (f s).

Record PrivacySettings := { ps_storeSentMessages : js; ps_discoverable : js }.
Definition getPrivacySettings (s : mstate) : PrivacySettings :=
  let o := content (ms_privacy s) [] in
  {| ps_storeSentMessages := nullish (prop "storeSentMessages" o) (JBool true); ps_discoverable := nullish (prop "discoverable" o) (JBool true) |}.
Definition savePrivacySettings (p : PrivacySettings) : prog MsgI unit :=
  update (put_privacy (Some (Ok [jfield "storeSentMessages" (ps_storeSentMessages p); jfield "discoverable" (ps_discoverable p)]))).
Definition clearStoredSentMessages : prog MsgI unit := update (put_sent None).

Definition SENT_MAX : nat := 500.

(** The messages without the given keys. *)
Definition without (ks : list units) (o : list (units * units)) : list (units * units) :=
  List.filter (fun kv => negb (existsb (units_eqb (fst kv)) ks)) o.

(** After adding one: only the last 500 keys are kept. *)
Definition add_sent (messageId plaintext : units) (messages : list (units * units)) : list (units * units) :=
  let messages := oset messageId plaintext messages in
  let keys := object_keys messages in
  if (SENT_MAX <? length keys)%nat then without (take (length keys - SENT_MAX) keys) messages else messages.

Definition storeSentMessage (messageId plaintext : units) : prog MsgI unit :=
  let! s := mget in
  if negb (js_truthy (ps_storeSentMessages (getPrivacySettings s))) then Ret tt else
  match ms_sent s with
  | Some (Err _) => Ret tt
  | Some (Ok messages) => mput (put_sent (Some (Ok (add_sent messageId plaintext messages))) s)
  | None => mput (put_sent (Some (Ok (add_sent messageId plaintext []))) s)
  end.

Definition getSentMessage (messageId : units) (s : mstate) : option units :=
  if negb (js_truthy (ps_storeSentMessages (getPrivacySettings s))) then None else given (oget messageId (content (ms_sent s) [])).

Definition saveWalletLocally (w : MWallet) : prog MsgI unit := update (put_mwallet (Some (Ok w))).
Definition loadLocalWallet (s : mstate) : option MWallet := match ms_wallet s with Some (Ok w) => Some w | _ => None end.
Definition clearLocalWallet : prog MsgI unit := update (put_mwallet None).

(** ** Fingerprints: trust on first use *)

(** Every four characters followed by a space. *)
Fixpoint fours (s : units) : units :=
  match s with a :: b :: c :: d :: r => a :: b :: c :: d :: 32 :: fours r | _ => s end.
Definition keyFingerprint (publicKeyHex : units) : units :=
  if no_text publicKeyHex then [] else toUpper (utrim (fours (take 32 (bytesToHex (sha256 (hexToBytes publicKeyHex)))))).

Record TofuResult := { tr_trusted : bool; tr_changed : bool; tr_firstSeen : number }.

Definition checkTofu (w : MWallet) : prog MsgI TofuResult :=
  let! s := mget in
  let store := content (ms_tofu s) [] in
  let sigFp := keyFingerprint (mw_signingPublicKey w) in
  let encFp := keyFingerprint (mw_encryptionPublicKey w) in
  match oget (mw_id w) store with
  | None =>
      let! now := mask NowMs in
      do! update (put_tofu (Some (Ok (oset (mw_id w) {| te_walletId := mw_id w; te_signingFingerprint := sigFp; te_encryptionFingerprint := encFp;
                                                         te_firstSeen := now |} store)))) in
      let! later := mask NowMs in
      Ret {| tr_trusted := true; tr_changed := false; tr_firstSeen := later |}
  | Some existing =>
      let changed := negb (units_eqb (te_signingFingerprint existing) sigFp) || negb (units_eqb (te_encryptionFingerprint existing) encFp) in
      do! (if changed then
             update (put_tofu (Some (Ok (oset (mw_id w) {| te_walletId := te_walletId existing; te_signingFingerprint := sigFp;
                                                            te_encryptionFingerprint := encFp; te_firstSeen := te_firstSeen existing |} store))))
           else Ret tt) in
      Ret {| tr_trusted := negb changed; tr_changed := changed; tr_firstSeen := te_firstSeen existing |}
  end.

(** ** The directory *)

Definition wallet_of (v : js) : res MWallet :=
  res_bind (members_of v) (fun o =>
  Ok {| mw_id := first_text ["id"] o; mw_displayName := first_text ["display_name"; "displayName"] o;
        mw_signingPublicKey := first_text ["signing_public_key"; "signingPublicKey"] o;
        mw_encryptionPublicKey := first_text ["encryption_public_key"; "encryptionPublicKey"] o;
        mw_signingPrivateKey := []; mw_encryptionPrivateKey := [];
        mw_avatarUrl := let a := normalizeAvatarField (JObj o) in if isSafeAvatarUrl a then a else None |}).

Fixpoint map_res {A B} (f : A -> res B) (l : list A) : res (list B) :=
  match l with [] => Ok [] | x :: r => res_bind (f x) (fun y => res_bind (map_res f r) (fun ys => Ok (y :: ys))) end.

Definition getWallets : prog MsgI (list MWallet) :=
  if negb apiBase then Ret [] else
  let! response := mask (FetchGet (u "/messenger/wallets")) in
  if negb (rp_ok response) then Ret [] else
  let! raw := of_res (as_list (opt_prop "wallets" (json_or_null response))) in
  of_res (map_res wallet_of raw).

(** A wallet known by one of its three names. *)
Definition named (id : units) (w : MWallet) : bool :=
  units_eqb (mw_id w) id || units_eqb (mw_signingPublicKey w) id || units_eqb (mw_encryptionPublicKey w) id.

(** ** Registration *)

Definition legacyMessagingKey (signingPublicKey : units) : prog MsgI (option keypair) :=
  let! r := attempt (mask (LegacyKey signingPublicKey)) in
  Ret (match r with Ok k => k | Err _ => None end).

Definition withMessagingKeyFallback {A} (w : MWallet) (open : units -> units -> res A) : prog MsgI A :=
  match open (mw_encryptionPrivateKey w) (mw_encryptionPublicKey w) with
  | Ok a => Ret a
  | Err first =>
      let! legacy := legacyMessagingKey (mw_signingPublicKey w) in
      match legacy with
      | None => Throw first
      | Some k => if units_eqb (kp_private k) (mw_encryptionPrivateKey w) then Throw first else
                  match open (kp_private k) (kp_public k) with Ok a => Ret a | Err _ => Throw first end
      end
  end.

(** The avatar that a registration carries. *)
Definition resolveAvatarForRegistration (w : MWallet) : prog MsgI (option units) :=
  match mw_avatarUrl w with
  | Some a => Ret (if isSafeAvatarUrl (Some a) && fitsAvatarLimit a then Some a else None)
  | None => mask (AvatarFor w)
  end.

(** The private key of the registration: the wallet's, or the unlocked wallet's when it is the same account. *)
Definition signing_key_of (w : MWallet) : prog MsgI units :=
  if negb (no_text (mw_signingPrivateKey w)) then Ret (mw_signingPrivateKey w) else
  let! r := attempt (mask UnlockedWallet) in
  Ret (match r with
       | Ok (Some (pub, priv)) => if units_eqb pub (mw_signingPublicKey w) then priv else []
       | _ => []
       end).

(** Refuses to replace the key of another app. *)
Definition check_registered (w : MWallet) : prog MsgI unit :=
  let! r := attempt getWallets in
  let wallets := match r with Ok l => l | Err _ => [] end in
  match List.find (fun x => units_eqb (mw_signingPublicKey x) (mw_signingPublicKey w)) wallets with
  | None => Ret tt
  | Some mine =>
      if no_text (mw_encryptionPublicKey mine) || units_eqb (mw_encryptionPublicKey mine) (mw_encryptionPublicKey w) then Ret tt else
      let! legacy := legacyMessagingKey (mw_signingPublicKey w) in
      match legacy with
      | Some k => if units_eqb (mw_encryptionPublicKey mine) (kp_public k) then Ret tt else Throw "MessengerKeyMismatchError"
      | None => Throw "MessengerKeyMismatchError"
      end
  end.

Definition REGISTER : units := u "/v2/messenger/wallets/register".

Definition register_payload (w : MWallet) (discoverable : js) (avatar : option units) : object :=
  [jfield "id" (JStr (mw_signingPublicKey w)); jfield "displayName" (JStr (mw_displayName w)); jfield "signingPublicKey" (JStr (mw_signingPublicKey w));
   jfield "encryptionPublicKey" (JStr (mw_encryptionPublicKey w)); jfield "discoverable" discoverable]
  ++ opt_field "avatarUrl" (JStr <$> given avatar).

Definition registerWalletOnNode (w : MWallet) (discoverableOverride : option bool) (replaceKey : bool) : prog MsgI unit :=
  if negb apiBase then Ret tt else
  let! s := mget in
  let privacy := getPrivacySettings s in
  let! priv := signing_key_of w in
  if no_text priv then Ret tt else
  do! (if negb replaceKey && negb (no_text (mw_encryptionPublicKey w)) then check_registered w else Ret tt) in
  let! avatarUrl := resolveAvatarForRegistration w in
  let discoverable := match discoverableOverride with Some b => JBool b | None => ps_discoverable privacy end in
  let! signed := buildSignedRequest (register_payload w discoverable avatarUrl) priv (mw_signingPublicKey w) in
  let! res := mask (PostSigned REGISTER signed) in
  if negb (rp_ok res) then Throw "Failed to register wallet" else Ret tt.

(** ** Local identities *)

Definition createWallet (displayName : units) (discoverable : option bool) : prog MsgI MWallet :=
  let! k := mask DsaKeys in
  let! enc := of_res (deriveMessagingKeypair [] (kp_private k)) in
  let! id := mask RandomId in
  let w := {| mw_id := id; mw_displayName := displayName; mw_signingPublicKey := kp_public k; mw_encryptionPublicKey := kp_public enc;
              mw_signingPrivateKey := kp_private k; mw_encryptionPrivateKey := kp_private enc; mw_avatarUrl := None |} in
  do! saveWalletLocally w in
  do! attempt (registerWalletOnNode w discoverable false) in
  Ret w.

Definition importMessengerIdentity (json : units) : prog MsgI MWallet :=
  match JSON_parse json with
  | Err _ => Throw "Not valid JSON"
  | Ok v =>
      let! o := of_res (members_of v) in
      let t k := first_text [k] o in
      if no_text (t "signingPrivateKey") || no_text (t "signingPublicKey") || no_text (t "encryptionPublicKey") then Throw "Missing keys" else
      let! id := (if no_text (t "id") then mask RandomId else Ret (t "id")) in
      let w := {| mw_id := id; mw_displayName := and_text (t "displayName") (u "Imported identity"); mw_signingPublicKey := t "signingPublicKey";
                  mw_encryptionPublicKey := t "encryptionPublicKey"; mw_signingPrivateKey := t "signingPrivateKey";
                  mw_encryptionPrivateKey := t "encryptionPrivateKey"; mw_avatarUrl := None |} in
      do! saveWalletLocally w in
      do! attempt (registerWalletOnNode w (Some false) false) in
      Ret w
  end.

(** The registration in the background is taken to be over when the wallet is returned. *)
Definition getOrCreateLocalMessengerWallet (displayName : option units) : prog MsgI MWallet :=
  let! s := mget in
  let create := createWallet (and_text (default [] displayName) (u "RougeChain user")) (Some false) in
  match loadLocalWallet s with
  | Some w => if no_text (mw_signingPrivateKey w) then create else do! attempt (registerWalletOnNode w (Some false) false) in Ret w
  | None => create
  end.

Definition resolveMessagingWallet (mainWallet : MWallet) : prog MsgI MWallet :=
  if no_text (mw_signingPrivateKey mainWallet) then getOrCreateLocalMessengerWallet (Some (mw_displayName mainWallet)) else Ret mainWallet.

(** ** Signed requests to the node *)

(** What a request came to: the node's error text, or its data. *)
Definition request (path : units) (payload : object) (w : MWallet) : prog MsgI (units + js) :=
  if negb apiBase then Throw "Node API is not configured" else
  let! signed := buildSignedRequest payload (mw_signingPrivateKey w) (mw_signingPublicKey w) in
  let! response := mask (PostSigned path signed) in
  let data := json_or_null response in
  let refused := match opt_prop "success" data with JBool b => negb b | _ => false end in
  if negb (rp_ok response) || refused then
    let! t := of_res (js_String (nullish (opt_prop "error" data) (JStr (u "Request failed (" ++ udec (rp_status response) ++ u ")")))) in Ret (inl t)
  else Ret (inr data).

Definition postSigned (path : units) (payload : object) (w : MWallet) : prog MsgI js :=
  let! r := request path payload w in
  match r with inl _ => Throw "Request failed" | inr v => Ret (nullish v (JObj [])) end.

(** [/not registered/i.test(t)]. *)
Fixpoint contains (p l : units) : bool := starts_with p l || match l with _ :: r => contains p r | [] => false end.
Definition not_registered (t : units) : bool := contains (u "not registered") (map lower_unit t).

Definition deleteMessage (w : MWallet) (messageId conversationId : units) : prog MsgI unit :=
  if negb apiBase then Throw "Node API is not configured" else
  let! signed := buildSignedRequest [jfield "messageId" (JStr messageId); jfield "conversationId" (JStr conversationId)]
                   (mw_signingPrivateKey w) (mw_signingPublicKey w) in
  let! r := mask (PostSigned (u "/v2/messenger/messages/delete") signed) in
  if rp_ok r then Ret tt else Throw "Failed to delete message".

Definition deleteConversation (w : MWallet) (conversationId : units) : prog MsgI unit :=
  if negb apiBase then Throw "Node API is not configured" else
  let! signed := buildSignedRequest [jfield "conversationId" (JStr conversationId)] (mw_signingPrivateKey w) (mw_signingPublicKey w) in
  let! r := mask (PostSigned (u "/v2/messenger/conversations/delete") signed) in
  if rp_ok r then Ret tt else Throw "Failed to delete conversation".

Definition renameConversation (w : MWallet) (conversationId name : units) : prog MsgI unit :=
  do! postSigned (u "/v2/messenger/conversations/update") [jfield "conversationId" (JStr conversationId); jfield "name" (JStr (utrim name))] w in Ret tt.

Definition addConversationParticipants (w : MWallet) (conversationId : units) (participantIds : list units) : prog MsgI unit :=
  match distinct [] (List.filter (fun x => negb (no_text x)) participantIds) with
  | [] => Ret tt
  | ids => do! postSigned (u "/v2/messenger/conversations/participants") [jfield "conversationId" (JStr conversationId); jfield "participantIds" (texts ids)] w in Ret tt
  end.

(** The requests are started together; their order does not matter to the node. *)
Definition markMessagesRead (w : MWallet) (conversationId : units) (messageIds : list units) : prog MsgI unit :=
  for_each (fun m => do! attempt (postSigned (u "/v2/messenger/messages/read")
    [jfield "messageId" (JStr m); jfield "conversationId" (JStr conversationId)] w) in Ret tt) messageIds.

(** ** Conversations *)

Record Conversation := {
  cn_id : units; cn_name : js; cn_isGroup : bool; cn_participantIds : list units; cn_participants : list MWallet;
}.

Definition text_list (v : js) : list units := match v with JArr l => omap text_of l | _ => [] end.
Definition unknown_wallet (id name : units) : MWallet :=
  {| mw_id := id; mw_displayName := name; mw_signingPublicKey := []; mw_encryptionPublicKey := []; mw_signingPrivateKey := [];
     mw_encryptionPrivateKey := []; mw_avatarUrl := None |}.
Definition ids_of (w : MWallet) : list units := List.filter (fun x => negb (no_text x)) [mw_id w; mw_signingPublicKey w; mw_encryptionPublicKey w].

(** A wallet record of the node, as it is. *)
Definition record_of (v : js) : MWallet :=
  match v with
  | JObj o => {| mw_id := first_text ["id"] o; mw_displayName := first_text ["displayName"] o; mw_signingPublicKey := first_text ["signingPublicKey"] o;
                 mw_encryptionPublicKey := first_text ["encryptionPublicKey"] o; mw_signingPrivateKey := []; mw_encryptionPrivateKey := [];
                 mw_avatarUrl := text_of (prop "avatarUrl" o) |}
  | _ => unknown_wallet [] []
  end.

Definition withResolvedParticipants (c : object) (me : MWallet) : prog MsgI Conversation :=
  let conv ids ps := {| cn_id := first_text ["id"] c; cn_name := prop "name" c; cn_isGroup := js_truthy (prop "isGroup" c);
                        cn_participantIds := ids; cn_participants := ps |} in
  let ids := text_list (first_given ["participantIds"; "participant_ids"] c (JArr [])) in
  match prop "participants" c with
  | JArr (p :: r) => Ret (conv (text_list (prop "participantIds" c)) (map record_of (p :: r)))
  | _ =>
      match ids with
      | [] => Ret (conv (text_list (prop "participantIds" c)) [])
      | _ =>
          let! r := attempt getWallets in
          let wallets := match r with Ok l => l | Err _ => [] end in
          Ret (conv ids (map (fun id => if existsb (units_eqb id) (ids_of me) then me
                                        else default (unknown_wallet id (u "Unknown")) (List.find (named id) wallets)) ids))
      end
  end.

Definition CONVERSATIONS : units := u "/v2/messenger/conversations".

Definition createConversation (sender : MWallet) (recipientWalletId : units) (name : option units) : prog MsgI Conversation :=
  if negb apiBase then Throw "Node API is not configured" else
  let payload := [jfield "participantIds" (texts [mw_signingPublicKey sender; recipientWalletId]); jfield "isGroup" (JBool false)]
                 ++ opt_field "name" (JStr <$> given name) in
  let send := let! signed := buildSignedRequest payload (mw_signingPrivateKey sender) (mw_signingPublicKey sender) in
              mask (PostSigned CONVERSATIONS signed) in
  let! first := send in
  let! response := (if rp_ok first then Ret first else
    let errorText := match rp_text first with Ok t => t | Err _ => [] end in
    if not_registered errorText then
      do! registerWalletOnNode sender None false in
      let! again := send in
      if rp_ok again then Ret again else Throw "Failed to create conversation"
    else Throw "Failed to create conversation") in
  match opt_prop "conversation" (json_or_null response) with
  | JObj c => withResolvedParticipants c sender
  | _ => Throw "Conversation response was empty"
  end.

Definition MAX_GROUP_MEMBERS : nat := 50.

(** [normalizeConversation], as the members the client uses. *)
Definition normalizeConversation (raw : js) : option object :=
  match raw with
  | JObj c =>
      let id := first_given ["id"; "conversationId"; "conversation_id"] c (JStr []) in
      match id with
      | JStr (x :: r) =>
          Some [jfield "id" id; jfield "name" (nullish (prop "name" c) JUndef);
                jfield "isGroup" (JBool (js_truthy (first_given ["is_group"; "isGroup"] c (JBool false))));
                jfield "participantIds" (first_given ["participant_ids"; "participantIds"] c (JArr []))]
      | _ => None
      end
  | _ => None
  end.

Definition createGroupConversation (w : MWallet) (memberSigningKeys : list units) (name : option units) : prog MsgI Conversation :=
  let members := distinct [] (List.filter (fun k => negb (no_text k) && negb (units_eqb k (mw_signingPublicKey w))) memberSigningKeys) in
  if (length members <? 2)%nat then Throw "Pick at least 2 members" else
  if (MAX_GROUP_MEMBERS <? length members + 1)%nat then Throw "Maximum 50 participants" else
  let payload := [jfield "participantIds" (texts (mw_signingPublicKey w :: members)); jfield "isGroup" (JBool true)]
                 ++ opt_field "name" (JStr <$> given (utrim <$> name)) in
  let! r := request CONVERSATIONS payload w in
  let! data := match r with
    | inr v => Ret (nullish v (JObj []))
    | inl t => if not_registered t then do! registerWalletOnNode w None false in postSigned CONVERSATIONS payload w
               else Throw "Request failed"
    end in
  match normalizeConversation (opt_prop "conversation" data) with
  | Some c => withResolvedParticipants c w
  | None => Throw "Conversation response was empty"
  end.
End Messenger.
