(* ===== verification/Messages.v ===== *)
(** * Sending, receiving and listing ([src/packages/core/src/pqc-messenger.ts], its last third)

    [getConversations], [sendMessage] and [getMessages], over the directory, registration and storage
    of [Messenger] and the encryption of [MessengerCrypto].  The loaded list of messages goes through
    [applyEnvelopes].  The conventions of [Messenger] on members of another type than declared hold for decrypted
    media payloads too.  The demo bot's stored wallet is the answer of a command. *)
From Stdlib Require Import SpecFloat.
From S2P Require Import Prelude JsText JsNum JsUtf16 JsFloat LosslessJson JsValue Interact Finality Address MessageSigning MessageClaims CanonicalJson JsJson Envelope ChainBinding TxSigner WalletKeys MessengerCrypto Messenger.
Local Open Scope Z_scope.
Local Open Scope prog_scope.

(** ** Messages *)

(** What a [Message] holds besides the members that [applyEnvelopes] reads. *)
Record MessageRest := {
  mr_conversationId : units; mr_encryptedContent : units; mr_signature : units; mr_selfDestruct : js; mr_destructAfterSeconds : js;
  mr_readAt : units; mr_isRead : js; mr_createdAt : units; mr_senderSigningPublicKey : option units; mr_signatureValid : bool;
  mr_senderDisplayName : option units; mr_messageType : units; mr_mediaFileName : option units; mr_spoiler : js;
}.
Abbreviation Message := (EnvelopeMessage MessageRest).

Record MediaInfo := { mi_mediaUrl : units; mi_mediaFileName : units; mi_messageType : units }.

Definition parseMediaPayload (plaintext : units) : option MediaInfo :=
  match JSON_parse plaintext with
  | Ok (JObj o) =>
      if js_truthy (prop "data" o) && (same_text (prop "type" o) "image" || same_text (prop "type" o) "video") then
        match js_String (prop "mimeType" o), js_String (prop "data" o) with
        | Ok mime, Ok data =>
            Some {| mi_mediaUrl := u "data:" ++ mime ++ u ";base64," ++ data; mi_mediaFileName := and_text (first_text ["fileName"] o) (u "media");
                    mi_messageType := first_text ["type"] o |}
        | _, _ => None
        end
      else None
  | _ => None
  end.

Section Messages.
Context `{C : Crypto} `{P : Platform} `{M : MessageCrypto} `{U : Unicode} `{K : KeyDerivation}.
Variable apiBase : bool.
Notation getWallets := (getWallets apiBase).

(** ** Conversations *)

(** [walletMap]: later wallets and later names win. *)
Definition index_wallet (m : list (units * MWallet)) (w : MWallet) : list (units * MWallet) :=
  foldl (fun m k => oset k w m) m (ids_of w).

(** One participant of a conversation. *)
Definition participant (current : option MWallet) (walletMap : list (units * MWallet)) (allWallets : list MWallet) (id : units) : MWallet :=
  let currentIds := match current with Some c => ids_of c | None => [] end in
  let other := match oget id walletMap with
    | Some w => w
    | None => match List.find (named id) allWallets with
              | Some w => w
              | None => unknown_wallet id (u (if starts_with (u "bot-") id then "Quantum Bot" else "Unknown"))
              end
    end in
  match current with
  | None => other
  | Some c =>
      if in_ids currentIds id then c else
      match oget id walletMap with
      | Some w => if units_eqb (mw_displayName w) (mw_displayName c) && negb (in_ids currentIds (mw_id w)) then c else w
      | None => other
      end
  end.

(** [a || b || c] on members of any type. *)
Fixpoint first_truthy (ks : list string) (o : object) (d : js) : js :=
  match ks with [] => d | k :: r => if js_truthy (prop k o) then prop k o else first_truthy r o d end.

Definition conversation_of (current : option MWallet) (walletMap : list (units * MWallet)) (allWallets : list MWallet) (v : js) : res Conversation :=
  res_bind (members_of v) (fun o =>
  let participantIds := text_list (first_truthy ["participant_ids"; "participantIds"] o (JArr [])) in
  Ok {| cn_id := first_text ["id"] o; cn_name := prop "name" o; cn_isGroup := js_truthy (first_given ["is_group"; "isGroup"] o (JBool false));
        cn_participantIds := participantIds; cn_participants := map (participant current walletMap allWallets) participantIds |}).

Definition LIST_CONVERSATIONS : units := u "/v2/messenger/conversations/list".

(** The raw conversations; [None] when the node refused. *)
Definition raw_conversations (walletId : units) (current : option MWallet) : prog MsgI (option js) :=
  let legacy params := mask (FetchQuery (u "/messenger/conversations") params) in
  let! response := match current with
    | Some c =>
        if negb (no_text (mw_signingPrivateKey c)) && negb (no_text (mw_signingPublicKey c)) then
          let! signed := buildSignedRequest [] (mw_signingPrivateKey c) (mw_signingPublicKey c) in
          mask (PostSigned LIST_CONVERSATIONS signed)
        else legacy ([(u "walletId", walletId)]
                     ++ (if no_text (mw_signingPublicKey c) then [] else [(u "signingPublicKey", mw_signingPublicKey c)])
                     ++ (if no_text (mw_encryptionPublicKey c) then [] else [(u "encryptionPublicKey", mw_encryptionPublicKey c)]))
    | None => legacy [(u "walletId", walletId)]
    end in
  Ret (if rp_ok response then Some (opt_prop "conversations" (json_or_null response)) else None).

Definition getConversations (walletId : units) (current : option MWallet) : prog MsgI (list Conversation) :=
  if negb apiBase then Ret [] else
  let! raw := raw_conversations walletId current in
  match raw with
  | None => Ret []
  | Some v =>
      let! allWallets := getWallets in
      let! bot := mask DemoBot in
      let walletMap := foldl index_wallet [] (allWallets ++ match bot with Some b => [b] | None => [] end) in
      let! l := of_res (as_list v) in
      of_res (map_res (conversation_of current walletMap allWallets) l)
  end.

(** ** Sending *)

Definition SEND : units := u "/v2/messenger/messages".

Definition send_payload (conversationId encryptedPackage signature : units) (selfDestruct : bool) (destructAfterSeconds : option number)
    (messageType : units) (spoiler : bool) : object :=
  [jfield "conversationId" (JStr conversationId); jfield "encryptedContent" (JStr encryptedPackage); jfield "contentSignature" (JStr signature);
   jfield "selfDestruct" (JBool selfDestruct); jfield "destructAfterSeconds" (match destructAfterSeconds with Some n => JNum n | None => JUndef end);
   jfield "messageType" (JStr messageType); jfield "spoiler" (JBool spoiler)].

(** The package and its signature, in the format of the number of recipients. *)
Definition encrypt_for (plaintext : units) (recipients : list units) (w : MWallet) : prog MsgI (units * units) :=
  match recipients with
  | [] => Throw "No recipient encryption key"
  | [k] => encryptMessage plaintext k (mw_signingPrivateKey w) (mw_encryptionPublicKey w)
  | ks => encryptAndSignV2 plaintext ks (mw_encryptionPublicKey w) (mw_signingPrivateKey w)
  end.

(** The request of a message, and the node's answer. *)
Definition post_message (conversationId plaintext : units) (w : MWallet) (recipients : list units) (selfDestruct : bool)
    (destructAfterSeconds : option number) (messageType : units) (spoiler : bool) : prog MsgI reply :=
  let! e := encrypt_for plaintext (distinct [] (List.filter (fun k => negb (no_text k)) recipients)) w in
  let! signed := buildSignedRequest (send_payload conversationId (fst e) (snd e) selfDestruct destructAfterSeconds messageType spoiler)
                   (mw_signingPrivateKey w) (mw_signingPublicKey w) in
  mask (PostSigned SEND signed).

Definition sendMessage (conversationId plaintext : units) (w : MWallet) (recipients : list units) (selfDestruct : bool)
    (destructAfterSeconds : option number) (messageType : units) (spoiler : bool) : prog MsgI Message :=
  if negb apiBase then Throw "Node API is not configured" else
  let! response := post_message conversationId plaintext w recipients selfDestruct destructAfterSeconds messageType spoiler in
  if negb (rp_ok response) then Throw "Failed to send message" else
  let msg := opt_prop "message" (json_or_null response) in
  if negb (js_truthy msg) then Throw "Message was not stored" else
  let! o := of_res (members_of msg) in
  let! createdAt := (if no_text (first_text ["created_at"; "createdAt"] o) then mask NowIso else Ret (first_text ["created_at"; "createdAt"] o)) in
  let msgMessageType := and_text (first_text ["message_type"; "messageType"] o) messageType in
  do! storeSentMessage (first_text ["id"] o) plaintext in
  let mediaInfo := if units_eqb msgMessageType (u "text") then None else parseMediaPayload plaintext in
  Ret {| em_id := first_text ["id"] o;
         em_plaintext := Some (match mediaInfo with Some i => mi_mediaFileName i | None => plaintext end);
         em_senderWalletId := Some (and_text (first_text ["sender_wallet_id"; "senderWalletId"] o) (mw_id w));
         em_reactions := None; em_reactionsFrom := None; em_replyTo := None; em_pay := None; em_req := None;
         em_mediaUrl := mi_mediaUrl <$> mediaInfo;
         em_rest := {| mr_conversationId := and_text (first_text ["conversation_id"; "conversationId"] o) conversationId;
                       mr_encryptedContent := first_text ["encrypted_content"; "encryptedContent"] o; mr_signature := first_text ["signature"] o;
                       mr_selfDestruct := first_given ["self_destruct"; "selfDestruct"] o (JBool selfDestruct);
                       mr_destructAfterSeconds := first_given ["destruct_after_seconds"; "destructAfterSeconds"] o
                                                    (match destructAfterSeconds with Some n => JNum n | None => JUndef end);
                       mr_readAt := first_text ["read_at"; "readAt"] o; mr_isRead := JUndef; mr_createdAt := createdAt;
                       mr_senderSigningPublicKey := None; mr_signatureValid := true; mr_senderDisplayName := None;
                       mr_messageType := msgMessageType; mr_mediaFileName := mi_mediaFileName <$> mediaInfo;
                       mr_spoiler := first_given ["spoiler"] o (JBool spoiler) |} |}.

(** ** Receiving *)

Definition UNABLE : units := u "[Unable to decrypt]".
Definition YOURS : units := u "[Your encrypted message]".
Definition placeholder (t : units) : bool := units_eqb t UNABLE || units_eqb t YOURS.

(** A message of the node's list, in the client's names. *)
Record RawMessage := {
  rm_id : units; rm_conversationId : units; rm_senderWalletId : units; rm_encryptedContent : units; rm_signature : units;
  rm_selfDestruct : js; rm_destructAfterSeconds : js; rm_readAt : units; rm_createdAt : units; rm_isRead : js;
  rm_messageType : units; rm_spoiler : js;
}.
Definition normalized (v : js) : res RawMessage :=
  res_bind (members_of v) (fun o =>
  Ok {| rm_id := first_text ["id"] o; rm_conversationId := first_text ["conversation_id"; "conversationId"] o;
        rm_senderWalletId := first_text ["sender_wallet_id"; "senderWalletId"] o;
        rm_encryptedContent := first_text ["encrypted_content"; "encryptedContent"] o; rm_signature := first_text ["signature"] o;
        rm_selfDestruct := first_given ["self_destruct"; "selfDestruct"] o (JBool false);
        rm_destructAfterSeconds := first_given ["destruct_after_seconds"] o (prop "destructAfterSeconds" o);
        rm_readAt := first_text ["read_at"; "readAt"] o; rm_createdAt := first_text ["created_at"; "createdAt"] o;
        rm_isRead := first_given ["is_read"; "isRead"] o (JBool false);
        rm_messageType := and_text (first_text ["message_type"; "messageType"] o) (u "text"); rm_spoiler := first_given ["spoiler"] o (JBool false) |}).

(** The sender among the participants, in the directory (read once per load), or the other participant. *)
Definition other_participant (w : MWallet) (participants : list MWallet) : option MWallet :=
  if (2 <=? length participants)%nat then
    List.find (fun p => negb (units_eqb (mw_id p) (mw_id w)) && negb (units_eqb (mw_signingPublicKey p) (mw_signingPublicKey w))) participants
  else None.
Definition find_sender (w : MWallet) (participants : list MWallet) (senderWalletId : units) (directory : option (list MWallet))
  : prog MsgI (option MWallet * option (list MWallet)) :=
  match List.find (named senderWalletId) participants with
  | Some p => Ret (Some p, directory)
  | None =>
      if no_text senderWalletId then Ret (None, directory) else
      let! r := attempt (match directory with Some d => Ret d | None => getWallets end) in
      Ret (match r with
           | Err _ => (other_participant w participants, directory)
           | Ok all => (match List.find (named senderWalletId) all with Some s => Some s | None => other_participant w participants end, Some all)
           end)
  end.

Definition isOwnMessage (w : MWallet) (senderWalletId : units) : bool :=
  units_eqb senderWalletId (mw_id w) || units_eqb senderWalletId (mw_signingPublicKey w) || units_eqb senderWalletId (mw_encryptionPublicKey w)
  || negb (no_text (mw_signingPublicKey w)) && starts_with (take 20 (mw_signingPublicKey w)) senderWalletId.

(** The text of a message and whether its signature counts as valid. *)
Definition open_message (w : MWallet) (own : bool) (senderKey : option units) (m : RawMessage) : prog MsgI (units * bool) :=
  let! s := mget in
  let pkg := rm_encryptedContent m in
  let sent := if own then getSentMessage (rm_id m) s else None in
  match sent with
  | Some t => Ret (t, true)
  | None =>
      if negb (no_text pkg) && isV2Package pkg then
        let! r := attempt (withMessagingKeyFallback w (fun priv pub => decryptV2Package pkg priv pub)) in
        let signer := if own then mw_signingPublicKey w else default [] senderKey in
        Ret (match r with
             | Ok t => (t, if no_text signer then false else verifyPackageSignature pkg (rm_signature m) signer)
             | Err _ => (if own then YOURS else UNABLE, own)
             end)
      else if own then
        if no_text pkg then Ret (YOURS, true) else
        let! r := attempt (withMessagingKeyFallback w (fun priv _ => decryptMessage pkg priv (mw_signingPublicKey w) (rm_signature m) true)) in
        Ret (match r with Ok d => d | Err _ => (YOURS, true) end)
      else if no_text pkg then Ret (UNABLE, false) else
        let! r := attempt (withMessagingKeyFallback w (fun priv _ => decryptMessage pkg priv (default [] senderKey) (rm_signature m) false)) in
        Ret (match r with
             | Ok (t, valid) => (t, if no_text (default [] senderKey) then false else valid)
             | Err _ => (UNABLE, false)
             end)
  end.

(** Control characters other than tab, line feed and carriage return; a code point below 32 is one code unit. *)
Definition nonprintable (c : Z) : bool := (c <? 32) && negb (c =? 10) && negb (c =? 13) && negb (c =? 9).
Definition TENTH : number := num_div (num_of_Z 1) (num_of_Z 10).
Definition garbage (t : units) : bool :=
  (20 <? length t)%nat
  && num_ltb TENTH (num_div (num_of_Z (Z.of_nat (length (List.filter nonprintable t)))) (num_of_Z (Z.of_nat (length t)))).
Definition degarbled (t : units) : units := if negb (placeholder t) && garbage t then UNABLE else t.

(** The message that is shown for a text. *)
Definition message_of (w : MWallet) (own : bool) (sender : option MWallet) (m : RawMessage) (opened : units * bool) : Message :=
  let plaintext := degarbled (fst opened) in
  let mediaInfo := if no_text plaintext || placeholder plaintext then None else parseMediaPayload plaintext in
  let displayPlaintext :=
    if placeholder plaintext && negb (units_eqb (rm_messageType m) (u "text")) then
      u "[" ++ u (if units_eqb (rm_messageType m) (u "image") then "Image" else "Video") ++ 32 :: 8212 :: u " unable to decrypt]"
    else plaintext in
  {| em_id := rm_id m; em_plaintext := Some (match mediaInfo with Some i => mi_mediaFileName i | None => displayPlaintext end);
     em_senderWalletId := Some (rm_senderWalletId m); em_reactions := None; em_reactionsFrom := None; em_replyTo := None; em_pay := None;
     em_req := None; em_mediaUrl := mi_mediaUrl <$> mediaInfo;
     em_rest := {| mr_conversationId := rm_conversationId m; mr_encryptedContent := rm_encryptedContent m; mr_signature := rm_signature m;
                   mr_selfDestruct := rm_selfDestruct m; mr_destructAfterSeconds := rm_destructAfterSeconds m; mr_readAt := rm_readAt m;
                   mr_isRead := rm_isRead m; mr_createdAt := rm_createdAt m;
                   mr_senderSigningPublicKey := if own then Some (mw_signingPublicKey w) else mw_signingPublicKey <$> sender;
                   mr_signatureValid := snd opened;
                   mr_senderDisplayName := Some (and_text (match sender with Some p => mw_displayName p | None => [] end)
                                                          (u (if own then "You" else "Unknown")));
                   mr_messageType := match mediaInfo with Some i => mi_messageType i | None => rm_messageType m end;
                   mr_mediaFileName := mi_mediaFileName <$> mediaInfo; mr_spoiler := rm_spoiler m |} |}.

(** One turn of the loop: the message, the id when it is unread and incoming, and the directory. *)
Definition receive_one (w : MWallet) (participants : list MWallet) (directory : option (list MWallet)) (raw : js)
  : prog MsgI (Message * list units * option (list MWallet)) :=
  let! m := of_res (normalized raw) in
  let! f := find_sender w participants (rm_senderWalletId m) directory in
  let own := isOwnMessage w (rm_senderWalletId m) in
  let unread := if negb own && negb (no_text (rm_id m)) && no_text (rm_readAt m) && negb (js_truthy (rm_isRead m)) then [rm_id m] else [] in
  let! opened := open_message w own (mw_signingPublicKey <$> fst f) m in
  Ret (message_of w own (fst f) m opened, unread, snd f).

Fixpoint receive_all (w : MWallet) (participants : list MWallet) (directory : option (list MWallet)) (raw : list js)
  : prog MsgI (list Message * list units) :=
  match raw with
  | [] => Ret ([], [])
  | x :: r =>
      let! one := receive_one w participants directory x in
      let '(m, unread, directory) := one in
      let! rest := receive_all w participants directory r in
      Ret (m :: fst rest, unread ++ snd rest)
  end.

(** [x * 1000] of a number; another type than declared is no number. *)
Definition seconds (v : js) : number := match v with JNum n => num_mul n (num_of_Z 1000) | _ => S754_nan end.
Definition is_nan (n : number) : bool := match n with S754_nan => true | _ => false end.

(** Whether a message is still shown at a time. *)
Definition still_shown (now : number) (m : Message) : bool :=
  let r := em_rest m in
  if negb (js_truthy (mr_selfDestruct r)) || no_text (mr_readAt r) then true else
  let readTime := date_parse (mr_readAt r) in
  if is_nan readTime then true else
  num_ltb now (num_add readTime (seconds (nullish (mr_destructAfterSeconds r) (JNum (num_of_Z 30))))).

Definition LIST_MESSAGES : units := u "/v2/messenger/messages/list".

(** The messages and the ids passed to [onUnreadIncoming]; the callback does not run in the other cases. *)
Definition getMessages (conversationId : units) (w : MWallet) (participants : list MWallet) : prog MsgI (list Message * list units) :=
  if negb apiBase then Ret ([], []) else
  let! signed := buildSignedRequest [jfield "conversationId" (JStr conversationId)] (mw_signingPrivateKey w) (mw_signingPublicKey w) in
  let! response := mask (PostSigned LIST_MESSAGES signed) in
  if negb (rp_ok response) then Ret ([], []) else
  let rawMessages := match opt_prop "messages" (json_or_null response) with JArr l => l | _ => [] end in
  let! got := receive_all w participants None rawMessages in
  let! now := mask NowMs in
  Ret (List.filter (still_shown now) (applyEnvelopes (fst got)), snd got).
End Messages.
