(* ===== verification/MessengerClaims.v ===== *)
(** * The messenger's stored items, registrations and fingerprints

    The stored items stay well formed under every operation; a registration does not replace the messaging key
    of another app; a changed key is reported. *)
From S2P Require Import Prelude JsText JsNum JsUtf16 JsFloat LosslessJson JsValue Interact Finality Address MessageSigning MessageClaims CanonicalJson JsJson Envelope ChainBinding TxSigner WalletKeys MessengerCrypto Messenger Messages.
Local Open Scope Z_scope.

(** ** Members of a signed payload *)

Lemma filter_keys {A} (f : units * A -> bool) q : NoDup (map fst q) -> NoDup (map fst (List.filter f q)).
Proof.
  induction q as [|x q IH]; [done|]. intros [Hx Hq]%NoDup_cons. cbn [List.filter]. destruct (f x); [|by apply IH]. constructor; [|by apply IH].
  intros ([k v] & E & Hin)%list_elem_of_fmap. apply Hx, list_elem_of_fmap. exists (k, v). split; [done|].
  by apply list_elem_of_In, filter_In in Hin as [?%list_elem_of_In _].
Qed.

Lemma sorted_text p k t : NoDup (map fst p) -> units_eqb (u k) (u "__proto__") = false -> prop k p = JStr t -> prop k (sorted_payload p) = JStr t.
Proof.
  intros Hn Hk. unfold prop, sorted_payload. cbn [sortKeysDeep]. destruct (oget (u k) p) as [v|] eqn:E; [|done]. cbn [default id]. intros ->.
  apply oget_in in E; [|done].
  set (q := sort_members (map (fun kv => (fst kv, sortKeysDeep (snd kv))) p)).
  assert (q ≡ₚ map (fun kv => (fst kv, sortKeysDeep (snd kv))) p) as Hq by apply sort_members_perm.
  assert (NoDup (map fst q)) as Hnq. { rewrite Hq, map_map. exact Hn. }
  rewrite (proj2 (oget_in (u k) (JStr t) (List.filter assignable q) (filter_keys _ _ Hnq))); [done|].
  apply list_elem_of_In, filter_In. split; [|unfold assignable; cbn [fst]; by rewrite Hk].
  apply list_elem_of_In. rewrite Hq. apply list_elem_of_fmap. by exists (u k, JStr t).
Qed.

Definition RESERVED : list string := ["nonce"; "timestamp"; "from"; "chainId"; "__proto__"].

Section Requests.
Context `{C : Crypto} `{P : Platform}.
Variable ok : history MsgI -> ms_cmd -> Prop.
Variable asm : history MsgI -> forall c, res (ans MsgI c) -> Prop.

(** Texts of the payload are texts of the signed request; its signer is the one named. *)
Lemma signed_request_spec o sk pk s h : (forall h, ok h (RandomOf 16)) -> (forall h, ok h NowMs) -> (forall h, ok h SigningChain) -> NoDup (map fst o) ->
  wp (I := MsgI) ok asm (buildSignedRequest o sk pk) s h (fun r s' h' => s' = s
    /\ (exists r1 r2 r3, h' = h \/ h' = @Ev MsgI (RandomOf 16) r1 :: h \/ h' = @Ev MsgI NowMs r2 :: @Ev MsgI (RandomOf 16) r1 :: h
         \/ h' = @Ev MsgI SigningChain r3 :: @Ev MsgI NowMs r2 :: @Ev MsgI (RandomOf 16) r1 :: h)
    /\ forall b, r = Ok b -> tx_public_key b = pk /\ forall k t,
         forallb (fun x => negb (units_eqb (u k) (u x))) RESERVED = true -> prop k o = JStr t -> prop k (tx_payload b) = JStr t).
Proof.
  intros O1 O2 O3 Hn. unfold buildSignedRequest. apply wp_bind, (wp_call (I := MsgI)); [done|]. intros [n|e] _; [|split_and!; [done|exists (Err e), (Err e), (Err e); auto|done]].
  apply wp_bind, (wp_call (I := MsgI)); [done|]. intros [now|e] _; [|split_and!; [done|exists (Ok n), (Err e), (Err e); auto|done]]. cbv zeta.
  apply wp_bind, (wp_call (I := MsgI)); [done|]. intros [c|e] _; [|split_and!; [done|exists (Ok n), (Ok now), (Err e); auto|done]]. apply wp_bind, wp_of_res.
  destruct (coreWithChainId _ c) as [bound|e] eqn:Eb; [|split_and!; [done|exists (Ok n), (Ok now), (Ok c); auto|done]]. apply wp_bind, wp_of_res.
  destruct (ml_dsa65_sign _ _) as [sig|e]; (split_and!; [done|exists (Ok n), (Ok now), (Ok c); auto|]); [|done].
  intros b [= <-]. split; [done|]. intros k t Hk Ho. cbn [tx_payload].
  unfold RESERVED in Hk. cbn [forallb] in Hk. rewrite !andb_true_iff, !negb_true_iff in Hk. destruct Hk as (H1 & H2 & H3 & H4 & H5 & _).
  assert (bound = with_prop "chainId" (JStr c) (with_prop "nonce" (JStr (bytesToHex n)) (with_prop "timestamp" (JNum now) (with_prop "from" (JStr pk) o)))) as ->.
  { unfold coreWithChainId in Eb. destruct (prop _ _); try (by injection Eb as <-); destruct (is_text _ _); by (injection Eb as <-) || done. }
  apply sorted_text; [unfold with_prop; by repeat apply oset_nodup|done|].
  unfold prop, with_prop in *. rewrite !oget_oset, H1, H2, H3, H4. done.
Qed.
End Requests.

(** ** Stored items *)

Record wf_storage (s : mstate) : Prop := {
  ws_sent : forall m, ms_sent s = Some (Ok m) -> NoDup (map fst m) /\ (length m <= SENT_MAX)%nat;
  ws_tofu : forall m, ms_tofu s = Some (Ok m) -> NoDup (map fst m) /\ Forall (fun kv => te_walletId (snd kv) = fst kv) m;
}.

Lemma without_keys ks o : map fst (without ks o) = List.filter (fun k => negb (existsb (units_eqb k) ks)) (map fst o).
Proof. unfold without. induction o as [|[k v] o IH]; [done|]. cbn. destruct (negb _); cbn; by rewrite IH. Qed.

Lemma existsb_elem (k : units) ks : existsb (units_eqb k) ks = bool_decide (k ∈ ks).
Proof.
  induction ks as [|x ks IH]; cbn; [symmetry; by apply bool_decide_eq_false; intros ?%elem_of_nil|]. rewrite IH. unfold units_eqb.
  apply Bool.eq_iff_eq_true. rewrite orb_true_iff, !bool_decide_eq_true, elem_of_cons. done.
Qed.

Lemma filter_bool_perm {A} (f : A -> bool) (l l' : list A) : l ≡ₚ l' -> List.filter f l ≡ₚ List.filter f l'.
Proof.
  induction 1 as [|x l l' _ IH|x y l|l1 l2 l3 _ IH1 _ IH2]; cbn; [done|destruct (f x); by rewrite IH| |by etrans].
  destruct (f x), (f y); [constructor|done..].
Qed.

(** Dropping the first keys of an enumeration leaves the others. *)
Lemma without_drop n keys o : NoDup (map fst o) -> keys ≡ₚ map fst o -> map fst (without (take n keys) o) ≡ₚ drop n keys.
Proof.
  intros Hn Hp. rewrite without_keys. rewrite <- Hp in Hn. rewrite <- (take_drop n keys) in Hn. apply NoDup_app in Hn as (_ & Hd & _).
  assert (forall l, (forall k, k ∈ l -> k ∈ take n keys) -> List.filter (fun k => negb (existsb (units_eqb k) (take n keys))) l = []) as Hin.
  { induction l as [|x l IH]; intros Hl; [done|]. cbn. rewrite existsb_elem, bool_decide_eq_true_2 by (apply Hl; left). apply IH. intros; apply Hl. by right. }
  assert (forall l, (forall k, k ∈ l -> k ∉ take n keys) -> List.filter (fun k => negb (existsb (units_eqb k) (take n keys))) l = l) as Hout.
  { induction l as [|x l IH]; intros Hl; [done|]. cbn. rewrite existsb_elem, bool_decide_eq_false_2 by (apply Hl; left). cbn. f_equal. apply IH. intros; apply Hl. by right. }
  transitivity (List.filter (fun k => negb (existsb (units_eqb k) (take n keys))) (take n keys ++ drop n keys)).
  { apply filter_bool_perm. rewrite take_drop. by symmetry. }
  rewrite List.filter_app, Hin by done. rewrite Hout; [done|]. intros k Hk Hk'. by apply (Hd k).
Qed.

Lemma add_sent_wf id t m : NoDup (map fst m) -> NoDup (map fst (add_sent id t m)) /\ (length (add_sent id t m) <= SENT_MAX)%nat.
Proof.
  intros Hn. unfold add_sent. cbv zeta. pose proof (oset_nodup id t m Hn) as Ho. set (o := oset id t m) in *.
  assert (object_keys o ≡ₚ map fst o) as Hp by (unfold object_keys; by rewrite own_members_perm).
  assert (length (object_keys o) = length o) as Hl by (by rewrite Hp, length_map).
  destruct (SENT_MAX <? length (object_keys o))%nat eqn:E; [apply Nat.ltb_lt in E|apply Nat.ltb_ge in E; split; [done|lia]].
  pose proof (without_drop (length (object_keys o) - SENT_MAX) _ o Ho Hp) as Hw. split.
  - rewrite Hw. rewrite <- Hp, <- (take_drop (length (object_keys o) - SENT_MAX) (object_keys o)) in Ho. by apply NoDup_app in Ho as (_ & _ & ?).
  - apply Permutation_length in Hw. rewrite length_map, length_drop in Hw. lia.
Qed.

(** ** Registrations *)

Definition DIRECTORY : units := u "/messenger/wallets".

(** The directory as the client read it; unreadable counts as empty. *)
Definition directory_of (r : res reply) : list MWallet :=
  match r with
  | Ok a => if rp_ok a then match res_bind (as_list (opt_prop "wallets" (json_or_null a))) (map_res wallet_of) with Ok l => l | Err _ => [] end else []
  | Err _ => []
  end.
Fixpoint latest_directory (h : history MsgI) : option (res reply) :=
  match h with
  | [] => None
  | Ev c r :: h' =>
      match c return res (ms_ans c) -> option (res reply) with
      | FetchGet path => fun r => if units_eqb path DIRECTORY then Some r else latest_directory h'
      | _ => fun _ => latest_directory h'
      end r
  end.

(** The last look at the directory showed no messaging key of another app under a signing key. *)
Definition not_foreign (h : history MsgI) (signingKey enc : units) : Prop :=
  exists r, latest_directory h = Some r /\
    forall mine, List.find (fun x => units_eqb (mw_signingPublicKey x) signingKey) (directory_of r) = Some mine ->
      mw_encryptionPublicKey mine = [] \/ mw_encryptionPublicKey mine = enc
      \/ exists k, (@Ev MsgI (LegacyKey signingKey) (Ok (Some k)) : event MsgI) ∈ h /\ mw_encryptionPublicKey mine = kp_public k.

(** What is demanded of a registration request. *)
Definition careful (h : history MsgI) (c : ms_cmd) : Prop :=
  match c with
  | PostSigned path b => path = REGISTER ->
      prop "id" (tx_payload b) = JStr (tx_public_key b) /\
      forall enc, prop "encryptionPublicKey" (tx_payload b) = JStr enc -> enc <> [] -> not_foreign h (tx_public_key b) enc
  | _ => True
  end.

Lemma not_foreign_cons h c r k enc : (forall path, c <> FetchGet path) -> not_foreign h k enc -> not_foreign (@Ev MsgI c r :: h) k enc.
Proof.
  intros Hc (a & Ha & Hf). exists a. split; [destruct c; try exact Ha; by destruct (Hc path)|]. intros mine Hm.
  destruct (Hf mine Hm) as [?|[?|(x & ? & ?)]]; [auto..|]. right. right. exists x. split; [by right|done].
Qed.

(** Commands other than the request of a registration. *)
Definition unregistering (c : ms_cmd) : Prop := match c with PostSigned path _ => units_eqb path REGISTER = false | _ => True end.
Lemma unregistering_careful h c : unregistering c -> careful h c.
Proof. destruct c; try done. unfold unregistering, careful. intros Hu ->. by rewrite (proj2 (units_eqb_true REGISTER REGISTER)) in Hu. Qed.

(** ** Invariants of the stored items *)

(** The entry of a wallet in the store of fingerprints, before its fingerprints are set. *)
Definition entry_id (w : MWallet) (s : mstate) : units := match oget (mw_id w) (content (ms_tofu s) []) with Some x => te_walletId x | None => mw_id w end.

(** What an invariant has to survive: every way the client writes an item. *)
Class StorageInvariant (J : mstate -> Prop) := {
  si_wallet : forall d s, J s -> J (put_mwallet d s);
  si_privacy : forall d s, J s -> J (put_privacy d s);
  si_cleared : forall s, J s -> J (put_sent None s);
  si_sent : forall id t s, J s -> J (put_sent (Some (Ok (add_sent id t (content (ms_sent s) [])))) s);
  si_tofu : forall w e s, J s -> te_walletId e = entry_id w s -> J (put_tofu (Some (Ok (oset (mw_id w) e (content (ms_tofu s) [])))) s);
}.

#[export] Instance no_invariant : StorageInvariant (fun _ => True).
Proof. by split. Qed.

Lemma tofu_set_wf (k : units) e m : NoDup (map fst m) /\ Forall (fun kv => te_walletId (snd kv) = fst kv) m -> te_walletId e = k ->
  NoDup (map fst (oset k e m)) /\ Forall (fun kv => te_walletId (snd kv) = fst kv) (oset k e m).
Proof.
  intros [Hn Hf] He. split; [by apply oset_nodup|]. clear Hn. induction Hf as [|[k' e'] m Hx Hf IH]; cbn [oset]; [by repeat constructor|].
  destruct (units_eqb k k') eqn:E; constructor; [|done..]. apply units_eqb_true in E as <-. done.
Qed.

Lemma tofu_content_wf s : wf_storage s -> NoDup (map fst (content (ms_tofu s) [])) /\ Forall (fun kv => te_walletId (snd kv) = fst kv) (content (ms_tofu s) []).
Proof. intros [_ H2]. destruct (ms_tofu s) as [[m|]|]; cbn [content]; [by apply H2|by split; constructor..]. Qed.

Lemma entry_id_wf w s : wf_storage s -> entry_id w s = mw_id w.
Proof.
  intros [Hn Hf]%tofu_content_wf. unfold entry_id. destruct (oget _ _) as [x|] eqn:Ex; [|done]. apply oget_in in Ex; [|done].
  rewrite Forall_elem in Hf. by apply Hf in Ex.
Qed.

#[export] Instance wf_storage_invariant : StorageInvariant wf_storage.
Proof.
  split.
  1-3: by intros; match goal with H : wf_storage _ |- _ => destruct H; split end.
  - intros id t s [H1 H2]. split; [|done]. intros m' [= <-]. apply add_sent_wf. destruct (ms_sent s) as [[m|]|]; cbn [content]; [by eapply H1|apply NoDup_nil_2..].
  - intros w e s Hs He. split; [apply Hs|]. intros m [= <-]. apply tofu_set_wf; [by apply tofu_content_wf|]. by rewrite He, entry_id_wf.
Qed.

Section Claims.
Context `{C : Crypto} `{U : Unicode} {J : mstate -> Prop} `{SI : !StorageInvariant J}.
Notation awp := (wp (I := MsgI) careful anything).

(** A program that keeps the invariant and registers with care. *)
Definition heeds {A} (p : prog MsgI A) : Prop := forall s h, J s -> awp p s h (fun _ s' _ => J s').

Lemma heeds_ret {A} (a : A) : heeds (Ret a).
Proof. by intros s h H. Qed.
Lemma heeds_throw {A} m : heeds (Throw m : prog MsgI A).
Proof. by intros s h H. Qed.
Lemma heeds_of_res {A} (r : res A) : heeds (of_res r).
Proof. intros s h H. by destruct r. Qed.
Lemma heeds_bind {A B} (p : prog MsgI A) (f : A -> prog MsgI B) : heeds p -> (forall a, heeds (f a)) -> heeds (bind p f).
Proof. intros Hp Hf s h H. apply wp_bind. eapply wp_mono; [|by apply Hp]. cbn beta. intros [a|e] s' h' H'; [by apply Hf|done]. Qed.
Lemma heeds_attempt {A} (p : prog MsgI A) : heeds p -> heeds (attempt p).
Proof. intros Hp s h H. apply wp_attempt. by apply Hp. Qed.
Lemma heeds_calls {A} (p : prog MsgI A) : calls (I := MsgI) unregistering False p -> heeds p.
Proof.
  intros Hc s h H. eapply wp_mono; [|apply (wp_calls (I := MsgI) unregistering); [apply unregistering_careful|exact Hc]]. cbn beta. by intros o s' h' [-> _].
Qed.
Lemma heeds_update f : (forall s, J s -> J (f s)) -> heeds (update f).
Proof. intros Hf s h H. by apply Hf. Qed.

Lemma heeds_sent id t : heeds (storeSentMessage id t).
Proof.
  intros s h Hs. unfold storeSentMessage. apply wp_bind, (wp_get (I := MsgI)). destruct (negb _); [done|]. pose proof (si_sent id t s Hs) as Hi.
  by destruct (ms_sent s) as [[m|e]|].
Qed.

Lemma heeds_tofu w : heeds (checkTofu w).
Proof.
  intros s h Hs. unfold checkTofu. apply wp_bind, (wp_get (I := MsgI)). cbv zeta. pose proof (fun e => si_tofu w e s Hs) as Hi. unfold entry_id in Hi.
  destruct (oget (mw_id w) (content (ms_tofu s) [])) as [x|].
  - destruct (negb _ || negb _); [apply wp_bind; by apply Hi|done].
  - apply wp_bind, (wp_call (I := MsgI)); [done|]. intros [now|e] _; [|done]. apply wp_bind, wp_bind, (wp_get (I := MsgI)), (wp_put (I := MsgI)).
    apply wp_bind, (wp_call (I := MsgI)); [done|]. by intros [l|e] _; apply Hi.
Qed.
End Claims.

(** ** Operations that store nothing *)

Lemma quiet_mask (Q : ms_cmd -> Prop) c : Q c -> calls (I := MsgI) Q False (mask c).
Proof. apply (calls_call (I := MsgI)). Qed.
Lemma quiet_get (Q : ms_cmd -> Prop) : calls (I := MsgI) Q False mget.
Proof. intros s. exact Logic.I. Qed.
#[export] Hint Resolve quiet_get : calls.
Ltac quiet HQ := repeat (calls_step || (apply quiet_mask, HQ; solve [exact Logic.I | reflexivity | assumption]) || (cbv beta iota) || solve [auto with calls | done]).

Section Operations.
Context `{C : Crypto} `{P : Platform} `{M : MessageCrypto} `{U : Unicode} `{K : KeyDerivation}.
Variable apiBase : bool.
(** Any set of commands that has all the others. *)
Variable Q : ms_cmd -> Prop.
Hypothesis HQ : forall c, unregistering c -> Q c.
Notation quiet p := (calls (I := MsgI) Q False p).

Lemma quiet_request o sk pk : quiet (buildSignedRequest o sk pk).
Proof. unfold buildSignedRequest. quiet HQ. Qed.
Lemma quiet_wallets : quiet (getWallets apiBase).
Proof. unfold getWallets. quiet HQ. Qed.
Lemma quiet_legacy pk : quiet (legacyMessagingKey pk).
Proof. unfold legacyMessagingKey. quiet HQ. Qed.
Lemma quiet_fallback {A} w (f : units -> units -> res A) : quiet (withMessagingKeyFallback w f).
Proof. unfold withMessagingKeyFallback. pose proof quiet_legacy. quiet HQ. Qed.
#[local] Hint Resolve quiet_request quiet_wallets quiet_legacy quiet_fallback : calls.
Lemma quiet_check w : quiet (check_registered apiBase w).
Proof. unfold check_registered. quiet HQ. Qed.
Lemma quiet_avatar w : quiet (resolveAvatarForRegistration w).
Proof. unfold resolveAvatarForRegistration. quiet HQ. Qed.
Lemma quiet_signing_key w : quiet (signing_key_of w).
Proof. unfold signing_key_of. quiet HQ. Qed.
#[local] Hint Resolve quiet_check quiet_avatar quiet_signing_key : calls.

Lemma quiet_post path o w : units_eqb path REGISTER = false -> quiet (postSigned apiBase path o w).
Proof. intros Hp. unfold postSigned, request. quiet HQ. Qed.
Lemma quiet_participants c me : quiet (withResolvedParticipants apiBase c me).
Proof. unfold withResolvedParticipants. quiet HQ. Qed.
#[local] Hint Resolve quiet_post quiet_participants : calls.
Lemma quiet_delete w a b : quiet (deleteMessage apiBase w a b).
Proof. unfold deleteMessage. quiet HQ. Qed.
Lemma quiet_delete_conversation w a : quiet (deleteConversation apiBase w a).
Proof. unfold deleteConversation. quiet HQ. Qed.
Lemma quiet_rename w a b : quiet (renameConversation apiBase w a b).
Proof. unfold renameConversation. quiet HQ. Qed.
Lemma quiet_add w a l : quiet (addConversationParticipants apiBase w a l).
Proof. unfold addConversationParticipants. quiet HQ. Qed.
Lemma quiet_mark w a l : quiet (markMessagesRead apiBase w a l).
Proof. unfold markMessagesRead. quiet HQ. Qed.
Lemma quiet_conversations id w : quiet (getConversations apiBase id w).
Proof. unfold getConversations, raw_conversations. quiet HQ. Qed.
Lemma quiet_wrap hex cek ks : forall o, quiet (wrap_all hex cek ks o).
Proof. induction ks as [|k ks IH]; intros o; cbn [wrap_all]; quiet HQ. Qed.
Lemma quiet_box t k : quiet (kemEncryptPlaintext t k).
Proof. unfold kemEncryptPlaintext. quiet HQ. Qed.
#[local] Hint Resolve quiet_wrap quiet_box : calls.
Lemma quiet_post_message conv t w rs sd after ty sp : quiet (post_message conv t w rs sd after ty sp).
Proof. unfold post_message, encrypt_for, encryptMessage, encryptAndSignV2, encryptV2Package, encrypt_wrapped. quiet HQ. Qed.
Lemma quiet_receive w ps l : forall d, quiet (receive_all apiBase w ps d l).
Proof. induction l as [|v l IH]; intros d; cbn [receive_all]; [done|]. unfold receive_one, find_sender, open_message. quiet HQ. Qed.
#[local] Hint Resolve quiet_receive : calls.
Lemma quiet_messages conv w ps : quiet (getMessages apiBase conv w ps).
Proof. unfold getMessages. quiet HQ. Qed.
End Operations.

(** ** Sessions *)

Section Sessions.
Context `{C : Crypto} `{P : Platform} `{M : MessageCrypto} `{U : Unicode} `{K : KeyDerivation}.
Variable apiBase : bool.

(** The operations of the client. *)
Inductive operation :=
| SavePrivacy (p : PrivacySettings) | ClearSent | SaveWallet (w : MWallet) | ClearWallet | Fingerprints (w : MWallet)
| Register (w : MWallet) (discoverable : option bool) | Create (name : units) (discoverable : option bool) | Import (json : units)
| LocalWallet (name : option units) | Resolve (w : MWallet)
| Converse (w : MWallet) (recipient : units) (name : option units) | Group (w : MWallet) (members : list units) (name : option units)
| Rename (w : MWallet) (conversation name : units) | Invite (w : MWallet) (conversation : units) (members : list units)
| DeleteMessage (w : MWallet) (message conversation : units) | DeleteConversation (w : MWallet) (conversation : units)
| MarkRead (w : MWallet) (conversation : units) (messages : list units) | Conversations (id : units) (w : option MWallet)
| Send (conversation text : units) (w : MWallet) (recipients : list units) (selfDestruct : bool) (after : option number) (type : units) (spoiler : bool)
| Load (conversation : units) (w : MWallet) (participants : list MWallet).

Definition void {A} (p : prog MsgI A) : prog MsgI unit := bind p (fun _ => Ret tt).

Definition perform (o : operation) : prog MsgI unit :=
  match o with
  | SavePrivacy p => savePrivacySettings p
  | ClearSent => clearStoredSentMessages
  | SaveWallet w => saveWalletLocally w
  | ClearWallet => clearLocalWallet
  | Fingerprints w => void (checkTofu w)
  | Register w d => registerWalletOnNode apiBase w d false
  | Create n d => void (createWallet apiBase n d)
  | Import j => void (importMessengerIdentity apiBase j)
  | LocalWallet n => void (getOrCreateLocalMessengerWallet apiBase n)
  | Resolve w => void (resolveMessagingWallet apiBase w)
  | Converse w r n => void (createConversation apiBase w r n)
  | Group w l n => void (createGroupConversation apiBase w l n)
  | Rename w c n => renameConversation apiBase w c n
  | Invite w c l => addConversationParticipants apiBase w c l
  | DeleteMessage w m c => deleteMessage apiBase w m c
  | DeleteConversation w c => deleteConversation apiBase w c
  | MarkRead w c l => markMessagesRead apiBase w c l
  | Conversations i w => void (getConversations apiBase i w)
  | Send c t w rs sd after ty sp => void (sendMessage apiBase c t w rs sd after ty sp)
  | Load c w ps => void (getMessages apiBase c w ps)
  end.

(** Any sequence of operations; one that fails does not stop the next. *)
Definition session (l : list operation) : prog MsgI unit := for_each (fun o => void (attempt (perform o))) l.

Context {J : mstate -> Prop} `{SI : !StorageInvariant J}.
Notation heeds := (heeds (J := J)).

Notation awp := (wp (I := MsgI) careful anything).

(** *** A registration *)

Lemma attempt_directory s h :
  awp (attempt (getWallets true)) s h (fun o s' h' => s' = s /\ exists r l, o = Ok l /\ h' = @Ev MsgI (FetchGet DIRECTORY) r :: h
    /\ directory_of r = match l with Ok ws => ws | Err _ => [] end).
Proof.
  apply wp_attempt. unfold getWallets. cbn [negb]. apply wp_bind, (wp_call (I := MsgI)); [done|]. intros [a|e] _.
  2: { split; [done|]. exists (Err e), (Err e). done. }
  assert (forall l, directory_of (Ok a) = match l with Ok ws => ws | Err _ => [] end ->
    s = s /\ exists r l', Ok l = Ok l' /\ @Ev MsgI (FetchGet DIRECTORY) (Ok a) :: h = @Ev MsgI (FetchGet DIRECTORY) r :: h
      /\ directory_of r = match l' with Ok ws => ws | Err _ => [] end) as Hi by (intros l Hl; split; [done|]; by exists (Ok a), l).
  destruct (rp_ok a) eqn:Ea; cbn [negb]; [|apply (Hi (Ok [])); cbn; by rewrite Ea].
  apply wp_bind, wp_of_res. destruct (as_list _) as [raw|e] eqn:Er; [|apply (Hi (Err e)); cbn; by rewrite Ea, Er].
  apply wp_of_res. apply Hi. cbn. by rewrite Ea, Er.
Qed.

Lemma check_spec w s h :
  awp (check_registered true w) s h (fun o s' h' => s' = s /\ (o = Ok tt -> not_foreign h' (mw_signingPublicKey w) (mw_encryptionPublicKey w))).
Proof.
  unfold check_registered. apply wp_bind. eapply wp_mono; [|by apply attempt_directory]. cbn beta.
  intros o s' h' (-> & r & l & -> & -> & Hl). rewrite <- Hl. clear Hl l.
  destruct (List.find _ (directory_of r)) as [mine|] eqn:Ef.
  2: { split; [done|]. intros _. exists r. split; [done|]. intros mine. by rewrite Ef. }
  destruct (no_text (mw_encryptionPublicKey mine) || units_eqb (mw_encryptionPublicKey mine) (mw_encryptionPublicKey w)) eqn:E1.
  { split; [done|]. intros _. exists r. split; [done|]. intros m'. rewrite Ef. intros [= <-]. apply orb_true_iff in E1 as [E1|E1].
    - left. by apply bool_decide_eq_true in E1.
    - right. left. by apply units_eqb_true. }
  apply wp_bind. unfold legacyMessagingKey. apply wp_bind, wp_attempt, (wp_call (I := MsgI)); [done|]. intros k _. cbn [wp].
  destruct k as [[k|]|e]; [|by split..]. destruct (units_eqb (mw_encryptionPublicKey mine) (kp_public k)) eqn:E2; [|by split].
  split; [done|]. intros _. exists r. split; [done|]. intros m'. rewrite Ef. intros [= <-]. right. right. exists k. split; [left|by apply units_eqb_true].
Qed.

Lemma register_keeps w d : heeds (registerWalletOnNode apiBase w d false).
Proof.
  intros s h Hs. unfold registerWalletOnNode. destruct apiBase eqn:Ha; cbn [negb]; [|done]. apply wp_bind, (wp_get (I := MsgI)). cbv zeta.
  apply wp_bind. eapply wp_mono; [|apply (wp_calls (I := MsgI) unregistering); [apply unregistering_careful|by apply quiet_signing_key]].
  cbn beta. intros [priv|e] s' h1 [-> _]; [|done]. destruct (no_text priv); [done|]. apply wp_bind.
  assert (forall h2, (mw_encryptionPublicKey w <> [] -> not_foreign h2 (mw_signingPublicKey w) (mw_encryptionPublicKey w)) ->
    awp (bind (resolveAvatarForRegistration w) (fun avatarUrl =>
      bind (buildSignedRequest (register_payload w (match d with Some b => JBool b | None => ps_discoverable (getPrivacySettings s) end) avatarUrl) priv (mw_signingPublicKey w)) (fun signed =>
      bind (mask (PostSigned REGISTER signed)) (fun res => if negb (rp_ok res) then Throw "Failed to register wallet" else Ret tt)))) s h2
      (fun _ s' _ => J s')) as Hrest.
  { intros h2 Hnf. apply wp_bind. apply (wp_mono (I := MsgI) _ _ _ _ _ (fun o s' h' => s' = s /\ (mw_encryptionPublicKey w <> [] -> not_foreign h' (mw_signingPublicKey w) (mw_encryptionPublicKey w)))).
    2: { unfold resolveAvatarForRegistration. destruct (mw_avatarUrl w); [by split|]. apply (wp_call (I := MsgI)); [done|]. intros r _. split; [done|].
         intros Hne. apply not_foreign_cons; [done|auto]. }
    intros [av|e] s' h3 [-> Hn3]; [|done]. apply wp_bind. eapply wp_mono; [|apply signed_request_spec; [done..|]].
    2: { unfold register_payload. destruct (given av); cbn; repeat constructor; set_solver. }
    cbn beta. intros [b|e] s' h4 (-> & Hh & Hb); [|done]. destruct (Hb b eq_refl) as [Hpk Hp]. apply wp_bind, (wp_call (I := MsgI)).
    - intros _. rewrite Hpk. split; [by apply Hp|]. intros enc He Hne.
      rewrite (Hp "encryptionPublicKey" (mw_encryptionPublicKey w) eq_refl eq_refl) in He. injection He as <-.
      specialize (Hn3 Hne). destruct Hh as (r1 & r2 & r3 & [->|[->|[->| ->]]]); repeat (apply not_foreign_cons; [done|]); done.
    - intros [r|e] _; [|done]. by destruct (negb (rp_ok r)). }
  destruct (no_text (mw_encryptionPublicKey w)) eqn:En.
  - apply bool_decide_eq_true in En. apply Hrest. by rewrite En.
  - cbn [negb andb]. eapply wp_mono; [|by apply check_spec]. cbn beta. intros [[]|e] s' h2 [-> Hc]; [|done]. apply Hrest. auto.
Qed.

(** *** All operations *)

Lemma heeds_create n d : heeds (createWallet apiBase n d).
Proof.
  unfold createWallet. apply heeds_bind; [by apply heeds_calls, quiet_mask|]. intros k. apply heeds_bind; [apply heeds_of_res|]. intros enc.
  apply heeds_bind; [by apply heeds_calls, quiet_mask|]. intros i. cbv zeta. apply heeds_bind; [apply heeds_update, si_wallet|]. intros _.
  apply heeds_bind; [apply heeds_attempt, register_keeps|]. intros _. apply heeds_ret.
Qed.

Lemma heeds_import j : heeds (importMessengerIdentity apiBase j).
Proof.
  unfold importMessengerIdentity. destruct (JSON_parse j) as [v|e]; [|apply heeds_throw]. apply heeds_bind; [apply heeds_of_res|]. intros o. cbv zeta.
  destruct (no_text _ || no_text _ || no_text _); [apply heeds_throw|].
  apply heeds_bind; [destruct (no_text _); [by apply heeds_calls, quiet_mask|apply heeds_ret]|]. intros i.
  apply heeds_bind; [apply heeds_update, si_wallet|]. intros _. apply heeds_bind; [apply heeds_attempt, register_keeps|]. intros _. apply heeds_ret.
Qed.

Lemma heeds_local n : heeds (getOrCreateLocalMessengerWallet apiBase n).
Proof.
  unfold getOrCreateLocalMessengerWallet. apply heeds_bind; [apply heeds_calls, quiet_get|]. intros s. cbv zeta.
  destruct (loadLocalWallet s) as [w|]; [|apply heeds_create]. destruct (no_text _); [apply heeds_create|].
  apply heeds_bind; [apply heeds_attempt, register_keeps|]. intros _. apply heeds_ret.
Qed.

Lemma heeds_converse w r n : heeds (createConversation apiBase w r n).
Proof.
  assert (forall c, unregistering c -> unregistering c) as HQ by done.
  unfold createConversation. destruct (negb apiBase); [apply heeds_throw|]. cbv zeta.
  assert (forall o, heeds (bind (buildSignedRequest o (mw_signingPrivateKey w) (mw_signingPublicKey w)) (fun signed => mask (PostSigned CONVERSATIONS signed)))) as Hsend.
  { intros o. apply heeds_calls. pose proof (quiet_request unregistering HQ). quiet HQ. }
  apply heeds_bind; [apply Hsend|]. intros first. apply heeds_bind.
  - destruct (rp_ok first); [apply heeds_ret|]. destruct (not_registered _); [|apply heeds_throw].
    apply heeds_bind; [apply register_keeps|]. intros _. apply heeds_bind; [apply Hsend|]. intros again. destruct (rp_ok again); [apply heeds_ret|apply heeds_throw].
  - intros response. destruct (opt_prop _ _); try apply heeds_throw. by apply heeds_calls, quiet_participants.
Qed.

Lemma heeds_group w l n : heeds (createGroupConversation apiBase w l n).
Proof.
  assert (forall c, unregistering c -> unregistering c) as HQ by done. pose proof (quiet_request unregistering HQ).
  unfold createGroupConversation. cbv zeta. destruct (_ <? _)%nat; [apply heeds_throw|]. destruct (_ <? _)%nat; [apply heeds_throw|].
  apply heeds_bind; [apply heeds_calls; unfold request; quiet HQ|]. intros [t|v].
  - apply heeds_bind; [destruct (not_registered t); [|apply heeds_throw]; apply heeds_bind; [apply register_keeps|]; intros _; by apply heeds_calls, quiet_post|].
    intros data. destruct (normalizeConversation _); [by apply heeds_calls, quiet_participants|apply heeds_throw].
  - apply heeds_bind; [apply heeds_ret|]. intros data. destruct (normalizeConversation _); [by apply heeds_calls, quiet_participants|apply heeds_throw].
Qed.

Lemma heeds_send c t w rs sd after ty sp : heeds (sendMessage apiBase c t w rs sd after ty sp).
Proof.
  unfold sendMessage. destruct (negb apiBase); [apply heeds_throw|]. apply heeds_bind; [by apply heeds_calls, quiet_post_message|]. intros r. cbv zeta.
  destruct (negb (rp_ok r)); [apply heeds_throw|]. destruct (negb (js_truthy _)); [apply heeds_throw|]. apply heeds_bind; [apply heeds_of_res|]. intros o.
  apply heeds_bind; [destruct (no_text _); [by apply heeds_calls, quiet_mask|apply heeds_ret]|]. intros at_. apply heeds_bind; [apply heeds_sent|]. intros _. apply heeds_ret.
Qed.

Lemma heeds_void {A} (p : prog MsgI A) : heeds p -> heeds (void p).
Proof. intros Hp. apply heeds_bind; [done|]. intros _. apply heeds_ret. Qed.

Lemma perform_keeps o : heeds (perform o).
Proof.
  assert (forall c, unregistering c -> unregistering c) as HQ by done.
  destruct o; cbn [perform]; try match goal with |- context [void _] => apply heeds_void end.
  - apply heeds_update, si_privacy.
  - apply heeds_update, si_cleared.
  - apply heeds_update, si_wallet.
  - apply heeds_update, si_wallet.
  - apply heeds_tofu.
  - apply register_keeps.
  - apply heeds_create.
  - apply heeds_import.
  - apply heeds_local.
  - unfold resolveMessagingWallet. destruct (no_text _); [apply heeds_local|apply heeds_ret].
  - apply heeds_converse.
  - apply heeds_group.
  - by apply heeds_calls, quiet_rename.
  - by apply heeds_calls, quiet_add.
  - by apply heeds_calls, quiet_delete.
  - by apply heeds_calls, quiet_delete_conversation.
  - by apply heeds_calls, quiet_mark.
  - by apply heeds_calls, quiet_conversations.
  - apply heeds_send.
  - by apply heeds_calls, quiet_messages.
Qed.

Lemma session_keeps l : heeds (session l).
Proof.
  unfold session. induction l as [|o l IH]; cbn [for_each]; [apply heeds_ret|]. apply heeds_bind; [apply heeds_void, heeds_attempt, perform_keeps|]. by intros _.
Qed.
End Sessions.

Section Theorems.
Context `{C : Crypto} `{P : Platform} `{M : MessageCrypto} `{U : Unicode} `{K : KeyDerivation}.
Variable apiBase : bool.

(** C21 Storage stays well formed.  Whatever sequence of messenger operations runs, whatever the node and the device answer
    and whichever of them fail, the stored texts of sent messages stay at most 500 under distinct ids, and the
    stored fingerprints stay one entry per wallet, under the id that the entry names. *)
Theorem storage_stays_wf (e : env MsgI) l s : wf_storage s -> wf_storage (final e (session apiBase l) s).
Proof. intros Hs. apply (wp_post careful e (session apiBase l) s (fun _ s' _ => wf_storage s')). exact (session_keeps apiBase l s [] Hs). Qed.


(** ** Trust on first use *)

(** Checks one after the other. *)
Fixpoint check_all (ws : list MWallet) : prog MsgI (list TofuResult) :=
  match ws with
  | [] => Ret []
  | w :: r => bind (checkTofu w) (fun x => bind (check_all r) (fun xs => Ret (x :: xs)))
  end.

(** Reference: the fingerprints last seen of each wallet, and whether each check finds others. *)
Definition fingerprints (w : MWallet) : units * units := (keyFingerprint (mw_signingPublicKey w), keyFingerprint (mw_encryptionPublicKey w)).
Definition seen_in (s : mstate) (id : units) : option (units * units) :=
  (fun x => (te_signingFingerprint x, te_encryptionFingerprint x)) <$> oget id (content (ms_tofu s) []).
Definition differs (seen : option (units * units)) (now : units * units) : bool := match seen with Some p => negb (bool_decide (p = now)) | None => false end.
Fixpoint changes (seen : units -> option (units * units)) (ws : list MWallet) : list bool :=
  match ws with
  | [] => []
  | w :: r => differs (seen (mw_id w)) (fingerprints w) :: changes (fun id => if units_eqb id (mw_id w) then Some (fingerprints w) else seen id) r
  end.

(** The clock answers. *)
Definition clock : history MsgI -> forall c, res (ans MsgI c) -> Prop := fun _ c => match c with NowMs => fun r => exists n, r = Ok n | _ => fun _ => True end.
Notation cwp := (wp (I := MsgI) (fun _ _ => True) clock).

Lemma changes_ext ws : forall f g, (forall id, f id = g id) -> changes f ws = changes g ws.
Proof. induction ws as [|w ws IH]; intros f g E; [done|]. cbn [changes]. rewrite E. f_equal. apply IH. intros id. by destruct (units_eqb id (mw_id w)). Qed.

Lemma seen_put s id e j : seen_in (put_tofu (Some (Ok (oset id e (content (ms_tofu s) [])))) s) j
  = if units_eqb j id then Some (te_signingFingerprint e, te_encryptionFingerprint e) else seen_in s j.
Proof. unfold seen_in. cbn [put_tofu ms_tofu content]. rewrite oget_oset. by destruct (units_eqb j id). Qed.

Lemma pair_differs (a b c d : units) : negb (units_eqb a c) || negb (units_eqb b d) = negb (bool_decide ((a, b) = (c, d))).
Proof. rewrite <- negb_andb. f_equal. apply Bool.eq_iff_eq_true. rewrite andb_true_iff, !units_eqb_true, bool_decide_eq_true. split; [by intros [-> ->]|by intros [= -> ->]]. Qed.

Lemma check_exact w s h : cwp (checkTofu w) s h (fun o s' _ => exists x, o = Ok x
  /\ tr_changed x = differs (seen_in s (mw_id w)) (fingerprints w) /\ tr_trusted x = negb (tr_changed x)
  /\ forall id, seen_in s' id = if units_eqb id (mw_id w) then Some (fingerprints w) else seen_in s id).
Proof.
  unfold checkTofu. apply wp_bind, (wp_get (I := MsgI)). cbv zeta.
  destruct (oget (mw_id w) (content (ms_tofu s) [])) as [x|] eqn:Ex.
  - assert (seen_in s (mw_id w) = Some (te_signingFingerprint x, te_encryptionFingerprint x)) as Hs by (unfold seen_in; by rewrite Ex).
    rewrite pair_differs. change (keyFingerprint (mw_signingPublicKey w), keyFingerprint (mw_encryptionPublicKey w)) with (fingerprints w).
    rewrite Hs. cbn [differs]. destruct (bool_decide _) eqn:E; cbn [negb].
    + eexists. split; [reflexivity|]. split_and!; [done..|]. intros id. destruct (units_eqb id (mw_id w)) eqn:Ei; [|done]. apply units_eqb_true in Ei as ->.
      apply bool_decide_eq_true in E. by rewrite Hs, E.
    + apply wp_bind. eexists. split; [reflexivity|]. split_and!; [done..|]. intros id. by rewrite seen_put.
  - apply wp_bind, (wp_call (I := MsgI)); [done|]. intros r [now ->]. apply wp_bind, wp_bind, (wp_get (I := MsgI)), (wp_put (I := MsgI)).
    apply wp_bind, (wp_call (I := MsgI)); [done|]. intros r [l ->]. eexists. split; [reflexivity|].
    split_and!; [unfold seen_in; by rewrite Ex|done|]. intros id. by rewrite seen_put.
Qed.

Lemma check_all_exact ws : forall s h, cwp (check_all ws) s h (fun o _ _ => exists xs, o = Ok xs
  /\ map tr_changed xs = changes (seen_in s) ws /\ map tr_trusted xs = map negb (changes (seen_in s) ws)).
Proof.
  induction ws as [|w ws IH]; intros s h; cbn [check_all]; [by exists []|]. apply wp_bind. eapply wp_mono; [|apply check_exact]. cbn beta.
  intros o s' h' (x & -> & Hc & Ht & Hs). apply wp_bind. eapply wp_mono; [|apply IH]. cbn beta. intros o s2 h2 (xs & -> & Hcs & Hts).
  exists (x :: xs). split; [done|]. cbn [map changes]. rewrite Ht, Hc, Hcs, Hts. by rewrite (changes_ext ws _ _ Hs).
Qed.

(** C35 A changed key is reported, and only a changed key.  Over any sequence of fingerprint checks, and starting from any stored
    fingerprints, every check returns, and reports a change - and no trust - exactly when the fingerprint of the signing or
    the messaging key differs from the one last seen of the wallet; the first sight of a wallet is trusted. *)
Theorem key_changes_reported (e : env MsgI) ws s : respects clock e ->
  exists xs, outcome e (check_all ws) s = Ok xs /\ map tr_changed xs = changes (seen_in s) ws /\ map tr_trusted xs = map negb (changes (seen_in s) ws).
Proof.
  intros He. pose proof (wp_run _ _ e _ s [] _ He Logic.I (check_all_exact ws s [])) as H. unfold outcome.
  destruct (run e (check_all ws) s []) as [[o s'] h]. by destruct H as [? _].
Qed.
End Theorems.
