(* ===== verification/ReceiveClaims.v ===== *)
(** * Received messages are authentic

    What [getMessages] shows as validly signed, against every node, directory and legacy-key store. *)
From S2P Require Import Prelude JsText JsNum JsUtf16 JsFloat LosslessJson JsValue Interact Finality Address MessageSigning MessageClaims CanonicalJson JsJson Envelope EnvelopeClaims ChainBinding TxSigner WalletKeys MessengerCrypto Messenger Messages.
Local Open Scope Z_scope.

(** ** What is shown of a message *)

(** A message after the envelope pass: only its text may be replaced by the body of its envelope. *)
Definition unwraps (m0 m : Message) : Prop :=
  em_id m = em_id m0 /\ em_senderWalletId m = em_senderWalletId m0 /\ em_mediaUrl m = em_mediaUrl m0 /\ em_rest m = em_rest m0
  /\ (em_plaintext m = em_plaintext m0
      \/ exists body r p q, parseEnvelope (default [] (em_plaintext m0)) = Msg body r p q /\ em_plaintext m = Some body).

Lemma unwraps_shown (m0 y : Message) : shown_as m0 = Some y -> unwraps m0 y.
Proof.
  unfold shown_as. intros Ey. destruct (left_alone m0); [injection Ey as <-; unfold unwraps; auto 6|].
  destruct (parseEnvelope _) as [body r p q|] eqn:Ep; [|done]. injection Ey as <-. destruct (units_eqb body _); [unfold unwraps; auto 6|].
  unfold unwraps. cbn. do 4 (split; [done|]). right. by exists body, r, p, q.
Qed.

Lemma unwraps_reactions (ms : list Message) m0 y : unwraps m0 y -> unwraps m0 (with_reactions ms y).
Proof. unfold with_reactions. by destruct (reactions_to _ ms). Qed.

Lemma displayed_unwraps (ms : list Message) m : m ∈ applyEnvelopes ms -> exists m0, m0 ∈ ms /\ unwraps m0 m.
Proof.
  rewrite apply_displayed. unfold displayed. intros (y & -> & Hy)%list_elem_of_fmap. apply list_elem_of_omap in Hy as (m0 & Hm0 & Ey).
  exists m0. split; [done|]. by apply unwraps_reactions, unwraps_shown.
Qed.

Section Receive.
Context `{C : Crypto} `{P : Platform} `{M : MessageCrypto} `{U : Unicode} `{K : KeyDerivation}.
Variable apiBase : bool.
(** Whatever is assumed of the answers. *)
Variable asm : history MsgI -> forall c, res (ans MsgI c) -> Prop.

Notation awp := (wp (I := MsgI) (fun _ _ => True) asm).

(** ** Keys of the reader *)

(** The wallet's messaging key, or the one kept from before the derivation. *)
Definition my_key (h : history MsgI) (w : MWallet) (priv pub : units) : Prop :=
  (priv = mw_encryptionPrivateKey w /\ pub = mw_encryptionPublicKey w)
  \/ exists k, (@Ev MsgI (LegacyKey (mw_signingPublicKey w)) (Ok (Some k)) : event MsgI) ∈ h /\ priv = kp_private k /\ pub = kp_public k.

(** The history has grown. *)
Definition grown (h h' : history MsgI) : Prop := exists l, h' = l ++ h.
Lemma grown_refl h : grown h h.
Proof. by exists []. Qed.
Lemma grown_cons h h' x : grown h h' -> grown h (x :: h').
Proof. intros [l ->]. by exists (x :: l). Qed.
Lemma grown_trans h h' h'' : grown h h' -> grown h' h'' -> grown h h''.
Proof. intros [l ->] [l' ->]. exists (l' ++ l). by rewrite app_assoc. Qed.
Lemma my_key_grown h h' w priv pub : grown h h' -> my_key h w priv pub -> my_key h' w priv pub.
Proof. intros [l ->] [?|(k & Hk & ?)]; [by left|right]. exists k. split; [|done]. apply elem_of_app. by right. Qed.

Lemma wp_grown {A} (p : prog MsgI A) s h Q : awp p s h Q -> awp p s h (fun o s' h' => Q o s' h' /\ grown h h').
Proof.
  revert s h. induction p as [a|e|k IH|s' k IH|c k IH]; simpl; intros s h H; [by split; [|apply grown_refl]..|by apply IH|by apply IH|].
  destruct H as [_ H]. split; [done|]. intros r Hr. eapply wp_mono; [|apply IH, H, Hr]. cbn. intros o s' h' [? Hg]. split; [done|].
  eapply grown_trans; [|done]. apply grown_cons, grown_refl.
Qed.

Lemma fallback_spec {A} (w : MWallet) (open : units -> units -> res A) s h :
  awp (withMessagingKeyFallback w open) s h (fun o s' h' => s' = s /\ forall a, o = Ok a -> exists priv pub, my_key h' w priv pub /\ open priv pub = Ok a).
Proof.
  unfold withMessagingKeyFallback. destruct (open (mw_encryptionPrivateKey w) _) as [a|e] eqn:Ho.
  { split; [done|]. intros a' [= <-]. exists (mw_encryptionPrivateKey w), (mw_encryptionPublicKey w). split; [by left|done]. }
  apply wp_bind. unfold legacyMessagingKey. apply wp_bind, wp_attempt, (wp_call (I := MsgI)); [done|]. intros r _. cbn [wp].
  destruct r as [[k|]|e']; [|by split..]. destruct (units_eqb _ _); [by split|].
  destruct (open (kp_private k) (kp_public k)) as [a|e'] eqn:Hk; [|by split]. split; [done|]. intros a' [= <-].
  exists (kp_private k), (kp_public k). split; [|done]. right. exists k. split; [left|done].
Qed.

(** ** Opening a message *)

(** The package carries a signature of the signer. *)
Definition signed_by (pkg sig signer : units) : Prop :=
  signer <> [] /\ sig <> [] /\ exists hex, hex ∈ [hexToBytes; MessengerCrypto.fromHex] /\ ml_dsa65_verify (hex sig) (utf8 pkg) (hex signer) = Ok true.

(** A key opens the package to a text: as a group package, or as the recipient's or the sender's copy. *)
Definition opens_to (pkg : units) (own : bool) (priv pub text : units) : Prop :=
  if isV2Package pkg then decryptV2Package pkg priv pub = Ok text else exists signer sig v, decryptMessage pkg priv signer sig own = Ok (text, v).

Lemma verified_signed pkg sig signer hex : hex ∈ [hexToBytes; MessengerCrypto.fromHex] -> verified pkg sig signer hex = true -> signed_by pkg sig signer.
Proof.
  intros Hh. unfold verified, no_text. destruct (bool_decide (signer = [])) eqn:E1; [done|]. destruct (bool_decide (sig = [])) eqn:E2; [done|].
  apply bool_decide_eq_false in E1, E2. cbn [orb]. destruct (ml_dsa65_verify _ _ _) as [[]|] eqn:E; try done. intros _. split; [done|]. split; [done|].
  exists hex. by split.
Qed.

Lemma decrypt_verified pkg priv signer sig own t : decryptMessage pkg priv signer sig own = Ok (t, true) -> verified pkg sig signer hexToBytes = true.
Proof.
  unfold decryptMessage. destruct (parse_package pkg) as [d|]; [|done]. cbn [res_bind].
  destruct (need _ d) as [ct|]; [|done]. cbn [res_bind]. destruct (need _ d) as [iv|]; [|done]. cbn [res_bind].
  destruct (need _ d) as [c|]; [|done]. cbn [res_bind]. destruct (kemDecryptPayload _ _ _ _) as [p|]; [|done]. cbn [res_bind]. by intros [= _ ->].
Qed.

(** What vouches for a text shown as validly signed. *)
Definition vouched (h : history MsgI) (s : mstate) (w : MWallet) (own : bool) (senderKey : option units) (m : RawMessage) (t : units) : Prop :=
  (own = true /\ (getSentMessage (rm_id m) s = Some t \/ t = YOURS))
  \/ exists signer priv pub, (if own then Some (mw_signingPublicKey w) else senderKey) = Some signer
       /\ signed_by (rm_encryptedContent m) (rm_signature m) signer
       /\ my_key h w priv pub /\ opens_to (rm_encryptedContent m) own priv pub t.

Lemma vouched_grown h h' s w own k m t : grown h h' -> vouched h s w own k m t -> vouched h' s w own k m t.
Proof.
  intros Hg [?|(signer & priv & pub & ? & ? & Hk & ?)]; [by left|right]. exists signer, priv, pub. do 2 (split; [done|]).
  split; [by eapply my_key_grown|done].
Qed.

Lemma some_key (k : option units) signer : default [] k = signer -> signer <> [] -> k = Some signer.
Proof. by destruct k; cbn; intros <-. Qed.

Lemma group_vouched h s w (own : bool) k m t priv pub : isV2Package (rm_encryptedContent m) = true -> my_key h w priv pub ->
  decryptV2Package (rm_encryptedContent m) priv pub = Ok t ->
  verifyPackageSignature (rm_encryptedContent m) (rm_signature m) (if own then mw_signingPublicKey w else default [] k) = true ->
  vouched h s w own k m t.
Proof.
  intros Hg Hk Ho Hv. right. assert (signed_by (rm_encryptedContent m) (rm_signature m) (if own then mw_signingPublicKey w else default [] k)) as Hs.
  { eapply verified_signed; [|exact Hv]. right. left. }
  eexists _, priv, pub. split; [|split; [exact Hs|]]. { destruct own; [done|]. apply some_key; [done|apply Hs]. }
  split; [done|]. unfold opens_to. by rewrite Hg.
Qed.

Lemma single_vouched h s w (own : bool) k m t priv pub signer : isV2Package (rm_encryptedContent m) = false -> my_key h w priv pub ->
  signer = (if own then mw_signingPublicKey w else default [] k) ->
  decryptMessage (rm_encryptedContent m) priv signer (rm_signature m) own = Ok (t, true) -> vouched h s w own k m t.
Proof.
  intros Hg Hk -> Ho. right. assert (signed_by (rm_encryptedContent m) (rm_signature m) (if own then mw_signingPublicKey w else default [] k)) as Hs.
  { eapply verified_signed; [|exact (decrypt_verified _ _ _ _ _ _ Ho)]. left. }
  eexists _, priv, pub. split; [|split; [exact Hs|]]. { destruct own; [done|]. apply some_key; [done|apply Hs]. }
  split; [done|]. unfold opens_to. rewrite Hg. by eexists _, _, _.
Qed.

Lemma open_message_spec w (own : bool) k m s h :
  awp (open_message w own k m) s h (fun o s' h' => s' = s /\ (exists x, o = Ok x) /\ forall t, o = Ok (t, true) -> vouched h' s w own k m t).
Proof.
  unfold open_message. apply wp_bind, (wp_get (I := MsgI)). cbv zeta.
  destruct (if own then getSentMessage (rm_id m) s else None) as [t|] eqn:Es.
  { split_and!; [done|by eexists|]. intros t' [= <-]. left. destruct own; [|done]. auto. }
  destruct (negb (no_text (rm_encryptedContent m)) && isV2Package (rm_encryptedContent m)) eqn:Eg.
  { apply andb_prop in Eg as [_ Eg]. apply wp_bind, wp_attempt. eapply wp_mono; [|apply fallback_spec]. cbn. intros r s' h' [-> Hr]. split_and!; [done|by eexists|].
    destruct r as [t|e]; intros t' [= <- Hv].
    - destruct (no_text _); [done|]. destruct (Hr t eq_refl) as (priv & pub & Hk & Ho). by eapply group_vouched.
    - destruct own; [|done]. left. auto. }
  assert (no_text (rm_encryptedContent m) = false -> isV2Package (rm_encryptedContent m) = false) as Hg.
  { intros E. rewrite E in Eg. exact Eg. }
  destruct own, (no_text (rm_encryptedContent m)) eqn:En.
  - split_and!; [done|by eexists|]. intros t [= <-]. left. auto.
  - apply wp_bind, wp_attempt. eapply wp_mono; [|apply fallback_spec]. cbn. intros r s' h' [-> Hr]. split_and!; [done|by eexists|].
    destruct r as [d|e]; intros t' [= E]; [|left; auto]. subst d. destruct (Hr _ eq_refl) as (priv & pub & Hk & Ho).
    eapply single_vouched; [by apply Hg|exact Hk| |exact Ho]. done.
  - split_and!; [done|by eexists|done].
  - apply wp_bind, wp_attempt. eapply wp_mono; [|apply fallback_spec]. cbn. intros r s' h' [-> Hr]. split_and!; [done|by eexists|].
    destruct r as [[t v]|e]; [|done]. intros t' [= <- Ev]. destruct (no_text (default [] k)); [done|]. subst v.
    destruct (Hr _ eq_refl) as (priv & pub & Hk & Ho). eapply single_vouched; [by apply Hg|exact Hk| |exact Ho]. done.
Qed.

(** ** The sender *)

Lemma buildSignedRequest_pure o sk pk s h : awp (buildSignedRequest o sk pk) s h (fun _ s' _ => s' = s).
Proof.
  unfold buildSignedRequest. apply wp_bind, (wp_call (I := MsgI)); [done|]. intros [n|e] _; [|done].
  apply wp_bind, (wp_call (I := MsgI)); [done|]. intros [t|e] _; [|done]. cbv zeta.
  apply wp_bind, (wp_call (I := MsgI)); [done|]. intros [c|e] _; [|done]. apply wp_bind, wp_of_res. destruct (coreWithChainId _ _); [|done].
  apply wp_bind, wp_of_res. by destruct (ml_dsa65_sign _ _).
Qed.

Lemma getWallets_pure s h : awp (getWallets apiBase) s h (fun _ s' _ => s' = s).
Proof.
  unfold getWallets. destruct (negb apiBase); [done|]. apply wp_bind, (wp_call (I := MsgI)); [done|]. intros [r|e] _; [|done].
  destruct (negb (rp_ok r)); [done|]. apply wp_bind, wp_of_res. destruct (as_list _); [|done]. by apply wp_of_res.
Qed.

Lemma find_wallet (f : MWallet -> bool) l p : List.find f l = Some p -> p ∈ l /\ f p = true.
Proof. intros H. apply List.find_some in H as [H1 H2]. split; [by apply list_elem_of_In|done]. Qed.

(** The wallet shown as the sender is a participant or goes by the message's sender id. *)
Lemma find_sender_spec w ps id d s h :
  awp (find_sender apiBase w ps id d) s h (fun o s' _ => s' = s /\ (exists x, o = Ok x) /\ forall p d', o = Ok (Some p, d') -> p ∈ ps \/ named id p = true).
Proof.
  assert (forall p, other_participant w ps = Some p -> p ∈ ps) as Ho.
  { unfold other_participant. destruct (2 <=? length ps)%nat; [|done]. intros p Hp. by apply find_wallet in Hp as [? _]. }
  unfold find_sender. destruct (List.find (named id) ps) as [p|] eqn:Ep.
  { split_and!; [done|by eexists|]. intros p' d' [= <- <-]. left. by apply find_wallet in Ep as [? _]. }
  destruct (no_text id); [split_and!; [done|by eexists|done]|]. apply wp_bind, wp_attempt.
  assert (forall r, awp (Ret (match r with
           | Err _ => (other_participant w ps, d)
           | Ok all => (match List.find (named id) all with Some s => Some s | None => other_participant w ps end, Some all)
           end)) s h (fun o s' _ => s' = s /\ (exists x, o = Ok x) /\ forall p d', o = Ok (Some p, d') -> p ∈ ps \/ named id p = true)) as Hr.
  { intros r. split_and!; [done|by eexists|]. intros p d' E. destruct r as [all|e]; injection E as E _; [|left; by apply Ho].
    destruct (List.find (named id) all) as [x|] eqn:Ef; [|left; by apply Ho]. injection E as ->. right. by apply find_wallet in Ef as [_ ?]. }
  destruct d as [l|]; [apply (Hr (Ok l))|]. eapply wp_mono; [|apply getWallets_pure]. cbn. intros r s' h' ->. exact (Hr r).
Qed.

(** ** The list *)

(** A shown message with the raw one it comes from. *)
Definition comes_from (h : history MsgI) (s : mstate) (w : MWallet) (ps : list MWallet) (v : js) (m0 : Message) : Prop :=
  exists raw sender t valid, normalized v = Ok raw
    /\ m0 = message_of w (isOwnMessage w (rm_senderWalletId raw)) sender raw (t, valid)
    /\ (forall p, sender = Some p -> p ∈ ps \/ named (rm_senderWalletId raw) p = true)
    /\ (valid = true -> vouched h s w (isOwnMessage w (rm_senderWalletId raw)) (mw_signingPublicKey <$> sender) raw t).

Lemma comes_from_grown h h' s w ps v m : grown h h' -> comes_from h s w ps v m -> comes_from h' s w ps v m.
Proof.
  intros Hg (raw & sender & t & valid & ? & ? & ? & Hv). exists raw, sender, t, valid. do 3 (split; [done|]).
  intros E. eapply vouched_grown; [exact Hg|by apply Hv].
Qed.

Lemma receive_one_spec w ps d v s h :
  awp (receive_one apiBase w ps d v) s h (fun o s' h' => s' = s /\ ((exists raw, normalized v = Ok raw) -> exists x, o = Ok x)
    /\ forall m un d', o = Ok (m, un, d') -> comes_from h' s w ps v m).
Proof.
  unfold receive_one. apply wp_bind, wp_of_res. destruct (normalized v) as [raw|e] eqn:Er; [|split_and!; [done|by intros [? ?]|done]].
  apply wp_bind. eapply wp_mono; [|apply find_sender_spec]. cbn beta. intros [[sender d']|e] s' h' [-> [[x Hx] Hs]]; [|done]. cbn [fst snd]. cbv zeta.
  apply wp_bind. eapply wp_mono; [|apply open_message_spec]. cbn beta. intros [[t valid]|e] s' h'' [-> [[y Hy] Ho]]; [|done]. split_and!; [done|by eexists|].
  intros m un d'' [= <- _ _]. exists raw, sender, t, valid. do 2 (split; [done|]). split.
  - intros p ->. by eapply Hs.
  - intros ->. by apply Ho.
Qed.

Lemma receive_all_spec w ps vs d s h :
  awp (receive_all apiBase w ps d vs) s h (fun o s' h' => s' = s /\ (Forall (fun v => exists raw, normalized v = Ok raw) vs -> exists x, o = Ok x) /\
    forall ms un, o = Ok (ms, un) -> Forall2 (comes_from h' s w ps) vs ms).
Proof.
  revert d h. induction vs as [|v vs IH]; intros d h; cbn [receive_all]. { split_and!; [done|by eexists|]. intros ms un [= <- _]. constructor. }
  apply wp_bind. eapply wp_mono; [|apply receive_one_spec]. cbn beta. intros [[[m un] d']|e] s' h' [-> [T1 H1]].
  2: { split_and!; [done| |done]. intros [Hv _]%Forall_cons. by destruct (T1 Hv). }
  apply wp_bind. eapply wp_mono; [|apply wp_grown, IH]. cbn beta. intros [[ms un']|e] s' h'' [[-> [T2 H2]] Hg].
  2: { split_and!; [done| |done]. intros [_ Hv]%Forall_cons. by destruct (T2 Hv). }
  split_and!; [done|by eexists|].
  intros ms' un'' [= <- _]. constructor; [|by eapply H2]. eapply comes_from_grown; [exact Hg|by eapply H1].
Qed.

(** The messages a node answered to the request of the list. *)
Definition answered (h : history MsgI) (v : js) : Prop :=
  exists b r l, (@Ev MsgI (PostSigned LIST_MESSAGES b) (Ok r) : event MsgI) ∈ h /\ opt_prop "messages" (json_or_null r) = JArr l /\ v ∈ l.

Lemma getMessages_spec conversationId w ps s :
  awp (getMessages apiBase conversationId w ps) s [] (fun o s' h => s' = s /\
    forall ms un, o = Ok (ms, un) -> forall m, m ∈ ms -> exists v m0, answered h v /\ comes_from h s w ps v m0 /\ unwraps m0 m).
Proof.
  unfold getMessages. destruct (negb apiBase). { split; [done|]. by intros ms un [= <- _] m ?%elem_of_nil. }
  apply wp_bind. eapply wp_mono; [|apply buildSignedRequest_pure]. cbn beta. intros [b|e] s' h ->; [|by split].
  apply wp_bind, (wp_call (I := MsgI)); [done|]. intros [r|e] _; [|by split]. cbv zeta.
  destruct (negb (rp_ok r)). { split; [done|]. by intros ms un [= <- _] m ?%elem_of_nil. }
  apply wp_bind. eapply wp_mono; [|apply wp_grown, receive_all_spec]. cbn beta. intros [[ms un]|e] s' h' [[-> [_ H1]] Hg]; [|by split].
  apply wp_bind, (wp_call (I := MsgI)); [done|]. intros [now|e] _; [|by split]. split; [done|].
  intros ms' un' [= <- _] m Hm. cbn [fst] in Hm. apply list_elem_of_In, filter_In in Hm as [Hm _]. apply list_elem_of_In in Hm.
  apply displayed_unwraps in Hm as (m0 & Hm0 & Hu). specialize (H1 _ _ eq_refl).
  destruct (opt_prop "messages" (json_or_null r)) as [| | | | |l|] eqn:El; try by (inversion H1; subst; apply elem_of_nil in Hm0).
  apply list_elem_of_lookup in Hm0 as (i & Hi). apply (Forall2_lookup_r _ _ _ _ _ H1) in Hi as (v & Hv & Hc).
  exists v, m0. split; [|split; [|done]].
  - exists b, r, l. split; [|split; [done|by eapply list_elem_of_lookup_2]]. destruct Hg as [l' ->]. right. apply elem_of_app. right. left.
  - eapply comes_from_grown; [|exact Hc]. apply grown_cons, grown_refl.
Qed.

End Receive.

Section Authentic.
Context `{C : Crypto} `{P : Platform} `{M : MessageCrypto} `{U : Unicode} `{K : KeyDerivation}.
Variable apiBase : bool.

End Authentic.
