(* ===== verification/Delivery.v ===== *)
(** * A message that was sent is shown to its recipients

    [sendMessage] and [getMessages] together: what one client posts and another client loads. *)
From S2P Require Import Prelude JsText JsNum JsUtf16 JsFloat LosslessJson JsValue Interact EvmCalldata Finality Address MessageSigning MessageClaims CanonicalJson JsJson Envelope EnvelopeClaims ChainBinding TxSigner TxSignerClaims WalletKeys MessengerCrypto MessageOpens Messenger Messages MessengerClaims ReceiveClaims.
Local Open Scope Z_scope.

Section Delivery.
Context `{C : Crypto} `{P : Platform} `{M : MessageCrypto} `{L : MessageLaws} `{U : Unicode} `{K : KeyDerivation}.
Variable apiBase : bool.
Notation kwp := (wp (I := MsgI) (fun _ _ => True) kem_ok).

(** ** What the recipients can read *)

(** Key texts as their owners hold them: hexadecimal, without a prefix. *)
Record sender_keys (w : MWallet) : Prop := {
  sk_signs : sign_pair (hexToBytes (mw_signingPrivateKey w)) (hexToBytes (mw_signingPublicKey w));
  sk_length : length (hexToBytes (mw_signingPrivateKey w)) = Z.to_nat 4032;
  sk_bare : bare (mw_signingPrivateKey w) /\ bare (mw_signingPublicKey w);
  sk_given : mw_signingPublicKey w <> [] /\ mw_encryptionPublicKey w <> [];
}.
Definition key_pair (pub priv : units) : Prop := pub <> [] /\ bare pub /\ bare priv /\ kem_pair (hexToBytes pub) (hexToBytes priv).

(** A key opens a package to a text, with a valid signature of the signer. *)
Definition reads (pkg sig signer : units) (own : bool) (priv pub t : units) : Prop :=
  if isV2Package pkg then decryptV2Package pkg priv pub = Ok t /\ verifyPackageSignature pkg sig signer = true
  else decryptMessage pkg priv signer sig own = Ok (t, true).

(** Everyone meant to read a package can; no one else finds a key in a group package. *)
Record readable (pkg sig : units) (w : MWallet) (recipients : list units) (t : units) : Prop := {
  rd_given : pkg <> [] /\ sig <> [];
  rd_recipient : forall pub priv, pub ∈ recipients -> key_pair pub priv -> reads pkg sig (mw_signingPublicKey w) false priv pub t;
  rd_sender : forall priv, key_pair (mw_encryptionPublicKey w) priv -> reads pkg sig (mw_signingPublicKey w) true priv (mw_encryptionPublicKey w) t;
  rd_others : forall pub priv, isV2Package pkg = true -> pub ∉ recipients ++ [mw_encryptionPublicKey w] ->
    decryptV2Package pkg priv pub = Err "No wrapped key for this recipient";
}.

Lemma object_text_nonempty o : stringify_object o <> [].
Proof. unfold stringify_object, JSON_stringify. cbn. by destruct (_ : list (units * LosslessJson)). Qed.

Lemma single_readable t k w s h : plain_text t -> sender_keys w ->
  kwp (encryptMessage t k (mw_signingPrivateKey w) (mw_encryptionPublicKey w)) s h
    (fun o s' _ => s' = s /\ exists pkg sig, o = Ok (pkg, sig) /\ readable pkg sig w [k] t).
Proof.
  intros Ht [Hs Hl [_ _] [Hp He]]. apply encryptMessage_spec; [done..|by eexists|]. intros r b sig h' Hr Hb pkg Esig. split; [done|]. exists pkg, (toHex sig). split; [done|].
  pose proof (not_group _ _ _ _ _ Hr Hb) as Hng. fold pkg in Hng.
  assert (verified pkg (toHex sig) (mw_signingPublicKey w) hexToBytes = true) as Hv
    by (eapply signed_verified; [exact Hs|done|done|apply hexToBytes_toHex|done]).
  assert (forall own priv signer sg, kem_pair (hexToBytes (if own : bool then mw_encryptionPublicKey w else k)) (hexToBytes priv) ->
    decryptMessage pkg priv signer sg own = Ok (t, verified pkg sg signer hexToBytes)) as Hd.
  { intros own priv signer sg Hk. eapply decrypt_opens; [exact Hr|exact Hb|]. by destruct own. }
  split.
  - split; [apply object_text_nonempty|]. intros E. rewrite E in Hv. unfold verified in Hv. rewrite orb_true_r in Hv; done.
  - intros pub priv ->%list_elem_of_singleton (_ & _ & _ & Hk). unfold reads.
    rewrite Hng, (Hd false priv (mw_signingPublicKey w) (toHex sig) Hk). by rewrite Hv.
  - intros priv (_ & _ & _ & Hk). unfold reads. rewrite Hng, (Hd true priv (mw_signingPublicKey w) (toHex sig) Hk). by rewrite Hv.
  - intros pub priv Hg. by rewrite Hng in Hg.
Qed.

Lemma bare_pair pub priv : key_pair pub priv -> kem_pair (MessengerCrypto.fromHex pub) (MessengerCrypto.fromHex priv).
Proof. intros (_ & Hb & Hb' & Hk). by rewrite !bare_hex. Qed.

Lemma group_readable t ks w s h : plain_text t -> sender_keys w -> Forall (Forall is_unit) (ks ++ [mw_encryptionPublicKey w]) ->
  kwp (encryptAndSignV2 t ks (mw_encryptionPublicKey w) (mw_signingPrivateKey w)) s h
    (fun o s' _ => s' = s /\ exists pkg sig, o = Ok (pkg, sig) /\ readable pkg sig w ks t).
Proof.
  intros Ht [Hs _ [Bsk Bpk] [Hp He]] Hu. apply encryptGroup_spec; [rewrite bare_hex by done; by eexists|].
  intros cek iv wk sig h' Hiv Hw pkg Esig. split; [done|]. exists pkg, (toHex sig). split; [done|].
  assert (Forall (Forall is_unit) (distinct [] (ks ++ [mw_encryptionPublicKey w]))) as Hd.
  { rewrite Forall_elem in Hu |- *. intros k Hk%distinct_only. by apply Hu. }
  pose proof (fun pub priv => decrypt_group cek _ wk iv t priv pub Hw Hd Hiv Ht) as Hg. fold pkg in Hg. destruct (Hg [] []) as [E _].
  assert (verifyPackageSignature pkg (toHex sig) (mw_signingPublicKey w) = true) as Hv.
  { unfold verifyPackageSignature. eapply signed_verified; [exact Hs|by rewrite <- bare_hex|by apply bare_hex|apply fromHex_toHex|done]. }
  assert (forall own pub priv, pub ∈ ks ++ [mw_encryptionPublicKey w] -> key_pair pub priv -> reads pkg (toHex sig) (mw_signingPublicKey w) own priv pub t) as Hr.
  { intros own pub priv Hin Hk. unfold reads. rewrite E. split; [|done]. destruct (Hg pub priv) as (_ & H & _).
    apply H; [|apply Hk|by apply bare_pair]. by destruct (distinct_elem _ [] pub Hin) as [?|?%elem_of_nil]. }
  split.
  - split; [apply object_text_nonempty|]. intros E'. rewrite E' in Hv. unfold verifyPackageSignature, verified in Hv. rewrite orb_true_r in Hv; done.
  - intros pub priv Hin. apply Hr, elem_of_app. by left.
  - intros priv. apply Hr, elem_of_app. right. by apply list_elem_of_singleton.
  - intros pub priv _ Hout. destruct (Hg pub priv) as (_ & _ & H). apply H. by intros ?%distinct_only.
Qed.

Lemma encrypt_for_spec t ks w s h : plain_text t -> sender_keys w -> Forall (Forall is_unit) (ks ++ [mw_encryptionPublicKey w]) ->
  kwp (encrypt_for t ks w) s h (fun o s' _ => s' = s /\ forall pkg sig, o = Ok (pkg, sig) -> readable pkg sig w ks t).
Proof.
  intros Ht Hw Hu. assert (forall (o : res (units * units)) s', s' = s /\ (exists pkg sig, o = Ok (pkg, sig) /\ readable pkg sig w ks t) ->
    s' = s /\ forall pkg sig, o = Ok (pkg, sig) -> readable pkg sig w ks t) as Hi.
  { intros o s' (-> & pkg & sig & -> & Hr). split; [done|]. by intros ? ? [= <- <-]. }
  destruct ks as [|k [|k' ks]]; cbn [encrypt_for]; [by split|..]; (eapply wp_mono; [intros o s' h'; apply Hi|]);
    [by apply single_readable|by apply group_readable].
Qed.

(** ** Sending *)

Definition recipients_of (l : list units) : list units := distinct [] (List.filter (fun k => negb (no_text k)) l).

(** The posted message: what the request holds is readable. *)
Definition posted (h : history MsgI) (w : MWallet) (recipients : list units) (t : units) : Prop :=
  exists b r pkg sig, (@Ev MsgI (PostSigned SEND b) (Ok r) : event MsgI) ∈ h
    /\ prop "encryptedContent" (tx_payload b) = JStr pkg /\ prop "contentSignature" (tx_payload b) = JStr sig
    /\ readable pkg sig w (recipients_of recipients) t.

Lemma storeSent_keeps id t s h (Q : res unit -> mstate -> history MsgI -> Prop) : (forall s', Q (Ok tt) s' h) -> kwp (storeSentMessage id t) s h Q.
Proof.
  intros HQ. unfold storeSentMessage. apply wp_bind, (wp_get (I := MsgI)). destruct (negb _); [apply wp_ret, HQ|].
  destruct (ms_sent s) as [[d|e]|]; [apply (wp_put (I := MsgI))|apply wp_ret|apply (wp_put (I := MsgI))]; apply HQ.
Qed.

Lemma post_message_spec conv t w recipients sd after ty sp s h :
  plain_text t -> sender_keys w -> Forall (Forall is_unit) (recipients ++ [mw_encryptionPublicKey w]) ->
  kwp (post_message conv t w recipients sd after ty sp) s h (fun o s' h' => forall r, o = Ok r -> posted h' w recipients t).
Proof.
  intros Ht Hw Hu. unfold post_message. apply wp_bind.
  eapply wp_mono; [|apply (encrypt_for_spec t (recipients_of recipients) w s h Ht Hw)].
  2: { apply Forall_app in Hu as [Hu Hu']. apply Forall_app. split; [|done]. rewrite Forall_elem in Hu |- *.
       intros k [Hk _]%distinct_only%list_elem_of_In%filter_In. apply Hu. by apply list_elem_of_In. }
  cbn beta. intros [[pkg sig]|e] s' h' [-> Hr]; [|done]. cbn [fst snd]. apply wp_bind.
  eapply wp_mono; [|apply signed_request_spec; [done..|cbn; repeat constructor; set_solver]].
  cbn beta. intros [b|e] s' h'' (-> & _ & Hb); [|done]. destruct (Hb b eq_refl) as [_ Hb']. apply (wp_call (I := MsgI)); [done|]. intros r _ r' ->.
  exists b, r', pkg, sig. split; [left|]. split; [by apply Hb'|]. split; [by apply Hb'|by apply Hr].
Qed.

Lemma posted_cons h x w rs t : posted h w rs t -> posted (x :: h) w rs t.
Proof. intros (b & r & pkg & sig & Hin & ?). exists b, r, pkg, sig. split; [by right|done]. Qed.

Lemma sendMessage_spec conv t w recipients sd after ty sp s h :
  plain_text t -> sender_keys w -> Forall (Forall is_unit) (recipients ++ [mw_encryptionPublicKey w]) ->
  kwp (sendMessage apiBase conv t w recipients sd after ty sp) s h (fun o s' h' => forall m, o = Ok m -> posted h' w recipients t).
Proof.
  intros Ht Hw Hu. unfold sendMessage. destruct (negb apiBase); [done|]. apply wp_bind.
  eapply wp_mono; [|by apply post_message_spec]. cbn beta. intros [r|e] s' h' Hr; [|done]. specialize (Hr r eq_refl).
  destruct (negb (rp_ok r)); [done|]. cbv zeta. destruct (negb (js_truthy _)); [done|]. apply wp_bind, wp_of_res. destruct (members_of _) as [o|]; [|done].
  apply wp_bind. destruct (no_text _).
  - apply (wp_call (I := MsgI)); [done|]. intros [now|e] _; [|done]. apply wp_bind, storeSent_keeps. intros s2 m _. by apply posted_cons.
  - apply wp_ret. apply wp_bind, storeSent_keeps. intros s2 m _. done.
Qed.

(** ** Receiving *)

(** A raw message that carries a posted package reaches a reader who may read it: a recipient, or the sender on
    a device that has stored the text or nothing of it; the sender's wallet is found among the participants;
    and the message is neither a reaction nor one that expires. *)
Record arrives (pkg sig t : units) (w : MWallet) (recipients : list units) (s : mstate) (reader : MWallet) (ps : list MWallet)
    (raw : RawMessage) (p : MWallet) : Prop := {
  ar_package : rm_encryptedContent raw = pkg /\ rm_signature raw = sig;
  ar_sender : List.find (named (rm_senderWalletId raw)) ps = Some p /\ mw_signingPublicKey p = mw_signingPublicKey w;
  ar_keys : key_pair (mw_encryptionPublicKey reader) (mw_encryptionPrivateKey reader);
  ar_reader : if isOwnMessage reader (rm_senderWalletId raw)
              then mw_signingPublicKey reader = mw_signingPublicKey w /\ mw_encryptionPublicKey reader = mw_encryptionPublicKey w
                   /\ (getSentMessage (rm_id raw) s = None \/ getSentMessage (rm_id raw) s = Some t)
              else mw_encryptionPublicKey reader ∈ recipients_of recipients;
  ar_shown : reaction_of (message_of reader (isOwnMessage reader (rm_senderWalletId raw)) (Some p) raw (t, true)) = None;
  ar_stays : js_truthy (rm_selfDestruct raw) = false \/ rm_readAt raw = [];
}.

(** The node serves a list of messages, and the reader's device answers. *)
Definition serves (l : list js) : history MsgI -> forall c, res (ans MsgI c) -> Prop := fun _ c =>
  match c with
  | PostSigned path _ => fun r => path = LIST_MESSAGES -> exists a, r = Ok a /\ rp_ok a = true /\ opt_prop "messages" (json_or_null a) = JArr l
  | RandomOf _ => fun r => exists b, r = Ok b
  | NowMs => fun r => exists n, r = Ok n
  | SigningChain => fun r => exists c, r = Ok c
  | _ => fun _ => True
  end.

Lemma fallback_opens {A} asm (w : MWallet) (open : units -> units -> res A) a s h :
  open (mw_encryptionPrivateKey w) (mw_encryptionPublicKey w) = Ok a ->
  wp (I := MsgI) (fun _ _ => True) asm (withMessagingKeyFallback w open) s h (fun o s' _ => o = Ok a /\ s' = s).
Proof. intros E. unfold withMessagingKeyFallback. by rewrite E. Qed.

Lemma open_exact asm pkg sig t w rs s reader ps raw p h : readable pkg sig w (recipients_of rs) t -> mw_signingPublicKey w <> [] ->
  arrives pkg sig t w rs s reader ps raw p ->
  wp (I := MsgI) (fun _ _ => True) asm (open_message reader (isOwnMessage reader (rm_senderWalletId raw)) (Some (mw_signingPublicKey p)) raw) s h
    (fun o s' _ => o = Ok (t, true) /\ s' = s).
Proof.
  intros Hrd Hw [[Ep Es] [_ Esp] Hk Hr _ _]. unfold open_message. apply wp_bind, (wp_get (I := MsgI)). cbv zeta.
  set (own := isOwnMessage _ _) in *.
  assert (reads pkg sig (mw_signingPublicKey w) own (mw_encryptionPrivateKey reader) (mw_encryptionPublicKey reader) t) as Hreads.
  { destruct own; [destruct Hr as (_ & Ee & _); rewrite Ee in *; by apply Hrd|by apply Hrd]. }
  assert (no_text pkg = false) as En by (apply bool_decide_eq_false; apply Hrd).
  assert ((if own then mw_signingPublicKey reader else mw_signingPublicKey p) = mw_signingPublicKey w) as Ek.
  { destruct own; [by destruct Hr as (? & _)|done]. }
  assert (no_text (mw_signingPublicKey w) = false) as Enw by (by apply bool_decide_eq_false).
  destruct (if own then getSentMessage (rm_id raw) s else None) as [t'|] eqn:Esent.
  { destruct own; [|done]. destruct Hr as (_ & _ & [Hn|Hn]); rewrite Hn in Esent; [done|]. by injection Esent as <-. }
  rewrite Ep, Es, En. cbn [negb andb default id]. unfold reads in Hreads. destruct (isV2Package pkg).
  { destruct Hreads as [Ho Hv]. apply wp_bind, wp_attempt. eapply wp_mono; [|by apply fallback_opens]. cbn beta. intros o s' h' [-> ->].
    split; [|done]. rewrite Ek, Enw, Hv. done. }
  destruct own.
  - rewrite Ek. apply wp_bind, wp_attempt. eapply wp_mono; [|by apply fallback_opens]. cbn beta. by intros o s' h' [-> ->].
  - rewrite Ek. apply wp_bind, wp_attempt. eapply wp_mono; [|by apply fallback_opens]. cbn beta. intros o s' h' [-> ->].
    by rewrite Enw.
Qed.

Lemma receive_exact asm pkg sig t w rs s reader ps v raw p d h : readable pkg sig w (recipients_of rs) t -> mw_signingPublicKey w <> [] ->
  arrives pkg sig t w rs s reader ps raw p -> normalized v = Ok raw ->
  wp (I := MsgI) (fun _ _ => True) asm (receive_one apiBase reader ps d v) s h (fun o s' _ => s' = s
    /\ exists un, o = Ok (message_of reader (isOwnMessage reader (rm_senderWalletId raw)) (Some p) raw (t, true), un, d)).
Proof.
  intros Hrd Hw Ha En. unfold receive_one. apply wp_bind, wp_of_res. rewrite En. apply wp_bind. unfold find_sender.
  rewrite (proj1 (ar_sender _ _ _ _ _ _ _ _ _ _ Ha)). apply wp_ret. cbn [fst snd fmap option_fmap option_map]. cbv zeta.
  apply wp_bind. eapply wp_mono; [|by eapply open_exact]. cbn beta. intros o s' h' [-> ->]. split; [done|]. by eexists.
Qed.

(** A message that is surely received is in the list. *)
Lemma receive_all_has asm reader ps v m vs : forall d s h, v ∈ vs -> Forall (fun v => exists raw, normalized v = Ok raw) vs ->
  (forall d h, wp (I := MsgI) (fun _ _ => True) asm (receive_one apiBase reader ps d v) s h (fun o s' _ => s' = s /\ exists un, o = Ok (m, un, d))) ->
  wp (I := MsgI) (fun _ _ => True) asm (receive_all apiBase reader ps d vs) s h (fun o s' _ => s' = s /\ exists ms un, o = Ok (ms, un) /\ m ∈ ms).
Proof.
  induction vs as [|x vs IH]; intros d s h Hv Hall Hone; [by apply elem_of_nil in Hv|]. apply Forall_cons in Hall as [Hx Hall].
  cbn [receive_all]. apply wp_bind. apply elem_of_cons in Hv as [<-|Hv].
  - eapply wp_mono; [|apply Hone]. cbn beta. intros o s' h' [-> [un ->]]. apply wp_bind. eapply wp_mono; [|apply receive_all_spec]. cbn beta.
    intros o s' h'' (-> & Ht & _). destruct (Ht Hall) as [[ms un'] ->]. split; [done|]. exists (m :: ms), (un ++ un'). split; [done|left].
  - eapply wp_mono; [|apply receive_one_spec]. cbn beta. intros o s' h' (-> & Ht & _). destruct (Ht Hx) as [[[m' un] d'] ->].
    apply wp_bind. eapply wp_mono; [|by apply (IH d' s h' Hv Hall Hone)]. cbn beta. intros o s' h'' (-> & ms & un' & -> & Hm). split; [done|].
    exists (m' :: ms), (un ++ un'). split; [done|by right].
Qed.

Lemma not_reaction_shown (ms : list Message) m : m ∈ ms -> reaction_of m = None -> exists m', m' ∈ applyEnvelopes ms /\ unwraps m m'.
Proof.
  intros Hm Hr. destruct (shown_as m) as [y|] eqn:Ey.
  2: { unfold shown_as, reaction_of in *. destruct (left_alone m); [done|]. by destruct (parseEnvelope _). }
  exists (with_reactions ms y). split.
  - rewrite apply_displayed. unfold displayed. apply list_elem_of_fmap. exists y. split; [done|]. apply list_elem_of_omap. by exists m.
  - apply unwraps_reactions. by apply unwraps_shown.
Qed.

(** A signed request is built when the device answers. *)
Definition device_ok (asm : history MsgI -> forall c, res (ans MsgI c) -> Prop) : Prop := forall h,
  (forall n r, asm h (RandomOf n) r -> exists b, r = Ok b) /\ (forall r, asm h NowMs r -> exists n, r = Ok n)
  /\ (forall r, asm h SigningChain r -> exists c, r = Ok c).

Lemma request_ok asm o reader s h (Q : res SignedTx -> mstate -> history MsgI -> Prop) : device_ok asm ->
  (forall m, exists sig, ml_dsa65_sign m (hexToBytes (mw_signingPrivateKey reader)) = Ok sig) ->
  (forall f t n, prop "chainId" (with_prop "nonce" n (with_prop "timestamp" t (with_prop "from" f o))) = JUndef) -> (forall b h', Q (Ok b) s h') ->
  wp (I := MsgI) (fun _ _ => True) asm (buildSignedRequest o (mw_signingPrivateKey reader) (mw_signingPublicKey reader)) s h Q.
Proof.
  intros Hd Hsign Ho HQ. unfold buildSignedRequest. apply wp_bind, (wp_call (I := MsgI)); [done|]. intros r [n ->]%Hd.
  apply wp_bind, (wp_call (I := MsgI)); [done|]. intros r [now ->]%Hd. cbv zeta. apply wp_bind, (wp_call (I := MsgI)); [done|]. intros r [c ->]%Hd.
  apply wp_bind, wp_of_res. unfold coreWithChainId. rewrite Ho. cbv iota.
  match goal with |- context [ml_dsa65_sign ?m _] => destruct (Hsign m) as [sg ->] end. apply wp_bind, wp_of_res. apply HQ.
Qed.

Lemma serves_device l : device_ok (serves l).
Proof. by intros h. Qed.

Lemma getMessages_has pkg sig t w rs s reader ps l v raw p conv : apiBase = true -> readable pkg sig w (recipients_of rs) t -> mw_signingPublicKey w <> [] ->
  arrives pkg sig t w rs s reader ps raw p -> normalized v = Ok raw -> v ∈ l -> Forall (fun v => exists raw, normalized v = Ok raw) l ->
  (forall m, exists sg, ml_dsa65_sign m (hexToBytes (mw_signingPrivateKey reader)) = Ok sg) ->
  wp (I := MsgI) (fun _ _ => True) (serves l) (getMessages apiBase conv reader ps) s [] (fun o _ _ => exists msgs unread m, o = Ok (msgs, unread) /\ m ∈ msgs
    /\ unwraps (message_of reader (isOwnMessage reader (rm_senderWalletId raw)) (Some p) raw (t, true)) m).
Proof.
  intros Hapi Hrd Hw Ha En Hv Hl Hsign. unfold getMessages. rewrite Hapi at 1. cbn [negb]. cbv iota.
  apply wp_bind, request_ok; [apply serves_device|done..|]. intros b h. apply wp_bind, (wp_call (I := MsgI)); [done|]. intros r Hr.
  destruct (Hr eq_refl) as (a & -> & Hok & Hlist). rewrite Hok, Hlist. cbn [negb]. cbv iota zeta. apply wp_bind.
  eapply wp_mono; [|eapply receive_all_has; [exact Hv|exact Hl|]; intros d h'; by eapply receive_exact].
  cbn beta. intros o s' h' (-> & ms & un & -> & Hm). apply wp_bind, (wp_call (I := MsgI)); [done|]. intros r' [now ->].
  cbn [fst snd]. destruct (not_reaction_shown ms _ Hm (ar_shown _ _ _ _ _ _ _ _ _ _ Ha)) as (m' & Hm' & Hu).
  eexists _, _, m'. split; [reflexivity|]. split; [|done]. apply list_elem_of_In, filter_In. split; [by apply list_elem_of_In|].
  unfold still_shown. destruct Hu as (_ & _ & _ & -> & _). cbn [em_rest message_of mr_selfDestruct mr_readAt].
  by destruct (ar_stays _ _ _ _ _ _ _ _ _ _ Ha) as [->| ->]; [|rewrite orb_true_r].
Qed.

End Delivery.
