(* ===== verification/MessengerDemo.v ===== *)
(** * The messenger on concrete inputs

    A KEM, a cipher and signatures that keep the laws, three wallets, a node; and what the theorems say of them. *)
From S2P Require Import ExtVault VaultClaims Prelude JsText JsNum JsUtf16 JsFloat LosslessJson JsValue Interact EvmCalldata Finality Address MessageSigning MessageClaims CanonicalJson JsJson Envelope EnvelopeClaims ChainBinding TxSigner TxSignerClaims WalletKeys MessengerCrypto MessageOpens Messenger Messages MessengerClaims ReceiveClaims Delivery.
Local Open Scope Z_scope.

Module MessengerDemo.

#[export] Instance DemoCrypto : Crypto := {| sha256 := fun b => b; ml_dsa65_verify := fun sig _ _ => Ok (bool_decide (sig = [7])) |}.
#[export] Instance DemoPlatform : Platform := {| date_parse := fun _ => num_of_Z 0; url_host := Ok; ml_dsa65_sign := fun _ _ => Ok [7] |}.
#[export] Instance DemoMessages : MessageCrypto := {|
  kem_decapsulate := fun ct _ => Ok ct; hkdf := fun ss _ => ss; gcm_encrypt := fun _ _ d => 9 :: d;
  gcm_decrypt := fun _ _ d => match d with 9 :: r => Ok r | _ => Err "OperationError" end; text_decode := fun b => b |}.
#[export] Instance DemoUnicode : Unicode.
Proof. by refine {| toLower := map lower_unit; toUpper := map upper_unit |}. Defined.
#[export] Instance DemoLaws : MessageLaws.
Proof.
  refine {| kem_pair := fun _ _ => True |}; [done|]. intros k iv d Hd. split; [|done]. constructor; [unfold byte; lia|done].
Defined.

Definition wallet (name : string) (sign enc : units) : MWallet :=
  {| mw_id := u name; mw_displayName := u name; mw_signingPublicKey := sign; mw_encryptionPublicKey := enc;
     mw_signingPrivateKey := toHex (repeat 5 4032); mw_encryptionPrivateKey := u "ee"; mw_avatarUrl := None |}.
Definition ann : MWallet := wallet "ann" (u "a1") (u "a2").
Definition bob : MWallet := wallet "bob" (u "b1") (u "b2").
Definition eve : MWallet := wallet "eve" (u "c1") (u "c2").
Definition fresh : mstate := {| ms_sent := None; ms_privacy := None; ms_tofu := None; ms_wallet := None |}.

Definition reply_of (v : js) : reply := {| rp_ok := true; rp_status := 200; rp_text := Ok []; rp_json := Ok v |}.

(** A node that stores what is sent and serves a list of messages. *)
Definition node (l : list js) : env MsgI := fun _ c =>
  match c return res (ms_ans c) with
  | RandomOf n => Ok (repeat 3 n)
  | Encapsulate _ => Ok ([4], [4])
  | NowMs => Ok (num_of_Z 0)
  | NowIso => Ok (u "1970-01-01T00:00:00.000Z")
  | RandomId => Ok (u "id")
  | DsaKeys => Ok {| kp_public := u "d1"; kp_private := u "d2" |}
  | DemoBot => Ok None
  | SigningChain => Ok (u "rougechain-devnet-1")
  | PostSigned path _ => Ok (reply_of (JObj [jfield "message" (JObj [jfield "id" (JStr (u "m1"))]); jfield "messages" (JArr l)]))
  | FetchGet _ | FetchQuery _ _ => Ok (reply_of (JObj []))
  | LegacyKey _ => Ok None
  | UnlockedWallet => Ok None
  | AvatarFor _ => Ok None
  end.

Lemma node_kem l : respects kem_ok (node l).
Proof.
  intros h []; try done; cbn [kem_ok node].
  - exists (repeat 3 n). split; [done|]. split; [apply repeat_length|]. apply Forall_forall. intros x Hx%list_elem_of_In%repeat_spec. subst. done.
  - exists [4], [4]. split_and!; [done|repeat constructor; done|done|done].
Qed.

Lemma node_serves l : respects (serves l) (node l).
Proof. intros h []; try done; cbn [serves node]; [by eexists..|]. intros _. by eexists. Qed.

Lemma ann_keys : sender_keys ann.
Proof.
  assert (Forall byte (repeat 5 4032)) as Hb. { apply Forall_forall. intros x Hx%list_elem_of_In%repeat_spec. subst. done. }
  split; cbn [ann wallet mw_signingPrivateKey mw_signingPublicKey mw_encryptionPublicKey].
  - intros m. exists [7]. split_and!; [done|repeat constructor; done|done|done].
  - rewrite hexToBytes_toHex by exact Hb. apply repeat_length.
  - split; [by apply toHex_prefix|done].
  - done.
Qed.

Definition hello : units := u "hello".
Definition raw_message (pkg sig : units) : js :=
  JObj [jfield "id" (JStr (u "m1")); jfield "sender_wallet_id" (JStr (u "ann")); jfield "encrypted_content" (JStr pkg); jfield "signature" (JStr sig)].
Definition raw_of (pkg sig : units) : RawMessage :=
  {| rm_id := u "m1"; rm_conversationId := []; rm_senderWalletId := u "ann"; rm_encryptedContent := pkg; rm_signature := sig; rm_selfDestruct := JBool false;
     rm_destructAfterSeconds := JUndef; rm_readAt := []; rm_createdAt := []; rm_isRead := JBool false; rm_messageType := u "text"; rm_spoiler := JBool false |}.

Lemma raw_normal pkg sig : normalized (raw_message pkg sig) = Ok (raw_of pkg sig).
Proof. destruct pkg, sig; reflexivity. Qed.


(** A message from Ann as the node serves it, and what Bob is shown. *)
Definition box : KemBox := {| kb_kemCipherText := u "04"; kb_iv := u "03"; kb_encryptedContent := u "0968690a" |}.
Definition package : units := stringify_object (package_members box None).
Definition shown_message : Message := message_of bob false (Some ann) (raw_of package (u "07")) ([104; 105; 10], true).


Lemma fresh_wf : wf_storage fresh.
Proof. by split. Qed.

Lemma storage_stays_wf_witness : wf_storage (final (node []) (session (U := DemoUnicode) (K := VaultDemo.ToyKem) true [Fingerprints bob; Send (u "c") hello ann [u "b2"] false None (u "text") false]) fresh).
Proof. apply storage_stays_wf. exact fresh_wf. Defined.

(** Bob is seen twice, then with another messaging key, which is reported once. *)
Lemma key_changes_reported_witness : exists xs,
  outcome (node []) (check_all (U := DemoUnicode) [bob; bob; wallet "bob" (u "b1") (u "b3"); wallet "bob" (u "b1") (u "b3")]) fresh = Ok xs
  /\ map tr_changed xs = [false; false; true; false].
Proof.
  destruct (key_changes_reported (U := DemoUnicode) (node []) [bob; bob; wallet "bob" (u "b1") (u "b3"); wallet "bob" (u "b1") (u "b3")] fresh) as (xs & E & H & _).
  { intros h []; try done. by eexists. }
  exists xs. split; [exact E|]. rewrite H. vm_compute. reflexivity.
Defined.

(** ** What the code does besides *)

(** A participant who chose the reader's display name is shown as the reader: with Bob named like Ann, Ann's
    conversation with him lists Ann twice, and his keys are gone. *)
Definition twin : MWallet :=
  {| mw_id := u "bob"; mw_displayName := u "ann"; mw_signingPublicKey := u "b1"; mw_encryptionPublicKey := u "b2";
     mw_signingPrivateKey := []; mw_encryptionPrivateKey := []; mw_avatarUrl := None |}.
Example same_name_is_me : participant (Some ann) (foldl index_wallet [] [twin]) [twin] (u "b1") = ann.
Proof. reflexivity. Qed.

(** A reaction whose signature does not verify is shown like any other, under the name of the sender it claims. *)
Definition unsigned_reaction : Message := message_of bob false (Some ann) (raw_of [] []) (buildRxEnvelope (u "m1") (u "ok"), false).
Example forged_reaction_shown : mr_signatureValid (em_rest unsigned_reaction) = false
  /\ map em_reactionsFrom (applyEnvelopes [shown_message; unsigned_reaction]) = [Some [{| rx_emoji := u "ok"; rx_sender := Some (u "ann") |}]].
Proof. split; vm_compute; reflexivity. Qed.
End MessengerDemo.
