(* ===== verification/Mail.v ===== *)
(** * Encrypted mail ([src/packages/core/src/pqc-mail.ts])

    Names, sending with wrapped keys for every recipient, one signature over all encrypted parts,
    and the folders, over the world and the encryption of the messenger.  The conventions of
    [Messenger] on members of another type than declared hold here too. *)
From S2P Require Import Prelude JsText JsNum JsUtf16 JsFloat LosslessJson JsValue Interact Finality Address MessageSigning MessageClaims CanonicalJson JsJson Envelope ChainBinding TxSigner WalletKeys MessengerCrypto Messenger Messages.
Local Open Scope Z_scope.
Local Open Scope prog_scope.

Definition MAIL_DOMAIN : units := u "rouge.quant".
Definition MAIL_DOMAIN_ALT : units := u "qwalla.mail".
Definition MAIL_DOMAINS : list units := [MAIL_DOMAIN; MAIL_DOMAIN_ALT].

(** ** Texts *)

(** [encodeURIComponent]; a lone surrogate is a [URIError]. *)
Definition uri_plain (b : Z) : bool :=
  is_dec b || letter_unit b || existsb (Z.eqb b) [45; 95; 46; 33; 126; 42; 39; 40; 41].
Definition percent (b : Z) : units := if uri_plain b then [b] else 37 :: map upper_unit (toHex [b]).
Definition encodeURIComponent (s : units) : res units := if isWellFormedString s then Ok (flat_map percent (utf8 s)) else Err "URIError".

(** [s.replace(p, "")] with a text: the first occurrence. *)
Fixpoint remove_first (p s : units) : units :=
  match strip p s with
  | Some r => r
  | None => match s with c :: r => c :: remove_first p r | [] => [] end
  end.
Definition without_domain (name : units) : units := foldl (fun n d => remove_first (64 :: d) n) name MAIL_DOMAINS.

(** ** Data *)

Record MailMessage := {
  ml_id : units; ml_fromWalletId : units; ml_toWalletIds : list units; ml_subjectEncrypted : units; ml_bodyEncrypted : units;
  ml_attachmentEncrypted : units; ml_signature : units; ml_createdAt : units; ml_replyToId : units; ml_hasAttachment : bool;
  ml_attachmentHash : units; ml_subject : option units; ml_body : option units; ml_attachmentData : option js;
  ml_signatureValid : option bool; ml_senderName : option units;
}.
Record MailLabel := { la_messageId : units; la_walletId : units; la_folder : units; la_isRead : js }.
Record MailItem := { it_message : MailMessage; it_label : MailLabel }.
Record MailAttachment := { at_name : units; at_type : units; at_data : units; at_size : number }.

(** A message as the node has it; an empty text is a missing member. *)
Definition normalizeMailMessage (o : object) : MailMessage :=
  {| ml_id := first_text ["id"] o; ml_fromWalletId := first_text ["from_wallet_id"; "fromWalletId"] o;
     ml_toWalletIds := text_list (first_truthy ["to_wallet_ids"; "toWalletIds"] o (JArr []));
     ml_subjectEncrypted := first_text ["subject_encrypted"; "subjectEncrypted"] o; ml_bodyEncrypted := first_text ["body_encrypted"; "bodyEncrypted"] o;
     ml_attachmentEncrypted := first_text ["attachment_encrypted"; "attachmentEncrypted"] o; ml_signature := first_text ["signature"] o;
     ml_createdAt := first_text ["created_at"; "createdAt"] o; ml_replyToId := first_text ["reply_to_id"; "replyToId"] o;
     ml_hasAttachment := js_truthy (first_truthy ["has_attachment"; "hasAttachment"] o (JBool false));
     ml_attachmentHash := first_text ["attachment_hash"; "attachmentHash"] o; ml_subject := None; ml_body := None; ml_attachmentData := None;
     ml_signatureValid := None; ml_senderName := None |}.
Definition normalizeMailLabel (o : object) : MailLabel :=
  {| la_messageId := first_text ["message_id"; "messageId"] o; la_walletId := first_text ["wallet_id"; "walletId"] o;
     la_folder := and_text (first_text ["folder"] o) (u "inbox"); la_isRead := first_given ["is_read"; "isRead"] o (JBool false) |}.
Definition normalizeWallet (o : object) : MWallet :=
  {| mw_id := first_text ["id"] o; mw_displayName := and_text (first_text ["display_name"; "displayName"] o) (u "Unknown");
     mw_signingPublicKey := first_text ["signing_public_key"; "signingPublicKey"] o;
     mw_encryptionPublicKey := first_text ["encryption_public_key"; "encryptionPublicKey"] o; mw_signingPrivateKey := []; mw_encryptionPrivateKey := [];
     mw_avatarUrl := None |}.

(** [{ ...msg, subject, body, attachmentData, signatureValid, senderName }]. *)
Definition opened_mail (m : MailMessage) (subject body : units) (attachment : option js) (valid : option bool) (senderName : units) : MailMessage :=
  {| ml_id := ml_id m; ml_fromWalletId := ml_fromWalletId m; ml_toWalletIds := ml_toWalletIds m; ml_subjectEncrypted := ml_subjectEncrypted m;
     ml_bodyEncrypted := ml_bodyEncrypted m; ml_attachmentEncrypted := ml_attachmentEncrypted m; ml_signature := ml_signature m;
     ml_createdAt := ml_createdAt m; ml_replyToId := ml_replyToId m; ml_hasAttachment := ml_hasAttachment m; ml_attachmentHash := ml_attachmentHash m;
     ml_subject := Some subject; ml_body := Some body; ml_attachmentData := attachment; ml_signatureValid := valid; ml_senderName := Some senderName |}.

Definition attachment_members (a : MailAttachment) : object :=
  [jfield "name" (JStr (at_name a)); jfield "type" (JStr (at_type a)); jfield "data" (JStr (at_data a)); jfield "size" (JNum (at_size a))].

(** What the signature of a mail covers. *)
Definition sign_payload (subject body attachment : units) : units :=
  subject ++ 124 :: body ++ (if no_text attachment then [] else 124 :: attachment).

Section Mail.
Context `{C : Crypto} `{P : Platform} `{M : MessageCrypto} `{U : Unicode}.
Variable apiBase : bool.
Notation getWallets := (getWallets apiBase).

(** ** Names *)

Definition signed_post (path : units) (payload : object) (w : MWallet) : prog MsgI reply :=
  let! signed := buildSignedRequest payload (mw_signingPrivateKey w) (mw_signingPublicKey w) in
  mask (PostSigned path signed).
Definition configured : prog MsgI unit := if apiBase then Ret tt else Throw "Node not configured".

Definition registerName (w : MWallet) (name walletId : units) : prog MsgI js :=
  do! configured in
  let! res := signed_post (u "/v2/names/register") [jfield "name" (JStr name); jfield "walletId" (JStr walletId)] w in
  of_res (rp_json res).

Definition releaseName (w : MWallet) (name : units) : prog MsgI js :=
  do! configured in
  let! res := signed_post (u "/v2/names/release") [jfield "name" (JStr name)] w in
  of_res (rp_json res).

(** The registry's entry and the wallet it names. *)
Definition resolveName (name : units) : prog MsgI (option (js * option MWallet)) :=
  if negb apiBase then Ret None else
  let! path := of_res (encodeURIComponent (toLower (without_domain name))) in
  let! res := mask (FetchGet (u "/names/resolve/" ++ path)) in
  let! data := of_res (rp_json res) in
  let! o := of_res (members_of data) in
  if negb (js_truthy (prop "success" o)) then Ret None else
  if js_truthy (prop "wallet" o) then
    let! wo := of_res (members_of (prop "wallet" o)) in Ret (Some (prop "entry" o, Some (normalizeWallet wo)))
  else Ret (Some (prop "entry" o, None)).

Definition reverseLookup (walletId : units) : prog MsgI units :=
  if negb apiBase then Ret [] else
  let! r := attempt (
    let! path := of_res (encodeURIComponent walletId) in
    let! res := mask (FetchGet (u "/names/reverse/" ++ path)) in
    let! data := of_res (rp_json res) in
    let! o := of_res (members_of data) in
    Ret (first_text ["name"] o)) in
  Ret (match r with Ok n => n | Err _ => [] end).

(** [result?.wallet?.id || result?.entry?.wallet_id || null]. *)
Definition resolved_id (r : option (js * option MWallet)) : units :=
  match r with
  | None => []
  | Some (entry, w) => and_text (match w with Some w => mw_id w | None => [] end)
                                (match entry with JObj o => first_text ["wallet_id"] o | _ => [] end)
  end.

Definition resolveRecipient (input : units) : prog MsgI units :=
  let trimmed := utrim input in
  if existsb (fun d => contains (64 :: d) trimmed) MAIL_DOMAINS then
    let! r := resolveName (toLower (without_domain trimmed)) in Ret (resolved_id r)
  else if (20 <? length trimmed)%nat then Ret trimmed else
    let! r := resolveName trimmed in Ret (resolved_id r).

(** ** Encryption *)

Definition encryptForMultipleRecipients (plaintext : units) (recipientEncPubKeys : list units) (senderEncPubKey : units) : prog MsgI units :=
  encrypt_wrapped hexToBytes plaintext recipientEncPubKeys senderEncPubKey.

Definition decryptMailContent (encryptedPackage recipientEncPrivKey recipientEncPubKey : units) : res units :=
  res_bind (JSON_parse encryptedPackage) (fun v => res_bind (members_of v) (fun parsed =>
  if is_two (prop "version" parsed) && js_truthy (prop "wrappedKeys" parsed) then open_wrapped hexToBytes parsed recipientEncPrivKey recipientEncPubKey
  else Err "Unsupported encryption format")).

(** ** Sending *)

Definition has_key (w : option MWallet) : bool := match w with Some w => negb (no_text (mw_encryptionPublicKey w)) | None => false end.

(** [try { ... } catch {}] around a lookup that may give a wallet with a key. *)
Definition or_else (w : option MWallet) (look : prog MsgI (option MWallet)) : prog MsgI (option MWallet) :=
  if has_key w then Ret w else
  let! r := attempt look in
  Ret (match r with Ok (Some x) => if has_key (Some x) then Some x else w | _ => w end).

Definition wallet_of_name (name : units) : prog MsgI (option MWallet) :=
  let! r := resolveName name in Ret (match r with Some (_, w) => w | None => None end).

(** The messaging key of one recipient: directory, name registry, or the registry by the wallet's name. *)
Definition recipient_key (allWallets : list MWallet) (toId : units) : prog MsgI units :=
  let! w1 := or_else (List.find (named toId) allWallets) (wallet_of_name toId) in
  let! w2 := or_else w1 (let! name := reverseLookup toId in if no_text name then Ret None else wallet_of_name name) in
  match w2 with
  | Some w => if no_text (mw_encryptionPublicKey w) then Throw "Recipient encryption key not found" else Ret (mw_encryptionPublicKey w)
  | None => Throw "Recipient encryption key not found"
  end.

Fixpoint recipient_keys (allWallets : list MWallet) (toWalletIds : list units) : prog MsgI (list units) :=
  match toWalletIds with
  | [] => Ret []
  | t :: r => let! k := recipient_key allWallets t in let! ks := recipient_keys allWallets r in Ret (k :: ks)
  end.

Definition MAIL_SEND : units := u "/v2/mail/send".

Definition mail_payload (w : MWallet) (toWalletIds : list units) (subjectEncrypted bodyEncrypted attachmentEncrypted signature : units)
    (replyToId : option units) (hasAttachment : bool) : object :=
  [jfield "fromWalletId" (JStr (mw_id w)); jfield "toWalletIds" (texts toWalletIds); jfield "subjectEncrypted" (JStr subjectEncrypted);
   jfield "bodyEncrypted" (JStr bodyEncrypted); jfield "attachmentEncrypted" (if hasAttachment then JStr attachmentEncrypted else JUndef);
   jfield "contentSignature" (JStr signature); jfield "replyToId" (match replyToId with Some r => JStr r | None => JUndef end);
   jfield "hasAttachment" (JBool hasAttachment)].

(** The parts, encrypted for the recipients, and the signature over them. *)
Definition encrypt_mail (w : MWallet) (keys : list units) (subject body : units) (attachment : option MailAttachment)
  : prog MsgI (units * units * units * units) :=
  let! subjectEncrypted := encryptForMultipleRecipients subject keys (mw_encryptionPublicKey w) in
  let! bodyEncrypted := encryptForMultipleRecipients body keys (mw_encryptionPublicKey w) in
  let! attachmentEncrypted := match attachment with
    | Some a => encryptForMultipleRecipients (stringify_object (attachment_members a)) keys (mw_encryptionPublicKey w)
    | None => Ret []
    end in
  let! sig := of_res (ml_dsa65_sign (utf8 (sign_payload subjectEncrypted bodyEncrypted attachmentEncrypted)) (hexToBytes (mw_signingPrivateKey w))) in
  Ret (subjectEncrypted, bodyEncrypted, attachmentEncrypted, bytesToHex sig).

Definition post_mail (w : MWallet) (toWalletIds : list units) (subject body : units) (replyToId : option units) (attachment : option MailAttachment)
  : prog MsgI reply :=
  let! allWallets := getWallets in
  let! keys := recipient_keys allWallets toWalletIds in
  let! parts := encrypt_mail w keys subject body attachment in
  let '(s, b, a, sig) := parts in
  signed_post MAIL_SEND (mail_payload w toWalletIds s b a sig replyToId (match attachment with Some _ => true | None => false end)) w.

Definition sendMail (w : MWallet) (toWalletIds : list units) (subject body : units) (replyToId : option units) (attachment : option MailAttachment)
  : prog MsgI MailMessage :=
  do! configured in
  let! res := post_mail w toWalletIds subject body replyToId attachment in
  if negb (rp_ok res) then Throw "Send failed" else
  let! data := of_res (rp_json res) in
  let! o := of_res (members_of data) in
  let! m := of_res (members_of (if js_truthy (prop "message" o) then prop "message" o else data)) in
  Ret (opened_mail (normalizeMailMessage m) subject body (JObj ∘ attachment_members <$> attachment) (Some true) (mw_displayName w)).

(** ** Folders *)

Definition getSenderDisplayName (walletId : units) (allWallets : list MWallet) : prog MsgI units :=
  let! name := reverseLookup walletId in
  if negb (no_text name) then Ret (name ++ 64 :: MAIL_DOMAIN) else
  Ret (and_text (match List.find (named walletId) allWallets with Some w => mw_displayName w | None => [] end) (take 12 walletId ++ u "...")).

(** [try { x = await open() } catch {}]. *)
Definition open_part (w : MWallet) (encrypted : units) : prog MsgI units :=
  let! r := attempt (withMessagingKeyFallback w (fun priv pub => decryptMailContent encrypted priv pub)) in
  Ret (match r with Ok t => t | Err _ => UNABLE end).

Definition open_attachment (w : MWallet) (m : MailMessage) : prog MsgI (option js) :=
  if ml_hasAttachment m && negb (no_text (ml_attachmentEncrypted m)) then
    let! r := attempt (withMessagingKeyFallback w (fun priv pub => decryptMailContent (ml_attachmentEncrypted m) priv pub)) in
    Ret (match r with Ok t => match JSON_parse t with Ok v => Some v | Err _ => None end | Err _ => None end)
  else Ret None.

(** [null] when there is nothing to check. *)
Definition mail_signature (m : MailMessage) (senderSigningKey : units) : option bool :=
  if no_text (ml_signature m) || no_text senderSigningKey then None else
  Some (match ml_dsa65_verify (hexToBytes (ml_signature m)) (utf8 (sign_payload (ml_subjectEncrypted m) (ml_bodyEncrypted m) (ml_attachmentEncrypted m)))
                (hexToBytes senderSigningKey) with Ok b => b | Err _ => false end).

(** The key a mail is checked against. *)
Definition sender_key (w : MWallet) (allWallets : list MWallet) (fromWalletId : units) : units :=
  and_text (match List.find (named fromWalletId) allWallets with Some x => mw_signingPublicKey x | None => [] end) (mw_signingPublicKey w).

(** The message and the label of an entry. *)
Definition mail_of (raw : js) : res (MailMessage * MailLabel) :=
  res_bind (members_of raw) (fun o =>
  res_bind (members_of (if js_truthy (prop "message" o) then prop "message" o else raw)) (fun mo =>
  res_bind (members_of (if js_truthy (prop "label" o) then prop "label" o else JObj [])) (fun lo =>
  Ok (normalizeMailMessage mo, normalizeMailLabel lo)))).

Definition open_mail (w : MWallet) (allWallets : list MWallet) (raw : js) : prog MsgI MailItem :=
  let! ml := of_res (mail_of raw) in
  let '(msg, label) := ml in
  let! subject := open_part w (ml_subjectEncrypted msg) in
  let! body := open_part w (ml_bodyEncrypted msg) in
  let! attachment := open_attachment w msg in
  let! senderName := getSenderDisplayName (ml_fromWalletId msg) allWallets in
  Ret {| it_message := opened_mail msg subject body attachment (mail_signature msg (sender_key w allWallets (ml_fromWalletId msg))) senderName;
         it_label := label |}.

Fixpoint open_mails (w : MWallet) (allWallets : list MWallet) (raw : list js) : prog MsgI (list MailItem) :=
  match raw with
  | [] => Ret []
  | x :: r => let! i := open_mail w allWallets x in let! rest := open_mails w allWallets r in Ret (i :: rest)
  end.

Definition MAIL_FOLDER : units := u "/v2/mail/folder".

Definition load_folder (w : MWallet) (folder : units) : prog MsgI (list MailItem) :=
  let! res := signed_post MAIL_FOLDER [jfield "folder" (JStr folder)] w in
  if negb (rp_ok res) then Ret [] else
  let! data := of_res (rp_json res) in
  let! o := of_res (members_of data) in
  let! allWallets := getWallets in
  let! raw := of_res (as_list (prop "messages" o)) in
  open_mails w allWallets raw.

Definition getFolder (w : MWallet) (folder : units) : prog MsgI (list MailItem) :=
  if negb apiBase then Ret [] else
  let! r := attempt (load_folder w folder) in
  Ret (match r with Ok l => l | Err _ => [] end).

Definition getInbox (w : MWallet) : prog MsgI (list MailItem) := getFolder w (u "inbox").
Definition getSent (w : MWallet) : prog MsgI (list MailItem) := getFolder w (u "sent").
Definition getTrash (w : MWallet) : prog MsgI (list MailItem) := getFolder w (u "trash").

Definition moveMail (w : MWallet) (messageId folder : units) : prog MsgI unit :=
  do! configured in
  let! res := signed_post (u "/v2/mail/move") [jfield "messageId" (JStr messageId); jfield "folder" (JStr folder)] w in
  if rp_ok res then Ret tt else Throw "Move failed".
Definition markMailRead (w : MWallet) (messageId : units) : prog MsgI unit :=
  do! configured in
  do! signed_post (u "/v2/mail/read") [jfield "messageId" (JStr messageId)] w in Ret tt.
Definition deleteMail (w : MWallet) (messageId : units) : prog MsgI unit :=
  do! configured in
  let! res := signed_post (u "/v2/mail/delete") [jfield "messageId" (JStr messageId)] w in
  if rp_ok res then Ret tt else Throw "Delete failed".
End Mail.
