(* ===== verification/MailClaims.v ===== *)
(** * Mail: what is shown as signed was signed, and what is sent arrives

    [getFolder] against every node, directory and key store; [sendMail] and [getFolder] together;
    and runs with the wallets and the cryptography of [MessengerDemo]. *)
From S2P Require Import Prelude JsText JsNum JsUtf16 JsFloat LosslessJson JsValue Interact EvmCalldata Finality Address MessageSigning MessageClaims CanonicalJson JsJson Envelope ChainBinding TxSigner TxSignerClaims WalletKeys MessengerCrypto MessageOpens Messenger Messages MessengerClaims ReceiveClaims Delivery MessengerDemo Mail.
Local Open Scope Z_scope.

Section Reading.
Context `{C : Crypto} `{P : Platform} `{M : MessageCrypto}.
Variable apiBase : bool.
Variable asm : history MsgI -> forall c, res (ans MsgI c) -> Prop.
Notation awp := (wp (I := MsgI) (fun _ _ => True) asm).

(** ** Steps that cannot fail *)

Lemma reverse_pure id s h : awp (reverseLookup apiBase id) s h (fun o s' _ => s' = s /\ exists n, o = Ok n).
Proof.
  unfold reverseLookup. destruct (negb apiBase); [split; [done|by eexists]|]. apply wp_bind, wp_attempt, wp_bind, wp_of_res.
  destruct (encodeURIComponent id); [|split; [done|by eexists]]. apply wp_bind, (wp_call (I := MsgI)); [done|]. intros [r|e] _; [|split; [done|by eexists]].
  apply wp_bind, wp_of_res. destruct (rp_json r); [|split; [done|by eexists]]. apply wp_bind, wp_of_res. destruct (members_of _); (split; [done|by eexists]).
Qed.

Lemma display_pure id ws s h : awp (getSenderDisplayName apiBase id ws) s h (fun o s' _ => s' = s /\ exists n, o = Ok n).
Proof.
  unfold getSenderDisplayName. apply wp_bind. eapply wp_mono; [|apply reverse_pure]. cbn beta. intros o s' h' [-> [n ->]].
  destruct (negb (no_text n)); (split; [done|by eexists]).
Qed.

(** What a part is shown as: the placeholder, or what it opens to with a key of the reader. *)
Definition part_shown (h : history MsgI) (w : MWallet) (encrypted shown : units) : Prop :=
  shown = UNABLE \/ exists priv pub, my_key h w priv pub /\ decryptMailContent encrypted priv pub = Ok shown.

Lemma part_grown h h' w enc t : grown h h' -> part_shown h w enc t -> part_shown h' w enc t.
Proof. intros Hg [?|(priv & pub & Hk & ?)]; [by left|right]. exists priv, pub. split; [by eapply my_key_grown|done]. Qed.

Lemma part_spec w enc s h : awp (open_part w enc) s h (fun o s' h' => s' = s /\ exists t, o = Ok t /\ part_shown h' w enc t).
Proof.
  unfold open_part. apply wp_bind, wp_attempt. eapply wp_mono; [|apply fallback_spec]. cbn beta. intros r s' h' [-> Hr]. split; [done|].
  destruct r as [t|e]; eexists; (split; [reflexivity|]); [right; by apply Hr|by left].
Qed.

Definition attachment_shown (h : history MsgI) (w : MWallet) (m : MailMessage) (shown : option js) : Prop :=
  forall v, shown = Some v -> ml_hasAttachment m = true /\ exists priv pub t, my_key h w priv pub /\ decryptMailContent (ml_attachmentEncrypted m) priv pub = Ok t
    /\ JSON_parse t = Ok v.

Lemma attachment_spec w m s h : awp (open_attachment w m) s h (fun o s' h' => s' = s /\ exists a, o = Ok a /\ attachment_shown h' w m a).
Proof.
  unfold open_attachment. destruct (ml_hasAttachment m) eqn:Eh; cbn [andb]; [|split; [done|by eexists]].
  destruct (negb (no_text _)); [|split; [done|by eexists]]. apply wp_bind, wp_attempt. eapply wp_mono; [|apply fallback_spec]. cbn beta.
  intros r s' h' [-> Hr]. split; [done|]. eexists. split; [reflexivity|]. intros v Hv. split; [done|]. destruct r as [t|e]; [|done].
  destruct (Hr t eq_refl) as (priv & pub & Hk & Ho). exists priv, pub, t. split_and!; [done..|]. destruct (JSON_parse t); [by injection Hv as ->|done].
Qed.

(** ** One mail *)

Definition mail_shown (h : history MsgI) (w : MWallet) (ws : list MWallet) (raw : js) (i : MailItem) : Prop :=
  exists m label subject body attachment name, mail_of raw = Ok (m, label)
    /\ i = {| it_message := opened_mail m subject body attachment (mail_signature m (sender_key w ws (ml_fromWalletId m))) name; it_label := label |}
    /\ part_shown h w (ml_subjectEncrypted m) subject /\ part_shown h w (ml_bodyEncrypted m) body /\ attachment_shown h w m attachment.

Lemma mail_shown_grown h h' w ws raw i : grown h h' -> mail_shown h w ws raw i -> mail_shown h' w ws raw i.
Proof.
  intros Hg (m & label & su & bo & at_ & n & ? & ? & H1 & H2 & H3). exists m, label, su, bo, at_, n. split_and!; [done..|by eapply part_grown|by eapply part_grown|].
  intros v Hv. destruct (H3 v Hv) as (? & priv & pub & t & Hk & ?). split; [done|]. exists priv, pub, t. split; [by eapply my_key_grown|done].
Qed.

Lemma open_mail_spec w ws raw s h :
  awp (open_mail apiBase w ws raw) s h (fun o s' h' => s' = s /\ ((exists x, mail_of raw = Ok x) -> exists i, o = Ok i)
    /\ forall i, o = Ok i -> mail_shown h' w ws raw i).
Proof.
  unfold open_mail. apply wp_bind, wp_of_res. destruct (mail_of raw) as [[m label]|e] eqn:Em; [|split_and!; [done|by intros [? ?]|done]].
  apply wp_bind. eapply wp_mono; [|apply part_spec]. cbn beta. intros o s1 h1 (-> & su & -> & H1).
  apply wp_bind. eapply wp_mono; [|apply wp_grown, part_spec]. cbn beta. intros o s2 h2 [(-> & bo & -> & H2) G2].
  apply wp_bind. eapply wp_mono; [|apply wp_grown, attachment_spec]. cbn beta. intros o s3 h3 [(-> & a & -> & H3) G3].
  apply wp_bind. eapply wp_mono; [|apply wp_grown, display_pure]. cbn beta. intros o s4 h4 [(-> & n & ->) G4].
  split_and!; [done|by eexists|]. intros i [= <-]. apply (mail_shown_grown h3); [done|]. exists m, label, su, bo, a, n. split_and!; [done..| | |done].
  - eapply part_grown; [exact G3|]. by eapply part_grown.
  - by eapply part_grown.
Qed.

Lemma open_mails_spec w ws l : forall s h,
  awp (open_mails apiBase w ws l) s h (fun o s' h' => s' = s /\ (Forall (fun raw => exists x, mail_of raw = Ok x) l -> exists its, o = Ok its)
    /\ forall items, o = Ok items -> Forall2 (mail_shown h' w ws) l items).
Proof.
  induction l as [|raw l IH]; intros s h; cbn [open_mails]. { split_and!; [done|by eexists|]. intros items [= <-]. constructor. }
  apply wp_bind. eapply wp_mono; [|apply open_mail_spec]. cbn beta. intros o s1 h1 (-> & T1 & H1). destruct o as [i|e].
  2: { split_and!; [done| |done]. intros [Hr _]%Forall_cons. by destruct (T1 Hr). }
  apply wp_bind. eapply wp_mono; [|apply wp_grown, IH]. cbn beta. intros o s2 h2 [(-> & T2 & H2) G2]. destruct o as [rest|e].
  2: { split_and!; [done| |done]. intros [_ Hr]%Forall_cons. by destruct (T2 Hr). }
  split_and!; [done|by eexists|]. intros items [= <-]. constructor; [|by apply H2]. eapply mail_shown_grown; [exact G2|]. by apply H1.
Qed.

(** ** A folder *)

Lemma wallets_spec s h : apiBase = true -> awp (getWallets apiBase) s h (fun o s' h' => s' = s
  /\ exists r, h' = @Ev MsgI (FetchGet DIRECTORY) r :: h /\ forall l, o = Ok l -> directory_of r = l).
Proof.
  intros ->. unfold getWallets. cbn [negb]. apply wp_bind, (wp_call (I := MsgI)); [done|]. intros [a|e] _; [|split; [done|by eexists]].
  destruct (rp_ok a) eqn:Ea; cbn [negb].
  2: { split; [done|]. eexists. split; [reflexivity|]. intros l [= <-]. cbn. by rewrite Ea. }
  apply wp_bind, wp_of_res. destruct (as_list _) as [raw|e] eqn:Er; [|split; [done|by eexists]].
  apply wp_of_res. split; [done|]. eexists. split; [reflexivity|]. intros l Hl. unfold directory_of. rewrite Ea, Er. cbn [res_bind]. by rewrite Hl.
Qed.

Lemma signed_post_pure path o w s h : awp (signed_post path o w) s h (fun _ s' _ => s' = s).
Proof.
  unfold signed_post. apply wp_bind. eapply wp_mono; [|apply buildSignedRequest_pure]. cbn beta. intros [b|e] s' h' ->; [|done].
  by apply (wp_call (I := MsgI)).
Qed.

(** The items of a folder, with the directory they were checked against. *)
Definition folder_shown (h : history MsgI) (w : MWallet) (items : list MailItem) : Prop :=
  forall i, i ∈ items -> exists r raw, (@Ev MsgI (FetchGet DIRECTORY) r : event MsgI) ∈ h /\ mail_shown h w (directory_of r) raw i.

Lemma load_folder_spec w folder s h : apiBase = true ->
  awp (load_folder apiBase w folder) s h (fun o s' h' => s' = s /\ forall items, o = Ok items -> folder_shown h' w items).
Proof.
  intros Ha. unfold load_folder. apply wp_bind. eapply wp_mono; [|apply signed_post_pure]. cbn beta. intros [r|e] s1 h1 ->; [|by split].
  destruct (negb (rp_ok r)); [split; [done|]; by intros items [= <-] i ?%elem_of_nil|].
  apply wp_bind, wp_of_res. destruct (rp_json r) as [v|]; [|by split]. apply wp_bind, wp_of_res. destruct (members_of v) as [o|]; [|by split].
  apply wp_bind. eapply wp_mono; [|by apply wallets_spec]. cbn beta. intros [ws|e] s2 h2 (-> & d & -> & Hd); [|by split]. specialize (Hd ws eq_refl). subst ws.
  apply wp_bind, wp_of_res. destruct (as_list _) as [l|]; [|by split].
  eapply wp_mono; [|apply wp_grown, open_mails_spec]. cbn beta. intros its s3 h3 [(-> & _ & H) [x ->]]. split; [done|].
  intros items -> i Hi. specialize (H items eq_refl). apply list_elem_of_lookup in Hi as (n & Hn).
  destruct (Forall2_lookup_r _ _ _ _ _ H Hn) as (raw & _ & Hs). exists d, raw. split; [|exact Hs]. apply elem_of_app. right. left.
Qed.
End Reading.

Section Authentic.
Context `{C : Crypto} `{P : Platform} `{M : MessageCrypto}.
Variable apiBase : bool.

(** What a valid signature of a mail says. *)
Definition mail_signed (w : MWallet) (directory : list MWallet) (m : MailMessage) : Prop :=
  exists signer, signer <> []
    /\ ml_dsa65_verify (hexToBytes (ml_signature m)) (utf8 (sign_payload (ml_subjectEncrypted m) (ml_bodyEncrypted m) (ml_attachmentEncrypted m)))
         (hexToBytes signer) = Ok true
    /\ ((exists p, p ∈ directory /\ named (ml_fromWalletId m) p = true /\ signer = mw_signingPublicKey p)
        \/ (signer = mw_signingPublicKey w
            /\ forall p, List.find (named (ml_fromWalletId m)) directory = Some p -> mw_signingPublicKey p = [])).

Lemma mail_signature_spec w ws m : mail_signature m (sender_key w ws (ml_fromWalletId m)) = Some true -> mail_signed w ws m.
Proof.
  unfold mail_signature. destruct (no_text (ml_signature m)); [done|]. cbn [orb].
  destruct (no_text (sender_key w ws (ml_fromWalletId m))) eqn:En; [done|]. apply bool_decide_eq_false in En. intros [= Hv].
  exists (sender_key w ws (ml_fromWalletId m)). split; [done|]. split; [by destruct (ml_dsa65_verify _ _ _) as [[]|]|].
  unfold sender_key, and_text. destruct (List.find _ ws) as [p|] eqn:Ep; [|by right].
  destruct (no_text (mw_signingPublicKey p)) eqn:E; [apply bool_decide_eq_true in E; right; split; [done|]; by intros p' [= <-]|].
  left. exists p. apply find_wallet in Ep as [? ?]. done.
Qed.

End Authentic.

(** ** Texts of answers *)

Lemma prop_wf k o : wf_js (JObj o) -> wf_js (prop k o).
Proof.
  intros [Hn Hf]%wf_js_obj. unfold prop. destruct (oget (u k) o) as [v|] eqn:E; [|done]. cbn [default id]. apply oget_in in E; [|done].
  rewrite Forall_elem in Hf. by apply Hf in E as [_ ?].
Qed.

Lemma first_text_units ks o : wf_js (JObj o) -> Forall is_unit (first_text ks o).
Proof.
  intros Ho. induction ks as [|k ks IH]; cbn [first_text]; [constructor|]. pose proof (prop_wf k o Ho) as Hp.
  destruct (prop k o) as [| | | |[|c t]| |]; try exact IH. exact Hp.
Qed.

Lemma members_wf v o : wf_js v -> members_of v = Ok o -> wf_js (JObj o).
Proof. destruct v; cbn [members_of]; intros Hv [= <-]; try done; apply wf_js_obj; (split; [apply NoDup_nil_2|constructor]). Qed.

Lemma directory_units a l : (forall v, rp_json a = Ok v -> wf_js v) -> directory_of (Ok a) = l -> Forall (fun w => Forall is_unit (mw_encryptionPublicKey w)) l.
Proof.
  intros Hv <-. unfold directory_of. destruct (rp_ok a); [|constructor].
  assert (wf_js (opt_prop "wallets" (json_or_null a))) as Hw.
  { unfold json_or_null. destruct (rp_json a) as [v|]; [|done]. specialize (Hv v eq_refl). destruct v; try done. by apply prop_wf. }
  unfold as_list. destruct (js_truthy _); [|constructor]. destruct (opt_prop "wallets" (json_or_null a)) as [| | | | |raw|]; try constructor.
  apply wf_js_arr in Hw. cbn [res_bind]. induction Hw as [|x raw Hx _ IH]; cbn [map_res]; [constructor|].
  unfold wallet_of at 1. destruct (members_of x) as [o|] eqn:Eo; cbn [res_bind]; [|constructor].
  destruct (map_res wallet_of raw); cbn [res_bind]; [|constructor]. constructor; [|exact IH]. apply (first_text_units ["encryption_public_key"; "encryptionPublicKey"] o). by eapply members_wf.
Qed.

(** Assumptions may be weakened. *)
Lemma wp_asm {I A} ok (asm asm' : history I -> forall c, res (ans I c) -> Prop) (p : prog I A) s h Q :
  (forall h c r, asm' h c r -> asm h c r) -> wp ok asm p s h Q -> wp ok asm' p s h Q.
Proof. intros Ha. revert s h. induction p; simpl; intros; naive_solver. Qed.

Lemma grown_elem (h h' : history MsgI) x : grown h h' -> x ∈ h -> x ∈ h'.
Proof. intros [l ->] Hx. apply elem_of_app. by right. Qed.

Section Delivery.
Context `{C : Crypto} `{P : Platform} `{M : MessageCrypto} `{L : MessageLaws} `{U : Unicode}.
Variable apiBase : bool.
Notation kwp := (wp (I := MsgI) (fun _ _ => True) kem_ok).

(** ** Parts *)

(** A part of a mail that everyone meant to read can read, and no one else finds a key in. *)
Record mail_readable (pkg : units) (keys : list units) (t : units) : Prop := {
  mr_given : pkg <> [];
  mr_reads : forall pub priv, pub ∈ keys -> pub <> [] -> kem_pair (hexToBytes pub) (hexToBytes priv) -> decryptMailContent pkg priv pub = Ok t;
  mr_others : forall pub priv, pub ∉ keys -> decryptMailContent pkg priv pub = Err "No wrapped key for this recipient";
}.

Lemma part_encrypted t keys spub s h : plain_text t -> Forall (Forall is_unit) (keys ++ [spub]) ->
  kwp (encryptForMultipleRecipients t keys spub) s h (fun o s' _ => s' = s /\ exists pkg, o = Ok pkg /\ mail_readable pkg (keys ++ [spub]) t).
Proof.
  intros Ht Hu. unfold encryptForMultipleRecipients. apply encrypt_wrapped_spec. intros cek iv w h' Hiv Hw. split; [done|]. eexists. split; [reflexivity|].
  assert (Forall (Forall is_unit) (distinct [] (keys ++ [spub]))) as Hd.
  { rewrite Forall_elem in Hu |- *. intros k Hk%distinct_only. by apply Hu. }
  destruct (open_group hexToBytes hexToBytes_toHex _ _ _ _ _ Hw Hd Hiv Ht) as (q & qw & E & Hv & Hp & Ho).
  assert (forall priv pub, decryptMailContent (stringify_object (v2_members iv (gcm_encrypt cek iv (utf8 t)) w)) priv pub = open_wrapped hexToBytes q priv pub) as Hdec.
  { intros priv pub. unfold decryptMailContent. rewrite E. cbn [res_bind members_of]. by rewrite Hv, Hp. }
  split; [apply object_text_nonempty| |].
  - intros pub priv Hin Hne Hk. rewrite Hdec. apply Ho; [|done..]. by destruct (distinct_elem _ [] pub Hin) as [?|?%elem_of_nil].
  - intros pub priv Hout. rewrite Hdec. apply Ho. by intros ?%distinct_only.
Qed.

(** The text of an attachment, and what it is read as. *)
Definition attachment_text (a : MailAttachment) : units := stringify_object (attachment_members a).
Definition attachment_ok (a : MailAttachment) : Prop :=
  plain_text (attachment_text a) /\ wf_js (JObj (attachment_members a)).

Definition attachment_part (attachment : option MailAttachment) (pkg : units) (keys : list units) : Prop :=
  match attachment with Some a => mail_readable pkg keys (attachment_text a) | None => pkg = [] end.

(** Everything that is posted of a mail. *)
Record mail_parts (w : MWallet) (keys : list units) (subject body : units) (attachment : option MailAttachment) (S B A sig : units) : Prop := {
  mp_subject : mail_readable S (keys ++ [mw_encryptionPublicKey w]) subject;
  mp_body : mail_readable B (keys ++ [mw_encryptionPublicKey w]) body;
  mp_attachment : attachment_part attachment A (keys ++ [mw_encryptionPublicKey w]);
  mp_signed : sig <> [] /\ ml_dsa65_verify (hexToBytes sig) (utf8 (sign_payload S B A)) (hexToBytes (mw_signingPublicKey w)) = Ok true;
}.

Definition signer_ok (w : MWallet) : Prop :=
  sign_pair (hexToBytes (mw_signingPrivateKey w)) (hexToBytes (mw_signingPublicKey w)) /\ mw_signingPublicKey w <> [].

Lemma encrypt_mail_spec w keys subject body attachment s h : signer_ok w -> plain_text subject -> plain_text body ->
  (forall a, attachment = Some a -> attachment_ok a) -> Forall (Forall is_unit) (keys ++ [mw_encryptionPublicKey w]) ->
  kwp (encrypt_mail w keys subject body attachment) s h (fun o s' _ => s' = s /\ exists S B A sig, o = Ok (S, B, A, sig)
    /\ mail_parts w keys subject body attachment S B A sig).
Proof.
  intros [Hs Hpk] Hsu Hbo Hat Hu. unfold encrypt_mail. apply wp_bind. eapply wp_mono; [|by apply part_encrypted]. cbn beta. intros o s1 h1 (-> & S & -> & HS).
  apply wp_bind. eapply wp_mono; [|by apply part_encrypted]. cbn beta. intros o s2 h2 (-> & B & -> & HB).
  apply wp_bind. apply (wp_mono (I := MsgI) _ _ _ _ _ (fun o s' _ => s' = s /\ exists A, o = Ok A /\ attachment_part attachment A (keys ++ [mw_encryptionPublicKey w]))).
  2: { destruct attachment as [a|]; [|split; [done|by exists []]]. eapply wp_mono; [|apply part_encrypted; [by apply (Hat a)|done]]. by intros o s' h' ?. }
  intros o s3 h3 (-> & A & -> & HA). apply wp_bind, wp_of_res. destruct (Hs (utf8 (sign_payload S B A))) as (sig & -> & Hb & Hne & Hv).
  split; [done|]. exists S, B, A, (toHex sig). split; [done|]. split; [done..|]. split; [by destruct sig|]. by rewrite hexToBytes_toHex.
Qed.

(** ** Recipients *)

(** Answers hold JavaScript strings. *)
Definition mail_env : history MsgI -> forall c, res (ans MsgI c) -> Prop := fun h c r => kem_ok h c r /\
  match c return res (ans MsgI c) -> Prop with FetchGet _ => fun r => forall a v, r = Ok a -> rp_json a = Ok v -> wf_js v | _ => fun _ => True end r.
Notation mwp := (wp (I := MsgI) (fun _ _ => True) mail_env).

Definition unit_key (w : MWallet) : Prop := Forall is_unit (mw_encryptionPublicKey w).

Lemma resolve_units name s h : mwp (resolveName apiBase name) s h (fun o s' _ => s' = s /\ forall e w, o = Ok (Some (e, Some w)) -> unit_key w).
Proof.
  unfold resolveName. destruct (negb apiBase); [by split|]. apply wp_bind, wp_of_res. destruct (encodeURIComponent _); [|by split].
  apply wp_bind, (wp_call (I := MsgI)); [done|]. intros [r|e] [_ Hr]; [|by split]. apply wp_bind, wp_of_res. destruct (rp_json r) as [v|] eqn:Ev; [|by split].
  specialize (Hr r v eq_refl Ev). apply wp_bind, wp_of_res. destruct (members_of v) as [o|] eqn:Eo; [|by split]. pose proof (members_wf _ _ Hr Eo) as Ho.
  destruct (negb _); [by split|]. destruct (js_truthy (prop "wallet" o)); [|by split]. apply wp_bind, wp_of_res.
  destruct (members_of (prop "wallet" o)) as [wo|] eqn:Ew; [|by split]. split; [done|]. intros e w [= _ <-].
  apply (first_text_units ["encryption_public_key"; "encryptionPublicKey"] wo). eapply members_wf; [|exact Ew]. by apply prop_wf.
Qed.

Lemma wallet_of_name_units name s h : mwp (wallet_of_name apiBase name) s h (fun o s' _ => s' = s /\ forall w, o = Ok (Some w) -> unit_key w).
Proof.
  unfold wallet_of_name. apply wp_bind. eapply wp_mono; [|apply resolve_units]. cbn beta. intros [[[e w]|]|e] s' h' [-> H]; [|by split..].
  split; [done|]. intros w' [= ->]. by eapply H.
Qed.

Lemma or_else_spec w look s h : (forall x, w = Some x -> unit_key x) ->
  (forall h, mwp look s h (fun o s' _ => s' = s /\ forall x, o = Ok (Some x) -> unit_key x)) ->
  mwp (or_else w look) s h (fun o s' _ => s' = s /\ exists w', o = Ok w' /\ (forall x, w' = Some x -> unit_key x) /\ (has_key w = true -> w' = w)).
Proof.
  intros Hw Hl. unfold or_else. destruct (has_key w) eqn:Ek. { split; [done|]. exists w. done. }
  apply wp_bind, wp_attempt. eapply wp_mono; [|apply Hl]. cbn beta. intros o s' h' [-> H]. split; [done|]. eexists. split; [reflexivity|]. split; [|done].
  destruct o as [[x|]|]; [|done..]. destruct (has_key (Some x)); [|done]. intros y [= <-]. by apply H.
Qed.

Lemma recipient_spec ws id s h : Forall unit_key ws ->
  mwp (recipient_key apiBase ws id) s h (fun o s' _ => s' = s /\ forall k, o = Ok k -> Forall is_unit k
    /\ forall p, List.find (named id) ws = Some p -> mw_encryptionPublicKey p <> [] -> k = mw_encryptionPublicKey p).
Proof.
  intros Hws. unfold recipient_key. apply wp_bind. eapply wp_mono; [|apply or_else_spec].
  2: { intros x Hx. apply find_wallet in Hx as [Hx _]. rewrite Forall_elem in Hws. by apply Hws. }
  2: { intros h'. apply wallet_of_name_units. }
  cbn beta. intros o s1 h1 (-> & w1 & -> & U1 & K1). apply wp_bind. eapply wp_mono; [|apply or_else_spec; [exact U1|]].
  2: { intros h'. apply wp_bind. eapply wp_mono; [|apply reverse_pure]. cbn beta. intros o s' h2 [-> [n ->]]. destruct (no_text n); [by split|apply wallet_of_name_units]. }
  cbn beta. intros o s2 h2 (-> & w2 & -> & U2 & K2). destruct w2 as [w|]; [|by split]. destruct (no_text (mw_encryptionPublicKey w)); [by split|].
  split; [done|]. intros k [= <-]. split; [by apply U2|]. intros p Hp Hne.
  assert (has_key (Some p) = true) as Hk by (unfold has_key, no_text; by rewrite (bool_decide_eq_false_2 _ Hne)).
  rewrite Hp in K1. specialize (K1 Hk). subst w1. specialize (K2 Hk). by injection K2 as ->.
Qed.

Lemma recipients_spec ws ids : Forall unit_key ws -> forall s h,
  mwp (recipient_keys apiBase ws ids) s h (fun o s' _ => s' = s /\ forall ks, o = Ok ks -> Forall (Forall is_unit) ks
    /\ forall id p, id ∈ ids -> List.find (named id) ws = Some p -> mw_encryptionPublicKey p <> [] -> mw_encryptionPublicKey p ∈ ks).
Proof.
  intros Hws. induction ids as [|i ids IH]; intros s h; cbn [recipient_keys].
  { split; [done|]. intros ks [= <-]. split; [constructor|]. by intros id p ?%elem_of_nil. }
  apply wp_bind. eapply wp_mono; [|by apply recipient_spec]. cbn beta. intros [k|e] s1 h1 [-> H1]; [|by split].
  apply wp_bind. eapply wp_mono; [|apply IH]. cbn beta. intros [ks|e] s2 h2 [-> H2]; [|by split]. split; [done|]. intros ks' [= <-].
  destruct (H1 k eq_refl) as [Hk Hp], (H2 ks eq_refl) as [Hks Hps]. split; [by constructor|].
  intros id p [->|Hid]%elem_of_cons Ef Hne; [rewrite (Hp p Ef Hne); left|right; by eapply Hps].
Qed.

(** ** Sending *)

(** The posted mail, and who it is for: every wallet that the directory lists under an addressed id, and the sender. *)
Definition mail_posted (h : history MsgI) (w : MWallet) (ids : list units) (subject body : units) (attachment : option MailAttachment) : Prop :=
  exists b r d keys S B A sig, (@Ev MsgI (PostSigned MAIL_SEND b) (Ok r) : event MsgI) ∈ h /\ (@Ev MsgI (FetchGet DIRECTORY) d : event MsgI) ∈ h
    /\ prop "subjectEncrypted" (tx_payload b) = JStr S /\ prop "bodyEncrypted" (tx_payload b) = JStr B
    /\ (match attachment with Some _ => prop "attachmentEncrypted" (tx_payload b) = JStr A | None => A = [] end)
    /\ prop "contentSignature" (tx_payload b) = JStr sig
    /\ mail_parts w keys subject body attachment S B A sig
    /\ forall id p, id ∈ ids -> List.find (named id) (directory_of d) = Some p -> mw_encryptionPublicKey p <> [] -> mw_encryptionPublicKey p ∈ keys.

Lemma kem_env {A} (p : prog MsgI A) s h Q : kwp p s h Q -> mwp p s h Q.
Proof. apply wp_asm. by intros h' c r [? _]. Qed.

Lemma wallets_units s h : apiBase = true -> mwp (getWallets apiBase) s h (fun o s' h' => s' = s
  /\ exists r, h' = @Ev MsgI (FetchGet DIRECTORY) r :: h /\ forall l, o = Ok l -> directory_of r = l /\ Forall unit_key l).
Proof.
  intros ->. unfold getWallets. cbn [negb]. apply wp_bind, (wp_call (I := MsgI)); [done|]. intros [a|e] [_ Hr]; [|split; [done|by eexists]].
  assert (forall v, rp_json a = Ok v -> wf_js v) as Hv by (intros v Ev; by eapply Hr).
  assert (forall l, directory_of (Ok a) = l -> directory_of (Ok a) = l /\ Forall unit_key l) as Hd by (intros l Hl; split; [done|by eapply directory_units]).
  destruct (rp_ok a) eqn:Ea; cbn [negb].
  2: { split; [done|]. eexists. split; [reflexivity|]. intros l [= <-]. apply Hd. cbn. by rewrite Ea. }
  apply wp_bind, wp_of_res. destruct (as_list _) as [raw|e] eqn:Er; [|split; [done|by eexists]].
  apply wp_of_res. split; [done|]. eexists. split; [reflexivity|]. intros l Hl. apply Hd. unfold directory_of. rewrite Ea, Er. cbn [res_bind]. by rewrite Hl.
Qed.

Lemma post_mail_spec w ids subject body reply attachment s : apiBase = true -> signer_ok w -> plain_text subject -> plain_text body ->
  (forall a, attachment = Some a -> attachment_ok a) -> unit_key w ->
  mwp (post_mail apiBase w ids subject body reply attachment) s [] (fun o s' h => s' = s /\ forall r, o = Ok r -> mail_posted h w ids subject body attachment).
Proof.
  intros Ha Hs Hsu Hbo Hat Hw. unfold post_mail. apply wp_bind. eapply wp_mono; [|by apply wallets_units]. cbn beta.
  intros [ws|e] s1 h1 (-> & d & -> & Hd); [|by split]. destruct (Hd ws eq_refl) as [Hdir Hws]. subst ws.
  apply wp_bind. eapply wp_mono; [|apply wp_grown; by apply recipients_spec]. cbn beta. intros [ks|e] s2 h2 [[-> Hk] G2]; [|by split].
  destruct (Hk ks eq_refl) as [Hku Hkd]. apply wp_bind.
  eapply wp_mono; [|apply wp_grown, kem_env, encrypt_mail_spec; [done..|apply Forall_app; split; [done|by repeat constructor]]].
  cbn beta. intros o s3 h3 [(-> & S & B & A & sig & -> & Hp) G3]. cbn match. unfold signed_post. apply wp_bind.
  eapply wp_mono; [|apply wp_grown, signed_request_spec; [done..|cbn; repeat constructor; set_solver]].
  cbn beta. intros [b|e] s4 h4 [(-> & _ & Hb) G4]; [|by split]. destruct (Hb b eq_refl) as [_ Hb']. apply (wp_call (I := MsgI)); [done|]. intros r _. split; [done|].
  intros r' ->. exists b, r', d, ks, S, B, A, sig. split; [left|]. split.
  { right. eapply grown_elem; [exact G4|]. eapply grown_elem; [exact G3|]. eapply grown_elem; [exact G2|left]. }
  split_and!; try (by apply Hb'); [|exact Hp|exact Hkd]. destruct attachment as [a|]; [by apply Hb'|]. exact (mp_attachment _ _ _ _ _ _ _ _ _ Hp).
Qed.

Lemma sendMail_spec w ids subject body reply attachment s : apiBase = true -> signer_ok w -> plain_text subject -> plain_text body ->
  (forall a, attachment = Some a -> attachment_ok a) -> unit_key w ->
  mwp (sendMail apiBase w ids subject body reply attachment) s [] (fun o _ h => forall m, o = Ok m -> mail_posted h w ids subject body attachment).
Proof.
  intros Ha Hs Hsu Hbo Hat Hw. unfold sendMail, configured. rewrite Ha at 1. apply wp_bind, wp_ret, wp_bind.
  eapply wp_mono; [|by apply post_mail_spec]. cbn beta. intros [r|e] s' h [-> H]; [|done]. specialize (H r eq_refl). destruct (negb (rp_ok r)); [done|].
  apply wp_bind, wp_of_res. destruct (rp_json r); [|done]. apply wp_bind, wp_of_res. destruct (members_of _); [|done]. apply wp_bind, wp_of_res.
  destruct (members_of _); [|done]. by intros m _.
Qed.

(** ** Reading *)

(** The node serves the mails of a folder and a directory, and the reader's device answers. *)
Definition serves_mail (l : list js) (directory : list MWallet) : history MsgI -> forall c, res (ans MsgI c) -> Prop := fun _ c =>
  match c with
  | PostSigned path _ => fun r => path = MAIL_FOLDER -> exists a o, r = Ok a /\ rp_ok a = true /\ rp_json a = Ok (JObj o) /\ prop "messages" o = JArr l
  | FetchGet path => fun r => path = DIRECTORY -> exists a raw, r = Ok a /\ rp_ok a = true /\ as_list (opt_prop "wallets" (json_or_null a)) = Ok raw
      /\ map_res wallet_of raw = Ok directory
  | RandomOf _ => fun r => exists b, r = Ok b
  | NowMs => fun r => exists n, r = Ok n
  | SigningChain => fun r => exists c, r = Ok c
  | _ => fun _ => True
  end.
Lemma serves_mail_device l d : device_ok (serves_mail l d).
Proof. by intros h. Qed.

(** A mail that carries the posted parts reaches a reader who may read it: an addressed wallet or the sender;
    the directory lists the sender's signing key under the sender id. *)
Record mail_arrives (S B A sig : units) (w : MWallet) (keys : list units) (reader : MWallet) (directory : list MWallet) (m : MailMessage) (p : MWallet)
    (attached : bool) : Prop := {
  ma_parts : ml_subjectEncrypted m = S /\ ml_bodyEncrypted m = B /\ ml_attachmentEncrypted m = A /\ ml_hasAttachment m = attached;
  ma_signature : ml_signature m = sig;
  ma_sender : List.find (named (ml_fromWalletId m)) directory = Some p /\ mw_signingPublicKey p = mw_signingPublicKey w;
  ma_keys : mw_encryptionPublicKey reader <> []
            /\ kem_pair (hexToBytes (mw_encryptionPublicKey reader)) (hexToBytes (mw_encryptionPrivateKey reader));
  ma_reader : mw_encryptionPublicKey reader ∈ keys ++ [mw_encryptionPublicKey w];
}.

Section Open.
Variables (w reader p : MWallet) (ids keys : list units) (subject body S B A sig : units) (attachment : option MailAttachment) (directory : list MWallet).
Variables (m : MailMessage) (label : MailLabel) (raw : js).
Hypothesis Hparts : mail_parts w keys subject body attachment S B A sig.
Hypothesis Hkey : mw_signingPublicKey w <> [].
Hypothesis Hatt : forall a, attachment = Some a -> attachment_ok a.
Hypothesis Harr : mail_arrives S B A sig w keys reader directory m p (match attachment with Some _ => true | None => false end).
Hypothesis Hraw : mail_of raw = Ok (m, label).
Variable asm : history MsgI -> forall c, res (ans MsgI c) -> Prop.
Notation awp := (wp (I := MsgI) (fun _ _ => True) asm).

Lemma readable_opens pkg t : mail_readable pkg (keys ++ [mw_encryptionPublicKey w]) t ->
  decryptMailContent pkg (mw_encryptionPrivateKey reader) (mw_encryptionPublicKey reader) = Ok t.
Proof. intros H. apply H; apply Harr. Qed.

Lemma part_opens pkg t s h : mail_readable pkg (keys ++ [mw_encryptionPublicKey w]) t ->
  awp (open_part reader pkg) s h (fun o s' _ => o = Ok t /\ s' = s).
Proof.
  intros H. unfold open_part. apply wp_bind, wp_attempt. eapply wp_mono; [|by apply fallback_opens, readable_opens]. cbn beta. by intros o s' h' [-> ->].
Qed.

(** The attachment as it is read back. *)
Definition attachment_read : option js := (fun a => read_back (JObj (attachment_members a))) <$> attachment.

Lemma attachment_decrypts a : attachment = Some a -> A <> [] /\ decryptMailContent A (mw_encryptionPrivateKey reader) (mw_encryptionPublicKey reader) = Ok (attachment_text a).
Proof.
  intros E. pose proof (mp_attachment _ _ _ _ _ _ _ _ _ Hparts) as Hp. unfold attachment_part in Hp. rewrite E in Hp. split; [by apply Hp|by apply readable_opens].
Qed.

Lemma attachment_opens s h : awp (open_attachment reader m) s h (fun o s' _ => o = Ok attachment_read /\ s' = s).
Proof.
  pose proof attachment_decrypts as Hd. destruct (ma_parts _ _ _ _ _ _ _ _ _ _ _ Harr) as (_ & _ & EA & EH). unfold open_attachment, attachment_read. rewrite EA, EH.
  clear Hparts Harr EA EH. destruct attachment as [a|]; [|done]. destruct (Hd a eq_refl) as [Hne Ho], (Hatt a eq_refl) as [_ Hw].
  cbn [andb]. unfold no_text. rewrite (bool_decide_eq_false_2 _ Hne). cbn [negb].
  apply wp_bind, wp_attempt. eapply wp_mono; [|by apply fallback_opens]. cbn beta. intros o s' h' [-> ->]. split; [|done].
  unfold attachment_text. rewrite parse_object; [done..|]. unfold json_tree. cbn. by destruct (isFinite _).
Qed.

Lemma signature_holds : mail_signature m (sender_key reader directory (ml_fromWalletId m)) = Some true.
Proof.
  destruct Harr as [(ES & EB & EA & _) Esig [Ef Ep] _ _], (mp_signed _ _ _ _ _ _ _ _ _ Hparts) as [Hne Hv].
  assert (sender_key reader directory (ml_fromWalletId m) = mw_signingPublicKey w) as ->.
  { unfold sender_key, and_text. rewrite Ef, Ep. unfold no_text. by rewrite (bool_decide_eq_false_2 _ Hkey). }
  unfold mail_signature, no_text. rewrite ES, EB, EA, Esig, (bool_decide_eq_false_2 _ Hne), (bool_decide_eq_false_2 _ Hkey). cbn [orb]. by rewrite Hv.
Qed.

(** What the reader is shown. *)
Definition shown_right (i : MailItem) : Prop := exists name, it_label i = label /\ it_message i = opened_mail m subject body attachment_read (Some true) name.

Lemma mail_opens s h : awp (open_mail apiBase reader directory raw) s h (fun o s' _ => s' = s /\ exists i, o = Ok i /\ shown_right i).
Proof.
  unfold open_mail. apply wp_bind, wp_of_res. rewrite Hraw. pose proof (ma_parts _ _ _ _ _ _ _ _ _ _ _ Harr) as (-> & -> & _).
  apply wp_bind. eapply wp_mono; [|eapply part_opens, Hparts]. cbn beta. intros o s' h' [-> ->].
  apply wp_bind. eapply wp_mono; [|eapply part_opens, Hparts]. cbn beta. intros o s' h'' [-> ->].
  apply wp_bind. eapply wp_mono; [|apply attachment_opens]. cbn beta. intros o s' h3 [-> ->].
  apply wp_bind. eapply wp_mono; [|apply display_pure]. cbn beta. intros o s' h4 [-> [n ->]].
  split; [done|]. eexists. split; [reflexivity|]. exists n. split; [done|]. cbn [it_message]. by rewrite signature_holds.
Qed.

Lemma mails_have l : forall s h, raw ∈ l -> Forall (fun raw => exists x, mail_of raw = Ok x) l ->
  awp (open_mails apiBase reader directory l) s h (fun o s' _ => s' = s /\ exists items i, o = Ok items /\ i ∈ items /\ shown_right i).
Proof.
  induction l as [|x l IH]; intros s h Hin Hall; [by apply elem_of_nil in Hin|]. apply Forall_cons in Hall as [Hx Hall]. cbn [open_mails].
  apply wp_bind. apply elem_of_cons in Hin as [<-|Hin].
  - eapply wp_mono; [|apply mail_opens]. cbn beta. intros o s' h' (-> & i & -> & Hi). apply wp_bind. eapply wp_mono; [|apply open_mails_spec]. cbn beta.
    intros o s' h'' (-> & Ht & _). destruct (Ht Hall) as [its ->]. split; [done|]. exists (i :: its), i. split_and!; [done|left|done].
  - eapply wp_mono; [|apply open_mail_spec]. cbn beta. intros o s' h' (-> & Ht & _). destruct (Ht Hx) as [i' ->].
    apply wp_bind. eapply wp_mono; [|by apply IH]. cbn beta. intros o s' h'' (-> & its & i & -> & Hi & Hs). split; [done|].
    exists (i' :: its), i. split_and!; [done|by right|done].
Qed.
End Open.

Lemma folder_has w reader p keys subject body S B A sig attachment directory m label raw l folder s : apiBase = true ->
  mail_parts w keys subject body attachment S B A sig -> mw_signingPublicKey w <> [] -> (forall a, attachment = Some a -> attachment_ok a) ->
  mail_arrives S B A sig w keys reader directory m p (match attachment with Some _ => true | None => false end) -> mail_of raw = Ok (m, label) ->
  raw ∈ l -> Forall (fun raw => exists x, mail_of raw = Ok x) l -> (forall m, exists sg, ml_dsa65_sign m (hexToBytes (mw_signingPrivateKey reader)) = Ok sg) ->
  wp (I := MsgI) (fun _ _ => True) (serves_mail l directory) (getFolder apiBase reader folder) s [] (fun o _ _ => exists items i, o = Ok items /\ i ∈ items
    /\ shown_right subject body attachment m label i).
Proof.
  intros Ha Hp Hk Hat Harr Hraw Hin Hall Hsign. unfold getFolder. rewrite Ha at 1. cbn [negb]. apply wp_bind, wp_attempt. unfold load_folder, signed_post.
  do 2 apply wp_bind. apply request_ok; [apply serves_mail_device|done..|]. intros b h. apply (wp_call (I := MsgI)); [done|]. intros r Hr.
  destruct (Hr eq_refl) as (a & o & -> & -> & Ej & Em). cbn [negb]. apply wp_bind, wp_of_res. rewrite Ej. apply wp_bind, wp_of_res. cbn [members_of].
  apply wp_bind. unfold getWallets. rewrite Ha at 1. cbn [negb]. apply wp_bind, (wp_call (I := MsgI)); [done|]. intros r' Hr'.
  destruct (Hr' eq_refl) as (a' & rw & -> & -> & El & Ed). cbn [negb]. apply wp_bind, wp_of_res. rewrite El. apply wp_of_res. rewrite Ed.
  apply wp_bind, wp_of_res. rewrite Em. cbn. eapply wp_mono; [|by eapply mails_have]. cbn beta. intros o' s' h' (-> & items & i & -> & Hi & Hs). by exists items, i.
Qed.

End Delivery.

(** ** Mail on concrete inputs *)

Module MailDemo.
Import MessengerDemo.

Definition listed (w : MWallet) : js :=
  JObj [jfield "id" (JStr (mw_id w)); jfield "display_name" (JStr (mw_displayName w)); jfield "signing_public_key" (JStr (mw_signingPublicKey w));
        jfield "encryption_public_key" (JStr (mw_encryptionPublicKey w))].
Definition listing (w : MWallet) : MWallet :=
  {| mw_id := mw_id w; mw_displayName := mw_displayName w; mw_signingPublicKey := mw_signingPublicKey w; mw_encryptionPublicKey := mw_encryptionPublicKey w;
     mw_signingPrivateKey := []; mw_encryptionPrivateKey := []; mw_avatarUrl := None |}.

(** A node that lists wallets, stores what is sent and serves a list of mails. *)
Definition mail_node (ws : list MWallet) (l : list js) : env MsgI := fun h c =>
  match c return res (ms_ans c) with
  | FetchGet path => Ok (reply_of (JObj [jfield "wallets" (JArr (map listed ws))]))
  | c => node l h c
  end.
Definition trio : list MWallet := [ann; bob; eve].

Lemma listed_wf w : Forall is_unit (mw_id w) -> Forall is_unit (mw_displayName w) -> Forall is_unit (mw_signingPublicKey w) ->
  Forall is_unit (mw_encryptionPublicKey w) -> wf_js (listed w).
Proof. intros. apply wf_fields; [distinct_keys|]. by fields_wf. Qed.

Lemma trio_wf : wf_js (JObj [jfield "wallets" (JArr (map listed trio))]).
Proof.
  apply wf_fields; [distinct_keys|]. fields_wf. apply wf_js_arr. cbn [map trio].
  repeat (apply List.Forall_cons; [apply listed_wf; apply u_units|]). apply List.Forall_nil.
Qed.

Lemma mail_node_env l : respects mail_env (mail_node trio l).
Proof.
  intros h c. split; [|destruct c; try done].
  - pose proof (node_kem l h c) as Hk. by destruct c.
  - intros a v [= <-]. cbn [reply_of rp_json]. intros [= <-]. exact trio_wf.
Qed.

Lemma mail_node_serves l : respects (serves_mail l (map listing trio)) (mail_node trio l).
Proof.
  intros h []; try done; cbn [serves_mail mail_node node]; try (by eexists).
  - intros _. by eexists _, _.
  - intros _. eexists _, _. split_and!; reflexivity.
Qed.

Definition note : MailAttachment := {| at_name := u "n.txt"; at_type := u "text/plain"; at_data := u "aGk="; at_size := num_of_Z 2 |}.

Definition raw_mail (S B A sig : units) : js :=
  JObj [jfield "message" (JObj [jfield "id" (JStr (u "m1")); jfield "from_wallet_id" (JStr (u "ann")); jfield "subject_encrypted" (JStr S);
          jfield "body_encrypted" (JStr B); jfield "attachment_encrypted" (JStr A); jfield "signature" (JStr sig); jfield "has_attachment" (JBool true)])].
Definition the_mail (S B A sig : units) : MailMessage :=
  {| ml_id := u "m1"; ml_fromWalletId := u "ann"; ml_toWalletIds := []; ml_subjectEncrypted := S; ml_bodyEncrypted := B; ml_attachmentEncrypted := A;
     ml_signature := sig; ml_createdAt := []; ml_replyToId := []; ml_hasAttachment := true; ml_attachmentHash := []; ml_subject := None; ml_body := None;
     ml_attachmentData := None; ml_signatureValid := None; ml_senderName := None |}.
Definition no_label : MailLabel := {| la_messageId := []; la_walletId := []; la_folder := u "inbox"; la_isRead := JBool false |}.
Lemma raw_mail_normal S B A sig : mail_of (raw_mail S B A sig) = Ok (the_mail S B A sig, no_label).
Proof. destruct S, B, A, sig; reflexivity. Qed.

Lemma note_ok : attachment_ok note.
Proof.
  split.
  - split; [|vm_compute; reflexivity]. unfold is_unit. refine (bool_decide_eq_true_1 _ _). vm_compute. reflexivity.
  - apply wf_fields; [distinct_keys|]. unfold attachment_members. fields_wf; try apply u_units. by vm_compute.
Qed.

(** What an execution records is what the environment answered. *)
Lemma run_answers {I A} (e : env I) (p : prog I A) s h x : x ∈ (run e p s h).2 -> x ∈ h \/ exists h' c, x = Ev c (e h' c).
Proof.
  revert s h. induction p as [| |k IH|s' k IH|c k IH]; simpl; intros s h Hin; [by left..|by eapply IH|by eapply IH|].
  destruct (IH _ _ _ Hin) as [[->|?]%elem_of_cons|?]; [right; by exists h, c|by left|by right].
Qed.
Definition fetched (x : event MsgI) : option (res reply) :=
  match x with Ev c r => match c return res (ans MsgI c) -> option (res reply) with FetchGet _ => Some | _ => fun _ => None end r end.
Lemma directory_answer {A} ws l (p : prog MsgI A) s d : (@Ev MsgI (FetchGet DIRECTORY) d : event MsgI) ∈ trace (mail_node ws l) p s ->
  d = Ok (reply_of (JObj [jfield "wallets" (JArr (map listed ws))])).
Proof. intros [?%elem_of_nil|(h & c & E%(f_equal fetched))]%run_answers; [done|]. destruct c; try discriminate. by injection E. Qed.

(** Ann mails Bob and Eve; Bob reads. *)
Definition sending : prog MsgI MailMessage := sendMail (U := DemoUnicode) true ann [u "bob"; u "eve"] (u "hi") hello None (Some note).

Lemma ann_signs : signer_ok ann.
Proof. split; [|done]. intros m. exists [7]. split_and!; [done|repeat constructor; done|done|done]. Qed.


(** What Bob is shown of a mail whose parts he cannot open but whose signature verifies. *)
Definition sealed : units := stringify_object (v2_members [3] [9] []).
Definition shown_mail : MailItem :=
  {| it_message := opened_mail (the_mail sealed sealed sealed (u "07")) UNABLE UNABLE None (Some true) (u "ann"); it_label := no_label |}.


(** ** What the code does besides *)

Section Besides.
Context `{C : Crypto} `{P : Platform} `{M : MessageCrypto}.

(** A mail from an id that the directory does not know is checked against the key of the reader: one the reader signed
    passes as a validly signed mail of whatever unknown sender the node names. *)
Lemma unknown_sender_own_key w ws m : List.find (named (ml_fromWalletId m)) ws = None ->
  mail_signature m (sender_key w ws (ml_fromWalletId m)) = mail_signature m (mw_signingPublicKey w).
Proof. intros E. unfold sender_key, and_text. by rewrite E. Qed.

(** The flag of the attachment is outside the signature: with it cleared a mail stays validly signed and shows no attachment. *)
Definition flag_cleared (m : MailMessage) : MailMessage :=
  {| ml_id := ml_id m; ml_fromWalletId := ml_fromWalletId m; ml_toWalletIds := ml_toWalletIds m; ml_subjectEncrypted := ml_subjectEncrypted m;
     ml_bodyEncrypted := ml_bodyEncrypted m; ml_attachmentEncrypted := ml_attachmentEncrypted m; ml_signature := ml_signature m;
     ml_createdAt := ml_createdAt m; ml_replyToId := ml_replyToId m; ml_hasAttachment := false; ml_attachmentHash := ml_attachmentHash m;
     ml_subject := ml_subject m; ml_body := ml_body m; ml_attachmentData := ml_attachmentData m; ml_signatureValid := ml_signatureValid m;
     ml_senderName := ml_senderName m |}.
Lemma cleared_flag_still_signed w m k :
  mail_signature (flag_cleared m) k = mail_signature m k /\ open_attachment w (flag_cleared m) = Ret None.
Proof. done. Qed.
End Besides.
End MailDemo.
